(* ===== verification/_CoqProject ===== *)
-Q . S2P
Prelude.v
StdString.v
Status.v
Crc32.v
RecordCodec.v
FrameCodec.v
FrameAssembler.v
Client.v
SocketSetup.v
BodyCodec.v
ProtocolMessages.v
MessageRanges.v
Console.v
ClientCommands.v
Latency.v
BenchRun.v
BenchMain.v
GroupConsumer.v
ConsumerSafety.v
FileHandle.v
CrashDisk.v
OffsetIndex.v
LogSegment.v
Partition.v
PartitionRead.v
PartitionRecovery.v
PartitionProps.v
PartitionCrash.v
PartitionFrame.v
Partitioner.v
Assignor.v
Topic.v
TopicManager.v
OffsetStore.v
BrokerCrash.v
RetentionManager.v
StorageMain.v
GroupCoordinator.v
GroupFencing.v
ConcurrentCommit.v
MessageHandler.v
RequestFlow.v
ConcurrentFetch.v
WakeupChannel.v
TcpServer.v
ClientBroker.v
BenchBroker.v
CliMain.v
ConnectionRun.v
ServerMain.v
ServerOrder.v
ServerProgress.v
ServerShutdown.v
ServerLifecycle.v
WorkerPool.v
