(* ===== verification/Prelude.v ===== *)
(** * StreamForge: a verification development

    StreamForge is a message broker: clients send frames over TCP to create topics,
    produce batches of records to partitions, fetch them by offset, join consumer
    groups and commit offsets.  Every partition is a log of records in segment files,
    which retention shortens and which a restart recovers.  Around the broker there are
    a console client, a tool that works on the files, and a benchmark.  This library
    translates them (src/src and src/include/streamforge) into executable definitions
    and proves the properties that make them correct.  Definitions keep the names of the source
    ([Partition::append_batch] is [Partition_append_batch]); a loop or block of a long
    function that has its own lemmas is a definition of its own.

    ** The parts and how they interact

    A request travels: bytes of a socket - [FrameAssembler] - [TcpServer] (task queue,
    worker, completion queue) - [MessageHandler] - [TopicManager] / [GroupCoordinator]
    - [Topic] - [Partition] - [LogSegment] and [OffsetIndex] - [FileHandle].  The
    coordinator keeps committed offsets in the [OffsetStore], itself a topic.  The
    files follow that structure, from the bottom up:

    - Prelude, StdString: bytes, machine integers (as [Z] with the wrap-around
      written out: [u32], [i64], ...), byte order, list and tactic library; the parts
      of the C++ string library the source uses;
    - Status (Status.hpp, StorageConfig.hpp), Crc32 (Crc32.cpp), RecordCodec
      (RecordCodec.cpp): results, checksums, the stored record format;
    - FrameCodec (FrameCodec.cpp), FrameAssembler (FrameAssembler.cpp), BodyCodec
      (BodyReaderWriter.hpp), ProtocolMessages and MessageRanges (ProtocolMessages.hpp):
      the wire format, and that the decoders accept nothing but encodings;
    - Client (Socket.cpp, the frame functions of cli_main.cpp), Console, ClientCommands,
      GroupConsumer, ConsumerSafety (cli_main.cpp): the console client, its commands
      and the group consumer, over any broker, network and clock; SocketSetup (Socket.cpp,
      the constructor in WakeupChannel.cpp): who owns a socket handle;
    - FileHandle (FileHandle.hpp): files over an abstract disk, the monad [io] (a
      failing operation returns an error status; undefined behaviour and uncaught
      exceptions are [None]) and its weakest precondition [wp], which demands that the
      operation returns; CrashDisk: the files of a process that dies after a number of
      calls;
    - OffsetIndex (OffsetIndex.cpp), LogSegment (LogSegment.cpp): a segment of a log,
      with the sparse index, the sealed marker, crash recovery and the full scan;
    - Partition, PartitionRead, PartitionRecovery, PartitionProps, PartitionCrash,
      PartitionFrame (Partition.cpp): definitions and append; read; restart; retention
      and the theorems; a crash at any point of an append or of a restart; and the
      footprint (an operation touches only files of its directory);
    - Partitioner (Partitioner.cpp), Assignor (Assignor.cpp): the two partitioners and
      the two assignors, each behind an interface;
    - Topic (Topic.cpp), TopicManager (TopicManager.cpp), RetentionManager
      (RetentionManager.cpp): topics, their metadata files, the set of all topics, the
      retention pass and its thread;
    - OffsetStore (OffsetStore.cpp), GroupCoordinator and GroupFencing
      (GroupCoordinator.cpp): committed offsets; groups, and who may commit;
      ConcurrentCommit: a commit whose steps are interleaved with those of other threads;
    - BrokerCrash: a crash of the broker in a PRODUCE, in a commit or while it creates a
      topic, and the start that follows;
    - StorageMain (storage_main.cpp): the tool that works on the files of a broker;
    - MessageHandler, RequestFlow (MessageHandler.cpp): the handlers of all requests;
      the theorems about requests from the frame to the log; ConcurrentFetch: a FETCH
      whose looks at the partition are interleaved with appends and retention;
    - WakeupChannel (WakeupChannel.cpp): the flag and the loopback connection that wake
      the I/O thread;
    - TcpServer, ServerOrder, ServerProgress, ServerShutdown (TcpServer.cpp): the I/O
      thread and the workers as a step relation, and a round of the event loop; the
      order of responses; that every request is answered; the shutdown and the expiry
      thread; ServerLifecycle (TcpServer.cpp, RetentionManager.cpp, server_main.cpp): the
      threads of the process from the construction of the server to its destruction, with
      the console handler; WorkerPool (ThreadPool.cpp, TaskQueue.hpp): the workers with their mutex
      and condition variable;
    - ClientBroker, CliMain (cli_main.cpp): the client against the broker, from its
      command line on; ConnectionRun (Connection.cpp): the blocking connection;
      ServerMain (server_main.cpp): the command line and the start of the broker;
    - Latency, BenchRun, BenchMain, BenchBroker (bench_main.cpp): the statistics of the
      benchmark on doubles; the threads of its scenarios; the command line and main; and
      the benchmark against the broker.

    ** Interfaces

    Code that is not in the repository is a parameter: [Winsock] (htonl and the like),
    [SocketApi] (the blocking socket, which Client models over scripts of the results
    of send and recv), [NetApi] (the calls that create, connect and close sockets,
    with their law about handles [NetLaws]), [Win32] (CreateFile, WriteFile, ... on an
    abstract state of the disk), [Fstream] (file streams and directory iteration) and
    [Machine] (what the console client asks of its surroundings: connections, clocks,
    sleeping, the interrupt flag), [BenchApi] (the same for a thread of the benchmark).
    The classes [Reliable] and [ReliableStreams] state
    the documented behaviour of a file system that does not fail, whose names are case
    sensitive (those of NTFS are not: two topics whose names differ in case only are
    outside these theorems) and whose directory iteration does not throw; theorems that
    need it have it as a premise, and in-memory instances ([memory_disk], [memory_fstream])
    show that it can hold and run the examples.  [FailStop] is weaker: calls succeed until
    the process dies, and none does afterwards; a working disk is one ([Reliable]), and so
    is the disk of a dying process ([dying_failstop]), so that the lemmas about append and
    recovery are proved once for both.
    Theorems about refused requests, the fencing of commits and the offsets the group
    consumer commits hold for every instance, failing ones included.  Inside the
    program, [Partitioner], [Assignor] and [RequestHandler] are classes with the law the
    client relies on; the clients are proved against them and the implementations are
    instances.

    ** What the theorems show

    - Storage.  [partition_append_correct], [partition_batch_correct] and
      [partition_read_correct] show that a partition implements a log, a first offset
      and a list of records ([part_is]); [partition_crash_recovery] and
      [segment_recovery_exact] that a restart rebuilds that log from the files when
      the last write was cut short or damaged; [full_scan_is_recovery] and
      [index_lookup_correct] relate the two scans and the binary search to simpler
      references; [retention_exact], [retention_age_safe],
      [retention_pass_correct] and [retention_thread_stops] are about retention;
      [create_topic_correct] and [broker_restart_correct] about the topic manager;
      [fill_distributes] and [dump_lists_segment] about the storage tool.
    - Crashes.  [batch_crash_safe], [append_crash_safe], [produce_crash_safe] and
      [commit_crash_safe]: the process dies in any call of the operation, possibly in the
      middle of a write; the restart, which may die too, finds what was there before, and
      of a batch or a commit a prefix.  [torn_marker_ends_retention] and
      [unfinished_topic_is_final] are the two places where a crash leaves something that no
      later start repairs.
    - Formats.  [record_roundtrip], [record_corruption_detected] (a burst of up to four
      bytes is found by the CRC), [frames_reassembled], [requests_roundtrip],
      [responses_roundtrip], [decoders_accept_only_encodings]; [responses_read_in_order]
      and [exchange_correct] for the client.
    - Groups.  [partition_has_one_owner] (for subscriptions that name no topic twice) and
      [debug_check_never_fails] hold in every state reachable by joins, heartbeats, leaves
      and expiries; [commit_fenced],
      [stale_generation_refused] and [group_commit_correct] say which commits are
      taken and what they do, [commit_interleaved] that this holds among other threads
      with one exception; [committed_offsets_durable] that what a run of commits
      stored survives a restart;
      [range_assignment_blocks] and [round_robin_assignment_balanced] are about the
      strategies, [expire_exact] about session timeouts.
    - Requests.  [produced_is_fetched], [produce_request_correct],
      [fetch_request_correct], [fetch_interleaved] (with other threads at work on the
      partition), [response_matches_request], [malformed_body_refused],
      [internal_topics_shielded].
    - The server.  [responses_in_order], [connections_bounded] and [requests_answered]
      hold for every interleaving of the I/O thread and the workers, the first and the last
      for connections that were not sent an error frame for malformed input (or up to it);
      a worker whose request the handler does not answer is the one other end of
      [requests_answered] and [pool_works_off];
      [shutdown_bounded] and [threads_joined] show that once a stop is requested only a
      bounded number of steps of the main thread, the reaper and the stopped retention
      thread remain, and that every thread has ended when main returns;
      [event_round_refines] shows that a round of the event loop consists of the steps
      of that relation, [pool_refines] that the threads of the pool do, and
      [pool_works_off] that no wake-up of a worker is lost; [shutdown_loses_nothing]
      and [reaper_stops] are about the end; [connection_run_correct] compares the
      blocking connection with a reference that handles the frames of a stream one after
      the other; [socket_setup_leaks_nothing] is about the handles on the error paths of
      the set-up.
    - The client and the whole.  [committed_records_printed]: the group consumer commits
      only what it has printed, whatever the broker answers and the network does;
      [consume_prints_log], [produce_many_appends] and [self_tests_pass] run the client
      against the broker; [restart_serves_log] starts the broker on the files of an
      earlier one and consumes from it; [server_options_roundtrip] is about its command
      line; [latency_stats_correct]: the percentiles of the benchmark, whose indices are
      computed in floating point, are in the range of the vector;
      [bench_counts_stored]: the records the benchmark counts are in the log.
    - Limits of the code.  [record_decode_out_of_bounds], [input_undefined_iff],
      [anonymous_commit_poisons_store], [fetch_response_too_long],
      [retention_time_overflow], [wakeup_lost_forever], [failed_rejoin_starts_over],
      [next_offset_past_watermark], [fetch_meets_retention], [commit_from_outside_overtakes],
      [duplicate_topics_shared_owner], [task_queue_exceeds_connections],
      [early_stop_lost], [poll_error_never_stops], [handler_uses_destroyed_server],
      [zero_partitions] and [mixed_consumers_overlap] state precisely where the code does
      something else than its comments and documents say.

    ** Bounds and fuel

    Integers are kept at their width; the theorems' premises on sizes ([LOG_LIMIT] for
    the 32-bit size of a segment, [READ_LIMIT] for the limits of a read, [2 ^ 64] for
    offsets) are those below which the source's arithmetic does not wrap.  Loops that
    are not structural have fuel: the bytes left in a buffer plus one for the assembler,
    the size of the log file plus one for scans and reads (every round takes at least 28
    bytes), the high watermark plus one for the replay of offsets.  Running out of fuel
    is [None], and the [wp] theorems prove that it does not happen.  The loops of the
    client take as much fuel as the theorem about the command says: the records to be
    read or produced plus one; the group consumer runs until it is interrupted, and its
    theorem holds for every number of rounds.  The threads of the pool have no fuel:
    their number of steps is bounded by a weight, and so is that of the threads of the
    process (the 536 steps of [shutdown_bounded] are that weight at its largest).  The
    threads of the benchmark take as much fuel as they make rounds before the flag stops
    them; the statistics are about at most [2 ^ 53] latencies, the integers a double
    holds exactly.

    ** Not modelled

    The log (Logger.cpp: output only, and the level that filters it), messages to the error
    stream and the start of Winsock.  What the operating system answers to the benchmark
    about the hardware is a parameter.  Locks are not
    modelled except those of the worker pool: an operation of a partition, of the
    offset store or of a group is one transition, and SharedMutex only wraps a lock of the
    operating system.  Most operations hold their lock for the whole body.  Of a partition,
    [earliest_offset] and [next_offset] take no lock at all, and
    [scan_and_delete_segments] releases it before it removes the files of the segments it
    has taken out of the vector.  A request is taken as one
    transition ([worker_handle] of [serve] lets the requests of different workers finish
    in any order); ConcurrentFetch and ConcurrentCommit are about a FETCH and a commit
    that are not: a FETCH reads the end of the log in the middle of a batch and the first
    segment without the lock (what a read during a change of the vector does is
    [fetch_meets_retention]).  The watermarks of DESCRIBE_TOPIC, and the end of the log a
    commit is compared with, are taken from one state.  [TcpServer_event_round] runs a
    round of the event loop while the workers rest; the relation [step], of which it is a
    run, interleaves them.
    [CrashPoint] ends the process at four labels of a test build; the crash theorems
    consider its end at every call that changes a file, these included.  A crash is the end
    of the process, not of the machine: bytes given to the operating system stay.  The
    restart that is itself cut short is the ordinary one, not the full scan that
    --startup-scan asks for. *)
From Stdlib Require Export ZArith Lia.
From Stdlib Require Import Strings.Byte.
From stdpp Require Export prelude gmap strings list sorting numbers.

#[global] Open Scope Z_scope.
#[global] Set Default Goal Selector "!".

(** ** Bytes *)

Abbreviation byte := Byte.byte.
Abbreviation bytes := (list Byte.byte).

#[global] Instance byte_eq_decision : EqDecision byte := Byte.byte_eq_dec.

#[global] Program Instance byte_countable : Countable byte :=
  inj_countable Byte.to_N Byte.of_N _.
Next Obligation. intros x. apply Byte.of_to_N. Qed.

#[global] Instance byte_inhabited : Inhabited byte := populate Byte.x00.

Definition byte_to_Z (b : byte) : Z := Z.of_N (Byte.to_N b).

(** Conversion of an integer to [uint8_t]: reduction modulo 2^8. *)
Definition byte_of_Z (z : Z) : byte :=
  default Byte.x00 (Byte.of_N (Z.to_N (z mod 256))).

(** A string literal of the source, as the bytes it denotes. *)
Definition str (s : string) : bytes := String.list_byte_of_string s.

(** ** Machine integers

    A w-bit unsigned value is a [Z] in [0, 2^w); the functions below are the
    conversions the C++ code performs when it stores a result in a type. *)

Definition u8 (z : Z) : Z := z mod 2 ^ 8.
Definition u16 (z : Z) : Z := z mod 2 ^ 16.
Definition u32 (z : Z) : Z := z mod 2 ^ 32.
Definition u64 (z : Z) : Z := z mod 2 ^ 64.

Definition i32 (z : Z) : Z := if u32 z <? 2 ^ 31 then u32 z else u32 z - 2 ^ 32.
Definition i64 (z : Z) : Z := if u64 z <? 2 ^ 63 then u64 z else u64 z - 2 ^ 64.

Definition is_u8 (z : Z) : Prop := 0 <= z < 2 ^ 8.
Definition is_u16 (z : Z) : Prop := 0 <= z < 2 ^ 16.
Definition is_u32 (z : Z) : Prop := 0 <= z < 2 ^ 32.
Definition is_u64 (z : Z) : Prop := 0 <= z < 2 ^ 64.
Definition is_i32 (z : Z) : Prop := - 2 ^ 31 <= z < 2 ^ 31.
Definition is_i64 (z : Z) : Prop := - 2 ^ 63 <= z < 2 ^ 63.

(** ** Sizes and slices of byte vectors *)

Definition zlen {A} (l : list A) : Z := Z.of_nat (length l).

Definition ztake {A} (n : Z) (l : list A) : list A := take (Z.to_nat n) l.
Definition zdrop {A} (n : Z) (l : list A) : list A := drop (Z.to_nat n) l.

(** [subrange off len l]: the elements a C++ iterator pair
    [(p + off, p + off + len)] delimits, [None] when the pair leaves the
    vector, which in C++ is undefined behaviour. *)
Definition subrange {A} (off len : Z) (l : list A) : option (list A) :=
  if (0 <=? off) && (0 <=? len) && (off + len <=? zlen l)
  then Some (ztake len (zdrop off l)) else None.

(** ** Loading and storing integers

    The broker runs on x86-64: [memcpy] between an integer and a byte buffer is
    the little-endian representation. *)

Fixpoint le_load (l : bytes) : Z :=
  match l with
  | [] => 0
  | b :: l => byte_to_Z b + 256 * le_load l
  end.

Fixpoint le_store (n : nat) (v : Z) : bytes :=
  match n with
  | O => []
  | S n => byte_of_Z v :: le_store n (v / 256)
  end.

(** Network order, the reference the byte-swapping code is compared with. *)
Definition be_load (l : bytes) : Z := le_load (rev l).
Definition be_store (n : nat) (v : Z) : bytes := rev (le_store n v).

(** ** Automation *)

Create HintDb sf discriminated.
Create Rewrite HintDb sflen.

Ltac zbool :=
  repeat match goal with
  | H : (_ && _)%bool = true |- _ => apply andb_true_iff in H; destruct H
  | H : (_ || _)%bool = false |- _ => apply orb_false_iff in H; destruct H
  | H : negb _ = true |- _ => apply negb_true_iff in H
  | H : negb _ = false |- _ => apply negb_false_iff in H
  | H : (_ <=? _) = true |- _ => apply Z.leb_le in H
  | H : (_ <=? _) = false |- _ => apply Z.leb_gt in H
  | H : (_ <? _) = true |- _ => apply Z.ltb_lt in H
  | H : (_ <? _) = false |- _ => apply Z.ltb_ge in H
  | H : (_ =? _) = true |- _ => apply Z.eqb_eq in H
  | H : (_ =? _) = false |- _ => apply Z.eqb_neq in H
  | H : (_ >=? _) = _ |- _ => rewrite Z.geb_leb in H
  | H : (_ >? _) = _ |- _ => rewrite Z.gtb_ltb in H
  end.

(** Case analysis on an integer comparison of the goal, leaving arithmetic. *)
Ltac zcase :=
  match goal with
  | |- context [?a <=? ?b] => destruct (Z.leb_spec a b)
  | |- context [?a <? ?b] => destruct (Z.ltb_spec a b)
  | |- context [?a =? ?b] => destruct (Z.eqb_spec a b)
  end.

(** Decide a comparison of the goal by arithmetic. *)
Ltac zdecide :=
  repeat match goal with
  | |- context [?a <=? ?b] =>
      first [rewrite (proj2 (Z.leb_le a b)) by lia
            |rewrite (proj2 (Z.leb_gt a b)) by lia]
  | |- context [?a <? ?b] =>
      first [rewrite (proj2 (Z.ltb_lt a b)) by lia
            |rewrite (proj2 (Z.ltb_ge a b)) by lia]
  | |- context [?a =? ?b] =>
      first [rewrite (proj2 (Z.eqb_eq a b)) by lia
            |rewrite (proj2 (Z.eqb_neq a b)) by lia]
  end; cbn [andb orb negb].

(** ** Bytes as integers *)

Lemma byte_to_Z_range b : 0 <= byte_to_Z b < 256.
Proof. unfold byte_to_Z. pose proof (Byte.to_N_bounded b). lia. Qed.

Lemma byte_to_of_Z z : byte_to_Z (byte_of_Z z) = z mod 256.
Proof.
  unfold byte_to_Z, byte_of_Z.
  pose proof (Z.mod_pos_bound z 256 ltac:(lia)) as Hb.
  destruct (Byte.of_N (Z.to_N (z mod 256))) as [b|] eqn:E; cbn.
  - apply Byte.to_of_N in E. rewrite E. lia.
  - apply Byte.of_N_None_iff in E. lia.
Qed.

Lemma byte_of_to_Z b : byte_of_Z (byte_to_Z b) = b.
Proof.
  unfold byte_of_Z. pose proof (byte_to_Z_range b).
  rewrite Z.mod_small by lia. unfold byte_to_Z.
  by rewrite N2Z.id, Byte.of_to_N.
Qed.

Lemma byte_to_Z_inj b1 b2 : byte_to_Z b1 = byte_to_Z b2 -> b1 = b2.
Proof. intros H. by rewrite <- (byte_of_to_Z b1), H, byte_of_to_Z. Qed.

Lemma byte_of_Z_mod z k : 0 <= k -> byte_of_Z (z mod (256 * k)) = byte_of_Z z.
Proof.
  intros Hk. apply byte_to_Z_inj. rewrite !byte_to_of_Z.
  destruct (decide (k = 0)) as [->|]; [by rewrite Z.mul_0_r, Z.mod_0_r|].
  rewrite Z.rem_mul_r by lia.
  rewrite Z.add_mod, (Z.mul_comm 256), Z.mod_mul, Z.add_0_r, !Z.mod_mod by lia. done.
Qed.

(** ** Machine integers *)

Lemma u8_range z : is_u8 (u8 z).
Proof. apply Z.mod_pos_bound. lia. Qed.
Lemma u16_range z : is_u16 (u16 z).
Proof. apply Z.mod_pos_bound. lia. Qed.
Lemma u32_range z : is_u32 (u32 z).
Proof. apply Z.mod_pos_bound. lia. Qed.
Lemma u64_range z : is_u64 (u64 z).
Proof. apply Z.mod_pos_bound. lia. Qed.

Lemma u8_id z : is_u8 z -> u8 z = z.
Proof. apply Z.mod_small. Qed.
Lemma u16_id z : is_u16 z -> u16 z = z.
Proof. apply Z.mod_small. Qed.
Lemma u32_id z : is_u32 z -> u32 z = z.
Proof. apply Z.mod_small. Qed.
Lemma u64_id z : is_u64 z -> u64 z = z.
Proof. apply Z.mod_small. Qed.

Lemma i32_u32 z : is_i32 z -> i32 (u32 z) = z.
Proof.
  unfold i32, is_i32, u32. intros Hz. rewrite Z.mod_mod by lia.
  destruct (decide (0 <= z)).
  - rewrite Z.mod_small by lia. zdecide. done.
  - rewrite <- (Z.mod_unique z (2^32) (-1) (z + 2^32)) by lia. zdecide. lia.
Qed.

Lemma i64_u64 z : is_i64 z -> i64 (u64 z) = z.
Proof.
  unfold i64, is_i64, u64. intros Hz. rewrite Z.mod_mod by lia.
  destruct (decide (0 <= z)).
  - rewrite Z.mod_small by lia. zdecide. done.
  - rewrite <- (Z.mod_unique z (2^64) (-1) (z + 2^64)) by lia. zdecide. lia.
Qed.

Lemma i64_range z : is_i64 (i64 z).
Proof. unfold i64, is_i64. pose proof (u64_range z) as H. unfold is_u64 in H. zcase; lia. Qed.

Lemma i64_small z : 0 <= z < 2 ^ 63 -> i64 z = z.
Proof.
  intros Hz. unfold i64. rewrite u64_id by (unfold is_u64; lia).
  by rewrite (proj2 (Z.ltb_lt _ _)) by lia.
Qed.

Lemma i32_small z : 0 <= z < 2 ^ 31 -> i32 z = z.
Proof.
  intros Hz. unfold i32. rewrite u32_id by (unfold is_u32; lia).
  by rewrite (proj2 (Z.ltb_lt _ _)) by lia.
Qed.

Lemma i32_range z : is_i32 (i32 z).
Proof. unfold i32, is_i32. pose proof (u32_range z) as H. unfold is_u32 in H. zcase; lia. Qed.

Lemma u64_i64 z : is_u64 z -> u64 (i64 z) = z.
Proof.
  unfold i64, is_u64. intros Hz. rewrite (u64_id z) by done. unfold u64.
  zcase; [apply Z.mod_small; lia|]. symmetry. apply (Z.mod_unique _ _ (-1)); lia.
Qed.

Lemma u32_i32 z : is_u32 z -> u32 (i32 z) = z.
Proof.
  unfold i32, is_u32. intros Hz. rewrite (u32_id z) by done. unfold u32.
  zcase; [apply Z.mod_small; lia|]. symmetry. apply (Z.mod_unique _ _ (-1)); lia.
Qed.

#[export] Hint Resolve i32_range i64_range : sf.
#[export] Hint Resolve u8_range u16_range u32_range u64_range : sf.

(** ** Sizes and slices *)

Lemma zlen_nonneg {A} (l : list A) : 0 <= zlen l.
Proof. unfold zlen. lia. Qed.
Lemma zlen_nil {A} : zlen (@nil A) = 0.
Proof. done. Qed.
Lemma zlen_cons {A} (x : A) l : zlen (x :: l) = 1 + zlen l.
Proof. unfold zlen. cbn [length]. lia. Qed.
Lemma zlen_app {A} (l1 l2 : list A) : zlen (l1 ++ l2) = zlen l1 + zlen l2.
Proof. unfold zlen. rewrite length_app. lia. Qed.
Lemma zlen_zero {A} (l : list A) : zlen l = 0 -> l = [].
Proof. unfold zlen. destruct l; [done|cbn; lia]. Qed.
Lemma zlen_fmap {A B} (f : A -> B) l : zlen (f <$> l) = zlen l.
Proof. unfold zlen. by rewrite length_fmap. Qed.
Lemma zlen_rev {A} (l : list A) : zlen (rev l) = zlen l.
Proof. unfold zlen. by rewrite length_rev. Qed.
Lemma zlen_ztake {A} n (l : list A) : 0 <= n -> zlen (ztake n l) = n `min` zlen l.
Proof. unfold zlen, ztake. rewrite length_take. lia. Qed.
Lemma zlen_zdrop {A} n (l : list A) : 0 <= n -> zlen (zdrop n l) = 0 `max` (zlen l - n).
Proof. unfold zlen, zdrop. rewrite length_drop. lia. Qed.

Lemma ztake_app_exact {A} (l1 l2 : list A) n : n = zlen l1 -> ztake n (l1 ++ l2) = l1.
Proof.
  intros ->. unfold ztake, zlen. rewrite Nat2Z.id. apply take_app_length.
Qed.
Lemma zdrop_app_exact {A} (l1 l2 : list A) n : n = zlen l1 -> zdrop n (l1 ++ l2) = l2.
Proof.
  intros ->. unfold zdrop, zlen. rewrite Nat2Z.id. apply drop_app_length.
Qed.
Lemma ztake_ge {A} (l : list A) n : zlen l <= n -> ztake n l = l.
Proof. unfold ztake, zlen. intros. apply take_ge. lia. Qed.
Lemma zdrop_ge {A} (l : list A) n : zlen l <= n -> zdrop n l = [].
Proof. unfold zdrop, zlen. intros. apply drop_ge. lia. Qed.
Lemma zdrop_0 {A} (l : list A) : zdrop 0 l = l.
Proof. done. Qed.
Lemma ztake_0 {A} (l : list A) : ztake 0 l = [].
Proof. done. Qed.
Lemma ztake_zdrop {A} n (l : list A) : ztake n l ++ zdrop n l = l.
Proof. apply take_drop. Qed.
Lemma zdrop_zdrop {A} n m (l : list A) :
  0 <= n -> 0 <= m -> zdrop n (zdrop m l) = zdrop (m + n) l.
Proof. intros. unfold zdrop. rewrite drop_drop. f_equal. lia. Qed.
Lemma zdrop_app_ge {A} (l1 l2 : list A) n :
  zlen l1 <= n -> zdrop n (l1 ++ l2) = zdrop (n - zlen l1) l2.
Proof.
  unfold zdrop, zlen. intros. rewrite drop_app_ge by lia. f_equal. lia.
Qed.
Lemma ztake_app_ge {A} (l1 l2 : list A) n :
  zlen l1 <= n -> ztake n (l1 ++ l2) = l1 ++ ztake (n - zlen l1) l2.
Proof.
  unfold ztake, zlen. intros. rewrite take_app_ge by lia. do 2 f_equal. lia.
Qed.
Lemma ztake_app_le {A} (l1 l2 : list A) n :
  n <= zlen l1 -> ztake n (l1 ++ l2) = ztake n l1.
Proof. unfold ztake, zlen. intros. rewrite take_app_le by lia. done. Qed.
Lemma zdrop_app_le {A} (l1 l2 : list A) n :
  n <= zlen l1 -> zdrop n (l1 ++ l2) = zdrop n l1 ++ l2.
Proof. unfold zdrop, zlen. intros. rewrite drop_app_le by lia. done. Qed.

Lemma subrange_Some {A} off len (l s : list A) :
  subrange off len l = Some s <->
  0 <= off /\ 0 <= len /\ off + len <= zlen l /\ s = ztake len (zdrop off l).
Proof.
  unfold subrange. destruct (_ && _) eqn:E.
  - zbool. split; [intros [= <-]; auto|intros (?&?&?&->); done].
  - split; [done|]. intros (?&?&?&->).
    rewrite !andb_false_iff in E. exfalso. destruct E as [[E|E]|E]; zbool; lia.
Qed.

Lemma subrange_app {A} (pre s post : list A) off len :
  off = zlen pre -> len = zlen s -> subrange off len (pre ++ s ++ post) = Some s.
Proof.
  intros -> ->. apply subrange_Some.
  pose proof (zlen_nonneg pre). pose proof (zlen_nonneg s). pose proof (zlen_nonneg post).
  rewrite !zlen_app. split_and!; try lia.
  rewrite zdrop_app_exact by done. by rewrite ztake_app_exact.
Qed.

#[export] Hint Rewrite @zlen_cons @zlen_app @zlen_fmap @zlen_rev : sflen.

Lemma filter_none {A} (P : A -> Prop) `{!forall x, Decision (P x)} l :
  Forall (fun x => ~ P x) l -> filter P l = [].
Proof.
  induction 1 as [|x l Hx Hl IH]; [done|]. rewrite filter_cons. by case_decide.
Qed.

Lemma filter_all {A} (P : A -> Prop) `{!forall x, Decision (P x)} l :
  Forall P l -> filter P l = l.
Proof. induction 1 as [|x l Hx _ IH]; [done|]. by rewrite filter_cons_True, IH. Qed.

Lemma elem_of_take_in {A} (x : A) n l : x ∈ take n l -> x ∈ l.
Proof. intros H. rewrite <- (take_drop n l). apply elem_of_app. by left. Qed.
Lemma elem_of_drop_in {A} (x : A) n l : x ∈ drop n l -> x ∈ l.
Proof. intros H. rewrite <- (take_drop n l). apply elem_of_app. by right. Qed.

(** Length goals: normalise sizes, then arithmetic. *)
Ltac zlen_nil :=
  repeat match goal with
  | |- context [@zlen ?A []] => change (@zlen A []) with 0
  | H : context [@zlen ?A []] |- _ => change (@zlen A []) with 0 in H
  end.
Ltac zlen_solve := autorewrite with sflen in *; zlen_nil; lia.

(** ** Loading and storing integers *)

Lemma le_load_range l : 0 <= le_load l < 256 ^ zlen l.
Proof.
  induction l as [|b l IH]; [change (0 <= 0 < 1); lia|].
  rewrite zlen_cons. pose proof (zlen_nonneg l).
  rewrite Z.pow_add_r, Z.pow_1_r by lia. cbn [le_load].
  pose proof (byte_to_Z_range b). lia.
Qed.

Lemma length_le_store n v : length (le_store n v) = n.
Proof. revert v; induction n as [|n IH]; intros v; cbn; [done|]. by rewrite IH. Qed.

Lemma zlen_le_store n v : zlen (le_store n v) = Z.of_nat n.
Proof. unfold zlen. by rewrite length_le_store. Qed.

Lemma zlen_be_store n v : zlen (be_store n v) = Z.of_nat n.
Proof. unfold be_store. by rewrite zlen_rev, zlen_le_store. Qed.

#[export] Hint Rewrite zlen_le_store zlen_be_store : sflen.

Lemma le_load_store n v : le_load (le_store n v) = v mod 256 ^ Z.of_nat n.
Proof.
  revert v; induction n as [|n IH]; intros v; cbn [le_load le_store].
  - by rewrite Z.mod_1_r.
  - rewrite IH, byte_to_of_Z, Nat2Z.inj_succ, Z.pow_succ_r by lia.
    rewrite Z.rem_mul_r by lia. done.
Qed.

Lemma le_store_load l : le_store (length l) (le_load l) = l.
Proof.
  induction l as [|b l IH]; [done|]. cbn [length le_load le_store].
  pose proof (byte_to_Z_range b) as Hb.
  f_equal.
  - rewrite <- (byte_of_to_Z b) at 2. apply byte_to_Z_inj. rewrite !byte_to_of_Z.
    rewrite Z.add_mod, (Z.mul_comm 256), Z.mod_mul, Z.add_0_r, Z.mod_mod by lia. done.
  - rewrite (Z.mul_comm 256), Z.div_add, Z.div_small, Z.add_0_l by lia. done.
Qed.

Lemma be_load_store n v : be_load (be_store n v) = v mod 256 ^ Z.of_nat n.
Proof. unfold be_load, be_store. by rewrite rev_involutive, le_load_store. Qed.

Lemma be_store_load l : be_store (length l) (be_load l) = l.
Proof.
  unfold be_load, be_store. rewrite <- (length_rev l), le_store_load.
  apply rev_involutive.
Qed.

Lemma be_load_range l : 0 <= be_load l < 256 ^ zlen l.
Proof. unfold be_load. rewrite <- (zlen_rev l). apply le_load_range. Qed.

Lemma be_load_store_id n v :
  0 <= v < 256 ^ Z.of_nat n -> be_load (be_store n v) = v.
Proof. intros. by rewrite be_load_store, Z.mod_small. Qed.

(** ** Bits *)

Lemma testbit_high a n i : 0 <= a < 2 ^ n -> n <= i -> Z.testbit a i = false.
Proof.
  intros Ha Hi. destruct (decide (0 <= n)).
  - rewrite <- (Z.mod_small a (2 ^ n)) by done. apply Z.mod_pow2_bits_high. lia.
  - rewrite (Z.pow_neg_r 2 n) in Ha by lia. lia.
Qed.

Lemma bits_bound x n :
  0 <= n -> 0 <= x -> (forall i, n <= i -> Z.testbit x i = false) -> 0 <= x < 2 ^ n.
Proof.
  intros Hn Hx Hb. split; [done|].
  replace x with (x mod 2 ^ n); [apply Z.mod_pos_bound; lia|].
  apply Z.bits_inj'. intros i Hi. destruct (decide (i < n)).
  - apply Z.mod_pow2_bits_low. lia.
  - rewrite Z.mod_pow2_bits_high by lia. symmetry. apply Hb. lia.
Qed.

Lemma lxor_bound n a b :
  0 <= n -> 0 <= a < 2 ^ n -> 0 <= b < 2 ^ n -> 0 <= Z.lxor a b < 2 ^ n.
Proof.
  intros Hn Ha Hb. apply bits_bound; [done|apply Z.lxor_nonneg; lia|].
  intros i Hi. rewrite Z.lxor_spec.
  by rewrite (testbit_high a n), (testbit_high b n).
Qed.

Lemma lor_bound n a b :
  0 <= n -> 0 <= a < 2 ^ n -> 0 <= b < 2 ^ n -> 0 <= Z.lor a b < 2 ^ n.
Proof.
  intros Hn Ha Hb. apply bits_bound; [done|apply Z.lor_nonneg; lia|].
  intros i Hi. rewrite Z.lor_spec.
  by rewrite (testbit_high a n), (testbit_high b n).
Qed.

(** Disjoint bits: [|] and [^] are addition. *)
Lemma land_low_high a b k : 0 <= k -> 0 <= a < 2 ^ k -> Z.land a (b * 2 ^ k) = 0.
Proof.
  intros Hk Ha. rewrite <- Z.shiftl_mul_pow2 by done.
  apply Z.bits_inj'. intros i Hi. rewrite Z.land_spec, Z.bits_0.
  destruct (decide (i < k)).
  - by rewrite Z.shiftl_spec_low, andb_false_r.
  - by rewrite (testbit_high a k) by lia.
Qed.

Lemma lxor_add_shift a b k :
  0 <= k -> 0 <= a < 2 ^ k -> Z.lxor a (b * 2 ^ k) = a + b * 2 ^ k.
Proof. intros Hk Ha. symmetry. apply Z.add_nocarry_lxor. by apply land_low_high. Qed.

Lemma lor_add_shift a b k :
  0 <= k -> 0 <= a < 2 ^ k -> Z.lor a (b * 2 ^ k) = a + b * 2 ^ k.
Proof.
  intros Hk Ha. rewrite <- Z.lxor_lor by (by apply land_low_high).
  by apply lxor_add_shift.
Qed.

(** Selecting one byte with a mask. *)
Lemma land_byte_mask v k :
  0 <= k -> Z.land v (255 * 2 ^ k) = (v / 2 ^ k) mod 256 * 2 ^ k.
Proof.
  intros Hk. change 256 with (2 ^ 8). rewrite <- Z.shiftl_mul_pow2 by done.
  rewrite <- (Z.shiftl_mul_pow2 (_ mod _)) by done.
  rewrite <- Z.shiftr_div_pow2 by done.
  apply Z.bits_inj'. intros i Hi. rewrite Z.land_spec.
  destruct (decide (i < k)).
  - by rewrite !Z.shiftl_spec_low, andb_false_r.
  - rewrite !Z.shiftl_spec by lia. change 255 with (Z.ones 8).
    rewrite Z.testbit_ones by lia.
    destruct (decide (i - k < 8)).
    + rewrite Z.mod_pow2_bits_low, Z.shiftr_spec by lia.
      rewrite (proj2 (Z.leb_le 0 (i - k))), (proj2 (Z.ltb_lt (i - k) 8)) by lia.
      cbn [andb]. rewrite andb_true_r. f_equal. lia.
    + rewrite Z.mod_pow2_bits_high by lia.
      rewrite (proj2 (Z.ltb_ge (i - k) 8)) by lia. by rewrite !andb_false_r.
Qed.
