(* ===== verification/StdString.v ===== *)
(** * StdString: what the sources use of [std::string] and of the C and C++
    standard libraries

    A [std::string] is the list of its bytes.  [std_to_string], [std_stoull],
    [std_stoul], [std_stoi], [std_atoi], [getline_by], [string_find], [starts_with],
    [isalnum], [toupper], [string_ltb], [setw_fill0], [setw] and [hex2] model the library calls of the sources; the
    conversions to and from decimal are shown to be inverse to each other. *)
From S2P Require Import Prelude.

(** ** Characters *)

Definition ch (b : byte) : Z := byte_to_Z b.

Definition isdigit (b : byte) : bool := (48 <=? ch b) && (ch b <=? 57).
Definition isupper (b : byte) : bool := (65 <=? ch b) && (ch b <=? 90).
Definition islower (b : byte) : bool := (97 <=? ch b) && (ch b <=? 122).
(** The "C" locale: the sources never call [setlocale]. *)
Definition isalnum (b : byte) : bool := isdigit b || isupper b || islower b.
Definition isspace (b : byte) : bool := ((9 <=? ch b) && (ch b <=? 13)) || (ch b =? 32).
Definition toupper (b : byte) : byte := if islower b then byte_of_Z (ch b - 32) else b.

Definition bytes_eqb (a b : bytes) : bool := bool_decide (a = b).

(** ** Searching and comparing *)

(** [std::getline] until the end of the stream: the lines without their newline. *)
Fixpoint getlines (cur : bytes) (s : bytes) : list bytes :=
  match s with
  | [] => match cur with [] => [] | _ => [cur] end
  | c :: s => if bool_decide (c = Byte.x0a) then cur :: getlines [] s else getlines (cur ++ [c]) s
  end.

(** [while (std::getline(ss, item, d))]: the items. *)
Fixpoint getline_by (d : byte) (cur : bytes) (s : bytes) : list bytes :=
  match s with
  | [] => match cur with [] => [] | _ => [cur] end
  | c :: s => if bool_decide (c = d) then cur :: getline_by d [] s else getline_by d (cur ++ [c]) s
  end.

(** [s.find(c, from)], [None] for [std::string::npos]. *)
Definition string_find (c : byte) (from : nat) (s : bytes) : option nat :=
  match list_find (fun b => b = c) (drop from s) with
  | Some (i, _) => Some (from + i)%nat
  | None => None
  end.

(** [s.rfind(p, 0) == 0]. *)
Definition starts_with (p s : bytes) : bool := bool_decide (take (length p) s = p).

(** [std::string::operator<]: lexicographic on unsigned bytes. *)
Fixpoint string_ltb (a b : bytes) : bool :=
  match a, b with
  | _, [] => false
  | [], _ :: _ => true
  | x :: a, y :: b =>
      if ch x <? ch y then true
      else if ch y <? ch x then false else string_ltb a b
  end.

Definition string_leb (a b : bytes) : bool := negb (string_ltb b a).

(** ** Decimal *)

Definition digit (d : Z) : byte := byte_of_Z (48 + d).

(** Least significant digit last, [fuel] digits at most; [S (log2 n)] digits
    are always enough. *)
Fixpoint digits (fuel : nat) (n : Z) (acc : bytes) : bytes :=
  match fuel with
  | O => acc
  | S fuel =>
      let acc := digit (n mod 10) :: acc in
      if n / 10 =? 0 then acc else digits fuel (n / 10) acc
  end.

(** [std::to_string] on the integer types. *)
Definition std_to_string (n : Z) : bytes :=
  if n <? 0 then str "-" ++ digits (S (Z.to_nat (Z.log2 (- n)))) (- n) []
  else digits (S (Z.to_nat (Z.log2 n))) n [].

(** [std::setfill('0') << std::setw(w)]. *)
Definition setw_fill0 (w : nat) (s : bytes) : bytes :=
  replicate (w - length s) (digit 0) ++ s.

(** [std::setw(w)] on a number: padded with blanks on the left. *)
Definition setw (w : nat) (s : bytes) : bytes := replicate (w - length s) Byte.x20 ++ s.

(** [%02x]. *)
Definition hex_digit (d : Z) : byte := byte_of_Z (if d <? 10 then 48 + d else 87 + d).
Definition hex2 (v : Z) : bytes := [hex_digit (v / 16); hex_digit (v mod 16)].

(** The longest run of digits at the front of a string and what follows. *)
Fixpoint span_digits (s : bytes) : bytes * bytes :=
  match s with
  | b :: s' => if isdigit b then let '(d, r) := span_digits s' in (b :: d, r) else ([], s)
  | [] => ([], [])
  end.

Definition digits_value (s : bytes) : Z := foldl (fun v b => 10 * v + (ch b - 48)) 0 s.

Fixpoint skip_space (s : bytes) : bytes :=
  match s with
  | b :: s' => if isspace b then skip_space s' else s
  | [] => []
  end.

(** [std::stoul]/[std::stoull] in base 10 on a [w]-bit type: leading white
    space, an optional sign, digits.  [None] for the two exceptions
    ([invalid_argument] without digits, [out_of_range] when the value does not
    fit); otherwise the value and the number of characters consumed. *)
Definition std_sto (w : Z) (s : bytes) : option (Z * nat) :=
  let s1 := skip_space s in
  let '(neg, s2) :=
    match s1 with
    | b :: r => if ch b =? 45 then (true, r) else if ch b =? 43 then (false, r) else (false, s1)
    | [] => (false, s1)
    end in
  let '(d, rest) := span_digits s2 in
  match d with
  | [] => None
  | _ => let v := digits_value d in
         if 2 ^ w <=? v then None
         else Some (if neg then (- v) mod 2 ^ w else v, (length s - length rest)%nat)
  end.

(** The signed number at the front of a string, without a limit; [None] without digits. *)
Definition signed_prefix (s : bytes) : option Z :=
  let s1 := skip_space s in
  let '(neg, s2) :=
    match s1 with
    | b :: r => if ch b =? 45 then (true, r) else if ch b =? 43 then (false, r) else (false, s1)
    | [] => (false, s1)
    end in
  match (span_digits s2).1 with
  | [] => None
  | d => Some (if neg then - digits_value d else digits_value d)
  end.

(** [std::stoi]: [None] for its two exceptions. *)
Definition std_stoi (s : bytes) : option Z :=
  v ← signed_prefix s; if (- 2 ^ 31 <=? v) && (v <? 2 ^ 31) then Some v else None.

(** [std::atoi]: 0 without digits; [None] where the behaviour is undefined, the number
    not being an [int]. *)
Definition std_atoi (s : bytes) : option Z :=
  match signed_prefix s with
  | None => Some 0
  | Some v => if (- 2 ^ 31 <=? v) && (v <? 2 ^ 31) then Some v else None
  end.

Definition std_stoull (s : bytes) : option (Z * nat) := std_sto 64 s.
(** [unsigned long] has 32 bits on Windows. *)
Definition std_stoul (s : bytes) : option (Z * nat) := std_sto 32 s.

(** ** Lemmas: decimal round trip *)

Lemma ch_digit d : 0 <= d < 10 -> ch (digit d) = 48 + d.
Proof. intros. unfold ch, digit. rewrite byte_to_of_Z. apply Z.mod_small. lia. Qed.

Lemma isdigit_digit d : 0 <= d < 10 -> isdigit (digit d) = true.
Proof. intros. unfold isdigit. rewrite ch_digit by done. zdecide. done. Qed.

Lemma digits_value_app s1 s2 :
  digits_value (s1 ++ s2) = digits_value s1 * 10 ^ zlen s2 + digits_value s2.
Proof.
  unfold digits_value. rewrite foldl_app. generalize (foldl (fun v b => 10 * v + (ch b - 48)) 0 s1).
  intros v.
  enough (forall v w, foldl (fun v b => 10 * v + (ch b - 48)) (v + w) s2
    = v * 10 ^ zlen s2 + foldl (fun v b => 10 * v + (ch b - 48)) w s2) as H.
  { rewrite <- H. f_equal. lia. }
  clear v. induction s2 as [|b s2 IH]; intros v w; cbn [foldl].
  - change (10 ^ zlen []) with 1. lia.
  - rewrite zlen_cons, Z.pow_add_r by (pose proof (zlen_nonneg s2); lia).
    replace (10 * (v + w) + (ch b - 48)) with (10 * v + (10 * w + (ch b - 48))) by lia.
    rewrite IH. lia.
Qed.

(** [digits] as a list without accumulator. *)
Lemma digits_acc fuel n acc : digits fuel n acc = digits fuel n [] ++ acc.
Proof.
  revert n acc; induction fuel as [|fuel IH]; intros n acc; [done|]. cbn [digits]. cbn zeta.
  destruct (n / 10 =? 0); [done|].
  rewrite IH, (IH _ [_]), <- app_assoc. done.
Qed.

Lemma digits_spec fuel n :
  0 <= n < 10 ^ Z.of_nat fuel ->
  Forall (fun b => isdigit b = true) (digits fuel n []) /\
  digits_value (digits fuel n []) = n /\
  (length (digits fuel n []) <= fuel)%nat /\
  (fuel <> O -> digits fuel n [] <> []).
Proof.
  revert n; induction fuel as [|fuel IH]; intros n Hn.
  { change (10 ^ Z.of_nat 0) with 1 in Hn. split_and!; [done|cbn; lia|done|done]. }
  rewrite Nat2Z.inj_succ, Z.pow_succ_r in Hn by lia. cbn [digits].
  pose proof (Z.mod_pos_bound n 10 ltac:(lia)) as Hm.
  assert (digits_value [digit (n mod 10)] = n mod 10) as Hv.
  { cbn. rewrite ch_digit by done. lia. }
  destruct (Z.eqb_spec (n / 10) 0) as [Hz|Hz].
  - split_and!; [repeat constructor; by apply isdigit_digit| |cbn; lia|done].
    rewrite Hv. pose proof (Z.div_mod n 10 ltac:(lia)). lia.
  - rewrite digits_acc.
    destruct (IH (n / 10)) as (H1 & H2 & H3 & H4).
    { split; [apply Z.div_pos; lia|apply Z.div_lt_upper_bound; lia]. }
    split_and!.
    + apply Forall_app. split; [done|]. repeat constructor. by apply isdigit_digit.
    + rewrite digits_value_app, H2, Hv. change (10 ^ zlen [digit (n mod 10)]) with 10.
      pose proof (Z.div_mod n 10 ltac:(lia)). lia.
    + rewrite length_app. cbn. lia.
    + intros _ Habs. apply app_eq_nil in Habs as [_ Habs]. done.
Qed.

Lemma pow10_log2 n : 0 <= n -> n < 10 ^ Z.of_nat (S (Z.to_nat (Z.log2 n))).
Proof.
  intros Hn. pose proof (Z.log2_nonneg n).
  destruct (decide (n = 0)) as [->|]; [cbn; lia|].
  pose proof (Z.log2_spec n ltac:(lia)) as [_ Hs].
  replace (Z.of_nat (S (Z.to_nat (Z.log2 n)))) with (Z.succ (Z.log2 n)) by lia.
  eapply Z.lt_le_trans; [exact Hs|]. apply Z.pow_le_mono_l. lia.
Qed.

(** With enough fuel the digits do not depend on it. *)
Lemma digits_fuel f1 f2 n acc :
  0 <= n < 10 ^ Z.of_nat f1 -> n < 10 ^ Z.of_nat f2 ->
  (f1 <> O)%nat -> (f2 <> O)%nat -> digits f1 n acc = digits f2 n acc.
Proof.
  revert f2 n acc; induction f1 as [|f1 IH]; intros f2 n acc H1 H2 Hf1 Hf2; [done|].
  destruct f2 as [|f2]; [done|]. cbn [digits].
  rewrite Nat2Z.inj_succ, Z.pow_succ_r in H1, H2 by lia.
  destruct (Z.eqb_spec (n / 10) 0) as [|Hz]; [done|].
  assert (0 <= n / 10 < 10 ^ Z.of_nat f1).
  { split; [apply Z.div_pos; lia|apply Z.div_lt_upper_bound; lia]. }
  assert (n / 10 < 10 ^ Z.of_nat f2) by (apply Z.div_lt_upper_bound; lia).
  apply IH; [done|done| |].
  - intros ->. cbn in *. lia.
  - intros ->. cbn in *. lia.
Qed.

Lemma to_string_spec n :
  0 <= n ->
  Forall (fun b => isdigit b = true) (std_to_string n) /\
  digits_value (std_to_string n) = n /\ std_to_string n <> [].
Proof.
  intros Hn. unfold std_to_string. zdecide.
  destruct (digits_spec (S (Z.to_nat (Z.log2 n))) n) as (? & ? & _ & Hne).
  { split; [done|]. by apply pow10_log2. }
  split_and!; [done|done|]. by apply Hne.
Qed.

Lemma to_string_length n k :
  0 <= n < 10 ^ Z.of_nat k -> k <> O -> (length (std_to_string n) <= k)%nat.
Proof.
  intros Hn Hk. unfold std_to_string. zdecide.
  rewrite (digits_fuel _ k).
  - by apply digits_spec.
  - split; [lia|]. apply pow10_log2. lia.
  - lia.
  - done.
  - done.
Qed.

Lemma span_digits_app d r :
  Forall (fun b => isdigit b = true) d ->
  match r with b :: _ => isdigit b = false | [] => True end ->
  span_digits (d ++ r) = (d, r).
Proof.
  intros Hd Hr. induction Hd as [|b d Hb Hd IH]; cbn.
  - destruct r as [|b r]; [done|]. cbn. by rewrite Hr.
  - by rewrite Hb, IH.
Qed.

Lemma digit_not_space b : isdigit b = true -> isspace b = false.
Proof.
  unfold isdigit, isspace. intros H. zbool. zdecide. done.
Qed.

(** Parsing a digit string gives its value and consumes it up to the first
    character that is not a digit. *)
Lemma std_sto_digits w d r :
  Forall (fun b => isdigit b = true) d -> d <> [] ->
  match r with b :: _ => isdigit b = false | [] => True end ->
  digits_value d < 2 ^ w ->
  std_sto w (d ++ r) = Some (digits_value d, length d).
Proof.
  intros Hd Hne Hr Hv. unfold std_sto.
  assert (skip_space (d ++ r) = d ++ r) as ->.
  { destruct d as [|b d]; [done|]. inversion Hd; subst. cbn. by rewrite digit_not_space. }
  assert (match d ++ r with
    | b :: r0 => if ch b =? 45 then (true, r0)
                 else if ch b =? 43 then (false, r0) else (false, d ++ r)
    | [] => (false, d ++ r) end = (false, d ++ r)) as ->.
  { destruct d as [|b d]; [done|]. inversion Hd as [|? ? Hb]; subst. cbn.
    unfold isdigit in Hb. zbool. zdecide. done. }
  rewrite span_digits_app by done. destruct d as [|b d]; [done|].
  zdecide. rewrite length_app. do 3 f_equal. lia.
Qed.

Lemma stoull_to_string n : is_u64 n -> std_stoull (std_to_string n) = Some (n, length (std_to_string n)).
Proof.
  intros Hn. destruct (to_string_spec n) as (H1 & H2 & H3); [unfold is_u64 in Hn; lia|].
  unfold std_stoull. rewrite <- (app_nil_r (std_to_string n)) at 1.
  rewrite std_sto_digits; [by rewrite H2|done|done|done|]. rewrite H2. unfold is_u64 in Hn; lia.
Qed.

Lemma stoul_to_string n : is_u32 n -> std_stoul (std_to_string n) = Some (n, length (std_to_string n)).
Proof.
  intros Hn. destruct (to_string_spec n) as (H1 & H2 & H3); [unfold is_u32 in Hn; lia|].
  unfold std_stoul. rewrite <- (app_nil_r (std_to_string n)) at 1.
  rewrite std_sto_digits; [by rewrite H2|done|done|done|]. rewrite H2. unfold is_u32 in Hn; lia.
Qed.

Lemma signed_prefix_to_string n : signed_prefix (std_to_string n) = Some n.
Proof.
  assert (forall m, 0 <= m -> (span_digits (std_to_string m)).1 = std_to_string m) as Hspan.
  { intros m Hm. destruct (to_string_spec m Hm) as (H1 & _). rewrite <- (app_nil_r (std_to_string m)) at 1.
    by rewrite span_digits_app. }
  destruct (Z.lt_ge_cases n 0) as [Hn|Hn].
  - assert (std_to_string n = Byte.x2d :: std_to_string (- n)) as ->.
    { unfold std_to_string. rewrite (proj2 (Z.ltb_lt n 0)), (proj2 (Z.ltb_ge (- n) 0)) by lia. done. }
    destruct (to_string_spec (- n)) as (_ & H2 & H3); [lia|]. unfold signed_prefix.
    change (skip_space (Byte.x2d :: std_to_string (- n))) with (Byte.x2d :: std_to_string (- n)).
    cbv beta iota zeta. change (ch Byte.x2d =? 45) with true. cbv beta iota zeta. rewrite Hspan by lia.
    destruct (std_to_string (- n)) eqn:E; [done|]. rewrite H2. f_equal. lia.
  - destruct (to_string_spec n Hn) as (H1 & H2 & H3). unfold signed_prefix.
    destruct (std_to_string n) as [|b s] eqn:E; [done|].
    apply list.Forall_cons in H1 as [Hb H1]. cbn [skip_space]. rewrite digit_not_space by done.
    unfold isdigit in Hb. apply andb_true_iff in Hb as [Hb1 Hb2]. apply Z.leb_le in Hb1, Hb2.
    rewrite (proj2 (Z.eqb_neq (ch b) 45)), (proj2 (Z.eqb_neq (ch b) 43)) by lia.
    specialize (Hspan n ltac:(lia)). rewrite E in Hspan. rewrite Hspan. by rewrite H2.
Qed.

Lemma atoi_to_string n : is_i32 n -> std_atoi (std_to_string n) = Some n.
Proof.
  intros Hn. unfold std_atoi. rewrite signed_prefix_to_string. unfold is_i32 in Hn.
  by rewrite (proj2 (Z.leb_le _ _)), (proj2 (Z.ltb_lt _ _)) by lia.
Qed.

Lemma to_string_inj n m : 0 <= n -> 0 <= m -> std_to_string n = std_to_string m -> n = m.
Proof.
  intros Hn Hm Heq. destruct (to_string_spec n Hn) as (_ & <- & _).
  destruct (to_string_spec m Hm) as (_ & <- & _). by rewrite Heq.
Qed.

(** Zero padding changes neither the digits nor the value. *)
Lemma setw_fill0_digits w s :
  Forall (fun b => isdigit b = true) s ->
  Forall (fun b => isdigit b = true) (setw_fill0 w s) /\
  digits_value (setw_fill0 w s) = digits_value s.
Proof.
  intros Hs. unfold setw_fill0. split.
  - apply Forall_app. split; [|done]. apply Forall_replicate. by apply isdigit_digit.
  - rewrite digits_value_app.
    assert (forall k, digits_value (replicate k (digit 0)) = 0) as ->; [|lia].
    intros k. unfold digits_value. induction k as [|k IH]; [done|].
    cbn [replicate foldl]. rewrite ch_digit by lia. exact IH.
Qed.

Lemma setw_fill0_length w s : (length s <= w)%nat -> length (setw_fill0 w s) = w.
Proof. intros. unfold setw_fill0. rewrite length_app, length_replicate. lia. Qed.

Lemma starts_with_app p s : starts_with p (p ++ s) = true.
Proof. unfold starts_with. rewrite take_app_length. by apply bool_decide_eq_true. Qed.

(** ** The order of strings

    [std::sort] on strings returns the only sorted permutation, since the order is
    total and antisymmetric. *)

#[global] Instance string_le_dec : RelDecision (fun a b => string_leb a b = true).
Proof. intros a b. apply _. Defined.

Lemma ch_inj a b : ch a = ch b -> a = b.
Proof. apply byte_to_Z_inj. Qed.

Lemma string_leb_cons x a y b :
  string_leb (x :: a) (y :: b) = (ch x <? ch y) || (ch x =? ch y) && string_leb a b.
Proof.
  unfold string_leb. cbn [string_ltb].
  destruct (Z.ltb_spec (ch y) (ch x)); [|destruct (Z.ltb_spec (ch x) (ch y)); [done|]].
  - rewrite (proj2 (Z.ltb_ge _ _)) by lia. by rewrite (proj2 (Z.eqb_neq _ _)) by lia.
  - replace (ch x) with (ch y) by lia. by rewrite Z.eqb_refl.
Qed.

#[global] Instance string_le_total : Total (fun a b => string_leb a b = true).
Proof.
  intros a. induction a as [|x a IH]; intros [|y b]; [by left..|by right|].
  rewrite !string_leb_cons, !orb_true_iff, !andb_true_iff, !Z.ltb_lt, !Z.eqb_eq.
  destruct (IH b); destruct (Z.lt_total (ch x) (ch y)) as [|[|]]; auto with lia.
Qed.

#[global] Instance string_le_antisym : AntiSymm (=) (fun a b => string_leb a b = true).
Proof.
  intros a. induction a as [|x a IH]; intros [|y b]; [done..|].
  rewrite !string_leb_cons, !orb_true_iff, !andb_true_iff, !Z.ltb_lt, !Z.eqb_eq.
  intros [?|[Hx Ha]] [?|[Hy Hb]]; try lia. f_equal; [by apply ch_inj|by apply IH].
Qed.

#[global] Instance string_le_trans : Transitive (fun a b => string_leb a b = true).
Proof.
  intros a. induction a as [|x a IH]; intros [|y b] [|z c]; [done..|].
  rewrite !string_leb_cons, !orb_true_iff, !andb_true_iff, !Z.ltb_lt, !Z.eqb_eq.
  intros [?|[Hx Ha]] [?|[Hy Hb]]; [left; lia..|]. right. split; [lia|by eapply IH].
Qed.

(** ** Lines and fields *)

Lemma getline_by_item d l rest : forall cur, d ∉ l ->
  getline_by d cur (l ++ d :: rest) = (cur ++ l) :: getline_by d [] rest.
Proof.
  induction l as [|c l IH]; intros cur Hl; cbn [app getline_by].
  - by rewrite bool_decide_eq_true_2, app_nil_r.
  - rewrite bool_decide_eq_false_2 by set_solver. rewrite IH by set_solver. by rewrite <- app_assoc.
Qed.

Lemma getline_by_last d l : forall cur, d ∉ l -> cur ++ l <> [] -> getline_by d cur l = [cur ++ l].
Proof.
  induction l as [|c l IH]; intros cur Hl Hne; cbn [getline_by].
  - rewrite app_nil_r in *. by destruct cur.
  - rewrite bool_decide_eq_false_2 by set_solver. rewrite IH; [by rewrite <- app_assoc|set_solver|].
    by rewrite <- app_assoc.
Qed.

Lemma getlines_line l rest : forall cur, Byte.x0a ∉ l ->
  getlines cur (l ++ Byte.x0a :: rest) = (cur ++ l) :: getlines [] rest.
Proof.
  induction l as [|c l IH]; intros cur Hl; cbn [app getlines].
  - by rewrite bool_decide_eq_true_2, app_nil_r.
  - rewrite bool_decide_eq_false_2 by set_solver. rewrite IH by set_solver. by rewrite <- app_assoc.
Qed.

Lemma string_find_first c k r : c ∉ k -> string_find c 0 (k ++ c :: r) = Some (length k).
Proof.
  intros Hc. unfold string_find. rewrite drop_0.
  assert (list_find (fun b => b = c) (k ++ c :: r) = Some (length k, c)) as ->; [|done].
  apply list_find_Some. split_and!; [by rewrite list_lookup_middle|done|].
  intros j y Hj Hlt ->. rewrite lookup_app_l in Hj by done. by apply Hc, list_elem_of_lookup_2 with j.
Qed.

Lemma string_find_none c s : c ∉ s -> string_find c 0 s = None.
Proof.
  intros Hc. unfold string_find. rewrite drop_0.
  assert (list_find (fun b => b = c) s = None) as ->; [|done].
  apply list_find_None, list.Forall_forall. intros x Hx ->. done.
Qed.

Lemma digits_no c n : isdigit c = false -> 0 <= n -> c ∉ std_to_string n.
Proof.
  intros Hc Hn Hin. destruct (to_string_spec n Hn) as (Hall & _).
  rewrite list.Forall_forall in Hall. specialize (Hall _ Hin). congruence.
Qed.

(** Any number, with its sign, is free of the characters that are not part of it. *)
Lemma to_string_no c n : isdigit c = false -> c <> Byte.x2d -> c ∉ std_to_string n.
Proof.
  intros Hc Hm. destruct (Z.lt_ge_cases n 0) as [Hn|Hn]; [|by apply digits_no].
  pose proof (digits_no c (- n) Hc ltac:(lia)) as Hd. unfold std_to_string in *.
  rewrite (proj2 (Z.ltb_ge (- n) 0)) in Hd by lia. rewrite (proj2 (Z.ltb_lt n 0)) by lia.
  intros Hin. apply elem_of_app in Hin as [Hin|Hin]; [|done].
  by apply Hm, list_elem_of_singleton.
Qed.
