(* ===== verification/Status.v ===== *)
(** * Status: error values of include/streamforge/Status.hpp and the constants
    of include/streamforge/StorageConfig.hpp *)
From S2P Require Import Prelude.

Inductive StatusCode :=
| OK
| NotFound
| InvalidArgument
| OffsetOutOfRange
| Corrupt
| IoError
| AlreadyExists
| RecordTooLarge.

#[global] Instance StatusCode_eq_dec : EqDecision StatusCode.
Proof. solve_decision. Defined.

Record Status := mkStatus {
  m_code : StatusCode;
  m_msg : bytes;
}.

#[global] Instance Status_eq_dec : EqDecision Status.
Proof. solve_decision. Defined.

Definition Status_OK : Status := mkStatus OK [].
Definition Status_ok (s : Status) : bool := bool_decide (m_code s = OK).

(** [Result<T>]: a value with status [OK], or a status. *)
Inductive Result (A : Type) :=
| Ok (a : A)
| Err (s : Status).
Arguments Ok {A} a.
Arguments Err {A} s.

Definition DEFAULT_SEGMENT_MAX_BYTES : Z := 64 * 1024 * 1024.
Definition DEFAULT_INDEX_INTERVAL_BYTES : Z := 4096.
Definition MAX_RECORD_SIZE : Z := 1024 * 1024.
Definition DEFAULT_RETENTION_MS : Z := 604800000.
Definition DEFAULT_RETENTION_BYTES : Z := 0.
Definition DEFAULT_RETENTION_CHECK_INTERVAL_MS : Z := 60000.

Record StorageConfig := mkStorageConfig {
  data_dir : bytes;
  segment_max_bytes : Z;
  index_interval_bytes : Z;
  sync_on_append : bool;
  default_retention_ms : Z;
  default_retention_bytes : Z;
  retention_check_interval_ms : Z;
  startup_scan : bytes;
}.

Definition default_StorageConfig : StorageConfig :=
  mkStorageConfig (str "./data") DEFAULT_SEGMENT_MAX_BYTES DEFAULT_INDEX_INTERVAL_BYTES true
    DEFAULT_RETENTION_MS DEFAULT_RETENTION_BYTES DEFAULT_RETENTION_CHECK_INTERVAL_MS (str "quick").

(** Range of the fixed-width fields. *)
Definition StorageConfig_wf (c : StorageConfig) : Prop :=
  is_u32 (segment_max_bytes c) /\ is_u32 (index_interval_bytes c) /\
  is_u64 (default_retention_ms c) /\ is_u64 (default_retention_bytes c) /\
  is_u64 (retention_check_interval_ms c).

Lemma Status_ok_true s : Status_ok s = true <-> m_code s = OK.
Proof. unfold Status_ok. apply bool_decide_eq_true. Qed.

Lemma Status_ok_false s : Status_ok s = false <-> m_code s <> OK.
Proof. unfold Status_ok. apply bool_decide_eq_false. Qed.
