(* ===== verification/Crc32.v ===== *)
(** * Crc32: the table-driven checksum of src/src/Crc32.cpp

    [Crc32_get_table], [Crc32_update], [Crc32_finalize] and [Crc32_calculate]
    follow the source.  [crc_bits] is the reference: the shift register the
    checksum is defined by, fed one bit at a time.  The lemmas relate the two,
    show that checksums compose over concatenation (the running checksum of a
    segment relies on it) and that every change confined to four consecutive
    bytes is detected. *)
From S2P Require Import Prelude.

Definition INITIAL_CRC : Z := 0xFFFFFFFF.
Definition CRC_POLY : Z := 0xEDB88320.

(** One round of the inner [for] loop of [get_table]. *)
Definition crc_step (crc : Z) : Z :=
  if Z.land crc 1 =? 0 then Z.shiftr crc 1
  else Z.lxor (Z.shiftr crc 1) CRC_POLY.

Definition Crc32_get_table : list Z :=
  (fun i => Nat.iter 8 crc_step i) <$> seqZ 0 256.

Definition Crc32_update (raw_crc : Z) (data : bytes) : Z :=
  let table := Crc32_get_table in
  foldl (fun raw b =>
    let index := u8 (Z.land (Z.lxor raw (byte_to_Z b)) 0xFF) in
    Z.lxor (Z.shiftr raw 8) (nth (Z.to_nat index) table 0)) raw_crc data.

Definition Crc32_finalize (raw_crc : Z) : Z := Z.lxor raw_crc 0xFFFFFFFF.

Definition Crc32_calculate (data : bytes) : Z :=
  Crc32_finalize (Crc32_update INITIAL_CRC data).

(** The reference: the 32-bit shift register, one bit at a time. *)
Definition crc_bits (raw : Z) (data : bytes) : Z :=
  foldl (fun raw b => Nat.iter 8 crc_step (Z.lxor raw (byte_to_Z b))) raw data.

(** ** The shift register is linear *)

Lemma crc_step_odd x :
  crc_step x = Z.lxor (Z.shiftr x 1) (if Z.odd x then CRC_POLY else 0).
Proof.
  unfold crc_step. change 1 with (Z.ones 1) at 1. rewrite Z.land_ones by lia.
  change (2 ^ 1) with 2. rewrite Zmod_odd.
  destruct (Z.odd x); cbn; [done|]. by rewrite Z.lxor_0_r.
Qed.

Lemma crc_step_lxor x y : crc_step (Z.lxor x y) = Z.lxor (crc_step x) (crc_step y).
Proof.
  rewrite !crc_step_odd, Z.shiftr_lxor, <- !Z.bit0_odd, Z.lxor_spec.
  rewrite !Z.lxor_assoc. f_equal. rewrite (Z.lxor_comm _ (Z.lxor _ _)).
  rewrite Z.lxor_assoc. f_equal. rewrite Z.lxor_comm.
  destruct (Z.testbit x 0), (Z.testbit y 0); reflexivity.
Qed.

Lemma iter_succ_inner {A} (f : A -> A) n x : Nat.iter (S n) f x = Nat.iter n f (f x).
Proof. induction n as [|n IH]; [done|]. cbn in *. by rewrite IH. Qed.

Lemma crc_iter_lxor n x y :
  Nat.iter n crc_step (Z.lxor x y) =
  Z.lxor (Nat.iter n crc_step x) (Nat.iter n crc_step y).
Proof.
  revert x y; induction n as [|n IH]; intros x y; [done|].
  by rewrite !iter_succ_inner, crc_step_lxor, IH.
Qed.

Lemma crc_step_double x : crc_step (2 * x) = x.
Proof.
  rewrite crc_step_odd, Z.odd_mul. cbn [Z.odd andb].
  rewrite Z.lxor_0_r, Z.shiftr_div_pow2 by lia. change (2 ^ 1) with 2.
  rewrite Z.mul_comm. by apply Z.div_mul.
Qed.

Lemma crc_iter_shift n x : Nat.iter n crc_step (x * 2 ^ Z.of_nat n) = x.
Proof.
  induction n as [|n IH]; [cbn; lia|].
  rewrite iter_succ_inner, Nat2Z.inj_succ, Z.pow_succ_r by lia.
  replace (x * (2 * 2 ^ Z.of_nat n)) with (2 * (x * 2 ^ Z.of_nat n)) by lia.
  by rewrite crc_step_double.
Qed.

(** ** The register stays within 32 bits and each step can be undone *)

Lemma shiftr1_range x : is_u32 x -> 0 <= Z.shiftr x 1 < 2 ^ 31.
Proof.
  unfold is_u32. intros Hx. rewrite Z.shiftr_div_pow2 by lia. change (2 ^ 1) with 2.
  split; [apply Z.div_pos; lia|apply Z.div_lt_upper_bound; lia].
Qed.

Lemma crc_step_range x : is_u32 x -> is_u32 (crc_step x).
Proof.
  intros Hx. rewrite crc_step_odd. pose proof (shiftr1_range x Hx).
  apply lxor_bound; [lia|lia|]. unfold CRC_POLY. destruct (Z.odd x); lia.
Qed.

Lemma crc_iter_range n x : is_u32 x -> is_u32 (Nat.iter n crc_step x).
Proof.
  intros Hx. induction n as [|n IH]; [done|]. by apply crc_step_range.
Qed.

(** The polynomial has bit 31 set and the shifted register does not, so the
    parity of the old register can be read off the new one. *)
Lemma crc_step_bit31 x : is_u32 x -> Z.testbit (crc_step x) 31 = Z.odd x.
Proof.
  intros Hx. rewrite crc_step_odd, Z.lxor_spec.
  rewrite (testbit_high _ 31 31 (shiftr1_range x Hx)) by lia.
  by destruct (Z.odd x).
Qed.

Lemma crc_step_inj x y : is_u32 x -> is_u32 y -> crc_step x = crc_step y -> x = y.
Proof.
  intros Hx Hy Heq.
  assert (Z.odd x = Z.odd y) as Ho
    by (by rewrite <- !crc_step_bit31, Heq).
  rewrite !crc_step_odd, Ho in Heq.
  set (p := if Z.odd y then _ else _) in Heq.
  assert (Z.shiftr x 1 = Z.shiftr y 1) as Hs.
  { apply (f_equal (fun z => Z.lxor z p)) in Heq.
    by rewrite !Z.lxor_assoc, Z.lxor_nilpotent, !Z.lxor_0_r in Heq. }
  rewrite !Z.shiftr_div_pow2 in Hs by lia. change (2 ^ 1) with 2 in Hs.
  rewrite (Z.div_mod x 2), (Z.div_mod y 2), Hs, !Zmod_odd, Ho by lia. done.
Qed.

Lemma crc_iter_inj n x y :
  is_u32 x -> is_u32 y -> Nat.iter n crc_step x = Nat.iter n crc_step y -> x = y.
Proof.
  intros Hx Hy. induction n as [|n IH]; [done|]. cbn. intros Heq.
  apply IH. apply crc_step_inj; [by apply crc_iter_range..|done].
Qed.

(** ** The table is eight steps of the register *)

Lemma crc_table_nth i :
  0 <= i < 256 -> nth (Z.to_nat i) Crc32_get_table 0 = Nat.iter 8 crc_step i.
Proof.
  intros Hi. unfold Crc32_get_table.
  rewrite nth_lookup, list_lookup_fmap, lookup_seqZ_lt by lia. cbn [fmap option_fmap option_map default].
  by replace (0 + Z.of_nat (Z.to_nat i)) with i by lia.
Qed.

Lemma lxor_split8 x : x = Z.lxor (Z.shiftr x 8 * 2 ^ 8) (Z.land x 0xFF).
Proof.
  rewrite <- Z.shiftl_mul_pow2 by lia. change 0xFF with (Z.ones 8).
  apply Z.bits_inj'. intros i Hi.
  rewrite Z.lxor_spec, Z.land_spec, Z.testbit_ones by lia.
  destruct (decide (i < 8)).
  - rewrite Z.shiftl_spec_low by lia. zdecide.
    by rewrite andb_true_r.
  - rewrite Z.shiftl_spec, Z.shiftr_spec by lia. zdecide.
    replace (i - 8 + 8) with i by lia.
    by rewrite andb_false_r, xorb_false_r.
Qed.

Lemma crc_table_step x b :
  let index := u8 (Z.land (Z.lxor x (byte_to_Z b)) 0xFF) in
  Z.lxor (Z.shiftr x 8) (nth (Z.to_nat index) Crc32_get_table 0) =
  Nat.iter 8 crc_step (Z.lxor x (byte_to_Z b)).
Proof.
  cbn zeta. pose proof (byte_to_Z_range b) as Hb.
  set (y := Z.lxor x (byte_to_Z b)).
  assert (0 <= Z.land y 0xFF < 256) as Hl.
  { change 0xFF with (Z.ones 8). rewrite Z.land_ones by lia. apply Z.mod_pos_bound. lia. }
  rewrite u8_id, crc_table_nth by done.
  rewrite (lxor_split8 y) at 2.
  rewrite crc_iter_lxor. change (2 ^ 8) with (2 ^ Z.of_nat 8). rewrite crc_iter_shift.
  f_equal. unfold y. rewrite Z.shiftr_lxor.
  rewrite (Z.shiftr_eq_0 (byte_to_Z b)), Z.lxor_0_r; [done|lia|].
  destruct (decide (byte_to_Z b = 0)) as [->|]; [cbn; lia|].
  apply Z.log2_lt_pow2; lia.
Qed.

Lemma Crc32_update_bits raw data : Crc32_update raw data = crc_bits raw data.
Proof.
  unfold Crc32_update, crc_bits. cbn zeta.
  revert raw; induction data as [|b data IH]; intros raw; [done|].
  cbn [foldl]. by rewrite (crc_table_step raw b), IH.
Qed.

(** ** Composition, range, and the checksum as polynomial division *)

Lemma Crc32_update_app raw d1 d2 :
  Crc32_update raw (d1 ++ d2) = Crc32_update (Crc32_update raw d1) d2.
Proof. apply foldl_app. Qed.

Lemma Crc32_update_nil raw : Crc32_update raw [] = raw.
Proof. done. Qed.

Lemma byte_u32 b : is_u32 (byte_to_Z b).
Proof. pose proof (byte_to_Z_range b). unfold is_u32. lia. Qed.

Lemma Crc32_update_range raw data : is_u32 raw -> is_u32 (Crc32_update raw data).
Proof.
  rewrite Crc32_update_bits. unfold crc_bits.
  revert raw; induction data as [|b data IH]; intros raw Hr; cbn [foldl]; [done|].
  apply IH, crc_iter_range, lxor_bound; [lia|done|apply byte_u32].
Qed.

Lemma Crc32_finalize_range raw : is_u32 raw -> is_u32 (Crc32_finalize raw).
Proof. intros. apply lxor_bound; [lia|done|lia]. Qed.

Lemma Crc32_calculate_range data : is_u32 (Crc32_calculate data).
Proof.
  apply Crc32_finalize_range, Crc32_update_range. unfold is_u32, INITIAL_CRC. lia.
Qed.

Lemma Crc32_update_inj x y data :
  is_u32 x -> is_u32 y -> Crc32_update x data = Crc32_update y data -> x = y.
Proof.
  rewrite !Crc32_update_bits. unfold crc_bits.
  revert x y; induction data as [|b data IH]; intros x y Hx Hy; cbn [foldl]; [done|].
  intros Heq. pose proof (byte_u32 b) as Hb.
  apply IH in Heq; [|by apply crc_iter_range, lxor_bound..].
  apply crc_iter_inj in Heq; [|by apply lxor_bound..].
  apply (f_equal (fun z => Z.lxor z (byte_to_Z b))) in Heq.
  by rewrite !Z.lxor_assoc, Z.lxor_nilpotent, !Z.lxor_0_r in Heq.
Qed.

Lemma iter_add {A} (f : A -> A) n m x : Nat.iter (n + m) f x = Nat.iter n f (Nat.iter m f x).
Proof. induction n as [|n IH]; [done|]. exact (f_equal f IH). Qed.

(** Feeding a word is one xor with its little-endian value and a run of the
    register over all its bits. *)
Lemma crc_bits_word raw w :
  crc_bits raw w = Nat.iter (8 * length w) crc_step (Z.lxor raw (le_load w)).
Proof.
  revert raw; induction w as [|b w IH]; intros raw.
  { cbn. by rewrite Z.lxor_0_r. }
  unfold crc_bits in *. cbn [foldl length le_load]. rewrite IH.
  replace (8 * S (length w))%nat with (8 * length w + 8)%nat by lia.
  rewrite iter_add. f_equal.
  assert (byte_to_Z b + 256 * le_load w =
          Z.lxor (byte_to_Z b) (le_load w * 2 ^ Z.of_nat 8)) as ->.
  { pose proof (byte_to_Z_range b). change (2 ^ Z.of_nat 8) with (2 ^ 8).
    rewrite lxor_add_shift by lia. lia. }
  by rewrite <- Z.lxor_assoc, (crc_iter_lxor 8 (Z.lxor raw _)), crc_iter_shift.
Qed.

Lemma Crc32_burst raw w1 w2 :
  is_u32 raw -> length w1 = length w2 -> (length w1 <= 4)%nat ->
  Crc32_update raw w1 = Crc32_update raw w2 -> w1 = w2.
Proof.
  intros Hr Hl H4. rewrite !Crc32_update_bits, !crc_bits_word, <- Hl. intros Heq.
  assert (forall w : bytes, (length w <= 4)%nat -> is_u32 (le_load w)) as Hw.
  { intros w Hwl. pose proof (le_load_range w) as Hlr. unfold is_u32.
    assert (256 ^ zlen w <= 256 ^ 4); [|lia].
    apply Z.pow_le_mono_r; unfold zlen; lia. }
  apply crc_iter_inj in Heq; [|apply lxor_bound; [lia|done|apply Hw; lia]..].
  apply (f_equal (Z.lxor raw)) in Heq.
  rewrite <- !Z.lxor_assoc, !Z.lxor_nilpotent, !Z.lxor_0_l in Heq.
  rewrite <- (le_store_load w1), <- (le_store_load w2), Heq, Hl. done.
Qed.

Lemma Crc32_calculate_burst pre post w1 w2 :
  length w1 = length w2 -> (length w1 <= 4)%nat ->
  Crc32_calculate (pre ++ w1 ++ post) = Crc32_calculate (pre ++ w2 ++ post) -> w1 = w2.
Proof.
  intros Hl H4. unfold Crc32_calculate, Crc32_finalize. intros Heq.
  apply (f_equal (fun z => Z.lxor z 0xFFFFFFFF)) in Heq.
  rewrite !Z.lxor_assoc, Z.lxor_nilpotent, !Z.lxor_0_r, !Crc32_update_app in Heq.
  assert (is_u32 (Crc32_update INITIAL_CRC pre)) as Hp.
  { apply Crc32_update_range. unfold is_u32, INITIAL_CRC. lia. }
  apply Crc32_update_inj in Heq; [|by apply Crc32_update_range..].
  by apply Crc32_burst in Heq.
Qed.
