(* ===== verification/RecordCodec.v ===== *)
(** * RecordCodec: the on-disk record format (src/src/RecordCodec.cpp)

    Reads and writes of the buffer are bounds-checked in the model: [None]
    stands for an access outside the buffer, which is undefined behaviour in
    the C++ program.  [record_bytes] is the reference layout; [RecordCodec_encode]
    produces it, [RecordCodec_decode] inverts it, and a decode of arbitrary
    bytes is characterised. *)
From S2P Require Import Prelude StdString Status Crc32.

Record Record := mkRecord {
  offset : Z;          (* uint64_t *)
  timestamp_ms : Z;    (* int64_t *)
  key : bytes;
  value : bytes;
}.

#[global] Instance Record_eq_dec : EqDecision Record.
Proof. solve_decision. Defined.

Definition empty_Record : Record := mkRecord 0 0 [] [].

(** The byte swaps, as the source writes them, on the little-endian value
    [memcpy] loads. *)
Definition bswap32 (val : Z) : Z :=
  Z.lor (Z.lor (Z.lor
    (u32 (Z.shiftl (Z.land val 0x000000FF) 24))
    (u32 (Z.shiftl (Z.land val 0x0000FF00) 8)))
    (Z.shiftr (Z.land val 0x00FF0000) 8))
    (Z.shiftr (Z.land val 0xFF000000) 24).

Definition bswap64 (val : Z) : Z :=
  Z.lor (Z.lor (Z.lor (Z.lor (Z.lor (Z.lor (Z.lor
    (u64 (Z.shiftl (Z.land val 0x00000000000000FF) 56))
    (u64 (Z.shiftl (Z.land val 0x000000000000FF00) 40)))
    (u64 (Z.shiftl (Z.land val 0x0000000000FF0000) 24)))
    (u64 (Z.shiftl (Z.land val 0x00000000FF000000) 8)))
    (Z.shiftr (Z.land val 0x000000FF00000000) 8))
    (Z.shiftr (Z.land val 0x0000FF0000000000) 24))
    (Z.shiftr (Z.land val 0x00FF000000000000) 40))
    (Z.shiftr (Z.land val 0xFF00000000000000) 56).

(** A pointer argument is the list of bytes from that address on. *)
Definition RecordCodec_read_u32 (buffer : bytes) : Z := bswap32 (le_load (take 4 buffer)).
Definition RecordCodec_write_u32 (v : Z) : bytes := le_store 4 (bswap32 v).
Definition RecordCodec_read_u64 (buffer : bytes) : Z := bswap64 (le_load (take 8 buffer)).
Definition RecordCodec_write_u64 (v : Z) : bytes := le_store 8 (bswap64 v).

(** Overwrite part of a buffer; [None] when the range leaves it. *)
Definition write_at (off : Z) (bs buf : bytes) : option bytes :=
  if (0 <=? off) && (off + zlen bs <=? zlen buf)
  then Some (ztake off buf ++ bs ++ zdrop (off + zlen bs) buf) else None.

Definition RecordCodec_encode (record : Record) : option bytes :=
  let key_len := u32 (zlen (key record)) in
  let value_len := u32 (zlen (value record)) in
  let length := u32 (24 + key_len + value_len) in
  let buffer := replicate (Z.to_nat (u32 (4 + length))) Byte.x00 in
  buffer ← write_at 0 (RecordCodec_write_u32 length) buffer;
  buffer ← write_at 8 (RecordCodec_write_u64 (offset record)) buffer;
  buffer ← write_at 16 (RecordCodec_write_u64 (u64 (timestamp_ms record))) buffer;
  buffer ← write_at 24 (RecordCodec_write_u32 key_len) buffer;
  buffer ← (if 0 <? key_len then write_at 28 (ztake key_len (key record)) buffer
            else Some buffer);
  buffer ← (if 0 <? value_len
            then write_at (28 + key_len) (ztake value_len (value record)) buffer
            else Some buffer);
  data ← subrange 8 (u32 (length - 4)) buffer;
  write_at 4 (RecordCodec_write_u32 (Crc32_calculate data)) buffer.

(** [decode(buffer, size, out_record)]; the size is the length of the list. *)
Definition RecordCodec_decode (buffer : bytes) (out_record : Record) : option (Status * Record) :=
  let size := zlen buffer in
  if size <? 28 then
    Some (mkStatus Corrupt (str "Buffer size less than record header size (28 bytes)"), out_record)
  else
  let length := RecordCodec_read_u32 buffer in
  if length <? 24 then
    Some (mkStatus Corrupt (str "Invalid record length field: " ++ std_to_string length), out_record)
  else if MAX_RECORD_SIZE <? length then
    Some (mkStatus RecordTooLarge (str "Record length " ++ std_to_string length
                                   ++ str " exceeds maximum limit of 1 MiB"), out_record)
  else if size <? u32 (4 + length) then
    Some (mkStatus Corrupt (str "Incomplete record payload buffer"), out_record)
  else
  let stored_crc := RecordCodec_read_u32 (zdrop 4 buffer) in
  data ← subrange 8 (u32 (length - 4)) buffer;
  let computed_crc := Crc32_calculate data in
  if negb (stored_crc =? computed_crc) then
    Some (mkStatus Corrupt (str "CRC mismatch. Stored: " ++ std_to_string stored_crc
                            ++ str ", computed: " ++ std_to_string computed_crc), out_record)
  else
  let off := RecordCodec_read_u64 (zdrop 8 buffer) in
  let ts := i64 (RecordCodec_read_u64 (zdrop 16 buffer)) in
  let key_len := RecordCodec_read_u32 (zdrop 24 buffer) in
  if length <? u32 (24 + key_len) then
    Some (mkStatus Corrupt (str "Invalid key length in record header"),
          mkRecord off ts (key out_record) (value out_record))
  else
  let value_len := u32 (length - 24 - key_len) in
  k ← (if 0 <? key_len then subrange 28 key_len buffer else Some []);
  v ← (if 0 <? value_len then subrange (28 + key_len) value_len buffer else Some []);
  Some (Status_OK, mkRecord off ts k v).

(** ** The reference layout *)

Definition record_size (r : Record) : Z := 28 + zlen (key r) + zlen (value r).

Definition record_payload (r : Record) : bytes :=
  be_store 8 (offset r) ++ be_store 8 (u64 (timestamp_ms r)) ++
  be_store 4 (zlen (key r)) ++ key r ++ value r.

Definition record_bytes (r : Record) : bytes :=
  be_store 4 (record_size r - 4) ++ be_store 4 (Crc32_calculate (record_payload r)) ++
  record_payload r.

(** The fields fit their types and the length field the decoder's limit. *)
Definition Record_wf (r : Record) : Prop :=
  is_u64 (offset r) /\ is_i64 (timestamp_ms r) /\ record_size r - 4 <= MAX_RECORD_SIZE.

#[global] Instance Record_wf_dec r : Decision (Record_wf r).
Proof. unfold Record_wf, is_u64, is_i64. apply _. Defined.

(** ** Byte swaps *)

Ltac mask_norm :=
  change 0x000000FF with (255 * 2 ^ 0); change 0x0000FF00 with (255 * 2 ^ 8);
  change 0x00FF0000 with (255 * 2 ^ 16); change 0xFF000000 with (255 * 2 ^ 24);
  change 0x000000FF00000000 with (255 * 2 ^ 32); change 0x0000FF0000000000 with (255 * 2 ^ 40);
  change 0x00FF000000000000 with (255 * 2 ^ 48); change 0xFF00000000000000 with (255 * 2 ^ 56);
  rewrite !land_byte_mask by lia.

Lemma shiftl_byte x k j : 0 <= k -> 0 <= j -> Z.shiftl (x * 2 ^ k) j = x * 2 ^ (k + j).
Proof. intros. rewrite Z.shiftl_mul_pow2, Z.pow_add_r by lia. lia. Qed.

Lemma shiftr_byte x k j : 0 <= j <= k -> Z.shiftr (x * 2 ^ k) j = x * 2 ^ (k - j).
Proof.
  intros. rewrite Z.shiftr_div_pow2 by lia.
  replace (2 ^ k) with (2 ^ (k - j) * 2 ^ j) by (rewrite <- Z.pow_add_r by lia; f_equal; lia).
  rewrite Z.mul_assoc, Z.div_mul by lia. done.
Qed.

Lemma lor_acc a x k :
  0 <= k -> 0 <= x -> 0 <= a -> (exists c, a = c * 2 ^ (k + 8)) -> x < 256 ->
  Z.lor a (x * 2 ^ k) = a + x * 2 ^ k.
Proof.
  intros Hk Hx Ha [c ->] Hx2. rewrite Z.lor_comm, lor_add_shift; [lia|lia|].
  rewrite Z.pow_add_r by lia. split; [apply Z.mul_nonneg_nonneg; lia|].
  rewrite Z.mul_comm. apply Z.mul_lt_mono_pos_l; lia.
Qed.

Lemma byte_at_load l i :
  (i < length l)%nat ->
  (le_load l / 2 ^ (8 * Z.of_nat i)) mod 256 = byte_to_Z (l !!! i).
Proof.
  revert i; induction l as [|b l IH]; intros i Hi; [cbn in Hi; lia|].
  pose proof (byte_to_Z_range b) as Hb. cbn [le_load].
  destruct i as [|i]; cbn [lookup_total list_lookup_total].
  - change (2 ^ (8 * Z.of_nat 0)) with 1. rewrite Z.div_1_r.
    rewrite Z.add_mod, (Z.mul_comm 256), Z.mod_mul, Z.add_0_r, Z.mod_mod by lia.
    apply Z.mod_small. lia.
  - cbn in Hi. rewrite <- IH by lia.
    replace (8 * Z.of_nat (S i)) with (8 + 8 * Z.of_nat i) by lia.
    rewrite Z.pow_add_r, <- Z.div_div by lia. change (2 ^ 8) with 256.
    rewrite (Z.mul_comm 256), Z.div_add, (Z.div_small (byte_to_Z b)), Z.add_0_l by lia. done.
Qed.

(** Replace the selected bytes of a loaded word by the bytes of the buffer. *)
Ltac bytes_of_word l n :=
  match n with
  | O => idtac
  | S ?m =>
      let H := fresh "Hbyte" in
      pose proof (byte_at_load l m ltac:(cbn; lia)) as H;
      let e := eval vm_compute in (8 * Z.of_nat m) in
      change (8 * Z.of_nat m) with e in H; rewrite H; clear H;
      bytes_of_word l m
  end.

Lemma bswap32_load l : length l = 4%nat -> bswap32 (le_load l) = be_load l.
Proof.
  intros Hl. destruct l as [|b0 [|b1 [|b2 [|b3 [|]]]]]; try discriminate Hl.
  unfold bswap32. mask_norm. bytes_of_word [b0;b1;b2;b3] 4%nat.
  cbn [lookup_total list_lookup_total].
  rewrite !shiftl_byte, !shiftr_byte by lia.
  pose proof (byte_to_Z_range b0). pose proof (byte_to_Z_range b1).
  pose proof (byte_to_Z_range b2). pose proof (byte_to_Z_range b3).
  rewrite !u32_id by (unfold is_u32; lia).
  unfold be_load. cbn [rev app le_load].
  set (x0 := byte_to_Z b0) in *. set (x1 := byte_to_Z b1) in *.
  set (x2 := byte_to_Z b2) in *. set (x3 := byte_to_Z b3) in *.
  change (24 - 24) with 0. change (16 - 8) with 8. change (8 + 8) with 16. change (0 + 24) with 24.
  rewrite (lor_acc (x0 * 2 ^ 24) x1 16) by (first [lia|exists x0; lia]).
  rewrite (lor_acc _ x2 8) by (first [lia|exists (x0 * 256 + x1); lia]).
  rewrite (lor_acc _ x3 0) by (first [lia|exists (x0 * 65536 + x1 * 256 + x2); lia]).
  lia.
Qed.

Lemma bswap64_load l : length l = 8%nat -> bswap64 (le_load l) = be_load l.
Proof.
  intros Hl. destruct l as [|b0 [|b1 [|b2 [|b3 [|b4 [|b5 [|b6 [|b7 [|]]]]]]]]]; try discriminate Hl.
  unfold bswap64. mask_norm. bytes_of_word [b0;b1;b2;b3;b4;b5;b6;b7] 8%nat.
  cbn [lookup_total list_lookup_total].
  rewrite !shiftl_byte, !shiftr_byte by lia.
  pose proof (byte_to_Z_range b0). pose proof (byte_to_Z_range b1).
  pose proof (byte_to_Z_range b2). pose proof (byte_to_Z_range b3).
  pose proof (byte_to_Z_range b4). pose proof (byte_to_Z_range b5).
  pose proof (byte_to_Z_range b6). pose proof (byte_to_Z_range b7).
  rewrite !u64_id by (unfold is_u64; lia).
  unfold be_load. cbn [rev app le_load].
  set (x0 := byte_to_Z b0) in *. set (x1 := byte_to_Z b1) in *.
  set (x2 := byte_to_Z b2) in *. set (x3 := byte_to_Z b3) in *.
  set (x4 := byte_to_Z b4) in *. set (x5 := byte_to_Z b5) in *.
  set (x6 := byte_to_Z b6) in *. set (x7 := byte_to_Z b7) in *.
  change (0 + 56) with 56. change (8 + 40) with 48. change (16 + 24) with 40.
  change (24 + 8) with 32. change (32 - 8) with 24. change (40 - 24) with 16.
  change (48 - 40) with 8. change (56 - 56) with 0.
  rewrite (lor_acc (x0 * 2 ^ 56) x1 48) by (first [lia|exists x0; lia]).
  rewrite (lor_acc _ x2 40) by (first [lia|exists (x0 * 2^8 + x1); lia]).
  rewrite (lor_acc _ x3 32) by (first [lia|exists ((x0 * 2^8 + x1) * 2^8 + x2); lia]).
  rewrite (lor_acc _ x4 24)
    by (first [lia|exists (((x0 * 2^8 + x1) * 2^8 + x2) * 2^8 + x3); lia]).
  rewrite (lor_acc _ x5 16)
    by (first [lia|exists ((((x0 * 2^8 + x1) * 2^8 + x2) * 2^8 + x3) * 2^8 + x4); lia]).
  rewrite (lor_acc _ x6 8)
    by (first [lia|exists (((((x0 * 2^8 + x1) * 2^8 + x2) * 2^8 + x3) * 2^8 + x4) * 2^8 + x5); lia]).
  rewrite (lor_acc _ x7 0)
    by (first [lia|exists ((((((x0 * 2^8 + x1) * 2^8 + x2) * 2^8 + x3) * 2^8 + x4) * 2^8 + x5) * 2^8 + x6); lia]).
  lia.
Qed.

(** Storing the swapped value is storing in network order. *)
Lemma bswap_store n (swap : Z -> Z) v :
  (forall l : bytes, length l = n -> swap (le_load l) = be_load l) ->
  0 <= v < 256 ^ Z.of_nat n -> le_store n (swap v) = be_store n v.
Proof.
  intros Hs Hv.
  assert (v = le_load (le_store n v)) as Hv2 by (by rewrite le_load_store, Z.mod_small).
  rewrite Hv2 at 1. rewrite Hs by apply length_le_store.
  unfold be_load, be_store.
  rewrite <- (length_le_store n v) at 1. rewrite <- length_rev. apply le_store_load.
Qed.

Lemma RecordCodec_write_u32_be v : is_u32 v -> RecordCodec_write_u32 v = be_store 4 v.
Proof. intros Hv. apply (bswap_store 4); [apply bswap32_load|done]. Qed.
Lemma RecordCodec_write_u64_be v : is_u64 v -> RecordCodec_write_u64 v = be_store 8 v.
Proof. intros Hv. apply (bswap_store 8); [apply bswap64_load|done]. Qed.

Lemma RecordCodec_read_u32_be l :
  (4 <= length l)%nat -> RecordCodec_read_u32 l = be_load (take 4 l).
Proof. intros. unfold RecordCodec_read_u32. apply bswap32_load. rewrite length_take. lia. Qed.
Lemma RecordCodec_read_u64_be l :
  (8 <= length l)%nat -> RecordCodec_read_u64 l = be_load (take 8 l).
Proof. intros. unfold RecordCodec_read_u64. apply bswap64_load. rewrite length_take. lia. Qed.

Lemma length_be_store n v : length (be_store n v) = n.
Proof. unfold be_store. by rewrite length_rev, length_le_store. Qed.

Lemma read_u32_be_store v l : is_u32 v -> RecordCodec_read_u32 (be_store 4 v ++ l) = v.
Proof.
  intros Hv. rewrite RecordCodec_read_u32_be by (rewrite length_app, length_be_store; lia).
  rewrite take_app_length' by (by rewrite length_be_store). by apply be_load_store_id.
Qed.
Lemma read_u64_be_store v l : is_u64 v -> RecordCodec_read_u64 (be_store 8 v ++ l) = v.
Proof.
  intros Hv. rewrite RecordCodec_read_u64_be by (rewrite length_app, length_be_store; lia).
  rewrite take_app_length' by (by rewrite length_be_store). by apply be_load_store_id.
Qed.

Lemma RecordCodec_read_u32_range l : (4 <= length l)%nat -> is_u32 (RecordCodec_read_u32 l).
Proof.
  intros Hl. rewrite RecordCodec_read_u32_be by done.
  pose proof (be_load_range (take 4 l)) as H. unfold zlen in H.
  rewrite length_take, Nat.min_l in H by done. exact H.
Qed.

(** ** Encoding *)

Lemma write_at_middle a b c bs off :
  off = zlen a -> zlen bs = zlen b -> write_at off bs (a ++ b ++ c) = Some (a ++ bs ++ c).
Proof.
  intros -> Hl. unfold write_at.
  pose proof (zlen_nonneg a). pose proof (zlen_nonneg c). pose proof (zlen_nonneg b).
  rewrite !zlen_app. zdecide.
  rewrite ztake_app_exact by done. do 3 f_equal.
  rewrite app_assoc. apply zdrop_app_exact. rewrite zlen_app. lia.
Qed.

Lemma zlen_replicate {A} n (x : A) : zlen (replicate n x) = Z.of_nat n.
Proof. unfold zlen. by rewrite length_replicate. Qed.

Lemma zlen_record_payload r : zlen (record_payload r) = record_size r - 8.
Proof. unfold record_payload, record_size. autorewrite with sflen. lia. Qed.

Lemma zlen_record_bytes r : zlen (record_bytes r) = record_size r.
Proof.
  unfold record_bytes. autorewrite with sflen. rewrite zlen_record_payload. lia.
Qed.

Lemma record_size_ge r : 28 <= record_size r.
Proof.
  unfold record_size. pose proof (zlen_nonneg (key r)). pose proof (zlen_nonneg (value r)). lia.
Qed.

#[export] Hint Rewrite @zlen_replicate zlen_record_payload zlen_record_bytes : sflen.

(** A buffer as the concatenation of its fields: writing a field whole. *)
Lemma write_at_chunk (pre : list bytes) b post bs off cs :
  cs = pre ++ b :: post -> off = zlen (concat pre) -> zlen bs = zlen b ->
  write_at off bs (concat cs) = Some (concat (pre ++ bs :: post)).
Proof.
  intros -> Ho Hb. rewrite !concat_app. cbn [concat]. by apply write_at_middle.
Qed.

Lemma write_at_chunk_if (pre : list bytes) b post bs off cs n :
  cs = pre ++ b :: post -> off = zlen (concat pre) -> zlen bs = zlen b -> n = zlen bs ->
  (if 0 <? n then write_at off bs (concat cs) else Some (concat cs)) =
  Some (concat (pre ++ bs :: post)).
Proof.
  intros Hcs Ho Hb ->. destruct (Z.ltb_spec 0 (zlen bs)) as [|Hle].
  - by eapply write_at_chunk.
  - pose proof (zlen_nonneg bs). rewrite Hcs.
    by rewrite (zlen_zero bs), (zlen_zero b) by lia.
Qed.

Ltac write_field pre :=
  erewrite (write_at_chunk pre);
  [|reflexivity|cbn [concat]; rewrite ?app_nil_r; zlen_solve|zlen_solve];
  cbn [mbind option_bind app].

Lemma RecordCodec_encode_spec r :
  is_u64 (offset r) -> record_size r < 2 ^ 32 ->
  RecordCodec_encode r = Some (record_bytes r).
Proof.
  intros Ho Hs. unfold RecordCodec_encode.
  pose proof (zlen_nonneg (key r)) as Hk. pose proof (zlen_nonneg (value r)) as Hv.
  pose proof (zlen_record_payload r) as Hp. unfold record_size in *.
  rewrite (u32_id (zlen (key r))), (u32_id (zlen (value r))) by (unfold is_u32; lia).
  rewrite (u32_id (24 + _ + _)) by (unfold is_u32; lia).
  rewrite (u32_id (4 + _)) by (unfold is_u32; lia).
  rewrite !ztake_ge by lia. rewrite (u32_id (_ - 4)) by (unfold is_u32; lia).
  replace (replicate (Z.to_nat (4 + (24 + zlen (key r) + zlen (value r)))) Byte.x00)
    with (concat [replicate 4 Byte.x00; replicate 4 Byte.x00; replicate 8 Byte.x00;
      replicate 8 Byte.x00; replicate 4 Byte.x00; replicate (Z.to_nat (zlen (key r))) Byte.x00;
      replicate (Z.to_nat (zlen (value r))) Byte.x00]).
  2: { cbn [concat]. rewrite app_nil_r, <- !replicate_add. f_equal. lia. }
  rewrite (RecordCodec_write_u32_be (24 + _ + _)) by (unfold is_u32; lia).
  rewrite (RecordCodec_write_u32_be (zlen (key r))) by (unfold is_u32; lia).
  rewrite (RecordCodec_write_u64_be (offset r)) by done.
  rewrite (RecordCodec_write_u64_be (u64 _)) by apply u64_range.
  set (len := be_store 4 (24 + zlen (key r) + zlen (value r))). set (z4 := replicate 4 Byte.x00).
  set (off := be_store 8 (offset r)). set (ts := be_store 8 (u64 _)). set (kl := be_store 4 _).
  assert (zlen z4 = 4 /\ zlen len = 4 /\ zlen off = 8 /\ zlen ts = 8 /\ zlen kl = 4)
    as (Hz4 & Hlen & Hoff & Hts & Hkl) by (by unfold len, off, ts, kl; autorewrite with sflen).
  write_field (@nil bytes). write_field [len; z4]. write_field [len; z4; off].
  write_field [len; z4; off; ts].
  erewrite (write_at_chunk_if [len; z4; off; ts; kl]);
    [|reflexivity|cbn [concat]; zlen_solve|zlen_solve|done]. cbn [mbind option_bind app].
  erewrite (write_at_chunk_if [len; z4; off; ts; kl; key r]);
    [|reflexivity|cbn [concat]; zlen_solve|zlen_solve|done]. cbn [mbind option_bind app].
  assert (concat [len; z4; off; ts; kl; key r; value r] = (len ++ z4) ++ record_payload r ++ []) as Hc.
  { unfold record_payload. fold off ts kl. cbn [concat]. by rewrite !app_nil_r, <- app_assoc. }
  rewrite Hc at 1. rewrite subrange_app by zlen_solve. cbn [mbind option_bind].
  rewrite RecordCodec_write_u32_be by apply Crc32_calculate_range.
  write_field [len]. f_equal. unfold record_bytes, record_size.
  replace (28 + zlen (key r) + zlen (value r) - 4) with (24 + zlen (key r) + zlen (value r)) by lia.
  fold len. unfold record_payload at 2. fold off ts kl. cbn [concat]. by rewrite !app_nil_r.
Qed.

(** ** Decoding *)

Lemma read_u32_at buf n a v c :
  buf = a ++ be_store 4 v ++ c -> n = zlen a -> is_u32 v ->
  RecordCodec_read_u32 (zdrop n buf) = v.
Proof. intros -> -> Hv. rewrite zdrop_app_exact by done. by apply read_u32_be_store. Qed.

Lemma read_u64_at buf n a v c :
  buf = a ++ be_store 8 v ++ c -> n = zlen a -> is_u64 v ->
  RecordCodec_read_u64 (zdrop n buf) = v.
Proof. intros -> -> Hv. rewrite zdrop_app_exact by done. by apply read_u64_be_store. Qed.

(** Every buffer that passes the size checks is a header, a body of the length
    the header announces, and a rest; decoding it depends on the fields only. *)
Lemma RecordCodec_decode_layout len crc off ts kl body rest out :
  is_u32 crc -> is_u64 off -> is_u64 ts -> is_u32 kl ->
  len = 24 + zlen body -> len <= MAX_RECORD_SIZE ->
  let payload := be_store 8 off ++ be_store 8 ts ++ be_store 4 kl ++ body in
  let buffer := be_store 4 len ++ be_store 4 crc ++ payload ++ rest in
  RecordCodec_decode buffer out =
  if negb (crc =? Crc32_calculate payload) then
    Some (mkStatus Corrupt (str "CRC mismatch. Stored: " ++ std_to_string crc
            ++ str ", computed: " ++ std_to_string (Crc32_calculate payload)), out)
  else if len <? u32 (24 + kl) then
    Some (mkStatus Corrupt (str "Invalid key length in record header"),
          mkRecord off (i64 ts) (key out) (value out))
  else
    k ← (if 0 <? kl then subrange 28 kl buffer else Some []);
    v ← (if 0 <? u32 (len - 24 - kl) then subrange (28 + kl) (u32 (len - 24 - kl)) buffer else Some []);
    Some (Status_OK, mkRecord off (i64 ts) k v).
Proof.
  intros Hcrc Hoff Hts Hkl Hlen Hmax payload buffer.
  pose proof (zlen_nonneg body). pose proof (zlen_nonneg rest). unfold MAX_RECORD_SIZE in *.
  assert (zlen payload = len - 4) as Hp by (unfold payload; zlen_solve).
  assert (zlen buffer = 4 + len + zlen rest) as Hb by (unfold buffer; zlen_solve).
  unfold RecordCodec_decode. rewrite Hb.
  assert (RecordCodec_read_u32 buffer = len) as ->
    by (apply read_u32_be_store; unfold is_u32; lia).
  rewrite (u32_id (4 + len)), (u32_id (len - 4)) by (unfold is_u32; lia).
  unfold MAX_RECORD_SIZE. zdecide.
  assert (buffer = (be_store 4 len ++ be_store 4 crc) ++ payload ++ rest) as Hsplit
    by (unfold buffer; by rewrite <- app_assoc).
  rewrite Hsplit at 1. rewrite subrange_app by zlen_solve. cbn [mbind option_bind].
  rewrite (read_u32_at buffer 4 (be_store 4 len) crc (payload ++ rest)); [|done|zlen_solve|done].
  rewrite (read_u64_at buffer 8 (be_store 4 len ++ be_store 4 crc) off
    (be_store 8 ts ++ be_store 4 kl ++ body ++ rest));
    [|unfold buffer, payload; by rewrite <- !app_assoc|zlen_solve|done].
  rewrite (read_u64_at buffer 16 (be_store 4 len ++ be_store 4 crc ++ be_store 8 off) ts
    (be_store 4 kl ++ body ++ rest));
    [|unfold buffer, payload; by rewrite <- !app_assoc|zlen_solve|done].
  rewrite (read_u32_at buffer 24 (be_store 4 len ++ be_store 4 crc ++ be_store 8 off ++ be_store 8 ts)
    kl (body ++ rest)); [done|unfold buffer, payload; by rewrite <- !app_assoc|zlen_solve|done].
Qed.

(** Decoding what [record_bytes] lays out gives the record back, whatever
    follows it in the buffer. *)
Lemma RecordCodec_decode_bytes r rest out :
  Record_wf r -> RecordCodec_decode (record_bytes r ++ rest) out = Some (Status_OK, r).
Proof.
  intros (Ho & Ht & Hs).
  pose proof (zlen_nonneg (key r)) as Hk. pose proof (zlen_nonneg (value r)) as Hv.
  unfold record_size, MAX_RECORD_SIZE in *.
  unfold record_bytes. rewrite <- !app_assoc. unfold record_payload at 2.
  pose proof (RecordCodec_decode_layout (record_size r - 4) (Crc32_calculate (record_payload r))
    (offset r) (u64 (timestamp_ms r)) (zlen (key r)) (key r ++ value r) rest out) as ->.
  2: apply Crc32_calculate_range. 2: done. 2: apply u64_range. 2: unfold is_u32; lia.
  2: unfold record_size; zlen_solve. 2: unfold record_size, MAX_RECORD_SIZE; lia.
  fold (record_payload r). rewrite Z.eqb_refl. cbn [negb]. unfold record_size.
  rewrite (u32_id (24 + _)) by (unfold is_u32; lia).
  replace (28 + zlen (key r) + zlen (value r) - 4 - 24 - zlen (key r)) with (zlen (value r)) by lia.
  rewrite u32_id by (unfold is_u32; lia). zdecide.
  set (hd := be_store 4 (28 + zlen (key r) + zlen (value r) - 4) ++ be_store 4 (Crc32_calculate (record_payload r)) ++
             be_store 8 (offset r) ++ be_store 8 (u64 (timestamp_ms r)) ++ be_store 4 (zlen (key r))).
  assert (zlen hd = 28) as Hhd by (unfold hd; zlen_solve).
  match goal with |- context [subrange 28 _ ?b] =>
    replace b with (hd ++ key r ++ value r ++ rest)
      by (unfold hd, record_payload; by rewrite <- !app_assoc) end.
  assert ((if 0 <? zlen (key r) then subrange 28 (zlen (key r)) (hd ++ key r ++ value r ++ rest)
           else Some []) = Some (key r)) as ->.
  { destruct (Z.ltb_spec 0 (zlen (key r))); [by apply subrange_app|].
    by rewrite (zlen_zero (key r)) by lia. }
  cbn [mbind option_bind].
  assert ((if 0 <? zlen (value r) then subrange (28 + zlen (key r)) (zlen (value r))
           (hd ++ key r ++ value r ++ rest) else Some []) = Some (value r)) as ->.
  { destruct (Z.ltb_spec 0 (zlen (value r))).
    - rewrite (app_assoc hd). apply subrange_app; zlen_solve.
    - by rewrite (zlen_zero (value r)) by lia. }
  cbn [mbind option_bind]. rewrite i64_u64 by done. by destruct r.
Qed.

(** A buffer the size checks accept, split into its fields. *)
Lemma record_layout buf :
  28 <= zlen buf -> 24 <= RecordCodec_read_u32 buf -> 4 + RecordCodec_read_u32 buf <= zlen buf ->
  exists crc off ts kl body rest,
    is_u32 crc /\ is_u64 off /\ is_u64 ts /\ is_u32 kl /\
    RecordCodec_read_u32 buf = 24 + zlen body /\
    buf = be_store 4 (RecordCodec_read_u32 buf) ++ be_store 4 crc ++
          (be_store 8 off ++ be_store 8 ts ++ be_store 4 kl ++ body) ++ rest.
Proof.
  intros H28 H24 Hsz. set (len := RecordCodec_read_u32 buf) in *.
  assert (len = be_load (take 4 buf)) as Hlen.
  { apply RecordCodec_read_u32_be. unfold zlen in *. lia. }
  assert (forall n (l : bytes), (n <= length l)%nat ->
    l = be_store n (be_load (take n l)) ++ drop n l /\
    0 <= be_load (take n l) < 256 ^ Z.of_nat n) as Hchunk.
  { intros n l Hn. assert (length (take n l) = n) as Hln by (rewrite length_take; lia). split.
    - rewrite <- Hln at 1. rewrite be_store_load. symmetry. apply take_drop.
    - pose proof (be_load_range (take n l)) as Hr. unfold zlen in Hr. by rewrite Hln in Hr. }
  unfold zlen in H28, Hsz.
  destruct (Hchunk 4%nat buf) as [E0 R0]; [lia|].
  set (l1 := drop 4 buf) in *.
  assert (length l1 = length buf - 4)%nat as L1 by (unfold l1; rewrite length_drop; lia).
  destruct (Hchunk 4%nat l1) as [E1 R1]; [lia|]. set (l2 := drop 4 l1) in *.
  assert (length l2 = length buf - 8)%nat as L2 by (unfold l2; rewrite length_drop; lia).
  destruct (Hchunk 8%nat l2) as [E2 R2]; [lia|]. set (l3 := drop 8 l2) in *.
  assert (length l3 = length buf - 16)%nat as L3 by (unfold l3; rewrite length_drop; lia).
  destruct (Hchunk 8%nat l3) as [E3 R3]; [lia|]. set (l4 := drop 8 l3) in *.
  assert (length l4 = length buf - 24)%nat as L4 by (unfold l4; rewrite length_drop; lia).
  destruct (Hchunk 4%nat l4) as [E4 R4]; [lia|]. set (l5 := drop 4 l4) in *.
  assert (length l5 = length buf - 28)%nat as L5 by (unfold l5; rewrite length_drop; lia).
  exists (be_load (take 4 l1)), (be_load (take 8 l2)), (be_load (take 8 l3)), (be_load (take 4 l4)),
    (ztake (len - 24) l5), (zdrop (len - 24) l5).
  split_and!; [done..| |].
  - rewrite zlen_ztake by lia. unfold zlen. lia.
  - rewrite <- !app_assoc, ztake_zdrop, <- E4, <- E3, <- E2, <- E1, Hlen. done.
Qed.

(** The three ways a decode of an accepted header with a matching checksum can
    end: the key length is rejected, it wraps around and the copy leaves the
    buffer, or the buffer starts with the encoding of the result. *)
Lemma RecordCodec_decode_body len off ts kl body rest :
  is_u64 off -> is_u64 ts -> is_u32 kl -> len = 24 + zlen body -> len <= MAX_RECORD_SIZE ->
  let payload := be_store 8 off ++ be_store 8 ts ++ be_store 4 kl ++ body in
  let buffer := be_store 4 len ++ be_store 4 (Crc32_calculate payload) ++ payload ++ rest in
  zlen buffer < 2 ^ 32 ->
  (kl + 24 < 2 ^ 32 -> 24 + kl <= len ->
   exists r, Record_wf r /\ record_size r = 4 + len /\ offset r = off /\
     record_bytes r = be_store 4 len ++ be_store 4 (Crc32_calculate payload) ++ payload) /\
  (2 ^ 32 <= kl + 24 -> forall out, RecordCodec_decode buffer out = None).
Proof.
  intros Hoff Hts Hkl Hlen Hmax payload buffer Hb. unfold is_u32 in Hkl.
  pose proof (zlen_nonneg body). split.
  - intros Hk1 Hk2.
    exists (mkRecord off (i64 ts) (ztake kl body) (zdrop kl body)).
    assert (zlen (ztake kl body) = kl) as Hzk by (rewrite zlen_ztake by lia; lia).
    assert (zlen (zdrop kl body) = zlen body - kl) as Hzv by (rewrite zlen_zdrop by lia; lia).
    assert (record_payload (mkRecord off (i64 ts) (ztake kl body) (zdrop kl body)) = payload) as Hpay.
    { unfold record_payload, payload. cbn [offset timestamp_ms key value].
      by rewrite u64_i64, Hzk, ztake_zdrop. }
    unfold Record_wf, record_bytes, record_size. rewrite Hpay. cbn [offset timestamp_ms key value].
    rewrite Hzk, Hzv. split_and!; auto with sf; try lia.
    do 2 f_equal; lia.
  - intros Hk out. unfold buffer, payload.
    rewrite (RecordCodec_decode_layout len _ off ts kl body rest out);
      [|apply Crc32_calculate_range|done..].
    rewrite Z.eqb_refl. cbn [negb].
    assert (u32 (24 + kl) = 24 + kl - 2 ^ 32) as ->.
    { unfold u32. symmetry. apply (Z.mod_unique _ _ 1); lia. }
    zdecide. fold payload. fold buffer.
    assert (subrange 28 kl buffer = None) as ->; [|done]. unfold subrange. by zdecide.
Qed.

(** A successful decode of a buffer shorter than 4 GiB: the buffer starts with
    the encoding of the record returned. *)
Lemma RecordCodec_decode_sound buf out st r :
  zlen buf < 2 ^ 32 -> RecordCodec_decode buf out = Some (st, r) -> m_code st = OK ->
  Record_wf r /\ exists rest, buf = record_bytes r ++ rest.
Proof.
  intros Hb Hd Hst.
  assert (28 <= zlen buf /\ 24 <= RecordCodec_read_u32 buf <= MAX_RECORD_SIZE /\
    4 + RecordCodec_read_u32 buf <= zlen buf) as (H28 & H24 & Hsz).
  { unfold RecordCodec_decode in Hd.
    destruct (Z.ltb_spec (zlen buf) 28); [by injection Hd as <- <-|].
    destruct (Z.ltb_spec (RecordCodec_read_u32 buf) 24); [by injection Hd as <- <-|].
    destruct (Z.ltb_spec MAX_RECORD_SIZE (RecordCodec_read_u32 buf)); [by injection Hd as <- <-|].
    rewrite u32_id in Hd by (unfold is_u32, MAX_RECORD_SIZE in *; lia).
    destruct (Z.ltb_spec (zlen buf) (4 + RecordCodec_read_u32 buf)); [by injection Hd as <- <-|].
    lia. }
  destruct (record_layout buf) as (crc & off & ts & kl & body & rest & Hc & Ho & Ht & Hk & Hl & E);
    [lia..|].
  set (len := RecordCodec_read_u32 buf) in *. clearbody len. subst buf.
  rewrite RecordCodec_decode_layout in Hd; [|lia || done..].
  destruct (Z.eqb_spec crc (Crc32_calculate (be_store 8 off ++ be_store 8 ts ++ be_store 4 kl ++ body)))
    as [->|]; cbn [negb] in Hd; [|by injection Hd as <- <-].
  destruct (RecordCodec_decode_body len off ts kl body rest) as [Hgood Hbad]; [lia || done..|].
  destruct (decide (2 ^ 32 <= kl + 24)) as [Hbig|Hsmall].
  - specialize (Hbad Hbig out).
    rewrite RecordCodec_decode_layout in Hbad; [|lia || done || apply Crc32_calculate_range..].
    rewrite Z.eqb_refl in Hbad. cbn [negb] in Hbad. congruence.
  - rewrite (u32_id (24 + kl)) in Hd by (unfold is_u32 in *; lia).
    destruct (Z.ltb_spec len (24 + kl)); [by injection Hd as <- <-|].
    destruct Hgood as (r' & Hwf & Hsize & Hoff & Hbytes); [lia..|].
    pose proof (RecordCodec_decode_bytes r' rest out Hwf) as Hdec.
    rewrite Hbytes, <- !app_assoc in Hdec.
    rewrite <- !app_assoc in Hd.
    pose proof (RecordCodec_decode_layout len (Crc32_calculate
      (be_store 8 off ++ be_store 8 ts ++ be_store 4 kl ++ body)) off ts kl body rest out) as Hlay.
    cbn zeta in Hlay. rewrite <- !app_assoc in Hlay.
    rewrite Hlay in Hdec; [|lia || done || apply Crc32_calculate_range..].
    rewrite Z.eqb_refl in Hdec. cbn [negb] in Hdec.
    rewrite (u32_id (24 + kl)), (proj2 (Z.ltb_ge _ _)) in Hdec by (unfold is_u32 in *; lia).
    rewrite Hd in Hdec. injection Hdec as _ ->.
    split; [done|]. exists rest. rewrite Hbytes, <- !app_assoc. done.
Qed.

(** When the copy of the key leaves the buffer. *)
Lemma RecordCodec_decode_None buf out :
  zlen buf < 2 ^ 32 ->
  (RecordCodec_decode buf out = None <->
   28 <= zlen buf /\ 24 <= RecordCodec_read_u32 buf <= MAX_RECORD_SIZE /\
   4 + RecordCodec_read_u32 buf <= zlen buf /\
   RecordCodec_read_u32 (zdrop 4 buf) =
     Crc32_calculate (ztake (RecordCodec_read_u32 buf - 4) (zdrop 8 buf)) /\
   2 ^ 32 - 24 <= RecordCodec_read_u32 (zdrop 24 buf)).
Proof.
  intros Hb.
  assert (forall P : Prop, (28 <= zlen buf -> 24 <= RecordCodec_read_u32 buf <= MAX_RECORD_SIZE ->
    4 + RecordCodec_read_u32 buf <= zlen buf -> (RecordCodec_decode buf out = None <-> P)) ->
    (RecordCodec_decode buf out = None <->
     28 <= zlen buf /\ 24 <= RecordCodec_read_u32 buf <= MAX_RECORD_SIZE /\
     4 + RecordCodec_read_u32 buf <= zlen buf /\ P)) as Hguard.
  { intros P HP. split; [|intros (?&?&?&?); by apply HP].
    intros Hn. pose proof Hn as Hn2. unfold RecordCodec_decode in Hn.
    destruct (Z.ltb_spec (zlen buf) 28); [done|].
    destruct (Z.ltb_spec (RecordCodec_read_u32 buf) 24); [done|].
    destruct (Z.ltb_spec MAX_RECORD_SIZE (RecordCodec_read_u32 buf)); [done|].
    rewrite u32_id in Hn by (unfold is_u32, MAX_RECORD_SIZE in *; lia).
    destruct (Z.ltb_spec (zlen buf) (4 + RecordCodec_read_u32 buf)); [done|].
    split_and!; [lia..|]. apply HP; [lia..|done]. }
  apply Hguard. clear Hguard. intros H28 H24 Hsz.
  destruct (record_layout buf) as (crc & off & ts & kl & body & rest & Hc & Ho & Ht & Hk & Hl & E);
    [lia..|].
  set (len := RecordCodec_read_u32 buf) in *. clearbody len.
  set (payload := be_store 8 off ++ be_store 8 ts ++ be_store 4 kl ++ body) in E.
  assert (zlen payload = len - 4) as Hp by (unfold payload; zlen_solve).
  assert (RecordCodec_read_u32 (zdrop 4 buf) = crc) as ->.
  { eapply read_u32_at; [exact E|zlen_solve|done]. }
  assert (RecordCodec_read_u32 (zdrop 24 buf) = kl) as ->.
  { eapply (read_u32_at _ _ (be_store 4 len ++ be_store 4 crc ++ be_store 8 off ++ be_store 8 ts));
      [rewrite E; unfold payload; by rewrite <- !app_assoc|zlen_solve|done]. }
  assert (ztake (len - 4) (zdrop 8 buf) = payload) as ->.
  { rewrite E, app_assoc, zdrop_app_exact by zlen_solve. by apply ztake_app_exact. }
  pose proof (RecordCodec_decode_layout len crc off ts kl body rest out) as Hlay.
  cbn zeta in Hlay. fold payload in Hlay. rewrite <- E in Hlay.
  destruct (Z.eqb_spec crc (Crc32_calculate payload)) as [Hcrc|Hcrc]; cbn [negb] in Hlay;
    [|rewrite Hlay by (lia || done); split; [done|intros [? _]; done]].
  destruct (RecordCodec_decode_body len off ts kl body rest) as [Hgood Hbad]; [lia || done..| |].
  { fold payload. rewrite <- Hcrc, <- E. done. }
  fold payload in Hgood, Hbad. rewrite <- Hcrc, <- E in Hbad.
  split.
  - intros Hn. split; [done|]. destruct (decide (2 ^ 32 <= kl + 24)); [lia|exfalso].
    rewrite Hn in Hlay. rewrite (u32_id (24 + kl)) in Hlay by (unfold is_u32 in *; lia).
    destruct (Z.ltb_spec len (24 + kl)); [by specialize (Hlay ltac:(lia || done) ltac:(done) ltac:(done) ltac:(done) ltac:(done) ltac:(lia))|].
    destruct Hgood as (r & Hwf & _ & _ & Hbytes); [lia..|].
    pose proof (RecordCodec_decode_bytes r rest out Hwf) as Hdec.
    rewrite Hbytes, <- !app_assoc, <- Hcrc, <- E in Hdec. congruence.
  - intros [_ Hbig]. apply Hbad. lia.
Qed.

(** ** Properties *)

(** C27: every record whose fields fit their types and whose encoding fits the
    1 MiB limit is encoded, in [record_size] bytes, and decoding those bytes,
    whatever follows them in the buffer, gives the record back. *)
Theorem record_roundtrip r rest out :
  is_u64 (offset r) -> is_i64 (timestamp_ms r) -> record_size r <= MAX_RECORD_SIZE ->
  exists bs, RecordCodec_encode r = Some bs /\ zlen bs = record_size r /\
    RecordCodec_decode (bs ++ rest) out = Some (Status_OK, r).
Proof.
  intros Ho Ht Hs. exists (record_bytes r).
  split_and!; [apply RecordCodec_encode_spec; [done|unfold MAX_RECORD_SIZE in *; lia]
    |apply zlen_record_bytes|].
  apply RecordCodec_decode_bytes. unfold Record_wf. split_and!; [done|done|lia].
Qed.

Example record_roundtrip_witness :
  exists bs, RecordCodec_encode (mkRecord 7 (-5) (str "k1") (str "hello")) = Some bs /\
    zlen bs = 35 /\
    RecordCodec_decode (bs ++ str "tail") empty_Record
      = Some (Status_OK, mkRecord 7 (-5) (str "k1") (str "hello")).
Proof.
  apply (record_roundtrip (mkRecord 7 (-5) (str "k1") (str "hello")) (str "tail") empty_Record);
    [split; vm_compute; congruence|split; vm_compute; congruence|vm_compute; congruence].
Defined.

(** The decoder accepts only encodings: when [decode] returns OK on a buffer
    shorter than 4 GiB, the buffer starts with exactly the bytes [encode]
    produces for the record it returned. *)
Theorem record_decode_sound buf out st r :
  zlen buf < 2 ^ 32 -> RecordCodec_decode buf out = Some (st, r) -> m_code st = OK ->
  exists bs rest, RecordCodec_encode r = Some bs /\ buf = bs ++ rest.
Proof.
  intros Hb Hd Hst. destruct (RecordCodec_decode_sound buf out st r Hb Hd Hst) as [Hwf [rest E]].
  exists (record_bytes r), rest. split; [|done].
  destruct Hwf as (Ho & _ & Hs). apply RecordCodec_encode_spec; [done|].
  unfold MAX_RECORD_SIZE in *. lia.
Qed.

Example record_decode_sound_witness :
  exists bs rest,
    RecordCodec_encode (mkRecord 3 9 (str "a") (str "b")) = Some bs /\
    record_bytes (mkRecord 3 9 (str "a") (str "b")) ++ str "zz" = bs ++ rest.
Proof.
  apply (record_decode_sound _ empty_Record Status_OK);
    [vm_compute; congruence|vm_compute; reflexivity|reflexivity].
Defined.

(** C28: any corruption confined to four consecutive bytes of the part of a
    stored record its checksum covers makes [decode] return Corrupt and leave
    the output record untouched. *)
Theorem record_corruption_detected r hd pre w1 w2 post rest out :
  Record_wf r -> RecordCodec_encode r = Some (hd ++ pre ++ w1 ++ post) -> zlen hd = 8 ->
  length w1 = length w2 -> (length w1 <= 4)%nat -> w1 <> w2 ->
  exists msg, RecordCodec_decode (hd ++ (pre ++ w2 ++ post) ++ rest) out
              = Some (mkStatus Corrupt msg, out).
Proof.
  intros Hwf Henc Hhd Hl H4 Hne. destruct Hwf as (Ho & Ht & Hs).
  pose proof (record_size_ge r) as H28. unfold MAX_RECORD_SIZE in *.
  rewrite RecordCodec_encode_spec in Henc by (done || lia). injection Henc as Henc.
  unfold record_bytes in Henc. rewrite app_assoc in Henc.
  apply app_inj_1 in Henc as [Hhd' Hpay];
    [|apply Nat2Z.inj; change (zlen (be_store 4 (record_size r - 4) ++ be_store 4
        (Crc32_calculate (record_payload r))) = zlen hd); zlen_solve].
  assert (zlen (pre ++ w2 ++ post) = record_size r - 8) as Hw2.
  { rewrite <- zlen_record_payload, Hpay. unfold zlen. rewrite !length_app. lia. }
  unfold RecordCodec_decode. rewrite zlen_app, zlen_app, Hw2, Hhd.
  pose proof (zlen_nonneg rest). rewrite <- Hhd', <- app_assoc.
  rewrite read_u32_be_store by (unfold is_u32; lia).
  rewrite (u32_id (4 + _)), (u32_id (_ - 4)) by (unfold is_u32; lia).
  unfold MAX_RECORD_SIZE. zdecide.
  rewrite (zdrop_app_exact (be_store 4 _)) by zlen_solve.
  rewrite read_u32_be_store by apply Crc32_calculate_range.
  rewrite app_assoc, (subrange_app _ (pre ++ w2 ++ post) rest 8) by zlen_solve. cbn [mbind option_bind].
  destruct (Z.eqb_spec (Crc32_calculate (record_payload r)) (Crc32_calculate (pre ++ w2 ++ post)))
    as [Heq|]; cbn [negb]; [|by eexists].
  exfalso. apply Hne. rewrite Hpay in Heq. by apply Crc32_calculate_burst in Heq.
Qed.

Example record_corruption_detected_witness :
  exists msg,
    RecordCodec_decode
      (take 8 (record_bytes (mkRecord 3 9 (str "a") (str "bc"))) ++
       (take 20 (record_payload (mkRecord 3 9 (str "a") (str "bc"))) ++ str "X" ++ str "bc") ++ [])
      empty_Record = Some (mkStatus Corrupt msg, empty_Record).
Proof.
  apply (record_corruption_detected (mkRecord 3 9 (str "a") (str "bc")) _ _ (str "a") (str "X"));
    [apply (bool_decide_unpack _); vm_compute; exact I|vm_compute; reflexivity
    |reflexivity|reflexivity|vm_compute; lia|vm_compute; congruence].
Defined.

(** [decode] reads outside the buffer exactly when the header and the
    checksum are accepted and the key length field is within 24 of 2^32: the
    guard [24 + key_len > length] is computed in 32 bits and wraps around. *)
Theorem record_decode_out_of_bounds buf out :
  zlen buf < 2 ^ 32 ->
  (RecordCodec_decode buf out = None <->
   28 <= zlen buf /\ 24 <= RecordCodec_read_u32 buf <= MAX_RECORD_SIZE /\
   4 + RecordCodec_read_u32 buf <= zlen buf /\
   RecordCodec_read_u32 (zdrop 4 buf) =
     Crc32_calculate (ztake (RecordCodec_read_u32 buf - 4) (zdrop 8 buf)) /\
   2 ^ 32 - 24 <= RecordCodec_read_u32 (zdrop 24 buf)).
Proof. apply RecordCodec_decode_None. Qed.

(** A 28-byte record that triggers it: length 24, key length 2^32 - 24. *)
Definition overflow_record : bytes :=
  let payload := be_store 8 0 ++ be_store 8 0 ++ be_store 4 (2 ^ 32 - 24) in
  be_store 4 24 ++ be_store 4 (Crc32_calculate payload) ++ payload.

Example record_decode_out_of_bounds_witness :
  zlen overflow_record = 28 /\ RecordCodec_decode overflow_record empty_Record = None.
Proof.
  split; [reflexivity|].
  apply (record_decode_out_of_bounds overflow_record empty_Record);
    [vm_compute; reflexivity|].
  vm_compute. split_and!; congruence.
Defined.
