(* ===== verification/FrameCodec.v ===== *)
(** * FrameCodec: the frame format of the wire protocol
    (src/src/FrameCodec.cpp, include/streamforge/FrameCodec.hpp)

    The byte-order functions are Winsock's and not part of the repository: they
    are the operations of the class [Winsock], whose laws state their documented
    behaviour (network order is big-endian).  [x86_winsock] shows that the laws
    can hold. *)
From S2P Require Import Prelude StdString Status RecordCodec.

Definition MAX_FRAME_LENGTH : Z := 1024 * 1024.
Definition HEADER_SIZE : Z := 5.

(** namespace [MessageType] *)
Definition PING : Z := 0x01.
Definition ECHO : Z := 0x02.
Definition SHUTDOWN : Z := 0x05.
Definition CREATE_TOPIC : Z := 0x10.
Definition PRODUCE : Z := 0x11.
Definition FETCH : Z := 0x12.
Definition LIST_TOPICS : Z := 0x13.
Definition DESCRIBE_TOPIC : Z := 0x14.
Definition PONG : Z := 0x81.
Definition ECHO_REPLY : Z := 0x82.
Definition SHUTDOWN_OK : Z := 0x85.
Definition CREATE_TOPIC_OK : Z := 0x90.
Definition PRODUCE_OK : Z := 0x91.
Definition FETCH_OK : Z := 0x92.
Definition TOPICS : Z := 0x93.
Definition TOPIC_DESCRIPTION : Z := 0x94.
Definition JOIN_GROUP : Z := 0x20.
Definition HEARTBEAT : Z := 0x21.
Definition LEAVE_GROUP : Z := 0x22.
Definition COMMIT_OFFSET : Z := 0x23.
Definition FETCH_OFFSET : Z := 0x24.
Definition DESCRIBE_GROUP : Z := 0x25.
Definition JOIN_GROUP_OK : Z := 0xA0.
Definition HEARTBEAT_OK : Z := 0xA1.
Definition LEAVE_GROUP_OK : Z := 0xA2.
Definition COMMIT_OK : Z := 0xA3.
Definition OFFSETS : Z := 0xA4.
Definition GROUP_DESCRIPTION : Z := 0xA5.
Definition MSG_ERROR : Z := 0xFF.

(** namespace [ErrorCode] *)
Definition UNKNOWN_TYPE : Z := 1.
Definition FRAME_TOO_LARGE : Z := 2.
Definition MALFORMED_FRAME : Z := 3.
Definition UNKNOWN_TOPIC : Z := 4.
Definition TOPIC_ALREADY_EXISTS : Z := 5.
Definition INVALID_TOPIC_NAME : Z := 6.
Definition INVALID_PARTITION : Z := 7.
Definition OFFSET_OUT_OF_RANGE : Z := 8.
Definition RECORD_TOO_LARGE : Z := 9.
Definition MALFORMED_BODY : Z := 10.
Definition CORRUPT_DATA : Z := 11.
Definition INTERNAL_ERROR : Z := 12.
Definition INVALID_ARGUMENT : Z := 13.
Definition UNKNOWN_GROUP_OR_MEMBER : Z := 14.
Definition ILLEGAL_GENERATION : Z := 15.
Definition PARTITION_NOT_ASSIGNED : Z := 16.

Record Frame := mkFrame {
  frame_length : Z;   (* uint32_t: bytes that follow the length field *)
  frame_type : Z;     (* uint8_t *)
  request_id : Z;     (* uint32_t *)
  body : bytes;
}.

#[global] Instance Frame_eq_dec : EqDecision Frame.
Proof. solve_decision. Defined.

Definition empty_Frame : Frame := mkFrame 0 0 0 [].

(** ** Byte order *)

Class Winsock := {
  ntohl : Z -> Z;
  htonl : Z -> Z;
  ntohs : Z -> Z;
  htons : Z -> Z;
  ntohl_be : forall bs : bytes, length bs = 4%nat -> ntohl (le_load bs) = be_load bs;
  htonl_be : forall v, is_u32 v -> le_store 4 (htonl v) = be_store 4 v;
  ntohs_be : forall bs : bytes, length bs = 2%nat -> ntohs (le_load bs) = be_load bs;
  htons_be : forall v, is_u16 v -> le_store 2 (htons v) = be_store 2 v;
}.

Section codec.
Context {W : Winsock}.

Definition FrameCodec_read_u32 (buffer : bytes) : Z := ntohl (le_load (take 4 buffer)).
Definition FrameCodec_write_u32 (v : Z) : bytes := le_store 4 (htonl v).
Definition FrameCodec_read_u16 (buffer : bytes) : Z := ntohs (le_load (take 2 buffer)).
Definition FrameCodec_write_u16 (v : Z) : bytes := le_store 2 (htons v).

Definition FrameCodec_encode (frame : Frame) : option bytes :=
  let payload_len := u32 (HEADER_SIZE + u32 (zlen (body frame))) in
  let out := replicate (Z.to_nat (u32 (4 + payload_len))) Byte.x00 in
  out ← write_at 0 (FrameCodec_write_u32 payload_len) out;
  out ← write_at 4 [byte_of_Z (frame_type frame)] out;
  out ← write_at 5 (FrameCodec_write_u32 (request_id frame)) out;
  if 0 <? zlen (body frame) then write_at 9 (body frame) out else Some out.

Definition FrameCodec_create_error_frame (request_id error_code : Z) (message : bytes) : Frame :=
  let body := FrameCodec_write_u16 error_code ++ message in
  mkFrame (u32 (HEADER_SIZE + u32 (zlen body))) MSG_ERROR request_id body.

Definition FrameCodec_create_pong_frame (request_id : Z) : Frame :=
  mkFrame HEADER_SIZE PONG request_id [].

Definition FrameCodec_create_echo_reply_frame (request_id : Z) (body : bytes) : Frame :=
  mkFrame (u32 (HEADER_SIZE + u32 (zlen body))) ECHO_REPLY request_id body.

(** [None] when the C++ function returns false. *)
Definition FrameCodec_parse_error_frame (frame : Frame) : option (Z * bytes) :=
  if negb (frame_type frame =? MSG_ERROR) || (zlen (body frame) <? 2) then None
  else Some (FrameCodec_read_u16 (body frame), drop 2 (body frame)).

(** ** Reference layout *)

Definition frame_bytes (f : Frame) : bytes :=
  be_store 4 (5 + zlen (body f)) ++ byte_of_Z (frame_type f) :: be_store 4 (request_id f) ++ body f.

(** A frame that fits its types and the 1 MiB limit, with the length field set. *)
Definition Frame_wf (f : Frame) : Prop :=
  frame_length f = 5 + zlen (body f) /\ frame_length f <= MAX_FRAME_LENGTH /\
  is_u8 (frame_type f) /\ is_u32 (request_id f).

#[global] Instance Frame_wf_dec f : Decision (Frame_wf f).
Proof. unfold Frame_wf, is_u8, is_u32. apply _. Defined.

Lemma FrameCodec_write_u32_be v : is_u32 v -> FrameCodec_write_u32 v = be_store 4 v.
Proof. apply htonl_be. Qed.
Lemma FrameCodec_write_u16_be v : is_u16 v -> FrameCodec_write_u16 v = be_store 2 v.
Proof. apply htons_be. Qed.

Lemma FrameCodec_read_u32_be l :
  (4 <= length l)%nat -> FrameCodec_read_u32 l = be_load (take 4 l).
Proof. intros. apply ntohl_be. rewrite length_take. lia. Qed.
Lemma FrameCodec_read_u16_be l :
  (2 <= length l)%nat -> FrameCodec_read_u16 l = be_load (take 2 l).
Proof. intros. apply ntohs_be. rewrite length_take. lia. Qed.

Lemma frame_read_u32 v l : is_u32 v -> FrameCodec_read_u32 (be_store 4 v ++ l) = v.
Proof.
  intros Hv. rewrite FrameCodec_read_u32_be by (rewrite length_app, length_be_store; lia).
  rewrite take_app_length' by (by rewrite length_be_store). by apply be_load_store_id.
Qed.
Lemma frame_read_u16 v l : is_u16 v -> FrameCodec_read_u16 (be_store 2 v ++ l) = v.
Proof.
  intros Hv. rewrite FrameCodec_read_u16_be by (rewrite length_app, length_be_store; lia).
  rewrite take_app_length' by (by rewrite length_be_store). by apply be_load_store_id.
Qed.

Lemma FrameCodec_read_u32_range l : (4 <= length l)%nat -> is_u32 (FrameCodec_read_u32 l).
Proof.
  intros Hl. rewrite FrameCodec_read_u32_be by done.
  pose proof (be_load_range (take 4 l)) as H. unfold zlen in H.
  rewrite length_take, Nat.min_l in H by done. exact H.
Qed.

Lemma zlen_frame_bytes f : zlen (frame_bytes f) = 9 + zlen (body f).
Proof. unfold frame_bytes. zlen_solve. Qed.

Lemma FrameCodec_encode_spec f :
  is_u32 (request_id f) -> zlen (body f) + 9 < 2 ^ 32 ->
  FrameCodec_encode f = Some (frame_bytes f).
Proof.
  intros Hr Hs. unfold FrameCodec_encode, HEADER_SIZE. pose proof (zlen_nonneg (body f)).
  rewrite (u32_id (zlen (body f))) by (unfold is_u32; lia).
  rewrite (u32_id (5 + _)), (u32_id (4 + _)) by (unfold is_u32; lia).
  replace (replicate (Z.to_nat (4 + (5 + zlen (body f)))) Byte.x00)
    with (concat [replicate 4 Byte.x00; replicate 1 Byte.x00; replicate 4 Byte.x00;
                  replicate (Z.to_nat (zlen (body f))) Byte.x00]).
  2: { cbn [concat]. rewrite app_nil_r, <- !replicate_add. f_equal. lia. }
  rewrite !FrameCodec_write_u32_be by (unfold is_u32 in *; lia).
  write_field (@nil bytes).
  write_field [be_store 4 (5 + zlen (body f))].
  write_field [be_store 4 (5 + zlen (body f)); [byte_of_Z (frame_type f)]].
  erewrite (write_at_chunk_if [be_store 4 (5 + zlen (body f)); [byte_of_Z (frame_type f)];
     be_store 4 (request_id f)]);
    [|reflexivity|cbn [concat]; zlen_solve|zlen_solve|done]. cbn [app].
  unfold frame_bytes. cbn [concat app]. by rewrite app_nil_r.
Qed.

Lemma parse_create_error_frame id code msg :
  is_u16 code ->
  FrameCodec_parse_error_frame (FrameCodec_create_error_frame id code msg) = Some (code, msg).
Proof.
  intros Hc. unfold FrameCodec_parse_error_frame, FrameCodec_create_error_frame.
  cbn [frame_type body]. rewrite Z.eqb_refl. cbn [negb orb].
  rewrite FrameCodec_write_u16_be, zlen_app by done. pose proof (zlen_nonneg msg).
  rewrite zlen_be_store. zdecide. rewrite frame_read_u16 by done.
  by rewrite drop_app_length' by (by rewrite length_be_store).
Qed.

End codec.

(** A little-endian host: the four functions swap bytes. *)
Definition bswap16 (v : Z) : Z := Z.lor (Z.shiftl (Z.land v 0xFF) 8) (Z.shiftr (Z.land v 0xFF00) 8).

Lemma bswap16_load l : length l = 2%nat -> bswap16 (le_load l) = be_load l.
Proof.
  intros Hl. destruct l as [|b0 [|b1 [|]]]; try discriminate Hl.
  unfold bswap16. change 0xFF with (255 * 2 ^ 0). change 0xFF00 with (255 * 2 ^ 8).
  rewrite !land_byte_mask by lia. bytes_of_word [b0;b1] 2%nat.
  cbn [lookup_total list_lookup_total].
  rewrite !shiftl_byte, !shiftr_byte by lia.
  pose proof (byte_to_Z_range b0). pose proof (byte_to_Z_range b1).
  change (0 + 8) with 8. change (8 - 8) with 0.
  rewrite lor_acc by (first [lia|exists (byte_to_Z b0); lia]).
  unfold be_load. cbn [rev app le_load]. lia.
Qed.

#[export] Program Instance x86_winsock : Winsock := {
  ntohl := bswap32; htonl := bswap32; ntohs := bswap16; htons := bswap16;
}.
Next Obligation. apply bswap32_load. Qed.
Next Obligation. intros v Hv. apply bswap_store; [apply bswap32_load|done]. Qed.
Next Obligation. apply bswap16_load. Qed.
Next Obligation. intros v Hv. apply bswap_store; [apply bswap16_load|done]. Qed.
