(* ===== verification/FrameAssembler.v ===== *)
(** * FrameAssembler: reassembly of frames from a byte stream
    (src/src/FrameAssembler.cpp)

    The state is the buffer and the read offset.  [pending] abstracts it to the
    bytes not yet consumed and [parse_step] is the specification of one
    extraction on them; [extract_next_frame] refines it, including compaction.
    The main result is that however the stream is cut into chunks, the frames
    delivered are the frames sent. *)
From S2P Require Import Prelude StdString Status RecordCodec FrameCodec.

Inductive FrameExtractResult :=
| FrameReady
| NeedMoreData
| ErrorLengthTooSmall
| ErrorLengthTooLarge.

#[global] Instance FrameExtractResult_eq_dec : EqDecision FrameExtractResult.
Proof. solve_decision. Defined.

Record FrameAssembler := mkAssembler {
  m_buffer : bytes;
  m_read_offset : Z;
}.

Definition empty_assembler : FrameAssembler := mkAssembler [] 0.

Definition FrameAssembler_push_bytes (a : FrameAssembler) (data : bytes) : FrameAssembler :=
  if zlen data =? 0 then a else mkAssembler (m_buffer a ++ data) (m_read_offset a).

Definition FrameAssembler_compact_if_needed (a : FrameAssembler) : FrameAssembler :=
  if m_read_offset a =? zlen (m_buffer a) then mkAssembler [] 0
  else if 64 * 1024 <? m_read_offset a
       then mkAssembler (zdrop (m_read_offset a) (m_buffer a)) 0
       else a.

Definition FrameAssembler_buffered_bytes (a : FrameAssembler) : Z :=
  u64 (zlen (m_buffer a) - m_read_offset a).

Definition FrameAssembler_has_partial_frame (a : FrameAssembler) : bool :=
  0 <? u64 (zlen (m_buffer a) - m_read_offset a).

Definition FrameAssembler_clear (a : FrameAssembler) : FrameAssembler := mkAssembler [] 0.

Section assembler.
Context {W : Winsock}.

Definition FrameAssembler_extract_next_frame (a : FrameAssembler) (out_frame : Frame)
    : FrameExtractResult * Frame * FrameAssembler :=
  let available := u64 (zlen (m_buffer a) - m_read_offset a) in
  if available <? 4 then (NeedMoreData, out_frame, a) else
  let length := FrameCodec_read_u32 (zdrop (m_read_offset a) (m_buffer a)) in
  if length <? HEADER_SIZE then (ErrorLengthTooSmall, out_frame, a) else
  if MAX_FRAME_LENGTH <? length then (ErrorLengthTooLarge, out_frame, a) else
  let total_frame_bytes := 4 + length in
  if available <? total_frame_bytes then (NeedMoreData, out_frame, a) else
  let frame_ptr := zdrop (m_read_offset a + 4) (m_buffer a) in
  let type := byte_to_Z (hd Byte.x00 frame_ptr) in
  let request_id := FrameCodec_read_u32 (zdrop 1 frame_ptr) in
  let body_len := length - HEADER_SIZE in
  let body := if 0 <? body_len then ztake body_len (zdrop HEADER_SIZE frame_ptr) else [] in
  (FrameReady, mkFrame length type request_id body,
   FrameAssembler_compact_if_needed
     (mkAssembler (m_buffer a) (m_read_offset a + total_frame_bytes))).

(** The loop of the I/O thread,
    [while ((res = extract_next_frame(frame)) == FrameReady) ...]: the frames in
    the order extracted, the result that ended the loop, and the assembler.
    Every frame consumes at least nine bytes, so the number of buffered bytes
    bounds the number of iterations. *)
Fixpoint extract_loop (fuel : nat) (a : FrameAssembler)
    : list Frame * FrameExtractResult * FrameAssembler :=
  match fuel with
  | O => ([], NeedMoreData, a)
  | S fuel =>
      match FrameAssembler_extract_next_frame a empty_Frame with
      | (FrameReady, f, a') =>
          let '(fs, res, a'') := extract_loop fuel a' in (f :: fs, res, a'')
      | (res, _, a') => ([], res, a')
      end
  end.

Definition extract_all (a : FrameAssembler) : list Frame * FrameExtractResult * FrameAssembler :=
  extract_loop (S (length (m_buffer a))) a.

(** One readiness event of the socket: the bytes received, then the loop. *)
Definition receive (a : FrameAssembler) (chunk : bytes)
    : list Frame * FrameExtractResult * FrameAssembler :=
  extract_all (FrameAssembler_push_bytes a chunk).

(** ** Specification on the pending bytes *)

Definition pending (a : FrameAssembler) : bytes := zdrop (m_read_offset a) (m_buffer a).

Definition assembler_wf (a : FrameAssembler) : Prop :=
  0 <= m_read_offset a <= zlen (m_buffer a) /\ zlen (m_buffer a) < 2 ^ 64.

Definition parse_step (p : bytes) : FrameExtractResult * option (Frame * bytes) :=
  if zlen p <? 4 then (NeedMoreData, None) else
  let len := be_load (take 4 p) in
  if len <? 5 then (ErrorLengthTooSmall, None) else
  if MAX_FRAME_LENGTH <? len then (ErrorLengthTooLarge, None) else
  if zlen p <? 4 + len then (NeedMoreData, None) else
  (FrameReady,
   Some (mkFrame len (byte_to_Z (hd Byte.x00 (drop 4 p))) (be_load (take 4 (drop 5 p)))
           (ztake (len - 5) (drop 9 p)), zdrop (4 + len) p)).

Lemma compact_pending a :
  assembler_wf a -> pending (FrameAssembler_compact_if_needed a) = pending a /\
                    assembler_wf (FrameAssembler_compact_if_needed a).
Proof.
  intros [Ho Hb]. unfold FrameAssembler_compact_if_needed, pending, assembler_wf.
  destruct (Z.eqb_spec (m_read_offset a) (zlen (m_buffer a))) as [E|].
  - cbn [m_buffer m_read_offset]. rewrite (zdrop_ge (m_buffer a)) by lia.
    zlen_nil. split; [done|]. lia.
  - destruct (Z.ltb_spec (64 * 1024) (m_read_offset a)); [|done].
    cbn [m_buffer m_read_offset]. rewrite zdrop_0. split; [done|].
    rewrite zlen_zdrop by lia. lia.
Qed.

Lemma push_pending a d :
  assembler_wf a -> zlen (m_buffer a) + zlen d < 2 ^ 64 ->
  pending (FrameAssembler_push_bytes a d) = pending a ++ d /\
  assembler_wf (FrameAssembler_push_bytes a d).
Proof.
  intros [Ho Hb] Hd. unfold FrameAssembler_push_bytes, pending, assembler_wf.
  pose proof (zlen_nonneg d).
  destruct (Z.eqb_spec (zlen d) 0) as [E|].
  - rewrite (zlen_zero d E), app_nil_r. done.
  - cbn [m_buffer m_read_offset]. rewrite zdrop_app_le, zlen_app by lia. split; [done|]. lia.
Qed.

Lemma zlen_pending a : assembler_wf a -> zlen (pending a) = zlen (m_buffer a) - m_read_offset a.
Proof. intros [Ho Hb]. unfold pending. rewrite zlen_zdrop by lia. lia. Qed.

(** [extract_next_frame] does what [parse_step] says on the pending bytes. *)
Lemma extract_refines a out :
  assembler_wf a ->
  match parse_step (pending a) with
  | (FrameReady, Some (f, rest)) =>
      exists a', FrameAssembler_extract_next_frame a out = (FrameReady, f, a') /\
        pending a' = rest /\ assembler_wf a' /\ (length (m_buffer a') <= length (m_buffer a))%nat
  | (res, _) => res <> FrameReady /\ FrameAssembler_extract_next_frame a out = (res, out, a)
  end.
Proof.
  intros Hwf. pose proof (zlen_pending a Hwf) as Hp. destruct Hwf as [Ho Hb].
  unfold parse_step, FrameAssembler_extract_next_frame.
  rewrite (u64_id (_ - _)) by (unfold is_u64; lia). rewrite <- Hp.
  fold (pending a).
  destruct (Z.ltb_spec (zlen (pending a)) 4) as [|H4]; [done|].
  rewrite (FrameCodec_read_u32_be (pending a)) by (unfold zlen in H4; lia).
  set (len := be_load (take 4 (pending a))). unfold HEADER_SIZE.
  destruct (Z.ltb_spec len 5) as [|H5]; [done|].
  destruct (Z.ltb_spec MAX_FRAME_LENGTH len) as [|Hm]; [done|].
  destruct (Z.ltb_spec (zlen (pending a)) (4 + len)) as [|Hlen]; [done|].
  assert (zdrop (m_read_offset a + 4) (m_buffer a) = drop 4 (pending a)) as Hd.
  { unfold pending. change (drop 4) with (@zdrop byte 4). rewrite zdrop_zdrop by lia. done. }
  rewrite !Hd.
  destruct (compact_pending (mkAssembler (m_buffer a) (m_read_offset a + (4 + len)))) as [Hc1 Hc2].
  { split; cbn [m_buffer m_read_offset]; lia. }
  eexists. split_and!; [|rewrite Hc1|exact Hc2|].
  - do 2 f_equal. f_equal.
    + change (zdrop 1) with (@drop byte 1). rewrite drop_drop, FrameCodec_read_u32_be; [done|].
      rewrite length_drop. unfold zlen in *. lia.
    + change (zdrop 5) with (@drop byte 5). rewrite drop_drop.
      destruct (Z.ltb_spec 0 (len - 5)); [done|].
      replace (len - 5) with 0 by lia. done.
  - unfold pending. cbn [m_buffer m_read_offset]. by rewrite zdrop_zdrop by lia.
  - unfold FrameAssembler_compact_if_needed. cbn [m_buffer m_read_offset].
    repeat case_match; cbn [m_buffer length]; [lia| |lia].
    unfold zdrop. rewrite length_drop. lia.
Qed.

(** ** Parsing a whole stream *)

Inductive parses : bytes -> list Frame -> FrameExtractResult -> bytes -> Prop :=
| parses_stop p res : parse_step p = (res, None) -> parses p [] res p
| parses_frame p f p' fs res rest :
    parse_step p = (FrameReady, Some (f, p')) -> parses p' fs res rest ->
    parses p (f :: fs) res rest.

Lemma parse_step_frame p res f p' :
  parse_step p = (res, Some (f, p')) ->
  res = FrameReady /\ (length p' < length p)%nat /\ exists len, p' = zdrop (4 + len) p /\ 5 <= len.
Proof.
  unfold parse_step. set (len := be_load (take 4 p)).
  destruct (Z.ltb_spec (zlen p) 4); [done|].
  destruct (Z.ltb_spec len 5); [done|].
  destruct (Z.ltb_spec MAX_FRAME_LENGTH len); [done|].
  destruct (Z.ltb_spec (zlen p) (4 + len)); [done|].
  intros [= <- <- <-]. split; [done|]. split; [|exists len; split; [done|lia]].
  unfold zdrop. rewrite length_drop. unfold zlen in *. lia.
Qed.

Lemma parse_step_ready_Some p o : parse_step p = (FrameReady, o) -> o <> None.
Proof. unfold parse_step. repeat case_match; intros [= <-] || done; congruence. Qed.

Lemma parses_total p : exists fs res rest, parses p fs res rest.
Proof.
  induction p as [p IH] using (induction_ltof1 _ (@length byte)). unfold ltof in IH.
  destruct (parse_step p) as [res [[f p']|]] eqn:E.
  - destruct (parse_step_frame _ _ _ _ E) as (-> & Hlt & _).
    destruct (IH p' Hlt) as (fs & res & rest & H). do 3 eexists. by eapply parses_frame.
  - do 3 eexists. by apply parses_stop.
Qed.

Lemma parses_result p fs res rest : parses p fs res rest -> res <> FrameReady.
Proof.
  induction 1 as [p res E|]; [|done]. intros ->. by apply parse_step_ready_Some in E.
Qed.

Lemma parses_det p fs1 r1 t1 fs2 r2 t2 :
  parses p fs1 r1 t1 -> parses p fs2 r2 t2 -> fs1 = fs2 /\ r1 = r2 /\ t1 = t2.
Proof.
  intros H1. revert fs2 r2 t2. induction H1 as [p res E|p f p' fs res rest E H1 IH];
    intros fs2 r2 t2 H2; inversion H2; subst; try congruence.
  - split_and!; congruence.
  - assert (f0 = f /\ p'0 = p') as [-> ->] by (split; congruence).
    edestruct IH as (-> & -> & ->); [done|]. done.
Qed.

(** More input never changes a frame that is already complete. *)
Lemma parse_step_app p f p' x :
  parse_step p = (FrameReady, Some (f, p')) -> parse_step (p ++ x) = (FrameReady, Some (f, p' ++ x)).
Proof.
  unfold parse_step. pose proof (zlen_nonneg x). rewrite zlen_app.
  destruct (Z.ltb_spec (zlen p) 4); [done|].
  rewrite take_app_le by (unfold zlen in *; lia).
  set (len := be_load (take 4 p)).
  destruct (Z.ltb_spec len 5); [done|].
  destruct (Z.ltb_spec MAX_FRAME_LENGTH len); [done|].
  destruct (Z.ltb_spec (zlen p) (4 + len)) as [|Hl]; [done|].
  intros [= <- <-]. zdecide. unfold zlen in Hl.
  rewrite !drop_app_le by lia. rewrite take_app_le by (rewrite length_drop; lia).
  rewrite zdrop_app_le by (unfold zlen; lia).
  rewrite ztake_app_le by (unfold zlen; rewrite length_drop; lia).
  do 4 f_equal.
  destruct (drop 4 p) as [|b l] eqn:Ed; [|done].
  apply (f_equal length) in Ed. rewrite length_drop in Ed. cbn in Ed. lia.
Qed.

Lemma parses_app p fs rest x gs res rest' :
  parses p fs NeedMoreData rest -> parses (rest ++ x) gs res rest' ->
  parses (p ++ x) (fs ++ gs) res rest'.
Proof.
  intros H. remember NeedMoreData as r eqn:Hr. revert Hr.
  induction H as [p r E|p f p' fs r rest E H IH]; intros Hr Hx; [done|].
  cbn [app]. eapply parses_frame; [by apply parse_step_app|]. by apply IH.
Qed.

Lemma parse_step_frame_bytes f x :
  Frame_wf f -> parse_step (frame_bytes f ++ x) = (FrameReady, Some (f, x)).
Proof.
  intros (Hl & Hm & Ht & Hr). unfold MAX_FRAME_LENGTH in *. pose proof (zlen_nonneg (body f)).
  pose proof (zlen_nonneg x). unfold is_u8 in Ht.
  unfold parse_step. rewrite zlen_app, zlen_frame_bytes.
  unfold frame_bytes. rewrite <- app_assoc.
  rewrite take_app_length' by (by rewrite length_be_store).
  rewrite be_load_store_id by (change (256 ^ Z.of_nat 4) with (2 ^ 32); lia).
  unfold MAX_FRAME_LENGTH. zdecide.
  set (hd4 := be_store 4 (5 + zlen (body f))). assert (length hd4 = 4%nat) as H4 by apply length_be_store.
  rewrite (drop_app_length' hd4) by done.
  change (drop 5) with (@drop byte (4 + 1)). rewrite <- drop_drop, (drop_app_length' hd4) by done.
  change (drop 9) with (@drop byte (4 + 5)). rewrite <- drop_drop, (drop_app_length' hd4) by done.
  cbn [app hd drop]. rewrite <- app_assoc, drop_0.
  rewrite take_app_length' by (by rewrite length_be_store).
  rewrite be_load_store_id by done.
  rewrite drop_app_length' by (by rewrite length_be_store).
  rewrite ztake_app_exact by lia.
  rewrite byte_to_of_Z, Z.mod_small by (change (2 ^ 8) with 256 in Ht; lia).
  do 3 f_equal; [by destruct f; cbn in *; subst|].
  rewrite zdrop_app_ge by (unfold zlen; rewrite H4; lia).
  replace (4 + (5 + zlen (body f)) - zlen hd4) with (5 + zlen (body f)) by (unfold zlen; rewrite H4; lia).
  change (?b :: ?l) with ([b] ++ l). rewrite !app_assoc. apply zdrop_app_exact. zlen_solve.
Qed.

Lemma parse_step_incomplete f k :
  Frame_wf f -> (k < length (frame_bytes f))%nat ->
  parse_step (take k (frame_bytes f)) = (NeedMoreData, None).
Proof.
  intros (Hl & Hm & Ht & Hr) Hk. unfold MAX_FRAME_LENGTH in *. pose proof (zlen_nonneg (body f)).
  pose proof (zlen_frame_bytes f) as Hz. unfold zlen at 1 in Hz.
  assert (zlen (take k (frame_bytes f)) = Z.of_nat k) as Hlen.
  { unfold zlen. rewrite length_take. lia. }
  unfold parse_step. rewrite Hlen.
  destruct (Z.ltb_spec (Z.of_nat k) 4); [done|].
  rewrite take_take, Nat.min_l by lia. unfold frame_bytes.
  rewrite take_app_length' by (by rewrite length_be_store).
  rewrite be_load_store_id by (change (256 ^ Z.of_nat 4) with (2 ^ 32); lia).
  unfold MAX_FRAME_LENGTH. zdecide. done.
Qed.

Lemma parses_frames fs tail :
  Forall Frame_wf fs -> parse_step tail = (NeedMoreData, None) ->
  parses (concat (frame_bytes <$> fs) ++ tail) fs NeedMoreData tail.
Proof.
  intros Hfs Ht. induction Hfs as [|f fs Hf Hfs IH]; [by apply parses_stop|].
  cbn [fmap list_fmap concat]. rewrite <- app_assoc.
  eapply parses_frame; [by apply parse_step_frame_bytes|exact IH].
Qed.

(** ** The loop of the server parses the pending bytes *)

Lemma extract_loop_parses fuel a fs res rest :
  assembler_wf a -> parses (pending a) fs res rest -> (length fs < fuel)%nat ->
  exists a', extract_loop fuel a = (fs, res, a') /\ pending a' = rest /\ assembler_wf a' /\
    (length (m_buffer a') <= length (m_buffer a))%nat.
Proof.
  revert a fs; induction fuel as [|fuel IH]; intros a fs Hwf Hp Hf; [lia|].
  cbn [extract_loop]. pose proof (extract_refines a empty_Frame Hwf) as Href.
  inversion Hp as [p r E|p f p' fs' r rest' E Hp']; subst.
  - rewrite E in Href. pose proof (parses_result _ _ _ _ Hp) as Hres.
    destruct res; try done; destruct Href as [_ ->]; by eexists.
  - rewrite E in Href. destruct Href as (a1 & -> & <- & Hwf1 & Hl1).
    cbn [length] in Hf.
    destruct (IH a1 fs' Hwf1 Hp') as (a2 & -> & Hrest & Hwf2 & Hl2); [lia|].
    exists a2. split_and!; [done|done|done|lia].
Qed.

Lemma parses_length p fs res rest : parses p fs res rest -> (length fs <= length p)%nat.
Proof.
  induction 1 as [|p f p' fs res rest E H IH]; cbn [length]; [lia|].
  apply parse_step_frame in E as (_ & Hlt & _). lia.
Qed.

Lemma length_pending a : (length (pending a) <= length (m_buffer a))%nat.
Proof. unfold pending, zdrop. rewrite length_drop. lia. Qed.

Lemma length_push a d :
  length (m_buffer (FrameAssembler_push_bytes a d)) = (length (m_buffer a) + length d)%nat.
Proof.
  unfold FrameAssembler_push_bytes. destruct (Z.eqb_spec (zlen d) 0) as [E|].
  - rewrite (zlen_zero d E). cbn. lia.
  - cbn [m_buffer]. by rewrite length_app.
Qed.

Lemma receive_parses a chunk fs res rest :
  assembler_wf a -> zlen (m_buffer a) + zlen chunk < 2 ^ 64 ->
  parses (pending a ++ chunk) fs res rest ->
  exists a', receive a chunk = (fs, res, a') /\ pending a' = rest /\ assembler_wf a' /\
    (length (m_buffer a') <= length (m_buffer a) + length chunk)%nat.
Proof.
  intros Hwf Hb Hp. destruct (push_pending a chunk Hwf Hb) as [Hpend Hwf'].
  unfold receive, extract_all. rewrite <- Hpend in Hp. rewrite <- length_push.
  apply extract_loop_parses; [done|done|].
  pose proof (parses_length _ _ _ _ Hp).
  pose proof (length_pending (FrameAssembler_push_bytes a chunk)). lia.
Qed.

(** A connection's input: chunks one after the other until an error ends it. *)
Fixpoint receive_chunks (a : FrameAssembler) (chunks : list bytes)
    : list Frame * FrameExtractResult * FrameAssembler :=
  match chunks with
  | [] => ([], NeedMoreData, a)
  | c :: chunks =>
      match receive a c with
      | (fs, NeedMoreData, a') =>
          let '(gs, res, a'') := receive_chunks a' chunks in (fs ++ gs, res, a'')
      | r => r
      end
  end.

(** A bad length field stays bad when more input arrives. *)
Lemma parse_step_error_app p x r :
  r <> NeedMoreData -> parse_step p = (r, None) -> parse_step (p ++ x) = (r, None).
Proof.
  intros Hr. unfold parse_step. rewrite zlen_app. pose proof (zlen_nonneg x).
  destruct (Z.ltb_spec (zlen p) 4); [intros [= <-]; done|].
  rewrite take_app_le by (unfold zlen in *; lia). zdecide.
  repeat case_match; intros [= <-]; done.
Qed.

Lemma parses_prefix_result p x fs1 r1 t1 fs rest :
  parses p fs1 r1 t1 -> parses (p ++ x) fs NeedMoreData rest -> r1 = NeedMoreData.
Proof.
  intros H1. revert fs. induction H1 as [p r E|p f p' fs1 r t1 E H1 IH]; intros fs H.
  - destruct (decide (r = NeedMoreData)) as [|Hne]; [done|].
    apply parse_step_error_app with (x := x) in E; [|done]. inversion H; subst; congruence.
  - apply parse_step_app with (x := x) in E.
    inversion H as [|? ? ? ? ? ? E2 H2]; subst; [congruence|].
    rewrite E in E2. injection E2 as <- <-. by eapply IH.
Qed.

Lemma parses_prefix p x fs rest :
  parses (p ++ x) fs NeedMoreData rest ->
  exists fs1 rest1 fs2, parses p fs1 NeedMoreData rest1 /\
    parses (rest1 ++ x) fs2 NeedMoreData rest /\ fs = fs1 ++ fs2.
Proof.
  destruct (parses_total p) as (fs1 & r1 & t1 & H1). intros H.
  pose proof (parses_prefix_result _ _ _ _ _ _ _ H1 H) as ->.
  destruct (parses_total (t1 ++ x)) as (fs2 & r2 & t2 & H2).
  pose proof (parses_app _ _ _ _ _ _ _ H1 H2) as H12.
  destruct (parses_det _ _ _ _ _ _ _ H12 H) as (<- & -> & <-).
  exists fs1, t1, fs2. done.
Qed.

Lemma receive_chunks_parses chunks a fs rest :
  assembler_wf a -> zlen (m_buffer a) + zlen (concat chunks) < 2 ^ 64 ->
  parse_step (pending a) = (NeedMoreData, None) ->
  parses (pending a ++ concat chunks) fs NeedMoreData rest ->
  exists a', receive_chunks a chunks = (fs, NeedMoreData, a') /\ pending a' = rest /\ assembler_wf a'.
Proof.
  revert a fs; induction chunks as [|c chunks IH]; intros a fs Hwf Hb Hst Hp; cbn [concat] in *.
  - rewrite app_nil_r in Hp.
    destruct (parses_det _ _ _ _ _ _ _ Hp (parses_stop _ _ Hst)) as (-> & _ & ->).
    by exists a.
  - rewrite app_assoc in Hp. apply parses_prefix in Hp as (fs1 & t1 & fs2 & H1 & H2 & ->).
    rewrite zlen_app in Hb. pose proof (zlen_nonneg (concat chunks)).
    destruct (receive_parses a c fs1 NeedMoreData t1 Hwf) as (a1 & E1 & Hp1 & Hwf1 & Hl1);
      [lia|done|].
    destruct (IH a1 fs2 Hwf1) as (a2 & E2 & Hp2 & Hwf2).
    + unfold zlen in *. lia.
    + rewrite Hp1. clear -H1. remember NeedMoreData as r eqn:Hr.
      induction H1; [by subst|auto].
    + by rewrite Hp1.
    + exists a2. cbn [receive_chunks]. by rewrite E1, E2.
Qed.

(** ** Properties *)

(** C29: however the bytes of a sequence of encoded frames, followed by an
    incomplete frame, are cut into chunks, the assembler delivers exactly those
    frames, in order, reports no error, and keeps exactly the incomplete tail. *)
Theorem frames_reassembled fs encs g k genc chunks :
  Forall Frame_wf fs -> Frame_wf g -> Forall2 (fun f e => FrameCodec_encode f = Some e) fs encs ->
  FrameCodec_encode g = Some genc -> (k < length genc)%nat ->
  concat chunks = concat encs ++ take k genc -> zlen (concat chunks) < 2 ^ 64 ->
  exists a, receive_chunks empty_assembler chunks = (fs, NeedMoreData, a) /\
    pending a = take k genc.
Proof.
  intros Hfs Hg Hencs Hgenc Hk Hchunks Hlen.
  assert (forall f e, Frame_wf f -> FrameCodec_encode f = Some e -> e = frame_bytes f) as Henc.
  { intros f e (Hl & Hm & _ & Hr) He. unfold MAX_FRAME_LENGTH in Hm.
    rewrite FrameCodec_encode_spec in He by (done || lia). congruence. }
  apply Henc in Hgenc; [|done]. subst genc.
  assert (encs = frame_bytes <$> fs) as ->.
  { clear -Hfs Hencs Henc. induction Hencs as [|f e fs encs He Hencs IH]; [done|].
    inversion Hfs; subst. cbn. f_equal; [by apply Henc|by apply IH]. }
  destruct (receive_chunks_parses chunks empty_assembler fs (take k (frame_bytes g)))
    as (a & E & Hp & _).
  - unfold assembler_wf, empty_assembler. cbn [m_buffer m_read_offset]. zlen_nil. lia.
  - cbn [m_buffer empty_assembler]. zlen_nil. lia.
  - done.
  - change (pending empty_assembler) with (@nil byte). cbn [app]. rewrite Hchunks.
    apply parses_frames; [done|]. by apply parse_step_incomplete.
  - by exists a.
Qed.

(** An assembler never runs past its buffer: from a well-formed state, pushing
    a chunk and draining it ends, with a result other than FrameReady, in a
    well-formed state whose pending bytes are a suffix of the bytes pending. *)
Theorem receive_wf a chunk :
  assembler_wf a -> zlen (m_buffer a) + zlen chunk < 2 ^ 64 ->
  exists fs res a', receive a chunk = (fs, res, a') /\ res <> FrameReady /\ assembler_wf a' /\
    exists consumed, pending a ++ chunk = consumed ++ pending a'.
Proof.
  intros Hwf Hb. destruct (parses_total (pending a ++ chunk)) as (fs & res & rest & Hp).
  destruct (receive_parses a chunk fs res rest Hwf Hb Hp) as (a' & E & Hrest & Hwf' & _).
  exists fs, res, a'. split_and!; [done|by eapply parses_result|done|].
  rewrite Hrest. clear -Hp. induction Hp as [p|p f p' fs res rest E Hp [c IH]]; [by exists []|].
  apply parse_step_frame in E as (_ & _ & len & Hd & _).
  exists (ztake (4 + len) p ++ c). by rewrite <- app_assoc, <- IH, Hd, ztake_zdrop.
Qed.

End assembler.

Definition ping_frame (id : Z) : Frame := mkFrame 5 PING id [].

Example frames_reassembled_witness :
  exists a,
    receive_chunks empty_assembler
      [take 3 (frame_bytes (ping_frame 1)); drop 3 (frame_bytes (ping_frame 1)) ++ take 2 (frame_bytes (ping_frame 2))]
      = ([ping_frame 1], NeedMoreData, a) /\ pending a = take 2 (frame_bytes (ping_frame 2)).
Proof.
  apply (frames_reassembled [ping_frame 1] [frame_bytes (ping_frame 1)] (ping_frame 2) 2
           (frame_bytes (ping_frame 2)));
    [constructor; [|constructor]; apply (bool_decide_unpack _); vm_compute; exact I
    |apply (bool_decide_unpack _); vm_compute; exact I
    |constructor; [vm_compute; reflexivity|constructor]
    |vm_compute; reflexivity|vm_compute; lia|vm_compute; reflexivity|vm_compute; reflexivity].
Defined.

Example receive_wf_witness :
  exists fs res a', receive empty_assembler (str "abc") = (fs, res, a') /\ res <> FrameReady /\
    assembler_wf a' /\ exists consumed, pending empty_assembler ++ str "abc" = consumed ++ pending a'.
Proof.
  apply (receive_wf empty_assembler (str "abc")); [|vm_compute; reflexivity].
  vm_compute. split_and!; congruence.
Defined.
