(* ===== verification/Client.v ===== *)
(** * Client: the blocking side of the protocol
    (src/Socket.cpp, the frame functions of src/cli_main.cpp)

    A client writes a request with [send_all] and reads a response with two calls of
    [recv_exact]; the two are the interface [SocketApi], against which the programs are
    written, in the monad [cli].  [Scripted] implements it with the loops of Socket.cpp: the socket is given
    by the bytes that are on their way and by the results of the calls of [recv] and
    [send] still to come (a script): how many bytes a call transfers at most, or how it
    fails.  [None] is a call that blocks for ever. *)
From S2P Require Import Prelude StdString Status RecordCodec FrameCodec.

(** ** Socket *)

Inductive RecvResult := RecvSuccess | RecvDisconnected | RecvError.

#[global] Instance RecvResult_eq_dec : EqDecision RecvResult.
Proof. solve_decision. Defined.

Inductive SendStatus := SendSuccess | SendDisconnected | SendFailure.

#[global] Instance SendStatus_eq_dec : EqDecision SendStatus.
Proof. solve_decision. Defined.

(** A result of [::recv] or [::send]: up to [n] bytes, 0, or an error. *)
Inductive IoOutcome := Transfer (n : Z) | Closed | Interrupted | Failed.

#[global] Instance IoOutcome_eq_dec : EqDecision IoOutcome.
Proof. solve_decision. Defined.

(** The loop of [recv_exact], with what is in the buffer. *)
Fixpoint recv_loop (script : list IoOutcome) (incoming buffer : bytes) (bytes_to_read : Z)
    : option (RecvResult * bytes * list IoOutcome * bytes) :=
  if zlen buffer <? bytes_to_read then
    let bytes_left := i32 (bytes_to_read - zlen buffer) in
    match script with
    | [] => None
    | Transfer n :: script =>
        let res := Z.min n (Z.min bytes_left (zlen incoming)) in
        if 0 <? res then recv_loop script (zdrop res incoming) (buffer ++ ztake res incoming) bytes_to_read else None
    | Closed :: script => Some (RecvDisconnected, buffer, script, incoming)
    | Interrupted :: script => recv_loop script incoming buffer bytes_to_read
    | Failed :: script => Some (RecvError, buffer, script, incoming)
    end
  else Some (RecvSuccess, buffer, script, incoming).

Definition Socket_recv_exact (script : list IoOutcome) (incoming : bytes) (bytes_to_read : Z)
    : option (RecvResult * bytes * list IoOutcome * bytes) :=
  recv_loop script incoming [] bytes_to_read.

(** [send_all], with the bytes it got rid of. *)
Fixpoint Socket_send_all (script : list IoOutcome) (buffer : bytes) (total_sent : Z)
    : option (SendStatus * Z * list IoOutcome) :=
  if total_sent <? zlen buffer then
    let bytes_left := i32 (zlen buffer - total_sent) in
    match script with
    | [] => None
    | Transfer n :: script =>
        let res := Z.min n bytes_left in
        if 0 <? res then Socket_send_all script buffer (total_sent + res) else None
    | Closed :: script => Some (SendDisconnected, total_sent, script)
    | Interrupted :: script => Socket_send_all script buffer total_sent
    | Failed :: script => Some (SendFailure, total_sent, script)
    end
  else Some (SendSuccess, total_sent, script).

(** What a program with a blocking socket relies on, over the state [S] of its
    surroundings.  [recv_exact] returns what is in the buffer afterwards. *)
Class SocketApi (S : Type) := {
  recv_exact : Z -> S -> option (RecvResult * bytes * S);
  send_all : bytes -> S -> option (SendStatus * S);
}.

(** A socket whose calls follow scripts. *)
Record Scripted := mkScripted {
  sc_out : list IoOutcome;
  sc_in : list IoOutcome;
  sc_incoming : bytes;
}.

#[global] Instance Scripted_socket : SocketApi Scripted := {
  recv_exact n s :=
    '(res, buffer, script, incoming) ← Socket_recv_exact (sc_in s) (sc_incoming s) n;
    Some (res, buffer, mkScripted (sc_out s) script incoming);
  send_all data s :=
    '(res, _, out) ← Socket_send_all (sc_out s) data 0;
    Some (res, mkScripted out (sc_in s) (sc_incoming s));
}.

(** ** The programs

    A console program has the state [World]: its surroundings, the counter [req_id] of
    [main] and the trace of what it did to the outside.  [cli] is the monad of its code:
    besides a value, a computation may throw, end the program, never return ([Blocked]:
    a call that blocks for ever, or more rounds of a loop than the bound given), or run
    into undefined behaviour.  The world is kept in every case, so that the trace of a
    run that does not end is known up to there. *)

Inductive outcome (A : Type) : Type :=
| Value (a : A)
| Thrown
| Exit (code : Z)
| Blocked
| Undefined.
Arguments Value {A} _.
Arguments Thrown {A}.
Arguments Exit {A} _.
Arguments Blocked {A}.
Arguments Undefined {A}.

(** What is sent (a frame, or bytes that are not the encoding of one), received and
    printed to the standard output: a text, or the line of [consume-group] for a record
    of a partition. *)
Inductive output :=
| Text (s : bytes)
| RecordLine (topic : bytes) (partition : Z) (offset : Z) (key value : bytes).

Inductive event :=
| Sent (f : Frame)
| SentRaw (data : bytes)
| Received (f : Frame)
| Printed (o : output).

Record World (S : Type) := mkWorld {
  w_machine : S;
  w_req_id : Z;            (* uint32_t *)
  w_trace : list event;
}.
Arguments mkWorld {S} _ _ _.
Arguments w_machine {S} _.
Arguments w_req_id {S} _.
Arguments w_trace {S} _.

Definition cli (S A : Type) : Type := World S -> outcome A * World S.

#[global] Instance cli_ret S : MRet (cli S) := fun A a w => (Value a, w).
#[global] Instance cli_bind S : MBind (cli S) := fun A B k m w =>
  match m w with
  | (Value a, w) => k a w
  | (Thrown, w) => (Thrown, w)
  | (Exit code, w) => (Exit code, w)
  | (Blocked, w) => (Blocked, w)
  | (Undefined, w) => (Undefined, w)
  end.

Section primitives.
Context {S : Type}.

Definition throw {A} : cli S A := fun w => (Thrown, w).
(** [std::_Exit(code)] *)
Definition exit_process {A} (code : Z) : cli S A := fun w => (Exit code, w).
Definition blocked {A} : cli S A := fun w => (Blocked, w).

Definition log (e : event) : cli S unit := fun w =>
  (Value tt, mkWorld (w_machine w) (w_req_id w) (w_trace w ++ [e])).
Definition print (o : output) : cli S unit := log (Printed o).
Definition cout (s : bytes) : cli S unit := print (Text s).

(** [req_id++] *)
Definition next_req_id : cli S Z := fun w =>
  (Value (w_req_id w), mkWorld (w_machine w) (u32 (w_req_id w + 1)) (w_trace w)).

(** An operation on the surroundings; [None] does not return. *)
Definition on_machine {A} (op : S -> option (A * S)) : cli S A := fun w =>
  match op (w_machine w) with
  | Some (a, s) => (Value a, mkWorld s (w_req_id w) (w_trace w))
  | None => (Blocked, w)
  end.

(** A function that throws on [None], and one that is undefined there. *)
Definition or_throw {A} (o : option A) : cli S A := match o with Some a => mret a | None => throw end.
Definition or_undefined {A} (o : option A) : cli S A :=
  match o with Some a => mret a | None => fun w => (Undefined, w) end.

End primitives.

(** ** Frames *)

Section client.
Context {N : Winsock} {S : Type} {K : SocketApi S}.

(** [sock.send_all(...) == SendResult::Success] *)
Definition send_bytes (data : bytes) : cli S bool :=
  res ← on_machine (send_all data);
  mret (bool_decide (res = SendSuccess)).
Definition cli_send_all (data : bytes) : cli S bool := _ ← log (SentRaw data); send_bytes data.

Definition cli_recv_exact (n : Z) : cli S (RecvResult * bytes) :=
  on_machine (fun s => '(res, buffer, s) ← recv_exact n s; Some ((res, buffer), s)).

(** The second component is [out_frame] afterwards: without a body in the response its
    old body stays. *)
Definition read_response_frame (out_frame : Frame) : cli S (bool * Frame) :=
  '(res, len_buf) ← cli_recv_exact 4;
  if negb (bool_decide (res = RecvSuccess)) then mret (false, out_frame) else
  let len := FrameCodec_read_u32 len_buf in
  if len <? HEADER_SIZE then mret (false, out_frame) else
  '(res, payload) ← cli_recv_exact len;
  if negb (bool_decide (res = RecvSuccess)) then mret (false, out_frame) else
  let f := mkFrame len (byte_to_Z (default Byte.x00 (head payload))) (FrameCodec_read_u32 (drop 1 payload))
             (if HEADER_SIZE <? len then drop 5 payload else body out_frame) in
  _ ← log (Received f);
  mret (true, f).

(** [sock.send_all(FrameCodec::encode(req))]: [encode] writes past its buffer when the
    length of the frame does not fit into 32 bits. *)
Definition send_frame (req_frame : Frame) : cli S bool :=
  encoded ← or_undefined (FrameCodec_encode req_frame);
  _ ← log (Sent req_frame);
  send_bytes encoded.

(** An error frame is reported as a failure. *)
Definition send_and_receive (req_frame out_resp_frame : Frame) : cli S (bool * Frame) :=
  sent ← send_frame req_frame;
  if negb sent then mret (false, out_resp_frame) else
  '(ok, resp) ← read_response_frame out_resp_frame;
  if negb ok then mret (false, resp) else
  mret (negb (frame_type resp =? MSG_ERROR), resp).

(** [n] responses, each into a new frame; the responses read before a failure. *)
Fixpoint read_responses (n : nat) : cli S (list Frame) :=
  match n with
  | O => mret []
  | Datatypes.S n =>
      '(ok, f) ← read_response_frame empty_Frame;
      if negb ok then mret [] else
      fs ← read_responses n;
      mret (f :: fs)
  end.

End client.

(** ** Lemmas *)

(** A script of at least [k] transfers, with interruptions only. *)
Definition delivers (k : Z) (script : list IoOutcome) : Prop :=
  Forall (fun o => match o with Transfer n => 0 < n | Interrupted => True | _ => False end) script /\
  k <= zlen (filter (fun o => o <> Interrupted) script).

Lemma delivers_tail k o script : delivers k (o :: script) ->
  match o with
  | Transfer n => 0 < n /\ delivers (k - 1) script
  | Interrupted => delivers k script
  | _ => False
  end.
Proof.
  intros [Hf Hk]. apply list.Forall_cons in Hf as [Ho Hf]. destruct o; try done.
  rewrite filter_cons_True in Hk by done. rewrite zlen_cons in Hk. split; [done|]. split; [done|lia].
Qed.

Lemma delivers_le k k' script : k' <= k -> delivers k script -> delivers k' script.
Proof. intros Hle [Hf Hk]. split; [done|lia]. Qed.

Lemma recv_loop_delivers script : forall incoming buffer n k,
  delivers (n - zlen buffer + k) script -> zlen buffer <= n < 2 ^ 31 -> n - zlen buffer <= zlen incoming -> 0 <= k ->
  exists script', recv_loop script incoming buffer n =
    Some (RecvSuccess, buffer ++ ztake (n - zlen buffer) incoming, script', zdrop (n - zlen buffer) incoming) /\
    delivers k script'.
Proof.
  induction script as [|o script IH]; intros incoming buffer n k Hd Hn Hi Hk; cbn [recv_loop];
    (destruct (Z.ltb_spec (zlen buffer) n) as [Hlt|Hge];
      [|replace (n - zlen buffer) with 0 in * by lia; rewrite ztake_0, app_nil_r, zdrop_0; eexists; split; [done|];
        eapply delivers_le; [|exact Hd]; lia]).
  - destruct Hd as [_ Hd]. change (filter _ []) with (@nil IoOutcome) in Hd. rewrite zlen_nil in Hd. lia.
  - pose proof (zlen_nonneg buffer). rewrite i32_small by lia.
    apply delivers_tail in Hd. destruct o as [m| | |]; try done.
    + destruct Hd as [Hm Hd]. set (r := Z.min m _). assert (0 < r <= n - zlen buffer /\ r <= zlen incoming) as [Hr Hri] by lia.
      rewrite (proj2 (Z.ltb_lt 0 r)) by lia.
      assert (zlen (ztake r incoming) = r) as Hz by (rewrite zlen_ztake by lia; lia).
      destruct (IH (zdrop r incoming) (buffer ++ ztake r incoming) n k) as (script' & -> & Hd');
        [eapply delivers_le; [|exact Hd]; rewrite zlen_app; lia|rewrite zlen_app; lia|
         rewrite zlen_app, zlen_zdrop by lia; lia|done|].
      assert (ztake r incoming ++ ztake (n - (zlen buffer + r)) (zdrop r incoming) = ztake (n - zlen buffer) incoming) as Heq.
      { rewrite <- (ztake_zdrop r incoming) at 3. rewrite ztake_app_ge, Hz by lia. do 2 f_equal. lia. }
      exists script'. split; [|done]. rewrite zlen_app, Hz, <- app_assoc, Heq, zdrop_zdrop by lia. do 4 f_equal. lia.
    + by apply IH.
Qed.

Section frames.
Context {N : Winsock}.

(** A frame whose fields fit; unlike for a request, no limit of 1 MiB is enforced. *)
Definition response_wf (f : Frame) : Prop :=
  frame_length f = 5 + zlen (body f) /\ frame_length f < 2 ^ 31 /\ is_u8 (frame_type f) /\ is_u32 (request_id f).

(** The bytes after the length field. *)
Definition frame_payload (f : Frame) : bytes := byte_of_Z (frame_type f) :: be_store 4 (request_id f) ++ body f.

Lemma frame_bytes_payload f : frame_bytes f = be_store 4 (5 + zlen (body f)) ++ frame_payload f.
Proof. done. Qed.

Lemma zlen_frame_payload f : zlen (frame_payload f) = 5 + zlen (body f).
Proof. unfold frame_payload. rewrite zlen_cons, zlen_app, zlen_be_store. lia. Qed.

(** What [read_response_frame] makes of the frame [f]. *)
Definition received (out_frame f : Frame) : Frame :=
  mkFrame (frame_length f) (frame_type f) (request_id f)
    (if bool_decide (body f = []) then body out_frame else body f).

Lemma received_new f : received empty_Frame f = f.
Proof. unfold received. destruct f as [l t i b]. cbn. by case_bool_decide as H; [rewrite H|]. Qed.

(** On any socket that hands over the bytes of a frame, the frame is read. *)
Lemma read_frame_into {S} {K : SocketApi S} out f (s s1 s2 : S) id tr :
  response_wf f -> recv_exact 4 s = Some (RecvSuccess, be_store 4 (5 + zlen (body f)), s1) ->
  recv_exact (5 + zlen (body f)) s1 = Some (RecvSuccess, frame_payload f, s2) ->
  read_response_frame out (mkWorld s id tr) =
    (Value (true, received out f), mkWorld s2 id (tr ++ [Received (received out f)])).
Proof.
  intros (Hl & Hlt & Ht & Hid) H1 H2. pose proof (zlen_nonneg (body f)).
  unfold read_response_frame, cli_recv_exact, on_machine, mbind, cli_bind. cbn [w_machine w_req_id w_trace].
  rewrite H1. cbn [mbind option_bind w_machine w_req_id w_trace]. rewrite bool_decide_eq_true_2 by done. cbn [negb].
  rewrite <- (app_nil_r (be_store 4 (5 + zlen (body f)))), frame_read_u32 by (unfold is_u32; lia).
  unfold HEADER_SIZE. rewrite (proj2 (Z.ltb_ge (5 + zlen (body f)) 5)) by lia. cbn [w_machine]. rewrite H2.
  cbn [mbind option_bind w_machine w_req_id w_trace]. rewrite bool_decide_eq_true_2 by done. cbn [negb].
  change (default Byte.x00 (list.head (frame_payload f))) with (byte_of_Z (frame_type f)).
  change (drop 1 (frame_payload f)) with (be_store 4 (request_id f) ++ body f).
  change (drop 5 (frame_payload f)) with (drop 4 (be_store 4 (request_id f) ++ body f)).
  rewrite frame_read_u32, byte_to_of_Z, Z.mod_small by done.
  rewrite drop_app_length' by (by rewrite length_be_store).
  assert (mkFrame (5 + zlen (body f)) (frame_type f) (request_id f)
    (if 5 <? 5 + zlen (body f) then body f else body out) = received out f) as ->; [|done].
  unfold received. destruct f as [len ty i bd]. cbn in *. subst len. f_equal.
  destruct (Z.ltb_spec 5 (5 + zlen bd)) as [Hlt'|Hge].
  - by rewrite bool_decide_eq_false_2 by (intros ->; rewrite zlen_nil in Hlt'; lia).
  - by rewrite bool_decide_eq_true_2 by (apply zlen_zero; lia).
Qed.

Lemma read_frame_from {S} {K : SocketApi S} f (s s1 s2 : S) id tr :
  response_wf f -> recv_exact 4 s = Some (RecvSuccess, be_store 4 (5 + zlen (body f)), s1) ->
  recv_exact (5 + zlen (body f)) s1 = Some (RecvSuccess, frame_payload f, s2) ->
  read_response_frame empty_Frame (mkWorld s id tr) = (Value (true, f), mkWorld s2 id (tr ++ [Received f])).
Proof. intros Hf H1 H2. rewrite (read_frame_into empty_Frame f s s1 s2) by done. by rewrite received_new. Qed.

Lemma read_frame_delivers f out script rest k id tr :
  response_wf f -> delivers (zlen (frame_bytes f) + k) script -> 0 <= k ->
  exists script', read_response_frame empty_Frame (mkWorld (mkScripted out script (frame_bytes f ++ rest)) id tr) =
      (Value (true, f), mkWorld (mkScripted out script' rest) id (tr ++ [Received f])) /\ delivers k script'.
Proof.
  intros Hwf Hd Hk. pose proof (zlen_nonneg (body f)). rewrite zlen_frame_bytes in Hd.
  rewrite frame_bytes_payload, <- app_assoc. set (tail := frame_payload f ++ rest).
  destruct (recv_loop_delivers script (be_store 4 (5 + zlen (body f)) ++ tail) [] 4 (5 + zlen (body f) + k))
    as (s1 & H1 & Hd1); [eapply delivers_le; [|exact Hd]; rewrite zlen_nil; lia|rewrite zlen_nil; lia| |lia|].
  { rewrite zlen_nil, zlen_app, zlen_be_store. pose proof (zlen_nonneg tail). lia. }
  destruct (recv_loop_delivers s1 tail [] (5 + zlen (body f)) k) as (s2 & H2 & Hd2);
    [by rewrite zlen_nil, Z.sub_0_r|rewrite zlen_nil; destruct Hwf as (? & ? & _); lia| |done|].
  { unfold tail. rewrite zlen_nil, zlen_app, zlen_frame_payload. pose proof (zlen_nonneg rest). lia. }
  exists s2. split; [|done]. rewrite zlen_nil, Z.sub_0_r in H1, H2.
  rewrite ztake_app_exact, zdrop_app_exact in H1 by (by rewrite zlen_be_store).
  unfold tail in H2 at 2 3. rewrite ztake_app_exact, zdrop_app_exact in H2 by (by rewrite zlen_frame_payload).
  apply (read_frame_from f _ (mkScripted out s1 tail)); [done|..]; cbn [recv_exact Scripted_socket sc_in sc_incoming];
    unfold Socket_recv_exact; [by rewrite H1|by rewrite H2].
Qed.

Lemma read_responses_delivers fs : forall out script rest k id tr,
  Forall response_wf fs -> delivers (zlen (concat (frame_bytes <$> fs)) + k) script -> 0 <= k ->
  exists script',
    read_responses (length fs) (mkWorld (mkScripted out script (concat (frame_bytes <$> fs) ++ rest)) id tr) =
      (Value fs, mkWorld (mkScripted out script' rest) id (tr ++ (Received <$> fs))) /\ delivers k script'.
Proof.
  induction fs as [|f fs IH]; intros out script rest k id tr Hwf Hd Hk;
    cbn [read_responses length fmap list_fmap concat app] in *.
  { rewrite zlen_nil, Z.add_0_l in Hd. exists script. by rewrite app_nil_r. }
  apply list.Forall_cons in Hwf as [Hf Hwf]. rewrite zlen_app in Hd.
  pose proof (zlen_nonneg (concat (frame_bytes <$> fs))). rewrite <- app_assoc.
  destruct (read_frame_delivers f out script (concat (frame_bytes <$> fs) ++ rest)
      (zlen (concat (frame_bytes <$> fs)) + k) id tr Hf)
    as (s1 & E1 & Hd1); [eapply delivers_le; [|exact Hd]; lia|lia|].
  destruct (IH out s1 rest k id (tr ++ [Received f]) Hwf Hd1 Hk) as (s2 & E2 & Hd2). exists s2. split; [|done].
  unfold mbind, cli_bind. rewrite E1. cbn [negb]. rewrite E2. by rewrite <- app_assoc.
Qed.

End frames.

Lemma send_all_delivers script : forall buffer sent,
  delivers (zlen buffer - sent) script -> 0 <= sent <= zlen buffer -> zlen buffer < 2 ^ 31 ->
  exists script', Socket_send_all script buffer sent = Some (SendSuccess, zlen buffer, script').
Proof.
  induction script as [|o script IH]; intros buffer sent Hd Hs Hb; cbn [Socket_send_all];
    (destruct (Z.ltb_spec sent (zlen buffer)) as [Hlt|Hge]; [|replace sent with (zlen buffer) by lia; by eexists]).
  - destruct Hd as [_ Hd]. change (filter _ []) with (@nil IoOutcome) in Hd. rewrite zlen_nil in Hd. lia.
  - rewrite i32_small by lia. apply delivers_tail in Hd. destruct o as [m| | |]; try done; [|by apply IH].
    destruct Hd as [Hm Hd]. set (r := Z.min m _). rewrite (proj2 (Z.ltb_lt 0 r)) by lia.
    apply IH; [|lia|done]. eapply delivers_le; [|exact Hd]. lia.
Qed.

(** ** Properties *)

(** However the network cuts the stream of responses, and whatever calls are
    interrupted, a client that reads as many responses as were sent gets exactly the
    frames sent, in order, and leaves what follows them unread. *)
Theorem responses_read_in_order {N : Winsock} fs out script rest id tr :
  Forall response_wf fs -> delivers (zlen (concat (frame_bytes <$> fs))) script ->
  exists script',
    read_responses (length fs) (mkWorld (mkScripted out script (concat (frame_bytes <$> fs) ++ rest)) id tr) =
    (Value fs, mkWorld (mkScripted out script' rest) id (tr ++ (Received <$> fs))).
Proof.
  intros Hwf Hd. destruct (read_responses_delivers fs out script rest 0 id tr Hwf) as (s & Hs & _);
    [by rewrite Z.add_0_r|done|]. by exists s.
Qed.

(** A request is sent completely, and its response comes back as it was sent: the call
    succeeds unless the response is an error frame. *)
Theorem exchange_correct {N : Winsock} out script rest req resp id tr :
  is_u32 (request_id req) -> zlen (body req) + 9 < 2 ^ 31 -> response_wf resp ->
  delivers (zlen (frame_bytes req)) out -> delivers (zlen (frame_bytes resp)) script ->
  exists out' script',
    send_and_receive req empty_Frame (mkWorld (mkScripted out script (frame_bytes resp ++ rest)) id tr) =
    (Value (negb (frame_type resp =? MSG_ERROR), resp),
     mkWorld (mkScripted out' script' rest) id (tr ++ [Sent req; Received resp])).
Proof.
  intros Hid Hb Hwf Ho Hs. unfold send_and_receive, send_frame. rewrite FrameCodec_encode_spec by (done || lia).
  destruct (send_all_delivers out (frame_bytes req) 0) as [o' Ho'];
    [by rewrite Z.sub_0_r|pose proof (zlen_nonneg (frame_bytes req)); lia|rewrite zlen_frame_bytes; lia|].
  destruct (read_frame_delivers resp o' script rest 0 id (tr ++ [Sent req]) Hwf) as (s & E & _);
    [by rewrite Z.add_0_r|done|].
  exists o', s. unfold or_undefined, send_bytes, on_machine, log, mbind, cli_bind, mret, cli_ret. cbn [w_machine w_req_id w_trace].
  cbn [send_all Scripted_socket sc_out]. rewrite Ho'. cbn [mbind option_bind sc_in sc_incoming w_machine w_req_id w_trace].
  rewrite bool_decide_eq_true_2 by done. cbn [negb]. rewrite E. cbn [negb]. by rewrite <- app_assoc.
Qed.
