(* ===== verification/SocketSetup.v ===== *)
(** * SocketSetup: who owns a socket handle
    (src/Socket.cpp, the constructor in src/WakeupChannel.cpp, connect_socket in
    src/cli_main.cpp)

    [Socket] owns a handle of the operating system and closes it when it is destroyed or
    assigned to; the functions that set up sockets hold bare handles in between, and
    leave by exceptions or early returns.  [NetApi] is what they use of Winsock, and
    [NetLaws] what its documentation says about handles: [socket] and [accept] open a
    new one or fail, [closesocket] closes one, the other calls leave them open.  The
    theorems: on every path, a handle that was opened is owned by the result or closed
    again. *)
From S2P Require Import Prelude StdString FrameCodec.

Record sockaddr_in := mkSockaddr {
  sin_port : Z;      (* network byte order *)
  sin_addr : Z;
}.

Definition INVALID_SOCKET : Z := 2 ^ 64 - 1.

(** The calls that can only fail in a way the code ignores have no result.  [inet_pton]
    and [inet_ntop] are for IPv4. *)
Class NetApi (S : Type) := {
  ws_socket : S -> Z * S;
  ws_bind : Z -> sockaddr_in -> S -> Z * S;
  ws_listen : Z -> S -> Z * S;
  ws_connect : Z -> sockaddr_in -> S -> Z * S;
  ws_accept : Z -> S -> Z * S;
  ws_getsockname : Z -> S -> Z * sockaddr_in;
  ws_getpeername : Z -> S -> Z * sockaddr_in;
  ws_closesocket : Z -> S -> S;
  ws_shutdown : Z -> Z -> S -> S;
  ws_reuse_address : Z -> S -> S;
  ws_no_delay : Z -> S -> S;
  ws_fionbio : Z -> Z -> S -> Z * S;
  ws_last_error : S -> Z;
  inet_pton : bytes -> option Z;
  inet_ntop : Z -> bytes;
}.

Class NetLaws (S : Type) `{!NetApi S} := {
  open_handles : S -> gset Z;
  socket_opens s : let '(h, s') := ws_socket s in
    (h = INVALID_SOCKET /\ open_handles s' = open_handles s) \/
    (h <> INVALID_SOCKET /\ (h ∉ open_handles s) /\ open_handles s' = {[h]} ∪ open_handles s);
  accept_opens l s : let '(h, s') := ws_accept l s in
    (h = INVALID_SOCKET /\ open_handles s' = open_handles s) \/
    (h <> INVALID_SOCKET /\ (h ∉ open_handles s) /\ open_handles s' = {[h]} ∪ open_handles s);
  close_closes h s : open_handles (ws_closesocket h s) = open_handles s ∖ {[h]};
  bind_keeps h a s : open_handles (ws_bind h a s).2 = open_handles s;
  listen_keeps h s : open_handles (ws_listen h s).2 = open_handles s;
  connect_keeps h a s : open_handles (ws_connect h a s).2 = open_handles s;
  shutdown_keeps h how s : open_handles (ws_shutdown h how s) = open_handles s;
  reuse_address_keeps h s : open_handles (ws_reuse_address h s) = open_handles s;
  no_delay_keeps h s : open_handles (ws_no_delay h s) = open_handles s;
  fionbio_keeps h m s : open_handles (ws_fionbio h m s).2 = open_handles s;
}.

(** ** Functions that throw *)

(** A function over the state [S]: its result, or the text of the [runtime_error] it
    throws. *)
Definition throwing (S A : Type) : Type := S -> (A + bytes) * S.

#[global] Instance throwing_ret S : MRet (throwing S) := fun A a s => (inl a, s).

#[global] Instance throwing_bind S : MBind (throwing S) := fun A B k m s =>
  match m s with
  | (inl a, s) => k a s
  | (inr err, s) => (inr err, s)
  end.

Definition throw {S A} (msg : bytes) : throwing S A := fun s => (inr msg, s).
Definition call {S A} (f : S -> A * S) : throwing S A := fun s => let '(a, s) := f s in (inl a, s).
Definition effect {S} (f : S -> S) : throwing S unit := fun s => (inl (), f s).
Definition ask {S A} (f : S -> A) : throwing S A := fun s => (inl (f s), s).

(** A call inside the scope of a local variable. *)
Definition within {V S A} (m : throwing S A) : throwing (V * S) A :=
  fun '(v, s) => let '(r, s) := m s in (r, (v, s)).

(** ** Socket *)

Record Socket := mkSocket { m_sock : Z }.

Definition Socket_default : Socket := mkSocket INVALID_SOCKET.

Section socket.
Context {N : Winsock} {S : Type} {A : NetApi S}.

Definition Socket_is_valid (x : Socket) : bool := negb (m_sock x =? INVALID_SOCKET).

Definition Socket_close (x : Socket) (s : S) : Socket * S :=
  if negb (m_sock x =? INVALID_SOCKET) then (Socket_default, ws_closesocket (m_sock x) s) else (x, s).

(** The destructor. *)
Definition Socket_destroy (x : Socket) (s : S) : S := (Socket_close x s).2.

(** The move constructor: the new object, and what is left in [other]. *)
Definition Socket_move (other : Socket) : Socket * Socket := (mkSocket (m_sock other), Socket_default).

(** The move assignment; [self] when both are the same object. *)
Definition Socket_assign (self : bool) (x other : Socket) (s : S) : (Socket * Socket) * S :=
  if negb self then
    let '(_, s) := Socket_close x s in ((mkSocket (m_sock other), Socket_default), s)
  else ((x, other), s).

Definition Socket_release (x : Socket) : Z * Socket := (m_sock x, Socket_default).

Definition Socket_shutdown (x : Socket) (how : Z) (s : S) : S :=
  if negb (m_sock x =? INVALID_SOCKET) then ws_shutdown (m_sock x) how s else s.

Definition address_of (a : sockaddr_in) : bytes * Z := (inet_ntop (sin_addr a), ntohs (sin_port a)).

Definition Socket_get_peer_address (x : Socket) (s : S) : option (bytes * Z) :=
  if m_sock x =? INVALID_SOCKET then None
  else let '(res, addr) := ws_getpeername (m_sock x) s in
       if negb (res =? 0) then None else Some (address_of addr).

Definition Socket_get_local_address (x : Socket) (s : S) : option (bytes * Z) :=
  if m_sock x =? INVALID_SOCKET then None
  else let '(res, addr) := ws_getsockname (m_sock x) s in
       if negb (res =? 0) then None else Some (address_of addr).

Definition Socket_set_non_blocking (x : Socket) (non_blocking : bool) (s : S) : bool * S :=
  if m_sock x =? INVALID_SOCKET then (false, s)
  else let '(res, s) := ws_fionbio (m_sock x) (if non_blocking then 1 else 0) s in (res =? 0, s).

Definition Socket_create_listener (host : bytes) (port : Z) : throwing S Socket :=
  h ← call ws_socket;
  if h =? INVALID_SOCKET then
    err ← ask ws_last_error;
    throw (str "Failed to create TCP socket. Error: " ++ std_to_string err)
  else
  _ ← effect (ws_reuse_address h);
  match inet_pton host with
  | None =>
      _ ← effect (ws_closesocket h);
      throw (str "Invalid IP address: " ++ host)
  | Some addr =>
      res ← call (ws_bind h (mkSockaddr (htons port) addr));
      if negb (res =? 0) then
        err ← ask ws_last_error;
        _ ← effect (ws_closesocket h);
        throw (str "Bind failed on " ++ host ++ str ":" ++ std_to_string port ++ str ". Error: " ++ std_to_string err)
      else
      res ← call (ws_listen h);
      if negb (res =? 0) then
        err ← ask ws_last_error;
        _ ← effect (ws_closesocket h);
        throw (str "Listen failed. Error: " ++ std_to_string err)
      else mret (mkSocket h)
  end.

(** A local [Socket] variable: it is destroyed when the block is left, either way. *)
Definition scoped {B} (x : Socket) (body : throwing (Socket * S) B) : throwing S B :=
  fun s => let '(r, (x, s)) := body (x, s) in (r, Socket_destroy x s).

(** [listener.close()] on the variable of the block. *)
Definition close_local : throwing (Socket * S) unit :=
  fun '(x, s) => (inl (), Socket_close x s).

Definition local_handle : throwing (Socket * S) Z := fun '(x, s) => (inl (m_sock x), (x, s)).

Definition local_address : throwing (Socket * S) (option (bytes * Z)) :=
  fun '(x, s) => (inl (Socket_get_local_address x s), (x, s)).

(** ** WakeupChannel *)

Definition LOOPBACK : bytes := str "127.0.0.1".

(** The constructor after the creation of the listener; the result is
    [m_read_sock] and [m_write_sock].  An address that cannot be parsed stays 0, as the
    result of [inet_pton] is not looked at. *)
Definition wakeup_connect : throwing (Socket * S) (Socket * Socket) :=
  addr ← local_address;
  match addr with
  | None => throw (str "Failed to get local address for wakeup listener socket")
  | Some (_, port) =>
      write_s ← within (call ws_socket);
      if write_s =? INVALID_SOCKET then
        err ← within (ask ws_last_error);
        throw (str "Failed to create wakeup write socket: " ++ std_to_string err)
      else
      res ← within (call (ws_connect write_s (mkSockaddr (htons port) (default 0 (inet_pton LOOPBACK)))));
      if negb (res =? 0) then
        _ ← within (effect (ws_closesocket write_s));
        err ← within (ask ws_last_error);
        throw (str "Failed to connect wakeup write socket: " ++ std_to_string err)
      else
      listener ← local_handle;
      read_s ← within (call (ws_accept listener));
      if read_s =? INVALID_SOCKET then
        _ ← within (effect (ws_closesocket write_s));
        err ← within (ask ws_last_error);
        throw (str "Failed to accept wakeup read socket: " ++ std_to_string err)
      else
      _ ← close_local;
      _ ← within (effect (ws_no_delay write_s));
      _ ← within (call (ws_fionbio read_s 1));
      mret (mkSocket read_s, mkSocket write_s)
  end.

Definition WakeupChannel_open : throwing S (Socket * Socket) :=
  listener ← Socket_create_listener LOOPBACK 0;
  scoped listener wakeup_connect.

(** ** The client *)

(** [connect_socket(sock, host, port)], without what it prints: the result and [sock]. *)
Definition net_connect_socket (sock : Socket) (host : bytes) (port : Z) (s : S) : bool * Socket * S :=
  let '(h, s) := ws_socket s in
  if h =? INVALID_SOCKET then (false, sock, s) else
  match inet_pton host with
  | None => (false, sock, ws_closesocket h s)
  | Some addr =>
      let '(res, s) := ws_connect h (mkSockaddr (htons port) addr) s in
      if negb (res =? 0) then (false, sock, ws_closesocket h s)
      else let '((sock, temporary), s) := Socket_assign false sock (mkSocket h) s in
           (true, sock, Socket_destroy temporary s)
  end.

End socket.

(** ** Reasoning about functions that throw *)

(** [Q] holds of the result, [X] of the state after an exception. *)
Definition spec {S B} (m : throwing S B) (Q : B -> S -> Prop) (X : S -> Prop) (s : S) : Prop :=
  match m s with (inl b, s') => Q b s' | (inr _, s') => X s' end.

Section spec.
Context {S : Type}.

Lemma spec_bind {B C} (m : throwing S B) (k : B -> throwing S C) Q X s :
  spec m (fun b => spec (k b) Q X) X s -> spec (m ≫= k) Q X s.
Proof. unfold spec, mbind, throwing_bind. by destruct (m s) as [[b|err] s']. Qed.

Lemma spec_call {B} (f : S -> B * S) Q X s : Q (f s).1 (f s).2 -> spec (call f) Q X s.
Proof. unfold spec, call. by destruct (f s). Qed.

Lemma spec_effect (f : S -> S) Q X s : Q () (f s) -> spec (effect f) Q X s.
Proof. done. Qed.

Lemma spec_ask {B} (f : S -> B) Q X s : Q (f s) s -> spec (ask f) Q X s.
Proof. done. Qed.

Lemma spec_throw {B} msg (Q : B -> S -> Prop) X s : X s -> spec (throw msg) Q X s.
Proof. done. Qed.

Lemma spec_ret {B} (b : B) (Q : B -> S -> Prop) X s : Q b s -> spec (mret b) Q X s.
Proof. done. Qed.

Lemma spec_mono {B} (m : throwing S B) (Q Q' : B -> S -> Prop) (X X' : S -> Prop) s :
  spec m Q X s -> (forall b s', Q b s' -> Q' b s') -> (forall s', X s' -> X' s') -> spec m Q' X' s.
Proof. unfold spec. destruct (m s) as [[b|err] s']; auto. Qed.

Lemma spec_within {V B} (m : throwing S B) Q X (v : V) s :
  spec m (fun b s' => Q b (v, s')) (fun s' => X (v, s')) s -> spec (within m) Q X (v, s).
Proof. unfold spec, within. by destruct (m s) as [[b|err] s']. Qed.

End spec.

(** One step through a function: its calls one by one. *)
Ltac spec_step :=
  lazymatch goal with
  | |- spec (_ ≫= _) _ _ _ => apply spec_bind
  | |- spec (within _) _ _ _ => apply spec_within
  | |- spec (call _) _ _ _ => apply spec_call
  | |- spec (effect _) _ _ _ => apply spec_effect
  | |- spec (ask _) _ _ _ => apply spec_ask
  | |- spec (throw _) _ _ _ => apply spec_throw
  | |- spec (mret _) _ _ _ => apply spec_ret
  end.

(** ** Handles *)

Section handles.
Context {N : Winsock} {S : Type} {A : NetApi S} {L : NetLaws S}.

(** A handle that [s'] has more than [s]. *)
Definition opened (h : Z) (s s' : S) : Prop :=
  h <> INVALID_SOCKET /\ (h ∉ open_handles s) /\ open_handles s' = {[h]} ∪ open_handles s.

Lemma socket_cases s :
  ((ws_socket s).1 = INVALID_SOCKET /\ open_handles (ws_socket s).2 = open_handles s) \/
  opened (ws_socket s).1 s (ws_socket s).2.
Proof. pose proof (socket_opens s) as H. by destruct (ws_socket s). Qed.

Lemma accept_cases l s :
  ((ws_accept l s).1 = INVALID_SOCKET /\ open_handles (ws_accept l s).2 = open_handles s) \/
  opened (ws_accept l s).1 s (ws_accept l s).2.
Proof. pose proof (accept_opens l s) as H. by destruct (ws_accept l s). Qed.

Lemma close_opened h s s1 s' : opened h s s1 -> open_handles s' = open_handles s1 ->
  open_handles (ws_closesocket h s') = open_handles s.
Proof. intros (_ & Hn & Ho) E. rewrite close_closes, E, Ho. set_solver. Qed.

Lemma opened_same h s s1 s' : opened h s s1 -> open_handles s' = open_handles s1 -> opened h s s'.
Proof. intros (Hi & Hn & Ho) E. split_and!; [done|done|congruence]. Qed.

Lemma socket_close_handles x s : open_handles (Socket_destroy x s) = open_handles s ∖ {[m_sock x]} \/
  (m_sock x = INVALID_SOCKET /\ Socket_destroy x s = s).
Proof.
  unfold Socket_destroy, Socket_close. destruct (Z.eqb_spec (m_sock x) INVALID_SOCKET) as [E|E]; cbn [negb snd].
  - by right.
  - left. apply close_closes.
Qed.

Lemma create_listener_spec host port s :
  spec (Socket_create_listener host port) (fun x s' => opened (m_sock x) s s')
    (fun s' => open_handles s' = open_handles s) s.
Proof.
  unfold Socket_create_listener. do 2 spec_step. destruct (socket_cases s) as [[-> Ho]|Hop].
  { rewrite Z.eqb_refl. do 2 spec_step. exact Ho. }
  set (h := (ws_socket s).1) in *. set (s1 := (ws_socket s).2) in *.
  rewrite (proj2 (Z.eqb_neq h _)) by apply Hop. do 2 spec_step. pose proof (reuse_address_keeps h s1) as K1.
  destruct (inet_pton host) as [addr|]; [|do 3 spec_step; by eapply close_opened].
  do 2 spec_step. pose proof (bind_keeps h (mkSockaddr (htons port) addr) (ws_reuse_address h s1)) as K2.
  destruct (ws_bind _ _ _) as [res s2]. cbn [fst snd] in *. assert (open_handles s2 = open_handles s1) as K3 by congruence.
  destruct (negb _); [do 5 spec_step; by eapply close_opened|]. do 2 spec_step. pose proof (listen_keeps h s2) as K4.
  destruct (ws_listen h s2) as [res2 s3]. cbn [fst snd] in *. assert (open_handles s3 = open_handles s1) as K5 by congruence.
  destruct (negb _); [do 5 spec_step; by eapply close_opened|]. spec_step. by eapply opened_same.
Qed.

(** The block holds its listener until it has both ends of the connection. *)
Lemma wakeup_connect_spec x s0 s : opened (m_sock x) s0 s ->
  spec wakeup_connect
    (fun '(r, w) '(x', s') => x' = Socket_default /\ m_sock r <> m_sock w /\
       m_sock r <> INVALID_SOCKET /\ m_sock w <> INVALID_SOCKET /\ (m_sock r ∉ open_handles s0) /\
       (m_sock w ∉ open_handles s0) /\ open_handles s' = {[m_sock r; m_sock w]} ∪ open_handles s0)
    (fun '(x', s') => x' = x /\ open_handles s' = open_handles s) (x, s).
Proof.
  intros Hl. pose proof Hl as (Hi & Hn & Ho). unfold wakeup_connect. spec_step.
  change (spec local_address ?Q ?X (x, s)) with (Q (Socket_get_local_address x s) (x, s)). cbv beta.
  destruct (Socket_get_local_address x s) as [[ip port]|]; [|by spec_step].
  do 3 spec_step. destruct (socket_cases s) as [[-> Hs]|Hop].
  { rewrite Z.eqb_refl. do 4 spec_step. done. }
  set (w := (ws_socket s).1) in *. set (s1 := (ws_socket s).2) in *.
  rewrite (proj2 (Z.eqb_neq w _)) by apply Hop. do 3 spec_step. pose proof (connect_keeps w
    (mkSockaddr (htons port) (default 0 (inet_pton LOOPBACK))) s1) as K1.
  destruct (ws_connect _ _ _) as [res s2]. cbn [fst snd] in *.
  destruct (negb _); [do 7 spec_step; split; [done|by eapply close_opened]|].
  spec_step. change (spec local_handle ?Q ?X (x, s2)) with (Q (m_sock x) (x, s2)). cbv beta.
  do 3 spec_step. destruct (accept_cases (m_sock x) s2) as [[-> Ha]|Hop2].
  { rewrite Z.eqb_refl. do 7 spec_step. split; [done|]. eapply close_opened; [exact Hop|congruence]. }
  set (r := (ws_accept (m_sock x) s2).1) in *. set (s3 := (ws_accept (m_sock x) s2).2) in *.
  rewrite (proj2 (Z.eqb_neq r _)) by apply Hop2. spec_step.
  assert (Socket_close x s3 = (Socket_default, ws_closesocket (m_sock x) s3)) as Hc.
  { unfold Socket_close. by rewrite (proj2 (Z.eqb_neq _ _) Hi). }
  change (spec close_local ?Q ?X (x, s3)) with (Q () (Socket_close x s3)). cbv beta. rewrite Hc.
  do 6 spec_step. pose proof (no_delay_keeps w (ws_closesocket (m_sock x) s3)) as K2.
  pose proof (fionbio_keeps r 1 (ws_no_delay w (ws_closesocket (m_sock x) s3))) as K3.
  destruct (ws_fionbio _ _ _) as [res2 s4]. cbn [fst snd] in *. spec_step. cbn [m_sock].
  destruct Hop as (Hw1 & Hw2 & Hw3), Hop2 as (Hr1 & Hr2 & Hr3). rewrite K1, Hw3 in Hr2, Hr3.
  rewrite Ho in *. assert (open_handles s4 = open_handles s3 ∖ {[m_sock x]}) as K4 by (rewrite K3, K2; apply close_closes).
  rewrite Hr3 in K4. split_and!; try done; [set_solver|set_solver|set_solver|]. rewrite K4. set_solver.
Qed.

End handles.

(** ** A network in memory *)

(** Handles that are open, and which of the next calls fail. *)
Record SimNet := mkSimNet { sn_open : gset Z; sn_fails : list bool }.

(** The result of a call, [0] or an error. *)
Definition sim_outcome (s : SimNet) : Z * SimNet :=
  match sn_fails s with
  | true :: l => (-1, mkSimNet (sn_open s) l)
  | _ :: l => (0, mkSimNet (sn_open s) l)
  | [] => (0, s)
  end.

Definition sim_open (s : SimNet) : Z * SimNet :=
  let '(res, s) := sim_outcome s in
  if res =? 0 then let h := fresh ({[INVALID_SOCKET]} ∪ sn_open s) in (h, mkSimNet ({[h]} ∪ sn_open s) (sn_fails s))
  else (INVALID_SOCKET, s).

#[export] Instance sim_net : NetApi SimNet := {
  ws_socket := sim_open;
  ws_bind _ _ := sim_outcome;
  ws_listen _ := sim_outcome;
  ws_connect _ _ := sim_outcome;
  ws_accept _ := sim_open;
  ws_getsockname _ _ := (0, mkSockaddr 0x5100 0x0100007f);
  ws_getpeername _ _ := (0, mkSockaddr 0x5100 0x0100007f);
  ws_closesocket h s := mkSimNet (sn_open s ∖ {[h]}) (sn_fails s);
  ws_shutdown _ _ s := s;
  ws_reuse_address _ s := s;
  ws_no_delay _ s := s;
  ws_fionbio _ _ s := (0, s);
  ws_last_error _ := 10055;
  inet_pton host := if bool_decide (host = LOOPBACK) then Some 0x0100007f else None;
  inet_ntop _ := LOOPBACK;
}.

Lemma sim_outcome_open s : sn_open (sim_outcome s).2 = sn_open s.
Proof. unfold sim_outcome. by destruct (sn_fails s) as [|[] l]. Qed.

Lemma sim_open_opens s : let '(h, s') := sim_open s in
  (h = INVALID_SOCKET /\ sn_open s' = sn_open s) \/
  (h <> INVALID_SOCKET /\ (h ∉ sn_open s) /\ sn_open s' = {[h]} ∪ sn_open s).
Proof.
  unfold sim_open. pose proof (sim_outcome_open s) as E. destruct (sim_outcome s) as [res s']. cbn [snd] in E.
  destruct (res =? 0); [|by left]. right. pose proof (is_fresh ({[INVALID_SOCKET]} ∪ sn_open s')) as Hf.
  rewrite <- E. cbn [sn_open]. split_and!; [set_solver|set_solver|done].
Qed.

#[export] Instance sim_laws : NetLaws SimNet.
Proof.
  refine {| open_handles := sn_open |}; try done.
  - apply sim_open_opens.
  - intros l. apply sim_open_opens.
  - intros h a s. apply sim_outcome_open.
  - intros h s. apply sim_outcome_open.
  - intros h a s. apply sim_outcome_open.
Defined.

(** ** Properties *)

(** C32: setting up sockets leaks no handle.  Whichever call of Winsock fails, when
    [create_listener], the constructor of [WakeupChannel] or [connect_socket] gives up,
    exactly the handles are open that were open before; when it succeeds, the new ones
    are open that its result owns - one, two different ones, one - and for
    [connect_socket] the handle that the variable owned before is closed. *)
Theorem socket_setup_leaks_nothing {N : Winsock} {S : Type} {A : NetApi S} {L : NetLaws S} (s : S) :
  (forall host port, spec (Socket_create_listener host port)
     (fun x s' => (m_sock x ∉ open_handles s) /\ open_handles s' = {[m_sock x]} ∪ open_handles s)
     (fun s' => open_handles s' = open_handles s) s) /\
  spec WakeupChannel_open
     (fun '(r, w) s' => m_sock r <> m_sock w /\ (m_sock r ∉ open_handles s) /\ (m_sock w ∉ open_handles s) /\
        open_handles s' = {[m_sock r; m_sock w]} ∪ open_handles s)
     (fun s' => open_handles s' = open_handles s) s /\
  (forall sock host port, m_sock sock = INVALID_SOCKET \/ m_sock sock ∈ open_handles s ->
     let '(connected, sock', s') := net_connect_socket sock host port s in
     if connected
     then (m_sock sock' ∉ open_handles s) /\
          open_handles s' = {[m_sock sock']} ∪ open_handles (Socket_destroy sock s)
     else sock' = sock /\ open_handles s' = open_handles s).
Proof.
  split_and!.
  - intros host port. eapply spec_mono; [apply create_listener_spec| |done]. by intros x s' (_ & Hn & Ho).
  - unfold WakeupChannel_open. apply spec_bind. eapply spec_mono; [apply create_listener_spec| |done].
    intros x s1 Hx. pose proof (wakeup_connect_spec x s s1 Hx) as Hw. unfold spec, scoped in *.
    destruct (wakeup_connect (x, s1)) as [[[r w]|err] [x' s']].
    + destruct Hw as (-> & Hne & _ & _ & Hr & Hw & Ho). unfold Socket_destroy, Socket_close. cbn. done.
    + destruct Hw as [-> Ho]. unfold Socket_destroy, Socket_close. rewrite (proj2 (Z.eqb_neq _ _)) by apply Hx. cbn [negb snd].
      by eapply close_opened.
  - intros sock host port Hs. unfold net_connect_socket. destruct (socket_cases s) as [[E Ho]|Hop].
    { destruct (ws_socket s) as [h s1]. cbn [fst snd] in *. by rewrite E, Z.eqb_refl. }
    destruct (ws_socket s) as [h s1]. cbn [fst snd] in *. rewrite (proj2 (Z.eqb_neq _ _)) by apply Hop.
    destruct (inet_pton host) as [addr|]; [|split; [done|by eapply close_opened]].
    pose proof (connect_keeps h (mkSockaddr (htons port) addr) s1) as K. destruct (ws_connect _ _ _) as [res s2].
    cbn [fst snd] in K. destruct (negb (res =? 0)); [split; [done|by eapply close_opened]|].
    destruct Hop as (Hi & Hn & Ho). unfold Socket_assign. cbn [negb m_sock].
    unfold Socket_destroy at 1, Socket_destroy, Socket_close. destruct (Z.eqb_spec (m_sock sock) INVALID_SOCKET) as [E|E]; cbn.
    + split; [done|]. rewrite Z.eqb_refl. cbn. congruence.
    + split; [done|]. rewrite Z.eqb_refl. cbn. rewrite !close_closes, K, Ho. destruct Hs as [Hs|Hs]; [done|]. set_solver.
Qed.

(** The connection of the wake-up channel is refused while another handle is open. *)
Example socket_setup_leaks_nothing_witness :
  let s := mkSimNet {[3]} [false; false; false; false; true] in
  (WakeupChannel_open (N := x86_winsock) s).1 = inr (str "Failed to connect wakeup write socket: 10055") /\
  open_handles (WakeupChannel_open (N := x86_winsock) s).2 = {[3]}.
Proof.
  cbv zeta. split; [by vm_compute|].
  destruct (socket_setup_leaks_nothing (N := x86_winsock) (mkSimNet {[3]} [false; false; false; false; true])) as (_ & Hw & _).
  assert ((WakeupChannel_open (N := x86_winsock) (mkSimNet {[3]} [false; false; false; false; true])).1 =
    inr (str "Failed to connect wakeup write socket: 10055")) as E by (by vm_compute).
  unfold spec in Hw. destruct (WakeupChannel_open _) as [r s']. cbn [fst] in E. rewrite E in Hw. exact Hw.
Defined.

(** And with all calls succeeding, two handles are open in the end. *)
Example wakeup_open_demo :
  let r := WakeupChannel_open (N := x86_winsock) (mkSimNet ∅ []) in
  (match r.1 with inl _ => true | inr _ => false end) = true /\ size (sn_open r.2) = 2%nat.
Proof. by vm_compute. Qed.
