(* ===== verification/BodyCodec.v ===== *)
(** * BodyCodec: the cursor-based reader and the appending writer of message
    bodies (include/streamforge/BodyReaderWriter.hpp)

    A read that the C++ method refuses (it returns false) is [None]; every
    caller gives up at once, so the reader after a refusal is not represented.
    [reads r v bs] states that the reader [r] consumes exactly [bs] and returns
    [v]; it composes, and the messages of ProtocolMessages.v are built from it. *)
From S2P Require Import Prelude StdString Status RecordCodec FrameCodec.

Record BodyReader := mkBodyReader {
  m_data : bytes;      (* m_data, m_size *)
  m_cursor : Z;
}.

Definition BodyReader_of (vec : bytes) : BodyReader := mkBodyReader vec 0.

Definition BodyReader_remaining (r : BodyReader) : Z :=
  if m_cursor r <? zlen (m_data r) then zlen (m_data r) - m_cursor r else 0.

(** A reading operation: [None] when it returns false. *)
Definition reader (A : Type) : Type := BodyReader -> option (A * BodyReader).

#[global] Instance reader_ret : MRet reader := fun A a r => Some (a, r).
#[global] Instance reader_bind : MBind reader :=
  fun A B k m r => match m r with Some (a, r') => k a r' | None => None end.

(** [return false;] *)
Definition reader_fail {A} : reader A := fun _ => None.

(** The bytes from the cursor on. *)
Definition at_cursor (r : BodyReader) : bytes := zdrop (m_cursor r) (m_data r).

Definition advance (n : Z) (r : BodyReader) : BodyReader :=
  mkBodyReader (m_data r) (m_cursor r + n).

Definition BodyReader_require_empty (r : BodyReader) : bool := m_cursor r =? zlen (m_data r).

(** [return reader.require_empty();] at the end of a decoder that has filled in
    the message [a]. *)
Definition finish {A} (a : A) : reader A :=
  fun r => if BodyReader_require_empty r then Some (a, r) else None.

(** [if (reader.remaining() < n) return false;] *)
Definition require_remaining (n : Z) : reader unit :=
  fun r => if BodyReader_remaining r <? n then None else Some (tt, r).

(** [reader.remaining()] as a value. *)
Definition get_remaining : reader Z := fun r => Some (BodyReader_remaining r, r).

(** A [for] loop that reads [n] elements. *)
Fixpoint read_n {A} (n : nat) (r : reader A) : reader (list A) :=
  match n with
  | O => mret []
  | S n => x ← r; xs ← read_n n r; mret (x :: xs)
  end.

Record BodyWriter := mkBodyWriter { bw_buffer : bytes }.

Definition empty_writer : BodyWriter := mkBodyWriter [].

Section body.
Context {W : Winsock}.

Definition BodyReader_read_u8 : reader Z := fun r =>
  if BodyReader_remaining r <? 1 then None
  else Some (byte_to_Z (hd Byte.x00 (at_cursor r)), advance 1 r).

Definition BodyReader_read_u16 : reader Z := fun r =>
  if BodyReader_remaining r <? 2 then None
  else Some (FrameCodec_read_u16 (at_cursor r), advance 2 r).

Definition BodyReader_read_u32 : reader Z := fun r =>
  if BodyReader_remaining r <? 4 then None
  else Some (FrameCodec_read_u32 (at_cursor r), advance 4 r).

Definition BodyReader_read_i32 : reader Z :=
  u ← BodyReader_read_u32; mret (i32 u).

Definition BodyReader_read_u64 : reader Z := fun r =>
  if BodyReader_remaining r <? 8 then None
  else
    let high := FrameCodec_read_u32 (at_cursor r) in
    let low := FrameCodec_read_u32 (zdrop 4 (at_cursor r)) in
    Some (Z.lor (u64 (Z.shiftl high 32)) low, advance 8 r).

Definition BodyReader_read_i64 : reader Z :=
  u ← BodyReader_read_u64; mret (i64 u).

(** The part of [read_string] and [read_bytes] after the length. *)
Definition BodyReader_take (len : Z) : reader bytes := fun r =>
  if BodyReader_remaining r <? len then None
  else Some (ztake len (at_cursor r), advance len r).

Definition BodyReader_read_string : reader bytes :=
  len ← BodyReader_read_u16; BodyReader_take len.

Definition BodyReader_read_bytes : reader bytes :=
  len ← BodyReader_read_u32;
  if MAX_FRAME_LENGTH <? len then reader_fail else BodyReader_take len.

Definition BodyWriter_append (bs : bytes) (w : BodyWriter) : BodyWriter :=
  mkBodyWriter (bw_buffer w ++ bs).

Definition BodyWriter_write_u8 (v : Z) (w : BodyWriter) : BodyWriter :=
  BodyWriter_append [byte_of_Z v] w.

Definition BodyWriter_write_u16 (v : Z) (w : BodyWriter) : BodyWriter :=
  BodyWriter_append (FrameCodec_write_u16 v) w.

Definition BodyWriter_write_u32 (v : Z) (w : BodyWriter) : BodyWriter :=
  BodyWriter_append (FrameCodec_write_u32 v) w.

Definition BodyWriter_write_i32 (v : Z) (w : BodyWriter) : BodyWriter :=
  BodyWriter_write_u32 (u32 v) w.

Definition BodyWriter_write_u64 (v : Z) (w : BodyWriter) : BodyWriter :=
  let high := u32 (Z.shiftr v 32) in
  let low := u32 (Z.land v 0xFFFFFFFF) in
  BodyWriter_write_u32 low (BodyWriter_write_u32 high w).

Definition BodyWriter_write_i64 (v : Z) (w : BodyWriter) : BodyWriter :=
  BodyWriter_write_u64 (u64 v) w.

Definition BodyWriter_write_string (s : bytes) (w : BodyWriter) : BodyWriter :=
  BodyWriter_append s (BodyWriter_write_u16 (u16 (zlen s)) w).

Definition BodyWriter_write_bytes (s : bytes) (w : BodyWriter) : BodyWriter :=
  BodyWriter_append s (BodyWriter_write_u32 (u32 (zlen s)) w).

(** A [for] loop that writes every element. *)
Definition write_all {A} (f : A -> BodyWriter -> BodyWriter) (l : list A) (w : BodyWriter) : BodyWriter :=
  foldl (fun w x => f x w) w l.

(** ** Composition of readers *)

Definition reads {A} (r : reader A) (v : A) (bs : bytes) : Prop :=
  forall pre rest, r (mkBodyReader (pre ++ bs ++ rest) (zlen pre)) =
                   Some (v, mkBodyReader (pre ++ bs ++ rest) (zlen (pre ++ bs))).

(** The same for a reader that consumes the rest of the body. *)
Definition reads_end {A} (r : reader A) (v : A) (bs : bytes) : Prop :=
  forall pre, r (mkBodyReader (pre ++ bs) (zlen pre)) =
              Some (v, mkBodyReader (pre ++ bs) (zlen (pre ++ bs))).

Lemma reads_ret {A} (v : A) : reads (mret v) v [].
Proof. intros pre rest. by rewrite app_nil_r. Qed.

Lemma reads_bind {A B} (r : reader A) (k : A -> reader B) a b bs1 bs2 :
  reads r a bs1 -> reads (k a) b bs2 -> reads (r ≫= k) b (bs1 ++ bs2).
Proof.
  intros H1 H2 pre rest. unfold mbind, reader_bind. rewrite <- app_assoc, H1.
  rewrite (app_assoc pre), H2, !app_assoc. done.
Qed.

Lemma reads_end_bind {A B} (r : reader A) (k : A -> reader B) a b bs1 bs2 :
  reads r a bs1 -> reads_end (k a) b bs2 -> reads_end (r ≫= k) b (bs1 ++ bs2).
Proof.
  intros H1 H2 pre. unfold mbind, reader_bind. rewrite H1.
  rewrite (app_assoc pre), H2. done.
Qed.

Lemma reads_end_bind0 {A B} (r : reader A) (k : A -> reader B) a b bs :
  reads r a [] -> reads_end (k a) b bs -> reads_end (r ≫= k) b bs.
Proof. apply (reads_end_bind r k a b [] bs). Qed.

Lemma reads_end_finish {A} (v : A) : reads_end (finish v) v [].
Proof.
  intros pre. unfold finish, BodyReader_require_empty. cbn [m_data m_cursor].
  by rewrite app_nil_r, Z.eqb_refl.
Qed.

Lemma remaining_at pre bs :
  BodyReader_remaining (mkBodyReader (pre ++ bs) (zlen pre)) = zlen bs.
Proof.
  unfold BodyReader_remaining. cbn [m_data m_cursor]. rewrite zlen_app.
  pose proof (zlen_nonneg bs). destruct (Z.ltb_spec (zlen pre) (zlen pre + zlen bs)); lia.
Qed.

Lemma at_cursor_at pre bs : at_cursor (mkBodyReader (pre ++ bs) (zlen pre)) = bs.
Proof. unfold at_cursor. by apply zdrop_app_exact. Qed.

Lemma advance_at pre bs rest n :
  n = zlen bs ->
  advance n (mkBodyReader (pre ++ bs ++ rest) (zlen pre)) =
  mkBodyReader (pre ++ bs ++ rest) (zlen (pre ++ bs)).
Proof. intros ->. unfold advance. cbn. by rewrite zlen_app. Qed.

(** A guard on the remaining bytes that the message itself satisfies. *)
Lemma reads_end_require {B} (k : unit -> reader B) n b bs :
  n <= zlen bs -> reads_end (k tt) b bs -> reads_end (require_remaining n ≫= k) b bs.
Proof.
  intros Hn Hk pre. unfold mbind, reader_bind, require_remaining.
  rewrite remaining_at. zdecide. apply Hk.
Qed.

Lemma reads_require {B} (k : unit -> reader B) n b bs :
  n <= zlen bs -> reads (k tt) b bs -> reads (require_remaining n ≫= k) b bs.
Proof.
  intros Hn Hk pre rest. unfold mbind, reader_bind, require_remaining.
  rewrite remaining_at, zlen_app. pose proof (zlen_nonneg rest). zdecide. apply Hk.
Qed.

Lemma reads_end_remaining {B} (k : Z -> reader B) b bs :
  reads_end (k (zlen bs)) b bs -> reads_end (get_remaining ≫= k) b bs.
Proof.
  intros Hk pre. unfold mbind, reader_bind, get_remaining. rewrite remaining_at. apply Hk.
Qed.

Lemma reads_n {A} (r : reader A) (enc : A -> bytes) (xs : list A) :
  (forall x, x ∈ xs -> reads r x (enc x)) -> reads (read_n (length xs) r) xs (concat (enc <$> xs)).
Proof.
  induction xs as [|x xs IH]; intros Hr; cbn [length read_n fmap list_fmap concat].
  - apply reads_ret.
  - eapply reads_bind; [apply Hr; set_solver|].
    rewrite <- (app_nil_r (concat _)).
    eapply reads_bind; [apply IH; set_solver|]. apply reads_ret.
Qed.

(** ** The primitive fields *)

Lemma reads_u8 v : is_u8 v -> reads BodyReader_read_u8 v [byte_of_Z v].
Proof.
  intros Hv pre rest. unfold BodyReader_read_u8. pose proof (zlen_nonneg rest).
  rewrite remaining_at, at_cursor_at, (advance_at pre [byte_of_Z v] rest) by done.
  rewrite zlen_app. change (zlen [byte_of_Z v]) with 1. zdecide.
  cbn [app hd]. by rewrite byte_to_of_Z, Z.mod_small by exact Hv.
Qed.

Lemma reads_u16 v : is_u16 v -> reads BodyReader_read_u16 v (be_store 2 v).
Proof.
  intros Hv pre rest. unfold BodyReader_read_u16. pose proof (zlen_nonneg rest).
  rewrite remaining_at, at_cursor_at, zlen_app, zlen_be_store. zdecide.
  rewrite (advance_at pre (be_store 2 v) rest) by zlen_solve.
  by rewrite frame_read_u16.
Qed.

Lemma reads_u32 v : is_u32 v -> reads BodyReader_read_u32 v (be_store 4 v).
Proof.
  intros Hv pre rest. unfold BodyReader_read_u32. pose proof (zlen_nonneg rest).
  rewrite remaining_at, at_cursor_at, zlen_app, zlen_be_store. zdecide.
  rewrite (advance_at pre (be_store 4 v) rest) by zlen_solve.
  by rewrite frame_read_u32.
Qed.

Lemma reads_i32 v : is_i32 v -> reads BodyReader_read_i32 v (be_store 4 (u32 v)).
Proof.
  intros Hv. unfold BodyReader_read_i32. rewrite <- (app_nil_r (be_store 4 _)).
  eapply reads_bind; [apply reads_u32, u32_range|].
  rewrite i32_u32 by done. apply reads_ret.
Qed.

(** A 64-bit field is its two halves in network order. *)
Lemma be_store_8_halves v :
  is_u64 v -> be_store 8 v = be_store 4 (v / 2 ^ 32) ++ be_store 4 (v mod 2 ^ 32).
Proof.
  intros Hv. unfold be_store. rewrite <- rev_app_distr. f_equal.
  assert (le_load (le_store 4 (v mod 2 ^ 32) ++ le_store 4 (v / 2 ^ 32)) = v) as Hl.
  { assert (forall a b, le_load (a ++ b) = le_load a + 256 ^ zlen a * le_load b) as Happ.
    { clear. intros a b. induction a as [|x a IH]; cbn [app le_load].
      - change (256 ^ zlen []) with 1. lia.
      - rewrite IH, zlen_cons, Z.pow_add_r by (pose proof (zlen_nonneg a); lia). lia. }
    rewrite Happ, !le_load_store, zlen_le_store.
    change (256 ^ Z.of_nat 4) with (2 ^ 32). unfold is_u64 in Hv.
    rewrite Z.mod_mod by lia.
    rewrite (Z.mod_small (v / 2 ^ 32));
      [|split; [apply Z.div_pos; lia|apply Z.div_lt_upper_bound; lia]].
    pose proof (Z.div_mod v (2 ^ 32) ltac:(lia)). lia. }
  rewrite <- Hl at 1.
  rewrite <- (le_store_load (le_store 4 (v mod 2 ^ 32) ++ le_store 4 (v / 2 ^ 32))) at 2.
  rewrite length_app, !length_le_store. done.
Qed.

Lemma reads_u64 v : is_u64 v -> reads BodyReader_read_u64 v (be_store 8 v).
Proof.
  intros Hv pre rest. unfold BodyReader_read_u64. pose proof (zlen_nonneg rest).
  rewrite remaining_at, at_cursor_at, zlen_app, zlen_be_store. zdecide.
  rewrite (advance_at pre (be_store 8 v) rest) by zlen_solve.
  pose proof (be_store_8_halves v Hv) as Hhalves. unfold is_u64 in Hv.
  assert (is_u32 (v / 2 ^ 32)) as Hh.
  { split; [apply Z.div_pos; lia|apply Z.div_lt_upper_bound; lia]. }
  assert (is_u32 (v mod 2 ^ 32)) as Hlo by (apply Z.mod_pos_bound; lia).
  do 2 f_equal. rewrite Hhalves, <- app_assoc, frame_read_u32 by done.
  rewrite zdrop_app_exact, frame_read_u32 by (zlen_solve || done).
  unfold is_u32 in *. rewrite Z.shiftl_mul_pow2, u64_id by (unfold is_u64; lia).
  rewrite Z.lor_comm, lor_add_shift by lia.
  pose proof (Z.div_mod v (2 ^ 32) ltac:(lia)). lia.
Qed.

Lemma reads_i64 v : is_i64 v -> reads BodyReader_read_i64 v (be_store 8 (u64 v)).
Proof.
  intros Hv. unfold BodyReader_read_i64. rewrite <- (app_nil_r (be_store 8 _)).
  eapply reads_bind; [apply reads_u64, u64_range|].
  rewrite i64_u64 by done. apply reads_ret.
Qed.

Definition string_bytes (s : bytes) : bytes := be_store 2 (zlen s) ++ s.
Definition vec_bytes (s : bytes) : bytes := be_store 4 (zlen s) ++ s.

Lemma reads_take s : reads (BodyReader_take (zlen s)) s s.
Proof.
  intros pre rest. unfold BodyReader_take.
  rewrite remaining_at, at_cursor_at, zlen_app. pose proof (zlen_nonneg rest). zdecide.
  rewrite advance_at by done. by rewrite ztake_app_exact.
Qed.

Lemma reads_string s : is_u16 (zlen s) -> reads BodyReader_read_string s (string_bytes s).
Proof. intros Hs. eapply reads_bind; [by apply reads_u16|]. apply reads_take. Qed.

Lemma reads_bytes s : zlen s <= MAX_FRAME_LENGTH -> reads BodyReader_read_bytes s (vec_bytes s).
Proof.
  intros Hs. pose proof (zlen_nonneg s).
  eapply reads_bind; [apply reads_u32; unfold is_u32, MAX_FRAME_LENGTH in *; lia|].
  zdecide. apply reads_take.
Qed.

(** ** What the writer appends *)

Lemma write_u8_append v w : BodyWriter_write_u8 v w = BodyWriter_append [byte_of_Z v] w.
Proof. done. Qed.
Lemma write_u16_append v w :
  is_u16 v -> BodyWriter_write_u16 v w = BodyWriter_append (be_store 2 v) w.
Proof. intros. unfold BodyWriter_write_u16. by rewrite FrameCodec_write_u16_be. Qed.
Lemma write_u32_append v w :
  is_u32 v -> BodyWriter_write_u32 v w = BodyWriter_append (be_store 4 v) w.
Proof. intros. unfold BodyWriter_write_u32. by rewrite FrameCodec_write_u32_be. Qed.
Lemma write_i32_append v w : BodyWriter_write_i32 v w = BodyWriter_append (be_store 4 (u32 v)) w.
Proof. apply write_u32_append, u32_range. Qed.

Lemma append_append a b w :
  BodyWriter_append b (BodyWriter_append a w) = BodyWriter_append (a ++ b) w.
Proof. unfold BodyWriter_append. cbn. by rewrite app_assoc. Qed.

Lemma write_u64_append v w :
  is_u64 v -> BodyWriter_write_u64 v w = BodyWriter_append (be_store 8 v) w.
Proof.
  intros Hv. unfold BodyWriter_write_u64.
  rewrite !write_u32_append by apply u32_range. rewrite append_append. f_equal.
  rewrite be_store_8_halves by done. unfold is_u64 in Hv.
  rewrite Z.shiftr_div_pow2 by lia. change 0xFFFFFFFF with (Z.ones 32).
  rewrite Z.land_ones by lia. rewrite !u32_id; [done|apply Z.mod_pos_bound; lia|].
  split; [apply Z.div_pos; lia|apply Z.div_lt_upper_bound; lia].
Qed.

Lemma write_i64_append v w : BodyWriter_write_i64 v w = BodyWriter_append (be_store 8 (u64 v)) w.
Proof. apply write_u64_append, u64_range. Qed.

Lemma write_string_append s w :
  is_u16 (zlen s) -> BodyWriter_write_string s w = BodyWriter_append (string_bytes s) w.
Proof.
  intros. unfold BodyWriter_write_string.
  by rewrite u16_id, write_u16_append, append_append.
Qed.

Lemma write_bytes_append s w :
  zlen s <= MAX_FRAME_LENGTH -> BodyWriter_write_bytes s w = BodyWriter_append (vec_bytes s) w.
Proof.
  intros Hs. unfold BodyWriter_write_bytes. pose proof (zlen_nonneg s).
  assert (is_u32 (zlen s)) by (unfold is_u32, MAX_FRAME_LENGTH in *; lia).
  by rewrite u32_id, write_u32_append, append_append.
Qed.

Lemma write_all_append {A} (f : A -> BodyWriter -> BodyWriter) (enc : A -> bytes) l w :
  (forall x w, x ∈ l -> f x w = BodyWriter_append (enc x) w) ->
  write_all f l w = BodyWriter_append (concat (enc <$> l)) w.
Proof.
  unfold write_all. revert w. induction l as [|x l IH]; intros w Hf.
  - destruct w. unfold BodyWriter_append. cbn. by rewrite app_nil_r.
  - cbn [foldl fmap list_fmap concat]. rewrite Hf by set_solver.
    rewrite IH by set_solver. by rewrite append_append.
Qed.

Lemma bw_buffer_append bs : bw_buffer (BodyWriter_append bs empty_writer) = bs.
Proof. done. Qed.

End body.

#[export] Hint Resolve reads_u8 reads_u16 reads_u32 reads_i32 reads_u64 reads_i64
  reads_string reads_bytes : sf.
