(* ===== verification/ProtocolMessages.v ===== *)
(** * ProtocolMessages: the requests and responses of the wire protocol
    (include/streamforge/ProtocolMessages.hpp)

    One record per struct with its [encode] and [decode].  The structs that
    occur only as elements of a vector have [_read] and [_write] for the body of
    the loop that handles them.  [_bytes] is the layout of a message and [_wf]
    says that its fields fit their types and that its count field, which
    [decode] fills in and [encode] recomputes, agrees with its vector. *)
From S2P Require Import Prelude StdString Status RecordCodec FrameCodec BodyCodec.

(** ** Data *)

Record ProduceRecordPayload := mkProduceRecordPayload {
  prp_key : bytes;
  prp_value : bytes;
}.
#[global] Instance ProduceRecordPayload_eq_dec : EqDecision ProduceRecordPayload.
Proof. solve_decision. Defined.

Record FetchRecordWire := mkFetchRecordWire {
  frw_offset : Z;
  frw_timestamp_ms : Z;
  frw_key : bytes;
  frw_value : bytes;
}.
#[global] Instance FetchRecordWire_eq_dec : EqDecision FetchRecordWire.
Proof. solve_decision. Defined.

Record TopicInfoWire := mkTopicInfoWire {
  tiw_name : bytes;
  tiw_partitions : Z;
}.
#[global] Instance TopicInfoWire_eq_dec : EqDecision TopicInfoWire.
Proof. solve_decision. Defined.

Record PartitionOffsetWire := mkPartitionOffsetWire {
  pow_earliest : Z;
  pow_next_offset : Z;
  pow_segment_count : Z;
}.
#[global] Instance PartitionOffsetWire_eq_dec : EqDecision PartitionOffsetWire.
Proof. solve_decision. Defined.

Record CommitOffsetItemWire := mkCommitOffsetItemWire {
  ciw_topic : bytes;
  ciw_partition : Z;
  ciw_offset : Z;
}.
#[global] Instance CommitOffsetItemWire_eq_dec : EqDecision CommitOffsetItemWire.
Proof. solve_decision. Defined.

Record FetchOffsetQueryWire := mkFetchOffsetQueryWire {
  fqw_topic : bytes;
  fqw_partition : Z;
}.
#[global] Instance FetchOffsetQueryWire_eq_dec : EqDecision FetchOffsetQueryWire.
Proof. solve_decision. Defined.

Record TopicPartitionWire := mkTopicPartitionWire {
  tpw_topic : bytes;
  tpw_partition : Z;
}.
#[global] Instance TopicPartitionWire_eq_dec : EqDecision TopicPartitionWire.
Proof. solve_decision. Defined.

Record OffsetEntryWire := mkOffsetEntryWire {
  oew_topic : bytes;
  oew_partition : Z;
  oew_offset : Z;
}.
#[global] Instance OffsetEntryWire_eq_dec : EqDecision OffsetEntryWire.
Proof. solve_decision. Defined.

Record ProduceRequest := mkProduceRequest {
  pr_topic : bytes;
  pr_partition : Z;
  pr_record_count : Z;
  pr_records : list ProduceRecordPayload;
}.
#[global] Instance ProduceRequest_eq_dec : EqDecision ProduceRequest.
Proof. solve_decision. Defined.

Record FetchRequest := mkFetchRequest {
  fr_topic : bytes;
  fr_partition : Z;
  fr_start_offset : Z;
  fr_max_bytes : Z;
  fr_max_messages : Z;
}.
#[global] Instance FetchRequest_eq_dec : EqDecision FetchRequest.
Proof. solve_decision. Defined.

Record DescribeTopicRequest := mkDescribeTopicRequest {
  dtr_topic : bytes;
}.
#[global] Instance DescribeTopicRequest_eq_dec : EqDecision DescribeTopicRequest.
Proof. solve_decision. Defined.

Record ProduceResponse := mkProduceResponse {
  prs_partition : Z;
  prs_base_offset : Z;
  prs_count : Z;
}.
#[global] Instance ProduceResponse_eq_dec : EqDecision ProduceResponse.
Proof. solve_decision. Defined.

Record FetchResponse := mkFetchResponse {
  frs_next_offset : Z;
  frs_high_watermark : Z;
  frs_earliest_offset : Z;
  frs_record_count : Z;
  frs_records : list FetchRecordWire;
}.
#[global] Instance FetchResponse_eq_dec : EqDecision FetchResponse.
Proof. solve_decision. Defined.

Record ListTopicsResponse := mkListTopicsResponse {
  lts_count : Z;
  lts_topics : list TopicInfoWire;
}.
#[global] Instance ListTopicsResponse_eq_dec : EqDecision ListTopicsResponse.
Proof. solve_decision. Defined.

Record JoinGroupRequest := mkJoinGroupRequest {
  jgr_group_id : bytes;
  jgr_member_id : bytes;
  jgr_session_timeout_ms : Z;
  jgr_strategy : Z;
  jgr_topic_count : Z;
  jgr_topics : list bytes;
}.
#[global] Instance JoinGroupRequest_eq_dec : EqDecision JoinGroupRequest.
Proof. solve_decision. Defined.

Record HeartbeatRequest := mkHeartbeatRequest {
  hbr_group_id : bytes;
  hbr_member_id : bytes;
  hbr_generation : Z;
}.
#[global] Instance HeartbeatRequest_eq_dec : EqDecision HeartbeatRequest.
Proof. solve_decision. Defined.

Record LeaveGroupRequest := mkLeaveGroupRequest {
  lgr_group_id : bytes;
  lgr_member_id : bytes;
}.
#[global] Instance LeaveGroupRequest_eq_dec : EqDecision LeaveGroupRequest.
Proof. solve_decision. Defined.

Record CommitOffsetRequest := mkCommitOffsetRequest {
  cor_group_id : bytes;
  cor_member_id : bytes;
  cor_generation : Z;
  cor_count : Z;
  cor_entries : list CommitOffsetItemWire;
}.
#[global] Instance CommitOffsetRequest_eq_dec : EqDecision CommitOffsetRequest.
Proof. solve_decision. Defined.

Record FetchOffsetRequest := mkFetchOffsetRequest {
  for_group_id : bytes;
  for_count : Z;
  for_queries : list FetchOffsetQueryWire;
}.
#[global] Instance FetchOffsetRequest_eq_dec : EqDecision FetchOffsetRequest.
Proof. solve_decision. Defined.

Record DescribeGroupRequest := mkDescribeGroupRequest {
  dgr_group_id : bytes;
}.
#[global] Instance DescribeGroupRequest_eq_dec : EqDecision DescribeGroupRequest.
Proof. solve_decision. Defined.

Record JoinGroupResponse := mkJoinGroupResponse {
  jgs_member_id : bytes;
  jgs_generation : Z;
  jgs_heartbeat_interval_ms : Z;
  jgs_count : Z;
  jgs_assignments : list TopicPartitionWire;
}.
#[global] Instance JoinGroupResponse_eq_dec : EqDecision JoinGroupResponse.
Proof. solve_decision. Defined.

Record FetchOffsetResponse := mkFetchOffsetResponse {
  fos_count : Z;
  fos_offsets : list OffsetEntryWire;
}.
#[global] Instance FetchOffsetResponse_eq_dec : EqDecision FetchOffsetResponse.
Proof. solve_decision. Defined.

Record ListTopicsRequest := mkListTopicsRequest { }.
#[global] Instance ListTopicsRequest_eq_dec : EqDecision ListTopicsRequest.
Proof. solve_decision. Defined.

Record CreateTopicResponse := mkCreateTopicResponse { }.
#[global] Instance CreateTopicResponse_eq_dec : EqDecision CreateTopicResponse.
Proof. solve_decision. Defined.

Record HeartbeatResponse := mkHeartbeatResponse { }.
#[global] Instance HeartbeatResponse_eq_dec : EqDecision HeartbeatResponse.
Proof. solve_decision. Defined.

Record LeaveGroupResponse := mkLeaveGroupResponse { }.
#[global] Instance LeaveGroupResponse_eq_dec : EqDecision LeaveGroupResponse.
Proof. solve_decision. Defined.

Record CommitOffsetResponse := mkCommitOffsetResponse { }.
#[global] Instance CommitOffsetResponse_eq_dec : EqDecision CommitOffsetResponse.
Proof. solve_decision. Defined.

Record CreateTopicRequest := mkCreateTopicRequest {
  ctr_topic : bytes;
  ctr_partitions : Z;
  ctr_retention_ms : Z;
  ctr_retention_bytes : Z;
  ctr_has_retention : bool;
}.
#[global] Instance CreateTopicRequest_eq_dec : EqDecision CreateTopicRequest.
Proof. solve_decision. Defined.

Record DescribeTopicResponse := mkDescribeTopicResponse {
  dts_name : bytes;
  dts_partitions : Z;
  dts_partition_offsets : list PartitionOffsetWire;
  dts_retention_ms : Z;
  dts_retention_bytes : Z;
  dts_degraded : Z;
}.
#[global] Instance DescribeTopicResponse_eq_dec : EqDecision DescribeTopicResponse.
Proof. solve_decision. Defined.

Record MemberDescriptionWire := mkMemberDescriptionWire {
  mdw_member_id : bytes;
  mdw_session_timeout_ms : Z;
  mdw_ms_since_heartbeat : Z;
  mdw_count : Z;
  mdw_assignment : list TopicPartitionWire;
}.
#[global] Instance MemberDescriptionWire_eq_dec : EqDecision MemberDescriptionWire.
Proof. solve_decision. Defined.

Record DescribeGroupResponse := mkDescribeGroupResponse {
  dgs_group_id : bytes;
  dgs_generation : Z;
  dgs_state : bytes;
  dgs_strategy : Z;
  dgs_member_count : Z;
  dgs_members : list MemberDescriptionWire;
}.
#[global] Instance DescribeGroupResponse_eq_dec : EqDecision DescribeGroupResponse.
Proof. solve_decision. Defined.

(** ** Encoders and decoders *)

Section messages.
Context {W : Winsock}.

Definition ProduceRecordPayload_read : reader ProduceRecordPayload :=
  key ← BodyReader_read_bytes;
  value ← BodyReader_read_bytes;
  mret (mkProduceRecordPayload key value).

Definition ProduceRecordPayload_write (x : ProduceRecordPayload) (w : BodyWriter) : BodyWriter :=
  let w := BodyWriter_write_bytes (prp_key x) w in
  let w := BodyWriter_write_bytes (prp_value x) w in
  w.

Definition FetchRecordWire_read : reader FetchRecordWire :=
  offset ← BodyReader_read_u64;
  timestamp_ms ← BodyReader_read_i64;
  key ← BodyReader_read_bytes;
  value ← BodyReader_read_bytes;
  mret (mkFetchRecordWire offset timestamp_ms key value).

Definition FetchRecordWire_write (x : FetchRecordWire) (w : BodyWriter) : BodyWriter :=
  let w := BodyWriter_write_u64 (frw_offset x) w in
  let w := BodyWriter_write_i64 (frw_timestamp_ms x) w in
  let w := BodyWriter_write_bytes (frw_key x) w in
  let w := BodyWriter_write_bytes (frw_value x) w in
  w.

Definition TopicInfoWire_read : reader TopicInfoWire :=
  name ← BodyReader_read_string;
  partitions ← BodyReader_read_u16;
  mret (mkTopicInfoWire name partitions).

Definition TopicInfoWire_write (x : TopicInfoWire) (w : BodyWriter) : BodyWriter :=
  let w := BodyWriter_write_string (tiw_name x) w in
  let w := BodyWriter_write_u16 (tiw_partitions x) w in
  w.

Definition PartitionOffsetWire_read : reader PartitionOffsetWire :=
  earliest ← BodyReader_read_u64;
  next_offset ← BodyReader_read_u64;
  segment_count ← BodyReader_read_u32;
  mret (mkPartitionOffsetWire earliest next_offset segment_count).

Definition PartitionOffsetWire_write (x : PartitionOffsetWire) (w : BodyWriter) : BodyWriter :=
  let w := BodyWriter_write_u64 (pow_earliest x) w in
  let w := BodyWriter_write_u64 (pow_next_offset x) w in
  let w := BodyWriter_write_u32 (pow_segment_count x) w in
  w.

Definition CommitOffsetItemWire_read : reader CommitOffsetItemWire :=
  topic ← BodyReader_read_string;
  partition ← BodyReader_read_u16;
  offset ← BodyReader_read_u64;
  mret (mkCommitOffsetItemWire topic partition offset).

Definition CommitOffsetItemWire_write (x : CommitOffsetItemWire) (w : BodyWriter) : BodyWriter :=
  let w := BodyWriter_write_string (ciw_topic x) w in
  let w := BodyWriter_write_u16 (ciw_partition x) w in
  let w := BodyWriter_write_u64 (ciw_offset x) w in
  w.

Definition FetchOffsetQueryWire_read : reader FetchOffsetQueryWire :=
  topic ← BodyReader_read_string;
  partition ← BodyReader_read_u16;
  mret (mkFetchOffsetQueryWire topic partition).

Definition FetchOffsetQueryWire_write (x : FetchOffsetQueryWire) (w : BodyWriter) : BodyWriter :=
  let w := BodyWriter_write_string (fqw_topic x) w in
  let w := BodyWriter_write_u16 (fqw_partition x) w in
  w.

Definition TopicPartitionWire_read : reader TopicPartitionWire :=
  topic ← BodyReader_read_string;
  partition ← BodyReader_read_u16;
  mret (mkTopicPartitionWire topic partition).

Definition TopicPartitionWire_write (x : TopicPartitionWire) (w : BodyWriter) : BodyWriter :=
  let w := BodyWriter_write_string (tpw_topic x) w in
  let w := BodyWriter_write_u16 (tpw_partition x) w in
  w.

Definition OffsetEntryWire_read : reader OffsetEntryWire :=
  topic ← BodyReader_read_string;
  partition ← BodyReader_read_u16;
  offset ← BodyReader_read_i64;
  mret (mkOffsetEntryWire topic partition offset).

Definition OffsetEntryWire_write (x : OffsetEntryWire) (w : BodyWriter) : BodyWriter :=
  let w := BodyWriter_write_string (oew_topic x) w in
  let w := BodyWriter_write_u16 (oew_partition x) w in
  let w := BodyWriter_write_i64 (oew_offset x) w in
  w.

Definition ProduceRequest_decode : reader ProduceRequest :=
  topic ← BodyReader_read_string;
  partition ← BodyReader_read_i32;
  record_count ← BodyReader_read_u16;
  records ← read_n (Z.to_nat record_count) ProduceRecordPayload_read;
  finish (mkProduceRequest topic partition record_count records).

Definition ProduceRequest_encode (m : ProduceRequest) (w : BodyWriter) : BodyWriter :=
  let w := BodyWriter_write_string (pr_topic m) w in
  let w := BodyWriter_write_i32 (pr_partition m) w in
  let w := BodyWriter_write_u16 (u16 (zlen (pr_records m))) w in
  let w := write_all ProduceRecordPayload_write (pr_records m) w in
  w.

Definition FetchRequest_decode : reader FetchRequest :=
  topic ← BodyReader_read_string;
  partition ← BodyReader_read_u16;
  start_offset ← BodyReader_read_u64;
  max_bytes ← BodyReader_read_u32;
  max_messages ← BodyReader_read_u32;
  finish (mkFetchRequest topic partition start_offset max_bytes max_messages).

Definition FetchRequest_encode (m : FetchRequest) (w : BodyWriter) : BodyWriter :=
  let w := BodyWriter_write_string (fr_topic m) w in
  let w := BodyWriter_write_u16 (fr_partition m) w in
  let w := BodyWriter_write_u64 (fr_start_offset m) w in
  let w := BodyWriter_write_u32 (fr_max_bytes m) w in
  let w := BodyWriter_write_u32 (fr_max_messages m) w in
  w.

Definition DescribeTopicRequest_decode : reader DescribeTopicRequest :=
  topic ← BodyReader_read_string;
  finish (mkDescribeTopicRequest topic).

Definition DescribeTopicRequest_encode (m : DescribeTopicRequest) (w : BodyWriter) : BodyWriter :=
  let w := BodyWriter_write_string (dtr_topic m) w in
  w.

Definition ProduceResponse_decode : reader ProduceResponse :=
  partition ← BodyReader_read_u16;
  base_offset ← BodyReader_read_u64;
  count ← BodyReader_read_u16;
  finish (mkProduceResponse partition base_offset count).

Definition ProduceResponse_encode (m : ProduceResponse) (w : BodyWriter) : BodyWriter :=
  let w := BodyWriter_write_u16 (prs_partition m) w in
  let w := BodyWriter_write_u64 (prs_base_offset m) w in
  let w := BodyWriter_write_u16 (prs_count m) w in
  w.

Definition FetchResponse_decode : reader FetchResponse :=
  next_offset ← BodyReader_read_u64;
  high_watermark ← BodyReader_read_u64;
  earliest_offset ← BodyReader_read_u64;
  record_count ← BodyReader_read_u16;
  records ← read_n (Z.to_nat record_count) FetchRecordWire_read;
  finish (mkFetchResponse next_offset high_watermark earliest_offset record_count records).

Definition FetchResponse_encode (m : FetchResponse) (w : BodyWriter) : BodyWriter :=
  let w := BodyWriter_write_u64 (frs_next_offset m) w in
  let w := BodyWriter_write_u64 (frs_high_watermark m) w in
  let w := BodyWriter_write_u64 (frs_earliest_offset m) w in
  let w := BodyWriter_write_u16 (u16 (zlen (frs_records m))) w in
  let w := write_all FetchRecordWire_write (frs_records m) w in
  w.

Definition ListTopicsResponse_decode : reader ListTopicsResponse :=
  count ← BodyReader_read_u16;
  topics ← read_n (Z.to_nat count) TopicInfoWire_read;
  finish (mkListTopicsResponse count topics).

Definition ListTopicsResponse_encode (m : ListTopicsResponse) (w : BodyWriter) : BodyWriter :=
  let w := BodyWriter_write_u16 (u16 (zlen (lts_topics m))) w in
  let w := write_all TopicInfoWire_write (lts_topics m) w in
  w.

Definition JoinGroupRequest_decode : reader JoinGroupRequest :=
  group_id ← BodyReader_read_string;
  member_id ← BodyReader_read_string;
  session_timeout_ms ← BodyReader_read_u32;
  strategy ← BodyReader_read_u8;
  topic_count ← BodyReader_read_u16;
  _ ← require_remaining (topic_count * 2);
  topics ← read_n (Z.to_nat topic_count) BodyReader_read_string;
  finish (mkJoinGroupRequest group_id member_id session_timeout_ms strategy topic_count topics).

Definition JoinGroupRequest_encode (m : JoinGroupRequest) (w : BodyWriter) : BodyWriter :=
  let w := BodyWriter_write_string (jgr_group_id m) w in
  let w := BodyWriter_write_string (jgr_member_id m) w in
  let w := BodyWriter_write_u32 (jgr_session_timeout_ms m) w in
  let w := BodyWriter_write_u8 (jgr_strategy m) w in
  let w := BodyWriter_write_u16 (u16 (zlen (jgr_topics m))) w in
  let w := write_all BodyWriter_write_string (jgr_topics m) w in
  w.

Definition HeartbeatRequest_decode : reader HeartbeatRequest :=
  group_id ← BodyReader_read_string;
  member_id ← BodyReader_read_string;
  generation ← BodyReader_read_u32;
  finish (mkHeartbeatRequest group_id member_id generation).

Definition HeartbeatRequest_encode (m : HeartbeatRequest) (w : BodyWriter) : BodyWriter :=
  let w := BodyWriter_write_string (hbr_group_id m) w in
  let w := BodyWriter_write_string (hbr_member_id m) w in
  let w := BodyWriter_write_u32 (hbr_generation m) w in
  w.

Definition LeaveGroupRequest_decode : reader LeaveGroupRequest :=
  group_id ← BodyReader_read_string;
  member_id ← BodyReader_read_string;
  finish (mkLeaveGroupRequest group_id member_id).

Definition LeaveGroupRequest_encode (m : LeaveGroupRequest) (w : BodyWriter) : BodyWriter :=
  let w := BodyWriter_write_string (lgr_group_id m) w in
  let w := BodyWriter_write_string (lgr_member_id m) w in
  w.

Definition CommitOffsetRequest_decode : reader CommitOffsetRequest :=
  group_id ← BodyReader_read_string;
  member_id ← BodyReader_read_string;
  generation ← BodyReader_read_u32;
  count ← BodyReader_read_u16;
  _ ← require_remaining (count * 12);
  entries ← read_n (Z.to_nat count) CommitOffsetItemWire_read;
  finish (mkCommitOffsetRequest group_id member_id generation count entries).

Definition CommitOffsetRequest_encode (m : CommitOffsetRequest) (w : BodyWriter) : BodyWriter :=
  let w := BodyWriter_write_string (cor_group_id m) w in
  let w := BodyWriter_write_string (cor_member_id m) w in
  let w := BodyWriter_write_u32 (cor_generation m) w in
  let w := BodyWriter_write_u16 (u16 (zlen (cor_entries m))) w in
  let w := write_all CommitOffsetItemWire_write (cor_entries m) w in
  w.

Definition FetchOffsetRequest_decode : reader FetchOffsetRequest :=
  group_id ← BodyReader_read_string;
  count ← BodyReader_read_u16;
  _ ← require_remaining (count * 4);
  queries ← read_n (Z.to_nat count) FetchOffsetQueryWire_read;
  finish (mkFetchOffsetRequest group_id count queries).

Definition FetchOffsetRequest_encode (m : FetchOffsetRequest) (w : BodyWriter) : BodyWriter :=
  let w := BodyWriter_write_string (for_group_id m) w in
  let w := BodyWriter_write_u16 (u16 (zlen (for_queries m))) w in
  let w := write_all FetchOffsetQueryWire_write (for_queries m) w in
  w.

Definition DescribeGroupRequest_decode : reader DescribeGroupRequest :=
  group_id ← BodyReader_read_string;
  finish (mkDescribeGroupRequest group_id).

Definition DescribeGroupRequest_encode (m : DescribeGroupRequest) (w : BodyWriter) : BodyWriter :=
  let w := BodyWriter_write_string (dgr_group_id m) w in
  w.

Definition JoinGroupResponse_decode : reader JoinGroupResponse :=
  member_id ← BodyReader_read_string;
  generation ← BodyReader_read_u32;
  heartbeat_interval_ms ← BodyReader_read_u32;
  count ← BodyReader_read_u16;
  _ ← require_remaining (count * 4);
  assignments ← read_n (Z.to_nat count) TopicPartitionWire_read;
  finish (mkJoinGroupResponse member_id generation heartbeat_interval_ms count assignments).

Definition JoinGroupResponse_encode (m : JoinGroupResponse) (w : BodyWriter) : BodyWriter :=
  let w := BodyWriter_write_string (jgs_member_id m) w in
  let w := BodyWriter_write_u32 (jgs_generation m) w in
  let w := BodyWriter_write_u32 (jgs_heartbeat_interval_ms m) w in
  let w := BodyWriter_write_u16 (u16 (zlen (jgs_assignments m))) w in
  let w := write_all TopicPartitionWire_write (jgs_assignments m) w in
  w.

Definition FetchOffsetResponse_decode : reader FetchOffsetResponse :=
  count ← BodyReader_read_u16;
  _ ← require_remaining (count * 12);
  offsets ← read_n (Z.to_nat count) OffsetEntryWire_read;
  finish (mkFetchOffsetResponse count offsets).

Definition FetchOffsetResponse_encode (m : FetchOffsetResponse) (w : BodyWriter) : BodyWriter :=
  let w := BodyWriter_write_u16 (u16 (zlen (fos_offsets m))) w in
  let w := write_all OffsetEntryWire_write (fos_offsets m) w in
  w.

Definition ListTopicsRequest_decode : reader ListTopicsRequest := finish mkListTopicsRequest.

Definition ListTopicsRequest_encode (m : ListTopicsRequest) (w : BodyWriter) : BodyWriter := w.

Definition CreateTopicResponse_decode : reader CreateTopicResponse := finish mkCreateTopicResponse.

Definition CreateTopicResponse_encode (m : CreateTopicResponse) (w : BodyWriter) : BodyWriter := w.

Definition HeartbeatResponse_decode : reader HeartbeatResponse := finish mkHeartbeatResponse.

Definition HeartbeatResponse_encode (m : HeartbeatResponse) (w : BodyWriter) : BodyWriter := w.

Definition LeaveGroupResponse_decode : reader LeaveGroupResponse := finish mkLeaveGroupResponse.

Definition LeaveGroupResponse_encode (m : LeaveGroupResponse) (w : BodyWriter) : BodyWriter := w.

Definition CommitOffsetResponse_decode : reader CommitOffsetResponse := finish mkCommitOffsetResponse.

Definition CommitOffsetResponse_encode (m : CommitOffsetResponse) (w : BodyWriter) : BodyWriter := w.

Definition CreateTopicRequest_decode : reader CreateTopicRequest :=
  topic ← BodyReader_read_string;
  partitions ← BodyReader_read_u16;
  remaining ← get_remaining;
  if 0 <? remaining then
    retention_ms ← BodyReader_read_u64;
    retention_bytes ← BodyReader_read_u64;
    finish (mkCreateTopicRequest topic partitions retention_ms retention_bytes true)
  else finish (mkCreateTopicRequest topic partitions 0 0 false).

Definition CreateTopicRequest_encode (m : CreateTopicRequest) (w : BodyWriter) : BodyWriter :=
  let w := BodyWriter_write_string (ctr_topic m) w in
  let w := BodyWriter_write_u16 (ctr_partitions m) w in
  if ctr_has_retention m then
    let w := BodyWriter_write_u64 (ctr_retention_ms m) w in
    let w := BodyWriter_write_u64 (ctr_retention_bytes m) w in
    w
  else w.

(** One round of the loop over the partitions; [extended] says whether the
    segment counts are present. *)
Definition DescribeTopicResponse_read_partition (extended : bool) : reader PartitionOffsetWire :=
  earliest ← BodyReader_read_u64;
  next_offset ← BodyReader_read_u64;
  if extended then
    segment_count ← BodyReader_read_u32;
    mret (mkPartitionOffsetWire earliest next_offset segment_count)
  else mret (mkPartitionOffsetWire earliest next_offset 1).

Definition DescribeTopicResponse_decode : reader DescribeTopicResponse :=
  name ← BodyReader_read_string;
  partitions ← BodyReader_read_u16;
  remaining ← get_remaining;
  let extended := partitions * 20 <=? remaining in
  partition_offsets ← read_n (Z.to_nat partitions) (DescribeTopicResponse_read_partition extended);
  remaining ← get_remaining;
  if extended && (17 <=? remaining) then
    retention_ms ← BodyReader_read_u64;
    retention_bytes ← BodyReader_read_u64;
    degraded ← BodyReader_read_u8;
    finish (mkDescribeTopicResponse name partitions partition_offsets
              retention_ms retention_bytes degraded)
  else finish (mkDescribeTopicResponse name partitions partition_offsets 0 0 0).

Definition DescribeTopicResponse_encode (m : DescribeTopicResponse) (w : BodyWriter) : BodyWriter :=
  let w := BodyWriter_write_string (dts_name m) w in
  let w := BodyWriter_write_u16 (dts_partitions m) w in
  let w := write_all PartitionOffsetWire_write (dts_partition_offsets m) w in
  let w := BodyWriter_write_u64 (dts_retention_ms m) w in
  let w := BodyWriter_write_u64 (dts_retention_bytes m) w in
  let w := BodyWriter_write_u8 (dts_degraded m) w in
  w.

(** One round of the loop over the members. *)
Definition MemberDescriptionWire_read : reader MemberDescriptionWire :=
  member_id ← BodyReader_read_string;
  session_timeout_ms ← BodyReader_read_u32;
  ms_since_heartbeat ← BodyReader_read_u32;
  count ← BodyReader_read_u16;
  _ ← require_remaining (count * 4);
  assignment ← read_n (Z.to_nat count) TopicPartitionWire_read;
  mret (mkMemberDescriptionWire member_id session_timeout_ms ms_since_heartbeat count assignment).

Definition MemberDescriptionWire_write (m : MemberDescriptionWire) (w : BodyWriter) : BodyWriter :=
  let w := BodyWriter_write_string (mdw_member_id m) w in
  let w := BodyWriter_write_u32 (mdw_session_timeout_ms m) w in
  let w := BodyWriter_write_u32 (mdw_ms_since_heartbeat m) w in
  let w := BodyWriter_write_u16 (u16 (zlen (mdw_assignment m))) w in
  let w := write_all TopicPartitionWire_write (mdw_assignment m) w in
  w.

Definition DescribeGroupResponse_decode : reader DescribeGroupResponse :=
  group_id ← BodyReader_read_string;
  generation ← BodyReader_read_u32;
  state ← BodyReader_read_string;
  strategy ← BodyReader_read_u8;
  member_count ← BodyReader_read_u16;
  members ← read_n (Z.to_nat member_count) MemberDescriptionWire_read;
  finish (mkDescribeGroupResponse group_id generation state strategy member_count members).

Definition DescribeGroupResponse_encode (m : DescribeGroupResponse) (w : BodyWriter) : BodyWriter :=
  let w := BodyWriter_write_string (dgs_group_id m) w in
  let w := BodyWriter_write_u32 (dgs_generation m) w in
  let w := BodyWriter_write_string (dgs_state m) w in
  let w := BodyWriter_write_u8 (dgs_strategy m) w in
  let w := BodyWriter_write_u16 (u16 (zlen (dgs_members m))) w in
  let w := write_all MemberDescriptionWire_write (dgs_members m) w in
  w.

(** ** Layouts *)

Definition u8_bytes (v : Z) : bytes := [byte_of_Z v].
Definition i32_bytes (v : Z) : bytes := be_store 4 (u32 v).
Definition i64_bytes (v : Z) : bytes := be_store 8 (u64 v).

Definition ProduceRecordPayload_bytes (x : ProduceRecordPayload) : bytes :=
  concat [vec_bytes (prp_key x); vec_bytes (prp_value x)].
Definition ProduceRecordPayload_wf (x : ProduceRecordPayload) : Prop :=
  zlen (prp_key x) <= MAX_FRAME_LENGTH /\ zlen (prp_value x) <= MAX_FRAME_LENGTH.
#[global] Instance ProduceRecordPayload_wf_dec x : Decision (ProduceRecordPayload_wf x).
Proof. unfold ProduceRecordPayload_wf, is_u8, is_u16, is_u32, is_u64, is_i32, is_i64. apply _. Defined.

Definition FetchRecordWire_bytes (x : FetchRecordWire) : bytes :=
  concat [be_store 8 (frw_offset x); i64_bytes (frw_timestamp_ms x); vec_bytes (frw_key x); vec_bytes (frw_value x)].
Definition FetchRecordWire_wf (x : FetchRecordWire) : Prop :=
  is_u64 (frw_offset x) /\ is_i64 (frw_timestamp_ms x) /\ zlen (frw_key x) <= MAX_FRAME_LENGTH /\ zlen (frw_value x) <= MAX_FRAME_LENGTH.
#[global] Instance FetchRecordWire_wf_dec x : Decision (FetchRecordWire_wf x).
Proof. unfold FetchRecordWire_wf, is_u8, is_u16, is_u32, is_u64, is_i32, is_i64. apply _. Defined.

Definition TopicInfoWire_bytes (x : TopicInfoWire) : bytes :=
  concat [string_bytes (tiw_name x); be_store 2 (tiw_partitions x)].
Definition TopicInfoWire_wf (x : TopicInfoWire) : Prop :=
  is_u16 (zlen (tiw_name x)) /\ is_u16 (tiw_partitions x).
#[global] Instance TopicInfoWire_wf_dec x : Decision (TopicInfoWire_wf x).
Proof. unfold TopicInfoWire_wf, is_u8, is_u16, is_u32, is_u64, is_i32, is_i64. apply _. Defined.

Definition PartitionOffsetWire_bytes (x : PartitionOffsetWire) : bytes :=
  concat [be_store 8 (pow_earliest x); be_store 8 (pow_next_offset x); be_store 4 (pow_segment_count x)].
Definition PartitionOffsetWire_wf (x : PartitionOffsetWire) : Prop :=
  is_u64 (pow_earliest x) /\ is_u64 (pow_next_offset x) /\ is_u32 (pow_segment_count x).
#[global] Instance PartitionOffsetWire_wf_dec x : Decision (PartitionOffsetWire_wf x).
Proof. unfold PartitionOffsetWire_wf, is_u8, is_u16, is_u32, is_u64, is_i32, is_i64. apply _. Defined.

Definition CommitOffsetItemWire_bytes (x : CommitOffsetItemWire) : bytes :=
  concat [string_bytes (ciw_topic x); be_store 2 (ciw_partition x); be_store 8 (ciw_offset x)].
Definition CommitOffsetItemWire_wf (x : CommitOffsetItemWire) : Prop :=
  is_u16 (zlen (ciw_topic x)) /\ is_u16 (ciw_partition x) /\ is_u64 (ciw_offset x).
#[global] Instance CommitOffsetItemWire_wf_dec x : Decision (CommitOffsetItemWire_wf x).
Proof. unfold CommitOffsetItemWire_wf, is_u8, is_u16, is_u32, is_u64, is_i32, is_i64. apply _. Defined.

Definition FetchOffsetQueryWire_bytes (x : FetchOffsetQueryWire) : bytes :=
  concat [string_bytes (fqw_topic x); be_store 2 (fqw_partition x)].
Definition FetchOffsetQueryWire_wf (x : FetchOffsetQueryWire) : Prop :=
  is_u16 (zlen (fqw_topic x)) /\ is_u16 (fqw_partition x).
#[global] Instance FetchOffsetQueryWire_wf_dec x : Decision (FetchOffsetQueryWire_wf x).
Proof. unfold FetchOffsetQueryWire_wf, is_u8, is_u16, is_u32, is_u64, is_i32, is_i64. apply _. Defined.

Definition TopicPartitionWire_bytes (x : TopicPartitionWire) : bytes :=
  concat [string_bytes (tpw_topic x); be_store 2 (tpw_partition x)].
Definition TopicPartitionWire_wf (x : TopicPartitionWire) : Prop :=
  is_u16 (zlen (tpw_topic x)) /\ is_u16 (tpw_partition x).
#[global] Instance TopicPartitionWire_wf_dec x : Decision (TopicPartitionWire_wf x).
Proof. unfold TopicPartitionWire_wf, is_u8, is_u16, is_u32, is_u64, is_i32, is_i64. apply _. Defined.

Definition OffsetEntryWire_bytes (x : OffsetEntryWire) : bytes :=
  concat [string_bytes (oew_topic x); be_store 2 (oew_partition x); i64_bytes (oew_offset x)].
Definition OffsetEntryWire_wf (x : OffsetEntryWire) : Prop :=
  is_u16 (zlen (oew_topic x)) /\ is_u16 (oew_partition x) /\ is_i64 (oew_offset x).
#[global] Instance OffsetEntryWire_wf_dec x : Decision (OffsetEntryWire_wf x).
Proof. unfold OffsetEntryWire_wf, is_u8, is_u16, is_u32, is_u64, is_i32, is_i64. apply _. Defined.

Definition ProduceRequest_bytes (m : ProduceRequest) : bytes :=
  concat [string_bytes (pr_topic m); i32_bytes (pr_partition m); be_store 2 (zlen (pr_records m)); concat (ProduceRecordPayload_bytes <$> pr_records m)].
Definition ProduceRequest_wf (m : ProduceRequest) : Prop :=
  is_u16 (zlen (pr_topic m)) /\
  is_i32 (pr_partition m) /\
  pr_record_count m = zlen (pr_records m) /\
  is_u16 (zlen (pr_records m)) /\
  Forall ProduceRecordPayload_wf (pr_records m).
#[global] Instance ProduceRequest_wf_dec m : Decision (ProduceRequest_wf m).
Proof. unfold ProduceRequest_wf, is_u8, is_u16, is_u32, is_u64, is_i32, is_i64. apply _. Defined.

Definition FetchRequest_bytes (m : FetchRequest) : bytes :=
  concat [string_bytes (fr_topic m); be_store 2 (fr_partition m); be_store 8 (fr_start_offset m); be_store 4 (fr_max_bytes m); be_store 4 (fr_max_messages m)].
Definition FetchRequest_wf (m : FetchRequest) : Prop :=
  is_u16 (zlen (fr_topic m)) /\
  is_u16 (fr_partition m) /\
  is_u64 (fr_start_offset m) /\
  is_u32 (fr_max_bytes m) /\
  is_u32 (fr_max_messages m).
#[global] Instance FetchRequest_wf_dec m : Decision (FetchRequest_wf m).
Proof. unfold FetchRequest_wf, is_u8, is_u16, is_u32, is_u64, is_i32, is_i64. apply _. Defined.

Definition DescribeTopicRequest_bytes (m : DescribeTopicRequest) : bytes :=
  concat [string_bytes (dtr_topic m)].
Definition DescribeTopicRequest_wf (m : DescribeTopicRequest) : Prop :=
  is_u16 (zlen (dtr_topic m)).
#[global] Instance DescribeTopicRequest_wf_dec m : Decision (DescribeTopicRequest_wf m).
Proof. unfold DescribeTopicRequest_wf, is_u8, is_u16, is_u32, is_u64, is_i32, is_i64. apply _. Defined.

Definition ProduceResponse_bytes (m : ProduceResponse) : bytes :=
  concat [be_store 2 (prs_partition m); be_store 8 (prs_base_offset m); be_store 2 (prs_count m)].
Definition ProduceResponse_wf (m : ProduceResponse) : Prop :=
  is_u16 (prs_partition m) /\
  is_u64 (prs_base_offset m) /\
  is_u16 (prs_count m).
#[global] Instance ProduceResponse_wf_dec m : Decision (ProduceResponse_wf m).
Proof. unfold ProduceResponse_wf, is_u8, is_u16, is_u32, is_u64, is_i32, is_i64. apply _. Defined.

Definition FetchResponse_bytes (m : FetchResponse) : bytes :=
  concat [be_store 8 (frs_next_offset m); be_store 8 (frs_high_watermark m); be_store 8 (frs_earliest_offset m); be_store 2 (zlen (frs_records m)); concat (FetchRecordWire_bytes <$> frs_records m)].
Definition FetchResponse_wf (m : FetchResponse) : Prop :=
  is_u64 (frs_next_offset m) /\
  is_u64 (frs_high_watermark m) /\
  is_u64 (frs_earliest_offset m) /\
  frs_record_count m = zlen (frs_records m) /\
  is_u16 (zlen (frs_records m)) /\
  Forall FetchRecordWire_wf (frs_records m).
#[global] Instance FetchResponse_wf_dec m : Decision (FetchResponse_wf m).
Proof. unfold FetchResponse_wf, is_u8, is_u16, is_u32, is_u64, is_i32, is_i64. apply _. Defined.

Definition ListTopicsResponse_bytes (m : ListTopicsResponse) : bytes :=
  concat [be_store 2 (zlen (lts_topics m)); concat (TopicInfoWire_bytes <$> lts_topics m)].
Definition ListTopicsResponse_wf (m : ListTopicsResponse) : Prop :=
  lts_count m = zlen (lts_topics m) /\
  is_u16 (zlen (lts_topics m)) /\
  Forall TopicInfoWire_wf (lts_topics m).
#[global] Instance ListTopicsResponse_wf_dec m : Decision (ListTopicsResponse_wf m).
Proof. unfold ListTopicsResponse_wf, is_u8, is_u16, is_u32, is_u64, is_i32, is_i64. apply _. Defined.

Definition JoinGroupRequest_bytes (m : JoinGroupRequest) : bytes :=
  concat [string_bytes (jgr_group_id m); string_bytes (jgr_member_id m); be_store 4 (jgr_session_timeout_ms m); u8_bytes (jgr_strategy m); be_store 2 (zlen (jgr_topics m)); concat (string_bytes <$> jgr_topics m)].
Definition JoinGroupRequest_wf (m : JoinGroupRequest) : Prop :=
  is_u16 (zlen (jgr_group_id m)) /\
  is_u16 (zlen (jgr_member_id m)) /\
  is_u32 (jgr_session_timeout_ms m) /\
  is_u8 (jgr_strategy m) /\
  jgr_topic_count m = zlen (jgr_topics m) /\
  is_u16 (zlen (jgr_topics m)) /\
  Forall (fun s => is_u16 (zlen s)) (jgr_topics m).
#[global] Instance JoinGroupRequest_wf_dec m : Decision (JoinGroupRequest_wf m).
Proof. unfold JoinGroupRequest_wf, is_u8, is_u16, is_u32, is_u64, is_i32, is_i64. apply _. Defined.

Definition HeartbeatRequest_bytes (m : HeartbeatRequest) : bytes :=
  concat [string_bytes (hbr_group_id m); string_bytes (hbr_member_id m); be_store 4 (hbr_generation m)].
Definition HeartbeatRequest_wf (m : HeartbeatRequest) : Prop :=
  is_u16 (zlen (hbr_group_id m)) /\
  is_u16 (zlen (hbr_member_id m)) /\
  is_u32 (hbr_generation m).
#[global] Instance HeartbeatRequest_wf_dec m : Decision (HeartbeatRequest_wf m).
Proof. unfold HeartbeatRequest_wf, is_u8, is_u16, is_u32, is_u64, is_i32, is_i64. apply _. Defined.

Definition LeaveGroupRequest_bytes (m : LeaveGroupRequest) : bytes :=
  concat [string_bytes (lgr_group_id m); string_bytes (lgr_member_id m)].
Definition LeaveGroupRequest_wf (m : LeaveGroupRequest) : Prop :=
  is_u16 (zlen (lgr_group_id m)) /\
  is_u16 (zlen (lgr_member_id m)).
#[global] Instance LeaveGroupRequest_wf_dec m : Decision (LeaveGroupRequest_wf m).
Proof. unfold LeaveGroupRequest_wf, is_u8, is_u16, is_u32, is_u64, is_i32, is_i64. apply _. Defined.

Definition CommitOffsetRequest_bytes (m : CommitOffsetRequest) : bytes :=
  concat [string_bytes (cor_group_id m); string_bytes (cor_member_id m); be_store 4 (cor_generation m); be_store 2 (zlen (cor_entries m)); concat (CommitOffsetItemWire_bytes <$> cor_entries m)].
Definition CommitOffsetRequest_wf (m : CommitOffsetRequest) : Prop :=
  is_u16 (zlen (cor_group_id m)) /\
  is_u16 (zlen (cor_member_id m)) /\
  is_u32 (cor_generation m) /\
  cor_count m = zlen (cor_entries m) /\
  is_u16 (zlen (cor_entries m)) /\
  Forall CommitOffsetItemWire_wf (cor_entries m).
#[global] Instance CommitOffsetRequest_wf_dec m : Decision (CommitOffsetRequest_wf m).
Proof. unfold CommitOffsetRequest_wf, is_u8, is_u16, is_u32, is_u64, is_i32, is_i64. apply _. Defined.

Definition FetchOffsetRequest_bytes (m : FetchOffsetRequest) : bytes :=
  concat [string_bytes (for_group_id m); be_store 2 (zlen (for_queries m)); concat (FetchOffsetQueryWire_bytes <$> for_queries m)].
Definition FetchOffsetRequest_wf (m : FetchOffsetRequest) : Prop :=
  is_u16 (zlen (for_group_id m)) /\
  for_count m = zlen (for_queries m) /\
  is_u16 (zlen (for_queries m)) /\
  Forall FetchOffsetQueryWire_wf (for_queries m).
#[global] Instance FetchOffsetRequest_wf_dec m : Decision (FetchOffsetRequest_wf m).
Proof. unfold FetchOffsetRequest_wf, is_u8, is_u16, is_u32, is_u64, is_i32, is_i64. apply _. Defined.

Definition DescribeGroupRequest_bytes (m : DescribeGroupRequest) : bytes :=
  concat [string_bytes (dgr_group_id m)].
Definition DescribeGroupRequest_wf (m : DescribeGroupRequest) : Prop :=
  is_u16 (zlen (dgr_group_id m)).
#[global] Instance DescribeGroupRequest_wf_dec m : Decision (DescribeGroupRequest_wf m).
Proof. unfold DescribeGroupRequest_wf, is_u8, is_u16, is_u32, is_u64, is_i32, is_i64. apply _. Defined.

Definition JoinGroupResponse_bytes (m : JoinGroupResponse) : bytes :=
  concat [string_bytes (jgs_member_id m); be_store 4 (jgs_generation m); be_store 4 (jgs_heartbeat_interval_ms m); be_store 2 (zlen (jgs_assignments m)); concat (TopicPartitionWire_bytes <$> jgs_assignments m)].
Definition JoinGroupResponse_wf (m : JoinGroupResponse) : Prop :=
  is_u16 (zlen (jgs_member_id m)) /\
  is_u32 (jgs_generation m) /\
  is_u32 (jgs_heartbeat_interval_ms m) /\
  jgs_count m = zlen (jgs_assignments m) /\
  is_u16 (zlen (jgs_assignments m)) /\
  Forall TopicPartitionWire_wf (jgs_assignments m).
#[global] Instance JoinGroupResponse_wf_dec m : Decision (JoinGroupResponse_wf m).
Proof. unfold JoinGroupResponse_wf, is_u8, is_u16, is_u32, is_u64, is_i32, is_i64. apply _. Defined.

Definition FetchOffsetResponse_bytes (m : FetchOffsetResponse) : bytes :=
  concat [be_store 2 (zlen (fos_offsets m)); concat (OffsetEntryWire_bytes <$> fos_offsets m)].
Definition FetchOffsetResponse_wf (m : FetchOffsetResponse) : Prop :=
  fos_count m = zlen (fos_offsets m) /\
  is_u16 (zlen (fos_offsets m)) /\
  Forall OffsetEntryWire_wf (fos_offsets m).
#[global] Instance FetchOffsetResponse_wf_dec m : Decision (FetchOffsetResponse_wf m).
Proof. unfold FetchOffsetResponse_wf, is_u8, is_u16, is_u32, is_u64, is_i32, is_i64. apply _. Defined.

Definition CreateTopicRequest_bytes (m : CreateTopicRequest) : bytes :=
  concat [string_bytes (ctr_topic m); be_store 2 (ctr_partitions m);
          if ctr_has_retention m
          then be_store 8 (ctr_retention_ms m) ++ be_store 8 (ctr_retention_bytes m) else []].
Definition CreateTopicRequest_wf (m : CreateTopicRequest) : Prop :=
  is_u16 (zlen (ctr_topic m)) /\ is_u16 (ctr_partitions m) /\
  is_u64 (ctr_retention_ms m) /\ is_u64 (ctr_retention_bytes m) /\
  (ctr_has_retention m = false -> ctr_retention_ms m = 0 /\ ctr_retention_bytes m = 0).
#[global] Instance CreateTopicRequest_wf_dec m : Decision (CreateTopicRequest_wf m).
Proof. unfold CreateTopicRequest_wf, is_u8, is_u16, is_u32, is_u64. apply _. Defined.

Definition DescribeTopicResponse_bytes (m : DescribeTopicResponse) : bytes :=
  concat [string_bytes (dts_name m); be_store 2 (dts_partitions m);
          concat (PartitionOffsetWire_bytes <$> dts_partition_offsets m);
          be_store 8 (dts_retention_ms m); be_store 8 (dts_retention_bytes m);
          u8_bytes (dts_degraded m)].
Definition DescribeTopicResponse_wf (m : DescribeTopicResponse) : Prop :=
  is_u16 (zlen (dts_name m)) /\ dts_partitions m = zlen (dts_partition_offsets m) /\
  is_u16 (zlen (dts_partition_offsets m)) /\ Forall PartitionOffsetWire_wf (dts_partition_offsets m) /\
  is_u64 (dts_retention_ms m) /\ is_u64 (dts_retention_bytes m) /\ is_u8 (dts_degraded m).
#[global] Instance DescribeTopicResponse_wf_dec m : Decision (DescribeTopicResponse_wf m).
Proof. unfold DescribeTopicResponse_wf, is_u8, is_u16, is_u32, is_u64. apply _. Defined.

Definition MemberDescriptionWire_bytes (m : MemberDescriptionWire) : bytes :=
  concat [string_bytes (mdw_member_id m); be_store 4 (mdw_session_timeout_ms m);
          be_store 4 (mdw_ms_since_heartbeat m); be_store 2 (zlen (mdw_assignment m));
          concat (TopicPartitionWire_bytes <$> mdw_assignment m)].
Definition MemberDescriptionWire_wf (m : MemberDescriptionWire) : Prop :=
  is_u16 (zlen (mdw_member_id m)) /\ is_u32 (mdw_session_timeout_ms m) /\
  is_u32 (mdw_ms_since_heartbeat m) /\ mdw_count m = zlen (mdw_assignment m) /\
  is_u16 (zlen (mdw_assignment m)) /\ Forall TopicPartitionWire_wf (mdw_assignment m).
#[global] Instance MemberDescriptionWire_wf_dec m : Decision (MemberDescriptionWire_wf m).
Proof. unfold MemberDescriptionWire_wf, is_u8, is_u16, is_u32, is_u64. apply _. Defined.

Definition DescribeGroupResponse_bytes (m : DescribeGroupResponse) : bytes :=
  concat [string_bytes (dgs_group_id m); be_store 4 (dgs_generation m);
          string_bytes (dgs_state m); u8_bytes (dgs_strategy m);
          be_store 2 (zlen (dgs_members m));
          concat (MemberDescriptionWire_bytes <$> dgs_members m)].
Definition DescribeGroupResponse_wf (m : DescribeGroupResponse) : Prop :=
  is_u16 (zlen (dgs_group_id m)) /\ is_u32 (dgs_generation m) /\ is_u16 (zlen (dgs_state m)) /\
  is_u8 (dgs_strategy m) /\ dgs_member_count m = zlen (dgs_members m) /\
  is_u16 (zlen (dgs_members m)) /\ Forall MemberDescriptionWire_wf (dgs_members m).
#[global] Instance DescribeGroupResponse_wf_dec m : Decision (DescribeGroupResponse_wf m).
Proof. unfold DescribeGroupResponse_wf, is_u8, is_u16, is_u32, is_u64. apply _. Defined.

(** ** The decoders invert the layouts, the encoders produce them *)

Lemma reads_zn {A} (r : reader A) (enc : A -> bytes) (P : A -> Prop) (xs : list A) :
  (forall x, P x -> reads r x (enc x)) -> Forall P xs ->
  reads (read_n (Z.to_nat (zlen xs)) r) xs (concat (enc <$> xs)).
Proof.
  intros Hr Hxs. unfold zlen. rewrite Nat2Z.id. apply reads_n.
  intros x Hx. apply Hr. by eapply list.Forall_forall in Hxs.
Qed.

Lemma write_all_wf {A} (f : A -> BodyWriter -> BodyWriter) (enc : A -> bytes) (P : A -> Prop) l w :
  (forall x w, P x -> f x w = BodyWriter_append (enc x) w) -> Forall P l ->
  write_all f l w = BodyWriter_append (concat (enc <$> l)) w.
Proof.
  intros Hf Hl. apply write_all_append. intros x w' Hx. apply Hf.
  by eapply list.Forall_forall in Hl.
Qed.

(** Vectors of elements of at least [k] bytes pass the size guards. *)
Lemma concat_min {A} (enc : A -> bytes) k (xs : list A) rest :
  (forall x, k <= zlen (enc x)) -> zlen xs * k <= zlen (concat (enc <$> xs) ++ rest).
Proof.
  intros Hk. rewrite zlen_app. pose proof (zlen_nonneg rest).
  enough (zlen xs * k <= zlen (concat (enc <$> xs))) by lia. clear rest H.
  induction xs as [|x xs IH]; cbn [fmap list_fmap concat]; zlen_nil; [lia|].
  rewrite zlen_cons, zlen_app. specialize (Hk x). cbn in IH. lia.
Qed.

Lemma string_bytes_min s : 2 <= zlen (string_bytes s).
Proof. unfold string_bytes. pose proof (zlen_nonneg s). zlen_solve. Qed.

Ltac wire_len :=
  autorewrite with sflen; zlen_nil;
  repeat match goal with |- context [@zlen ?A ?x] =>
    lazymatch goal with
    | _ : 0 <= @zlen A x |- _ => fail
    | _ => pose proof (@zlen_nonneg A x)
    end end; lia.

#[local] Arguments be_store : simpl never.
#[local] Arguments string_bytes : simpl never.
#[local] Arguments vec_bytes : simpl never.
#[local] Arguments zlen : simpl never.
#[local] Arguments u16 : simpl never.
#[local] Arguments u32 : simpl never.
#[local] Arguments u64 : simpl never.
#[local] Arguments read_n : simpl never.
#[local] Arguments u8_bytes : simpl never.
#[local] Arguments write_all : simpl never.
#[local] Arguments Z.mul : simpl never.
#[local] Arguments mbind : simpl never.
#[local] Arguments mret : simpl never.
#[local] Arguments fmap : simpl never.

Create HintDb sfmin discriminated.
Create HintDb sfw discriminated.
#[local] Hint Constants Opaque : sfmin sfw.
#[local] Hint Resolve string_bytes_min : sfmin.
#[local] Hint Resolve write_string_append : sfw.

(** One field: a primitive one, or a counted vector. *)
Ltac wire_field :=
  first [solve [auto with sf] | solve [eapply reads_zn; [|eassumption]; auto with sf]].

(** Read field after field. *)
Ltac wire_reads :=
  cbn in *; unfold u8_bytes, i32_bytes, i64_bytes; subst;
  repeat first
    [ apply reads_end_finish
    | apply reads_ret
    | eapply reads_end_require; [apply concat_min; auto with sfmin|]
    | eapply reads_require; [apply concat_min; auto with sfmin|]
    | eapply reads_end_bind; [wire_field|]
    | eapply reads_bind; [wire_field|] ].

(** Append field after field. *)
Ltac wire_writes :=
  cbn in *; unfold u8_bytes, i32_bytes, i64_bytes; subst; rewrite ?u16_id by assumption;
  repeat first
    [ rewrite write_u8_append
    | rewrite write_u16_append by assumption
    | rewrite write_u32_append by assumption
    | rewrite write_u64_append by assumption
    | rewrite write_i32_append
    | rewrite write_i64_append
    | rewrite write_string_append by assumption
    | rewrite write_bytes_append by assumption
    | erewrite write_all_wf; [| |eassumption]; [|intros; cbv beta in *; solve [eauto 2 with sfw]]
    | rewrite append_append ];
  rewrite ?app_nil_r, <- ?app_assoc; reflexivity.



Lemma ProduceRecordPayload_reads x : ProduceRecordPayload_wf x -> reads ProduceRecordPayload_read x (ProduceRecordPayload_bytes x).
Proof. destruct x. intros (H0 & H1). unfold ProduceRecordPayload_read, ProduceRecordPayload_bytes. wire_reads. Qed.
Lemma ProduceRecordPayload_write_append x w :
  ProduceRecordPayload_wf x -> ProduceRecordPayload_write x w = BodyWriter_append (ProduceRecordPayload_bytes x) w.
Proof. destruct x. intros (H0 & H1). unfold ProduceRecordPayload_write, ProduceRecordPayload_bytes. wire_writes. Qed.
Lemma ProduceRecordPayload_min x : 8 <= zlen (ProduceRecordPayload_bytes x).
Proof. unfold ProduceRecordPayload_bytes, string_bytes, vec_bytes, u8_bytes, i64_bytes. cbn [concat]. wire_len. Qed.
#[local] Hint Resolve ProduceRecordPayload_reads : sf.
#[local] Hint Resolve ProduceRecordPayload_write_append : sfw.
#[local] Hint Resolve ProduceRecordPayload_min : sfmin.

Lemma FetchRecordWire_reads x : FetchRecordWire_wf x -> reads FetchRecordWire_read x (FetchRecordWire_bytes x).
Proof. destruct x. intros (H0 & H1 & H2 & H3). unfold FetchRecordWire_read, FetchRecordWire_bytes. wire_reads. Qed.
Lemma FetchRecordWire_write_append x w :
  FetchRecordWire_wf x -> FetchRecordWire_write x w = BodyWriter_append (FetchRecordWire_bytes x) w.
Proof. destruct x. intros (H0 & H1 & H2 & H3). unfold FetchRecordWire_write, FetchRecordWire_bytes. wire_writes. Qed.
Lemma FetchRecordWire_min x : 24 <= zlen (FetchRecordWire_bytes x).
Proof. unfold FetchRecordWire_bytes, string_bytes, vec_bytes, u8_bytes, i64_bytes. cbn [concat]. wire_len. Qed.
#[local] Hint Resolve FetchRecordWire_reads : sf.
#[local] Hint Resolve FetchRecordWire_write_append : sfw.
#[local] Hint Resolve FetchRecordWire_min : sfmin.

Lemma TopicInfoWire_reads x : TopicInfoWire_wf x -> reads TopicInfoWire_read x (TopicInfoWire_bytes x).
Proof. destruct x. intros (H0 & H1). unfold TopicInfoWire_read, TopicInfoWire_bytes. wire_reads. Qed.
Lemma TopicInfoWire_write_append x w :
  TopicInfoWire_wf x -> TopicInfoWire_write x w = BodyWriter_append (TopicInfoWire_bytes x) w.
Proof. destruct x. intros (H0 & H1). unfold TopicInfoWire_write, TopicInfoWire_bytes. wire_writes. Qed.
Lemma TopicInfoWire_min x : 4 <= zlen (TopicInfoWire_bytes x).
Proof. unfold TopicInfoWire_bytes, string_bytes, vec_bytes, u8_bytes, i64_bytes. cbn [concat]. wire_len. Qed.
#[local] Hint Resolve TopicInfoWire_reads : sf.
#[local] Hint Resolve TopicInfoWire_write_append : sfw.
#[local] Hint Resolve TopicInfoWire_min : sfmin.

Lemma PartitionOffsetWire_reads x : PartitionOffsetWire_wf x -> reads PartitionOffsetWire_read x (PartitionOffsetWire_bytes x).
Proof. destruct x. intros (H0 & H1 & H2). unfold PartitionOffsetWire_read, PartitionOffsetWire_bytes. wire_reads. Qed.
Lemma PartitionOffsetWire_write_append x w :
  PartitionOffsetWire_wf x -> PartitionOffsetWire_write x w = BodyWriter_append (PartitionOffsetWire_bytes x) w.
Proof. destruct x. intros (H0 & H1 & H2). unfold PartitionOffsetWire_write, PartitionOffsetWire_bytes. wire_writes. Qed.
Lemma PartitionOffsetWire_min x : 20 <= zlen (PartitionOffsetWire_bytes x).
Proof. unfold PartitionOffsetWire_bytes, string_bytes, vec_bytes, u8_bytes, i64_bytes. cbn [concat]. wire_len. Qed.
#[local] Hint Resolve PartitionOffsetWire_reads : sf.
#[local] Hint Resolve PartitionOffsetWire_write_append : sfw.
#[local] Hint Resolve PartitionOffsetWire_min : sfmin.

Lemma CommitOffsetItemWire_reads x : CommitOffsetItemWire_wf x -> reads CommitOffsetItemWire_read x (CommitOffsetItemWire_bytes x).
Proof. destruct x. intros (H0 & H1 & H2). unfold CommitOffsetItemWire_read, CommitOffsetItemWire_bytes. wire_reads. Qed.
Lemma CommitOffsetItemWire_write_append x w :
  CommitOffsetItemWire_wf x -> CommitOffsetItemWire_write x w = BodyWriter_append (CommitOffsetItemWire_bytes x) w.
Proof. destruct x. intros (H0 & H1 & H2). unfold CommitOffsetItemWire_write, CommitOffsetItemWire_bytes. wire_writes. Qed.
Lemma CommitOffsetItemWire_min x : 12 <= zlen (CommitOffsetItemWire_bytes x).
Proof. unfold CommitOffsetItemWire_bytes, string_bytes, vec_bytes, u8_bytes, i64_bytes. cbn [concat]. wire_len. Qed.
#[local] Hint Resolve CommitOffsetItemWire_reads : sf.
#[local] Hint Resolve CommitOffsetItemWire_write_append : sfw.
#[local] Hint Resolve CommitOffsetItemWire_min : sfmin.

Lemma FetchOffsetQueryWire_reads x : FetchOffsetQueryWire_wf x -> reads FetchOffsetQueryWire_read x (FetchOffsetQueryWire_bytes x).
Proof. destruct x. intros (H0 & H1). unfold FetchOffsetQueryWire_read, FetchOffsetQueryWire_bytes. wire_reads. Qed.
Lemma FetchOffsetQueryWire_write_append x w :
  FetchOffsetQueryWire_wf x -> FetchOffsetQueryWire_write x w = BodyWriter_append (FetchOffsetQueryWire_bytes x) w.
Proof. destruct x. intros (H0 & H1). unfold FetchOffsetQueryWire_write, FetchOffsetQueryWire_bytes. wire_writes. Qed.
Lemma FetchOffsetQueryWire_min x : 4 <= zlen (FetchOffsetQueryWire_bytes x).
Proof. unfold FetchOffsetQueryWire_bytes, string_bytes, vec_bytes, u8_bytes, i64_bytes. cbn [concat]. wire_len. Qed.
#[local] Hint Resolve FetchOffsetQueryWire_reads : sf.
#[local] Hint Resolve FetchOffsetQueryWire_write_append : sfw.
#[local] Hint Resolve FetchOffsetQueryWire_min : sfmin.

Lemma TopicPartitionWire_reads x : TopicPartitionWire_wf x -> reads TopicPartitionWire_read x (TopicPartitionWire_bytes x).
Proof. destruct x. intros (H0 & H1). unfold TopicPartitionWire_read, TopicPartitionWire_bytes. wire_reads. Qed.
Lemma TopicPartitionWire_write_append x w :
  TopicPartitionWire_wf x -> TopicPartitionWire_write x w = BodyWriter_append (TopicPartitionWire_bytes x) w.
Proof. destruct x. intros (H0 & H1). unfold TopicPartitionWire_write, TopicPartitionWire_bytes. wire_writes. Qed.
Lemma TopicPartitionWire_min x : 4 <= zlen (TopicPartitionWire_bytes x).
Proof. unfold TopicPartitionWire_bytes, string_bytes, vec_bytes, u8_bytes, i64_bytes. cbn [concat]. wire_len. Qed.
#[local] Hint Resolve TopicPartitionWire_reads : sf.
#[local] Hint Resolve TopicPartitionWire_write_append : sfw.
#[local] Hint Resolve TopicPartitionWire_min : sfmin.

Lemma OffsetEntryWire_reads x : OffsetEntryWire_wf x -> reads OffsetEntryWire_read x (OffsetEntryWire_bytes x).
Proof. destruct x. intros (H0 & H1 & H2). unfold OffsetEntryWire_read, OffsetEntryWire_bytes. wire_reads. Qed.
Lemma OffsetEntryWire_write_append x w :
  OffsetEntryWire_wf x -> OffsetEntryWire_write x w = BodyWriter_append (OffsetEntryWire_bytes x) w.
Proof. destruct x. intros (H0 & H1 & H2). unfold OffsetEntryWire_write, OffsetEntryWire_bytes. wire_writes. Qed.
Lemma OffsetEntryWire_min x : 12 <= zlen (OffsetEntryWire_bytes x).
Proof. unfold OffsetEntryWire_bytes, string_bytes, vec_bytes, u8_bytes, i64_bytes. cbn [concat]. wire_len. Qed.
#[local] Hint Resolve OffsetEntryWire_reads : sf.
#[local] Hint Resolve OffsetEntryWire_write_append : sfw.
#[local] Hint Resolve OffsetEntryWire_min : sfmin.

Lemma ProduceRequest_reads m : ProduceRequest_wf m -> reads_end ProduceRequest_decode m (ProduceRequest_bytes m).
Proof. destruct m. intros (H0 & H1 & H2 & H3 & H4). unfold ProduceRequest_decode, ProduceRequest_bytes. wire_reads. Qed.
Lemma ProduceRequest_encode_append m w :
  ProduceRequest_wf m -> ProduceRequest_encode m w = BodyWriter_append (ProduceRequest_bytes m) w.
Proof. destruct m. intros (H0 & H1 & H2 & H3 & H4). unfold ProduceRequest_encode, ProduceRequest_bytes. wire_writes. Qed.

Lemma FetchRequest_reads m : FetchRequest_wf m -> reads_end FetchRequest_decode m (FetchRequest_bytes m).
Proof. destruct m. intros (H0 & H1 & H2 & H3 & H4). unfold FetchRequest_decode, FetchRequest_bytes. wire_reads. Qed.
Lemma FetchRequest_encode_append m w :
  FetchRequest_wf m -> FetchRequest_encode m w = BodyWriter_append (FetchRequest_bytes m) w.
Proof. destruct m. intros (H0 & H1 & H2 & H3 & H4). unfold FetchRequest_encode, FetchRequest_bytes. wire_writes. Qed.

Lemma DescribeTopicRequest_reads m : DescribeTopicRequest_wf m -> reads_end DescribeTopicRequest_decode m (DescribeTopicRequest_bytes m).
Proof. destruct m. intros H0. unfold DescribeTopicRequest_decode, DescribeTopicRequest_bytes. wire_reads. Qed.
Lemma DescribeTopicRequest_encode_append m w :
  DescribeTopicRequest_wf m -> DescribeTopicRequest_encode m w = BodyWriter_append (DescribeTopicRequest_bytes m) w.
Proof. destruct m. intros H0. unfold DescribeTopicRequest_encode, DescribeTopicRequest_bytes. wire_writes. Qed.

Lemma ProduceResponse_reads m : ProduceResponse_wf m -> reads_end ProduceResponse_decode m (ProduceResponse_bytes m).
Proof. destruct m. intros (H0 & H1 & H2). unfold ProduceResponse_decode, ProduceResponse_bytes. wire_reads. Qed.
Lemma ProduceResponse_encode_append m w :
  ProduceResponse_wf m -> ProduceResponse_encode m w = BodyWriter_append (ProduceResponse_bytes m) w.
Proof. destruct m. intros (H0 & H1 & H2). unfold ProduceResponse_encode, ProduceResponse_bytes. wire_writes. Qed.

Lemma FetchResponse_reads m : FetchResponse_wf m -> reads_end FetchResponse_decode m (FetchResponse_bytes m).
Proof. destruct m. intros (H0 & H1 & H2 & H3 & H4 & H5). unfold FetchResponse_decode, FetchResponse_bytes. wire_reads. Qed.
Lemma FetchResponse_encode_append m w :
  FetchResponse_wf m -> FetchResponse_encode m w = BodyWriter_append (FetchResponse_bytes m) w.
Proof. destruct m. intros (H0 & H1 & H2 & H3 & H4 & H5). unfold FetchResponse_encode, FetchResponse_bytes. wire_writes. Qed.

Lemma ListTopicsResponse_reads m : ListTopicsResponse_wf m -> reads_end ListTopicsResponse_decode m (ListTopicsResponse_bytes m).
Proof. destruct m. intros (H0 & H1 & H2). unfold ListTopicsResponse_decode, ListTopicsResponse_bytes. wire_reads. Qed.
Lemma ListTopicsResponse_encode_append m w :
  ListTopicsResponse_wf m -> ListTopicsResponse_encode m w = BodyWriter_append (ListTopicsResponse_bytes m) w.
Proof. destruct m. intros (H0 & H1 & H2). unfold ListTopicsResponse_encode, ListTopicsResponse_bytes. wire_writes. Qed.

Lemma JoinGroupRequest_reads m : JoinGroupRequest_wf m -> reads_end JoinGroupRequest_decode m (JoinGroupRequest_bytes m).
Proof. destruct m. intros (H0 & H1 & H2 & H3 & H4 & H5 & H6). unfold JoinGroupRequest_decode, JoinGroupRequest_bytes. wire_reads. Qed.
Lemma JoinGroupRequest_encode_append m w :
  JoinGroupRequest_wf m -> JoinGroupRequest_encode m w = BodyWriter_append (JoinGroupRequest_bytes m) w.
Proof. destruct m. intros (H0 & H1 & H2 & H3 & H4 & H5 & H6). unfold JoinGroupRequest_encode, JoinGroupRequest_bytes. wire_writes. Qed.

Lemma HeartbeatRequest_reads m : HeartbeatRequest_wf m -> reads_end HeartbeatRequest_decode m (HeartbeatRequest_bytes m).
Proof. destruct m. intros (H0 & H1 & H2). unfold HeartbeatRequest_decode, HeartbeatRequest_bytes. wire_reads. Qed.
Lemma HeartbeatRequest_encode_append m w :
  HeartbeatRequest_wf m -> HeartbeatRequest_encode m w = BodyWriter_append (HeartbeatRequest_bytes m) w.
Proof. destruct m. intros (H0 & H1 & H2). unfold HeartbeatRequest_encode, HeartbeatRequest_bytes. wire_writes. Qed.

Lemma LeaveGroupRequest_reads m : LeaveGroupRequest_wf m -> reads_end LeaveGroupRequest_decode m (LeaveGroupRequest_bytes m).
Proof. destruct m. intros (H0 & H1). unfold LeaveGroupRequest_decode, LeaveGroupRequest_bytes. wire_reads. Qed.
Lemma LeaveGroupRequest_encode_append m w :
  LeaveGroupRequest_wf m -> LeaveGroupRequest_encode m w = BodyWriter_append (LeaveGroupRequest_bytes m) w.
Proof. destruct m. intros (H0 & H1). unfold LeaveGroupRequest_encode, LeaveGroupRequest_bytes. wire_writes. Qed.

Lemma CommitOffsetRequest_reads m : CommitOffsetRequest_wf m -> reads_end CommitOffsetRequest_decode m (CommitOffsetRequest_bytes m).
Proof. destruct m. intros (H0 & H1 & H2 & H3 & H4 & H5). unfold CommitOffsetRequest_decode, CommitOffsetRequest_bytes. wire_reads. Qed.
Lemma CommitOffsetRequest_encode_append m w :
  CommitOffsetRequest_wf m -> CommitOffsetRequest_encode m w = BodyWriter_append (CommitOffsetRequest_bytes m) w.
Proof. destruct m. intros (H0 & H1 & H2 & H3 & H4 & H5). unfold CommitOffsetRequest_encode, CommitOffsetRequest_bytes. wire_writes. Qed.

Lemma FetchOffsetRequest_reads m : FetchOffsetRequest_wf m -> reads_end FetchOffsetRequest_decode m (FetchOffsetRequest_bytes m).
Proof. destruct m. intros (H0 & H1 & H2 & H3). unfold FetchOffsetRequest_decode, FetchOffsetRequest_bytes. wire_reads. Qed.
Lemma FetchOffsetRequest_encode_append m w :
  FetchOffsetRequest_wf m -> FetchOffsetRequest_encode m w = BodyWriter_append (FetchOffsetRequest_bytes m) w.
Proof. destruct m. intros (H0 & H1 & H2 & H3). unfold FetchOffsetRequest_encode, FetchOffsetRequest_bytes. wire_writes. Qed.

Lemma DescribeGroupRequest_reads m : DescribeGroupRequest_wf m -> reads_end DescribeGroupRequest_decode m (DescribeGroupRequest_bytes m).
Proof. destruct m. intros H0. unfold DescribeGroupRequest_decode, DescribeGroupRequest_bytes. wire_reads. Qed.
Lemma DescribeGroupRequest_encode_append m w :
  DescribeGroupRequest_wf m -> DescribeGroupRequest_encode m w = BodyWriter_append (DescribeGroupRequest_bytes m) w.
Proof. destruct m. intros H0. unfold DescribeGroupRequest_encode, DescribeGroupRequest_bytes. wire_writes. Qed.

Lemma JoinGroupResponse_reads m : JoinGroupResponse_wf m -> reads_end JoinGroupResponse_decode m (JoinGroupResponse_bytes m).
Proof. destruct m. intros (H0 & H1 & H2 & H3 & H4 & H5). unfold JoinGroupResponse_decode, JoinGroupResponse_bytes. wire_reads. Qed.
Lemma JoinGroupResponse_encode_append m w :
  JoinGroupResponse_wf m -> JoinGroupResponse_encode m w = BodyWriter_append (JoinGroupResponse_bytes m) w.
Proof. destruct m. intros (H0 & H1 & H2 & H3 & H4 & H5). unfold JoinGroupResponse_encode, JoinGroupResponse_bytes. wire_writes. Qed.

Lemma FetchOffsetResponse_reads m : FetchOffsetResponse_wf m -> reads_end FetchOffsetResponse_decode m (FetchOffsetResponse_bytes m).
Proof. destruct m. intros (H0 & H1 & H2). unfold FetchOffsetResponse_decode, FetchOffsetResponse_bytes. wire_reads. Qed.
Lemma FetchOffsetResponse_encode_append m w :
  FetchOffsetResponse_wf m -> FetchOffsetResponse_encode m w = BodyWriter_append (FetchOffsetResponse_bytes m) w.
Proof. destruct m. intros (H0 & H1 & H2). unfold FetchOffsetResponse_encode, FetchOffsetResponse_bytes. wire_writes. Qed.

Lemma CreateTopicRequest_reads m :
  CreateTopicRequest_wf m -> reads_end CreateTopicRequest_decode m (CreateTopicRequest_bytes m).
Proof.
  destruct m as [t p ms bs []]; intros (H0 & H1 & H2 & H3 & H4);
    unfold CreateTopicRequest_decode, CreateTopicRequest_bytes; cbn in *;
    rewrite ?app_nil_r; (eapply reads_end_bind; [wire_field|]).
  - eapply reads_end_bind; [wire_field|]. apply reads_end_remaining.
    replace (0 <? zlen _) with true by (symmetry; apply Z.ltb_lt; wire_len).
    eapply reads_end_bind; [wire_field|]. rewrite <- (app_nil_r (be_store 8 bs)).
    wire_reads.
  - destruct H4 as [-> ->]; [done|].
    rewrite <- (app_nil_r (be_store 2 p)). eapply reads_end_bind; [wire_field|].
    apply reads_end_remaining. apply reads_end_finish.
Qed.
Lemma CreateTopicRequest_encode_append m w :
  CreateTopicRequest_wf m -> CreateTopicRequest_encode m w = BodyWriter_append (CreateTopicRequest_bytes m) w.
Proof.
  destruct m as [t p ms bs []]; intros (H0 & H1 & H2 & H3 & H4);
    unfold CreateTopicRequest_encode, CreateTopicRequest_bytes; wire_writes.
Qed.

(** With the segment counts present the element reader is the extended one. *)
Lemma DescribeTopicResponse_read_partition_reads x :
  PartitionOffsetWire_wf x ->
  reads (DescribeTopicResponse_read_partition true) x (PartitionOffsetWire_bytes x).
Proof.
  destruct x. intros (H0 & H1 & H2).
  unfold DescribeTopicResponse_read_partition, PartitionOffsetWire_bytes. wire_reads.
Qed.
#[local] Hint Resolve DescribeTopicResponse_read_partition_reads : sf.

Lemma DescribeTopicResponse_reads m :
  DescribeTopicResponse_wf m ->
  reads_end DescribeTopicResponse_decode m (DescribeTopicResponse_bytes m).
Proof.
  destruct m as [t p l ms bs d]. intros (H0 & H1 & H2 & H3 & H4 & H5 & H6).
  unfold DescribeTopicResponse_decode, DescribeTopicResponse_bytes. cbn in *. subst.
  do 2 (eapply reads_end_bind; [wire_field|]). apply reads_end_remaining.
  pose proof (concat_min PartitionOffsetWire_bytes 20 l
    (be_store 8 ms ++ be_store 8 bs ++ u8_bytes d ++ []) PartitionOffsetWire_min).
  rewrite (proj2 (Z.leb_le _ _)) by done.
  eapply reads_end_bind; [wire_field|]. apply reads_end_remaining. cbn [andb].
  replace (17 <=? _) with true
    by (symmetry; apply Z.leb_le; rewrite !zlen_app, !zlen_be_store; done).
  wire_reads.
Qed.
Lemma DescribeTopicResponse_encode_append m w :
  DescribeTopicResponse_wf m ->
  DescribeTopicResponse_encode m w = BodyWriter_append (DescribeTopicResponse_bytes m) w.
Proof.
  destruct m. intros (H0 & H1 & H2 & H3 & H4 & H5 & H6).
  unfold DescribeTopicResponse_encode, DescribeTopicResponse_bytes. wire_writes.
Qed.

Lemma MemberDescriptionWire_reads x :
  MemberDescriptionWire_wf x -> reads MemberDescriptionWire_read x (MemberDescriptionWire_bytes x).
Proof.
  destruct x. intros (H0 & H1 & H2 & H3 & H4 & H5).
  unfold MemberDescriptionWire_read, MemberDescriptionWire_bytes. wire_reads.
Qed.
Lemma MemberDescriptionWire_write_append x w :
  MemberDescriptionWire_wf x ->
  MemberDescriptionWire_write x w = BodyWriter_append (MemberDescriptionWire_bytes x) w.
Proof.
  destruct x. intros (H0 & H1 & H2 & H3 & H4 & H5).
  unfold MemberDescriptionWire_write, MemberDescriptionWire_bytes. wire_writes.
Qed.
#[local] Hint Resolve MemberDescriptionWire_reads : sf.
#[local] Hint Resolve MemberDescriptionWire_write_append : sfw.

Lemma DescribeGroupResponse_reads m :
  DescribeGroupResponse_wf m ->
  reads_end DescribeGroupResponse_decode m (DescribeGroupResponse_bytes m).
Proof.
  destruct m. intros (H0 & H1 & H2 & H3 & H4 & H5 & H6).
  unfold DescribeGroupResponse_decode, DescribeGroupResponse_bytes. wire_reads.
Qed.
Lemma DescribeGroupResponse_encode_append m w :
  DescribeGroupResponse_wf m ->
  DescribeGroupResponse_encode m w = BodyWriter_append (DescribeGroupResponse_bytes m) w.
Proof.
  destruct m. intros (H0 & H1 & H2 & H3 & H4 & H5 & H6).
  unfold DescribeGroupResponse_encode, DescribeGroupResponse_bytes. wire_writes.
Qed.

(** A decoder run on what the encoder wrote consumes all of it and returns the
    message that was encoded. *)
Definition message_roundtrips {A} (wf : A -> Prop) (encode : A -> BodyWriter -> BodyWriter)
    (decode : reader A) : Prop :=
  forall m, wf m ->
    let body := bw_buffer (encode m empty_writer) in
    decode (BodyReader_of body) = Some (m, mkBodyReader body (zlen body)).

Lemma layout_roundtrips {A} (wf : A -> Prop) encode decode (layout : A -> bytes) :
  (forall m, wf m -> reads_end decode m (layout m)) ->
  (forall m w, wf m -> encode m w = BodyWriter_append (layout m) w) ->
  message_roundtrips wf encode decode.
Proof.
  intros Hd He m Hm. cbn zeta. rewrite He by done. rewrite bw_buffer_append.
  exact (Hd m Hm []).
Qed.

Lemma empty_message_roundtrips {A} (a : A) decode :
  (forall m : A, m = a) -> decode = finish a ->
  message_roundtrips (fun _ => True) (fun (_ : A) w => w) decode.
Proof. intros Ha -> m _. by rewrite (Ha m). Qed.

Create HintDb sfmsg discriminated.
#[local] Hint Constants Opaque : sfmsg.
#[local] Hint Resolve CreateTopicRequest_reads CreateTopicRequest_encode_append
  ProduceRequest_reads ProduceRequest_encode_append FetchRequest_reads
  FetchRequest_encode_append DescribeTopicRequest_reads DescribeTopicRequest_encode_append
  JoinGroupRequest_reads JoinGroupRequest_encode_append HeartbeatRequest_reads
  HeartbeatRequest_encode_append LeaveGroupRequest_reads LeaveGroupRequest_encode_append
  CommitOffsetRequest_reads CommitOffsetRequest_encode_append FetchOffsetRequest_reads
  FetchOffsetRequest_encode_append DescribeGroupRequest_reads
  DescribeGroupRequest_encode_append ProduceResponse_reads ProduceResponse_encode_append
  FetchResponse_reads FetchResponse_encode_append ListTopicsResponse_reads
  ListTopicsResponse_encode_append DescribeTopicResponse_reads
  DescribeTopicResponse_encode_append JoinGroupResponse_reads JoinGroupResponse_encode_append
  FetchOffsetResponse_reads FetchOffsetResponse_encode_append DescribeGroupResponse_reads
  DescribeGroupResponse_encode_append : sfmsg.

Ltac message_roundtrip :=
  first [ eapply layout_roundtrips; solve [eauto 2 with sfmsg]
        | refine (empty_message_roundtrips _ _ _ eq_refl); by intros [] ].

(** C39: every request of the wire protocol is recovered from its encoding: the decoder of each request type, run on the bytes its encoder writes for a request whose fields fit their types, succeeds, consumes the whole body and returns the same request. *)
Theorem requests_roundtrip :
  message_roundtrips CreateTopicRequest_wf CreateTopicRequest_encode CreateTopicRequest_decode /\
  message_roundtrips ProduceRequest_wf ProduceRequest_encode ProduceRequest_decode /\
  message_roundtrips FetchRequest_wf FetchRequest_encode FetchRequest_decode /\
  message_roundtrips DescribeTopicRequest_wf DescribeTopicRequest_encode DescribeTopicRequest_decode /\
  message_roundtrips JoinGroupRequest_wf JoinGroupRequest_encode JoinGroupRequest_decode /\
  message_roundtrips HeartbeatRequest_wf HeartbeatRequest_encode HeartbeatRequest_decode /\
  message_roundtrips LeaveGroupRequest_wf LeaveGroupRequest_encode LeaveGroupRequest_decode /\
  message_roundtrips CommitOffsetRequest_wf CommitOffsetRequest_encode CommitOffsetRequest_decode /\
  message_roundtrips FetchOffsetRequest_wf FetchOffsetRequest_encode FetchOffsetRequest_decode /\
  message_roundtrips DescribeGroupRequest_wf DescribeGroupRequest_encode DescribeGroupRequest_decode /\
  message_roundtrips (fun _ => True) ListTopicsRequest_encode ListTopicsRequest_decode.
Proof. split_and!; message_roundtrip. Qed.

(** C40: every response of the wire protocol is recovered from its encoding, in the same sense. *)
Theorem responses_roundtrip :
  message_roundtrips ProduceResponse_wf ProduceResponse_encode ProduceResponse_decode /\
  message_roundtrips FetchResponse_wf FetchResponse_encode FetchResponse_decode /\
  message_roundtrips ListTopicsResponse_wf ListTopicsResponse_encode ListTopicsResponse_decode /\
  message_roundtrips DescribeTopicResponse_wf DescribeTopicResponse_encode DescribeTopicResponse_decode /\
  message_roundtrips JoinGroupResponse_wf JoinGroupResponse_encode JoinGroupResponse_decode /\
  message_roundtrips FetchOffsetResponse_wf FetchOffsetResponse_encode FetchOffsetResponse_decode /\
  message_roundtrips DescribeGroupResponse_wf DescribeGroupResponse_encode DescribeGroupResponse_decode /\
  message_roundtrips (fun _ => True) CreateTopicResponse_encode CreateTopicResponse_decode /\
  message_roundtrips (fun _ => True) HeartbeatResponse_encode HeartbeatResponse_decode /\
  message_roundtrips (fun _ => True) LeaveGroupResponse_encode LeaveGroupResponse_decode /\
  message_roundtrips (fun _ => True) CommitOffsetResponse_encode CommitOffsetResponse_decode.
Proof. split_and!; message_roundtrip. Qed.

End messages.
