(* ===== verification/MessageRanges.v ===== *)
(** * MessageRanges: which bytes a decoder accepts
    (include/streamforge/BodyReaderWriter.hpp, include/streamforge/ProtocolMessages.hpp)

    A peer may send any bytes.  [consumes r P] states that whatever lies behind the
    cursor, a read by [r] that succeeds has taken some bytes [bs] from there and returned
    a value [v] with [P v bs]; [consumes_all] says the same of a decoder that must reach
    the end of the body.  Both compose along the decoders, and for a message [P] says that
    it is well formed and that [bs] is its layout. *)
From S2P Require Import Prelude StdString Status RecordCodec FrameCodec BodyCodec ProtocolMessages.

Definition consumes {A} (r : reader A) (P : A -> bytes -> Prop) : Prop :=
  forall pre rest v br', r (mkBodyReader (pre ++ rest) (zlen pre)) = Some (v, br') ->
  exists bs rest', rest = bs ++ rest' /\ br' = mkBodyReader (pre ++ rest) (zlen (pre ++ bs)) /\ P v bs.

Definition consumes_all {A} (r : reader A) (P : A -> bytes -> Prop) : Prop :=
  forall pre rest v br', r (mkBodyReader (pre ++ rest) (zlen pre)) = Some (v, br') -> P v rest.

Create HintDb consumes.

Section consumes.
Context {W : Winsock}.

Lemma consumes_ret {A} (a : A) (P : A -> bytes -> Prop) : P a [] -> consumes (mret a) P.
Proof.
  intros HP pre rest v br' E. injection E as <- <-. exists [], rest. by rewrite app_nil_r.
Qed.

Lemma consumes_bind {A B} (r : reader A) (k : A -> reader B) (P : A -> bytes -> Prop) (Q : B -> bytes -> Prop) :
  consumes r P -> (forall a bs, P a bs -> consumes (k a) (fun b bs' => Q b (bs ++ bs'))) -> consumes (r ≫= k) Q.
Proof.
  intros Hr Hk pre rest v br' E. unfold mbind, reader_bind in E. destruct (r _) as [[a br1]|] eqn:E1; [|done].
  destruct (Hr _ _ _ _ E1) as (bs & rest' & -> & -> & Ha). rewrite app_assoc in E.
  destruct (Hk a bs Ha _ _ _ _ E) as (bs' & rest'' & -> & -> & Hb).
  exists (bs ++ bs'), rest''. by rewrite !app_assoc.
Qed.

Lemma consumes_all_bind {A B} (r : reader A) (k : A -> reader B) (P : A -> bytes -> Prop) (Q : B -> bytes -> Prop) :
  consumes r P -> (forall a bs, P a bs -> consumes_all (k a) (fun b bs' => Q b (bs ++ bs'))) ->
  consumes_all (r ≫= k) Q.
Proof.
  intros Hr Hk pre rest v br' E. unfold mbind, reader_bind in E. destruct (r _) as [[a br1]|] eqn:E1; [|done].
  destruct (Hr _ _ _ _ E1) as (bs & rest' & -> & -> & Ha). rewrite app_assoc in E. exact (Hk a bs Ha _ _ _ _ E).
Qed.

Lemma consumes_mono {A} (r : reader A) (P Q : A -> bytes -> Prop) :
  consumes r P -> (forall a bs, P a bs -> Q a bs) -> consumes r Q.
Proof. intros Hr HPQ pre rest v br' E. destruct (Hr _ _ _ _ E) as (bs & rest' & ? & ? & ?). eauto 6. Qed.

Lemma consumes_if {A} (b : bool) (r1 r2 : reader A) P : consumes r1 P -> consumes r2 P -> consumes (if b then r1 else r2) P.
Proof. by destruct b. Qed.

Lemma consumes_all_if {A} (b : bool) (r1 r2 : reader A) P :
  consumes_all r1 P -> consumes_all r2 P -> consumes_all (if b then r1 else r2) P.
Proof. by destruct b. Qed.

Lemma consumes_fail {A} (P : A -> bytes -> Prop) : consumes reader_fail P.
Proof. by intros pre rest v br' E. Qed.

(** [require_empty] lets nothing follow the last field. *)
Lemma consumes_all_finish {A} (a : A) (P : A -> bytes -> Prop) : P a [] -> consumes_all (finish a) P.
Proof.
  intros HP pre rest v br' E. unfold finish, BodyReader_require_empty in E. cbn [m_cursor m_data] in E.
  destruct (Z.eqb_spec (zlen pre) (zlen (pre ++ rest))) as [Hl|]; [|done]. injection E as <- <-.
  rewrite zlen_app in Hl. by replace rest with (@nil byte) by (symmetry; apply nil_length_inv; unfold zlen in Hl; lia).
Qed.

Lemma consumes_require n : consumes (require_remaining n) (fun _ bs => bs = []).
Proof.
  intros pre rest v br' E. unfold require_remaining in E. destruct (_ <? _); [done|]. injection E as <- <-.
  exists [], rest. by rewrite app_nil_r.
Qed.

Lemma consumes_remaining : consumes get_remaining (fun _ bs => bs = []).
Proof. intros pre rest v br' E. injection E as <- <-. exists [], rest. by rewrite app_nil_r. Qed.

(** A number of [n] bytes: the bytes are those its encoding has. *)
Lemma consumes_number n (r : reader Z) :
  (forall v, 0 <= v < 256 ^ Z.of_nat n -> reads r v (be_store n v)) ->
  (forall br, BodyReader_remaining br < Z.of_nat n -> r br = None) ->
  consumes r (fun v bs => 0 <= v < 256 ^ Z.of_nat n /\ bs = be_store n v).
Proof.
  intros Hr Hshort pre rest v br' E.
  destruct (Z.lt_ge_cases (zlen rest) (Z.of_nat n)) as [Hs|Hl]; [rewrite Hshort in E by (by rewrite remaining_at); done|].
  assert (length (take n rest) = n) as Hn by (rewrite length_take; unfold zlen in Hl; lia).
  pose proof (be_load_range (take n rest)) as Hv. unfold zlen in Hv. rewrite Hn in Hv.
  pose proof (be_store_load (take n rest)) as Hb. rewrite Hn in Hb.
  specialize (Hr _ Hv pre (drop n rest)). rewrite Hb, take_drop, E in Hr. injection Hr as -> ->.
  exists (take n rest), (drop n rest). by rewrite take_drop.
Qed.

Ltac short_read := intros br Hbr; case Z.ltb_spec; [done|lia].

Lemma consumes_u8 : consumes BodyReader_read_u8 (fun v bs => is_u8 v /\ bs = u8_bytes v).
Proof.
  eapply consumes_mono; [apply (consumes_number 1)|]; [exact reads_u8|unfold BodyReader_read_u8; short_read|].
  intros a bs [Ha ->]. by split.
Qed.

Lemma consumes_u16 : consumes BodyReader_read_u16 (fun v bs => is_u16 v /\ bs = be_store 2 v).
Proof. apply (consumes_number 2); [exact reads_u16|unfold BodyReader_read_u16; short_read]. Qed.

Lemma consumes_u32 : consumes BodyReader_read_u32 (fun v bs => is_u32 v /\ bs = be_store 4 v).
Proof. apply (consumes_number 4); [exact reads_u32|unfold BodyReader_read_u32; short_read]. Qed.

Lemma consumes_u64 : consumes BodyReader_read_u64 (fun v bs => is_u64 v /\ bs = be_store 8 v).
Proof. apply (consumes_number 8); [exact reads_u64|unfold BodyReader_read_u64; short_read]. Qed.

Lemma consumes_i32 : consumes BodyReader_read_i32 (fun v bs => is_i32 v /\ bs = i32_bytes v).
Proof.
  eapply consumes_bind; [apply consumes_u32|]. intros a bs [Ha ->]. apply consumes_ret.
  split; [apply i32_range|]. unfold i32_bytes. by rewrite u32_i32, app_nil_r.
Qed.

Lemma consumes_i64 : consumes BodyReader_read_i64 (fun v bs => is_i64 v /\ bs = i64_bytes v).
Proof.
  eapply consumes_bind; [apply consumes_u64|]. intros a bs [Ha ->]. apply consumes_ret.
  split; [apply i64_range|]. unfold i64_bytes. by rewrite u64_i64, app_nil_r.
Qed.

Lemma consumes_take n : 0 <= n -> consumes (BodyReader_take n) (fun s bs => zlen s = n /\ bs = s).
Proof.
  intros Hn pre rest v br' E. unfold BodyReader_take in E. rewrite remaining_at, at_cursor_at in E.
  destruct (Z.ltb_spec (zlen rest) n); [done|]. injection E as <- <-.
  assert (zlen (ztake n rest) = n) as Hl by (rewrite zlen_ztake by done; lia).
  exists (ztake n rest), (zdrop n rest). rewrite ztake_zdrop. split_and!; [done| |done|done].
  unfold advance. cbn [m_data m_cursor]. by rewrite zlen_app, Hl.
Qed.

Lemma consumes_string : consumes BodyReader_read_string (fun s bs => is_u16 (zlen s) /\ bs = string_bytes s).
Proof.
  eapply consumes_bind; [apply consumes_u16|]. intros n bs [Hn ->].
  eapply consumes_mono; [apply consumes_take; unfold is_u16 in Hn; lia|]. by intros s bs [<- ->].
Qed.

Lemma consumes_bytes : consumes BodyReader_read_bytes (fun s bs => zlen s <= MAX_FRAME_LENGTH /\ bs = vec_bytes s).
Proof.
  eapply consumes_bind; [apply consumes_u32|]. intros n bs [Hn ->].
  destruct (Z.ltb_spec MAX_FRAME_LENGTH n); [apply consumes_fail|].
  eapply consumes_mono; [apply consumes_take; unfold is_u32 in Hn; lia|]. by intros s bs [<- ->].
Qed.

(** A list with the count that was read before it. *)
Lemma consumes_read_n {A} (r : reader A) (P : A -> Prop) (enc : A -> bytes) n :
  consumes r (fun x bs => P x /\ bs = enc x) ->
  consumes (read_n n r) (fun l bs => Forall P l /\ length l = n /\ bs = concat (enc <$> l)).
Proof.
  intros Hr. induction n as [|n IH]; cbn [read_n]; [by apply consumes_ret|].
  eapply consumes_bind; [exact Hr|]. intros x bs [Hx ->]. eapply consumes_bind; [exact IH|]. intros l bs (Hl & Hn & ->).
  apply consumes_ret. split_and!; [by constructor|cbn; lia|by rewrite app_nil_r].
Qed.

Lemma consumes_counted {A} (r : reader A) (P : A -> Prop) (enc : A -> bytes) n :
  is_u16 n -> consumes r (fun x bs => P x /\ bs = enc x) ->
  consumes (read_n (Z.to_nat n) r) (fun l bs => Forall P l /\ n = zlen l /\ is_u16 (zlen l) /\ bs = concat (enc <$> l)).
Proof.
  intros Hn Hr. eapply consumes_mono; [by apply consumes_read_n|]. intros l bs (Hl & Hlen & ->).
  assert (n = zlen l) as <- by (unfold zlen, is_u16 in *; lia). done.
Qed.

Lemma consumes_strings n : is_u16 n ->
  consumes (read_n (Z.to_nat n) BodyReader_read_string)
    (fun l bs => Forall (fun s => is_u16 (zlen s)) l /\ n = zlen l /\ is_u16 (zlen l) /\ bs = concat (string_bytes <$> l)).
Proof. intros Hn. apply consumes_counted; [done|apply consumes_string]. Qed.

Lemma consumes_body {A} (r : reader A) (P : A -> bytes -> Prop) body v br' :
  consumes_all r P -> r (BodyReader_of body) = Some (v, br') -> P v body.
Proof. intros Hr E. exact (Hr [] body v br' E). Qed.

End consumes.

#[export] Hint Resolve consumes_u8 consumes_u16 consumes_u32 consumes_i32 consumes_u64 consumes_i64 consumes_string
  consumes_bytes consumes_require consumes_remaining consumes_counted consumes_strings : consumes.

(** Through a decoder, field by field. *)
Ltac consumes_steps :=
  repeat first
    [ apply consumes_if
    | apply consumes_all_if
    | eapply consumes_bind; [solve [eauto with consumes]|intros ? ? ?; cbv beta in *; destruct_and?]
    | eapply consumes_all_bind; [solve [eauto with consumes]|intros ? ? ?; cbv beta in *; destruct_and?]
    | progress cbv zeta ];
  first [apply consumes_ret | apply consumes_all_finish].

(** The decoder accepts nothing but what the encoder writes for well-formed messages. *)
Definition accepts_only_encodings {A} (wf : A -> Prop) (encode : A -> BodyWriter -> BodyWriter)
    (decode : reader A) : Prop :=
  forall body m br, decode (BodyReader_of body) = Some (m, br) ->
    wf m /\ body = bw_buffer (encode m empty_writer).

Section messages.
Context {W : Winsock}.

Lemma layout_accepted {A} (wf : A -> Prop) encode decode (layout : A -> bytes) :
  consumes_all decode (fun m bs => wf m /\ bs = layout m) ->
  (forall m w, wf m -> encode m w = BodyWriter_append (layout m) w) ->
  accepts_only_encodings wf encode decode.
Proof.
  intros Hd He body m br E. apply (consumes_body _ _ _ _ _ Hd) in E as [Hm ->]. split; [done|]. by rewrite He.
Qed.

Lemma empty_message_accepted {A} (a : A) decode :
  decode = finish a -> accepts_only_encodings (fun _ => True) (fun (_ : A) w => w) decode.
Proof.
  intros -> body m br E. split; [done|].
  exact (consumes_body _ (fun _ bs => bs = []) _ _ _ (consumes_all_finish a (fun _ bs => bs = []) eq_refl) E).
Qed.

#[local] Arguments be_store : simpl never.
#[local] Arguments string_bytes : simpl never.
#[local] Arguments vec_bytes : simpl never.
#[local] Arguments u8_bytes : simpl never.
#[local] Arguments zlen : simpl never.

Ltac layout := consumes_steps; subst; (split; [by split_and?|cbn; by rewrite ?app_nil_r]).

Lemma consumes_ProduceRecordPayload :
  consumes ProduceRecordPayload_read (fun x bs => ProduceRecordPayload_wf x /\ bs = ProduceRecordPayload_bytes x).
Proof. layout. Qed.
Lemma consumes_FetchRecordWire :
  consumes FetchRecordWire_read (fun x bs => FetchRecordWire_wf x /\ bs = FetchRecordWire_bytes x).
Proof. layout. Qed.
Lemma consumes_TopicInfoWire : consumes TopicInfoWire_read (fun x bs => TopicInfoWire_wf x /\ bs = TopicInfoWire_bytes x).
Proof. layout. Qed.
Lemma consumes_CommitOffsetItemWire :
  consumes CommitOffsetItemWire_read (fun x bs => CommitOffsetItemWire_wf x /\ bs = CommitOffsetItemWire_bytes x).
Proof. layout. Qed.
Lemma consumes_FetchOffsetQueryWire :
  consumes FetchOffsetQueryWire_read (fun x bs => FetchOffsetQueryWire_wf x /\ bs = FetchOffsetQueryWire_bytes x).
Proof. layout. Qed.
Lemma consumes_TopicPartitionWire :
  consumes TopicPartitionWire_read (fun x bs => TopicPartitionWire_wf x /\ bs = TopicPartitionWire_bytes x).
Proof. layout. Qed.
Lemma consumes_OffsetEntryWire :
  consumes OffsetEntryWire_read (fun x bs => OffsetEntryWire_wf x /\ bs = OffsetEntryWire_bytes x).
Proof. layout. Qed.
Hint Resolve consumes_ProduceRecordPayload consumes_FetchRecordWire consumes_TopicInfoWire consumes_CommitOffsetItemWire
  consumes_FetchOffsetQueryWire consumes_TopicPartitionWire consumes_OffsetEntryWire : consumes.

Lemma consumes_MemberDescriptionWire :
  consumes MemberDescriptionWire_read (fun x bs => MemberDescriptionWire_wf x /\ bs = MemberDescriptionWire_bytes x).
Proof. layout. Qed.
Hint Resolve consumes_MemberDescriptionWire : consumes.

Lemma consumes_JoinGroupResponse :
  consumes_all JoinGroupResponse_decode (fun m bs => JoinGroupResponse_wf m /\ bs = JoinGroupResponse_bytes m).
Proof. layout. Qed.

(** DESCRIBE_TOPIC's decoder also takes the two older layouts, without segment counts
    and without the retention fields; what it returns is well formed all the same. *)
Definition partition_read_layout (extended : bool) (x : PartitionOffsetWire) : bytes :=
  be_store 8 (pow_earliest x) ++ be_store 8 (pow_next_offset x) ++
  if extended then be_store 4 (pow_segment_count x) else [].

Lemma consumes_PartitionOffset extended :
  consumes (DescribeTopicResponse_read_partition extended)
    (fun x bs => PartitionOffsetWire_wf x /\ bs = partition_read_layout extended x).
Proof. destruct extended; layout. Qed.
Hint Resolve consumes_PartitionOffset : consumes.

Lemma consumes_DescribeTopicResponse : consumes_all DescribeTopicResponse_decode (fun m _ => DescribeTopicResponse_wf m).
Proof. consumes_steps; unfold DescribeTopicResponse_wf; cbn; by split_and!. Qed.

(** C31: for every request of the protocol, and for every response but DESCRIBE_TOPIC's
    (whose decoder also takes two older layouts), the decoder accepts nothing but
    encodings: when it accepts the bytes of a body, the message it returns is well formed
    and the bytes are exactly those its encoder writes.  So a body that is cut short, has
    bytes left over, announces a longer string, vector or list than it has, or a vector
    above the frame limit is refused, and no two bodies decode to the same message. *)
Theorem decoders_accept_only_encodings :
  accepts_only_encodings CreateTopicRequest_wf CreateTopicRequest_encode CreateTopicRequest_decode /\
  accepts_only_encodings ProduceRequest_wf ProduceRequest_encode ProduceRequest_decode /\
  accepts_only_encodings FetchRequest_wf FetchRequest_encode FetchRequest_decode /\
  accepts_only_encodings DescribeTopicRequest_wf DescribeTopicRequest_encode DescribeTopicRequest_decode /\
  accepts_only_encodings JoinGroupRequest_wf JoinGroupRequest_encode JoinGroupRequest_decode /\
  accepts_only_encodings HeartbeatRequest_wf HeartbeatRequest_encode HeartbeatRequest_decode /\
  accepts_only_encodings LeaveGroupRequest_wf LeaveGroupRequest_encode LeaveGroupRequest_decode /\
  accepts_only_encodings CommitOffsetRequest_wf CommitOffsetRequest_encode CommitOffsetRequest_decode /\
  accepts_only_encodings FetchOffsetRequest_wf FetchOffsetRequest_encode FetchOffsetRequest_decode /\
  accepts_only_encodings DescribeGroupRequest_wf DescribeGroupRequest_encode DescribeGroupRequest_decode /\
  accepts_only_encodings (fun _ => True) ListTopicsRequest_encode ListTopicsRequest_decode /\
  accepts_only_encodings ProduceResponse_wf ProduceResponse_encode ProduceResponse_decode /\
  accepts_only_encodings FetchResponse_wf FetchResponse_encode FetchResponse_decode /\
  accepts_only_encodings ListTopicsResponse_wf ListTopicsResponse_encode ListTopicsResponse_decode /\
  accepts_only_encodings JoinGroupResponse_wf JoinGroupResponse_encode JoinGroupResponse_decode /\
  accepts_only_encodings FetchOffsetResponse_wf FetchOffsetResponse_encode FetchOffsetResponse_decode /\
  accepts_only_encodings DescribeGroupResponse_wf DescribeGroupResponse_encode DescribeGroupResponse_decode /\
  accepts_only_encodings (fun _ => True) CreateTopicResponse_encode CreateTopicResponse_decode /\
  accepts_only_encodings (fun _ => True) HeartbeatResponse_encode HeartbeatResponse_decode /\
  accepts_only_encodings (fun _ => True) LeaveGroupResponse_encode LeaveGroupResponse_decode /\
  accepts_only_encodings (fun _ => True) CommitOffsetResponse_encode CommitOffsetResponse_decode.
Proof.
  split_and!;
    first
      [ by eapply empty_message_accepted
      | eapply layout_accepted; [|first
          [ exact CreateTopicRequest_encode_append | exact ProduceRequest_encode_append | exact FetchRequest_encode_append
          | exact DescribeTopicRequest_encode_append | exact JoinGroupRequest_encode_append
          | exact HeartbeatRequest_encode_append | exact LeaveGroupRequest_encode_append
          | exact CommitOffsetRequest_encode_append | exact FetchOffsetRequest_encode_append
          | exact DescribeGroupRequest_encode_append | exact ProduceResponse_encode_append
          | exact FetchResponse_encode_append | exact ListTopicsResponse_encode_append
          | exact JoinGroupResponse_encode_append | exact FetchOffsetResponse_encode_append
          | exact DescribeGroupResponse_encode_append ]]; layout ].
Qed.
End messages.

(** A JOIN_GROUP body that is accepted: group [g], member [m], 6000 ms, strategy 1 and
    the topics [t] and [u]. *)
Definition demo_join_body : bytes :=
  byte_of_Z <$> [0; 1; 103; 0; 1; 109; 0; 0; 23; 112; 1; 0; 2; 0; 1; 116; 0; 1; 117].
Definition demo_join_request : JoinGroupRequest :=
  mkJoinGroupRequest [byte_of_Z 103] [byte_of_Z 109] 6000 1 2 [[byte_of_Z 116]; [byte_of_Z 117]].

(** It is what the encoder writes; with a byte more or a byte less it is refused. *)
Lemma decoders_accept_only_encodings_witness :
  (JoinGroupRequest_wf demo_join_request /\ demo_join_body = bw_buffer (JoinGroupRequest_encode demo_join_request empty_writer)) /\
  JoinGroupRequest_decode (BodyReader_of (demo_join_body ++ [byte_of_Z 0])) = None /\
  JoinGroupRequest_decode (BodyReader_of (take 18 demo_join_body)) = None.
Proof.
  pose proof decoders_accept_only_encodings as (_ & _ & _ & _ & Hjoin & _).
  split; [|split; vm_compute; reflexivity].
  apply (Hjoin demo_join_body demo_join_request (mkBodyReader demo_join_body 19)). vm_compute. reflexivity.
Defined.
