(* ===== verification/Console.v ===== *)
(** * Console: the command line of the client and what surrounds it
    (the first part of [main] in src/cli_main.cpp)

    [Machine] is what the commands use of the operating system besides the socket:
    connecting, the clock, the flag set by Ctrl-C.  Every law the theorems need is a
    premise of theirs; here any behaviour is allowed.  The variables of [main] that
    options assign are the types [numvar] and [strvar]; [Options] holds their values. *)
From stdpp Require Import functions.
From S2P Require Import Prelude StdString Status RecordCodec FrameCodec BodyCodec ProtocolMessages Client.

Class Machine (S : Type) := {
  machine_socket :: SocketApi S;
  sk_is_valid : S -> bool;
  sk_close : S -> S;
  (** [connect_socket(sock, host, port)]: create a socket, connect it and, when that
      succeeds, put it into [sock]. *)
  connect_socket : bytes -> Z -> S -> bool * S;
  (** The same with a socket of its own ([hold-connections]). *)
  connect_another : bytes -> Z -> S -> bool * S;
  (** [steady_clock::now()], nanoseconds. *)
  steady_now : S -> Z * S;
  (** [g_stop_requested.load()] *)
  stop_requested : S -> bool * S;
  sleep_ms : Z -> S -> S;
  (** The elapsed seconds and the rate for a number of records, as they are printed. *)
  timing_text : Z -> S -> (bytes * bytes) * S;
}.

(** ** Options *)

Inductive numvar :=
| port | partition_arg | size_arg | batch_arg | max_messages_arg | max_bytes_arg | from_offset_arg
| session_timeout_ms_arg | generation_arg | commit_every_arg | max_messages_per_fetch_arg
| process_delay_ms_arg | max_records_arg | idle_exit_ms_arg | crash_after_arg.
Inductive strvar :=
| host | key_arg | key_prefix_arg | member_arg | strategy_arg | partitions_arg | reset_arg.

#[global] Instance numvar_eq_dec : EqDecision numvar.
Proof. solve_decision. Defined.
#[global] Instance strvar_eq_dec : EqDecision strvar.
Proof. solve_decision. Defined.

Record Options := mkOptions {
  num : numvar -> Z;
  text : strvar -> bytes;
  follow_arg : bool;
  command : bytes;
  args : list bytes;
}.

(** The initial values. *)
Definition default_num (x : numvar) : Z :=
  match x with
  | port => 9092
  | partition_arg => -1
  | size_arg | batch_arg | commit_every_arg => 100
  | max_messages_arg | max_messages_per_fetch_arg => 50
  | max_bytes_arg => 1048576
  | session_timeout_ms_arg => 30000
  | generation_arg => 0xFFFFFFFF
  | from_offset_arg | process_delay_ms_arg | max_records_arg | idle_exit_ms_arg | crash_after_arg => 0
  end.
Definition default_text (x : strvar) : bytes :=
  match x with
  | host => str "127.0.0.1"
  | strategy_arg => str "range"
  | reset_arg => str "earliest"
  | _ => []
  end.
Definition default_options : Options := mkOptions default_num default_text false [] [].

Definition set_num (x : numvar) (v : Z) (o : Options) : Options :=
  mkOptions (<[x := v]> (num o)) (text o) (follow_arg o) (command o) (args o).
Definition set_text (x : strvar) (v : bytes) (o : Options) : Options :=
  mkOptions (num o) (<[x := v]> (text o)) (follow_arg o) (command o) (args o).

(** The conversions; [std::stoul] has 32 bits, so that the casts change nothing. *)
Definition to_outcome {A} (bad : outcome A) (v : option A) : outcome A :=
  match v with Some a => Value a | None => bad end.
Definition stoul (s : bytes) : outcome Z := to_outcome Thrown (fst <$> std_stoul s).
Definition stoull (s : bytes) : outcome Z := to_outcome Thrown (fst <$> std_stoull s).
Definition stoi (s : bytes) : outcome Z := to_outcome Thrown (std_stoi s).
Definition atoi (s : bytes) : outcome Z := to_outcome Undefined (std_atoi s).
Definition atoi_u16 (s : bytes) : outcome Z := to_outcome Undefined (u16 <$> std_atoi s).

(** [--idle-exit] takes small numbers as seconds. *)
Definition idle_exit (s : bytes) : outcome Z :=
  to_outcome Thrown ((fun v => if v <=? 120 then u64 (v * 1000) else v) <$> (fst <$> std_stoull s)).

(** What an option with a value assigns. *)
Inductive assignment :=
| ToText (x : strvar)
| ToNum (x : numvar) (conv : bytes -> outcome Z).

Definition value_option (arg : bytes) : option assignment :=
  if bytes_eqb arg (str "--host") then Some (ToText host) else
  if bytes_eqb arg (str "--port") then Some (ToNum port atoi_u16) else
  if bytes_eqb arg (str "--key") then Some (ToText key_arg) else
  if bytes_eqb arg (str "--partition") then Some (ToNum partition_arg atoi) else
  if bytes_eqb arg (str "--key-prefix") then Some (ToText key_prefix_arg) else
  if bytes_eqb arg (str "--size") then Some (ToNum size_arg stoul) else
  if bytes_eqb arg (str "--batch") then Some (ToNum batch_arg stoul) else
  if bytes_eqb arg (str "--max-messages") then Some (ToNum max_messages_arg stoul) else
  if bytes_eqb arg (str "--max-bytes") then Some (ToNum max_bytes_arg stoul) else
  if bytes_eqb arg (str "--from") then Some (ToNum from_offset_arg stoull) else
  if bytes_eqb arg (str "--member") then Some (ToText member_arg) else
  if bytes_eqb arg (str "--session-timeout-ms") then Some (ToNum session_timeout_ms_arg stoul) else
  if bytes_eqb arg (str "--strategy") then Some (ToText strategy_arg) else
  if bytes_eqb arg (str "--generation") then Some (ToNum generation_arg stoul) else
  if bytes_eqb arg (str "--partitions") then Some (ToText partitions_arg) else
  if bytes_eqb arg (str "--commit-every") then Some (ToNum commit_every_arg stoul) else
  if bytes_eqb arg (str "--reset") then Some (ToText reset_arg) else
  if bytes_eqb arg (str "--max-messages-per-fetch") then Some (ToNum max_messages_per_fetch_arg stoul) else
  if bytes_eqb arg (str "--process-delay-ms") then Some (ToNum process_delay_ms_arg stoul) else
  if bytes_eqb arg (str "--max-records") then Some (ToNum max_records_arg stoul) else
  if bytes_eqb arg (str "--idle-exit-ms") then Some (ToNum idle_exit_ms_arg stoull) else
  if bytes_eqb arg (str "--idle-exit") then Some (ToNum idle_exit_ms_arg idle_exit) else
  if bytes_eqb arg (str "--crash-after") then Some (ToNum crash_after_arg stoul) else None.

Definition assign (a : assignment) (v : bytes) (o : Options) : outcome Options :=
  match a with
  | ToText x => Value (set_text x v o)
  | ToNum x conv =>
      match conv v with
      | Value n => Value (set_num x n o)
      | Undefined => Undefined
      | _ => Thrown
      end
  end.

(** The last three branches of the loop. *)
Definition plain_argument (arg : bytes) (o : Options) : Options :=
  if bytes_eqb arg (str "--follow") then mkOptions (num o) (text o) true (command o) (args o) else
  if bytes_eqb (command o) [] && negb (starts_with (str "--") arg)
  then mkOptions (num o) (text o) (follow_arg o) arg (args o)
  else mkOptions (num o) (text o) (follow_arg o) (command o) (args o ++ [arg]).

(** The loop over [argv], from [argv[1]] on.  An exception of a conversion is outside
    the [try] block of [main]. *)
Fixpoint parse_options (argv : list bytes) (o : Options) : outcome Options :=
  match argv with
  | [] => Value o
  | arg :: rest =>
      match value_option arg, rest with
      | Some a, v :: rest =>
          match assign a v o with Value o => parse_options rest o | oc => oc end
      | _, _ => parse_options rest (plain_argument arg o)
      end
  end.

(** ** Operations of the monad *)

Section console.
Context {N : Winsock} {S : Type} {M : Machine S}.

Definition of_outcome {A} (oc : outcome A) : cli S A := fun w => (oc, w).

Definition machine_op {A} (op : S -> A * S) : cli S A := on_machine (fun s => Some (op s)).

Definition connected (o : Options) : cli S bool := machine_op (connect_socket (text o host) (num o port)).
Definition close_socket : cli S unit := machine_op (fun s => (tt, sk_close s)).
Definition socket_valid : cli S bool := machine_op (fun s => (sk_is_valid s, s)).
Definition sleep (ms : Z) : cli S unit := machine_op (fun s => (tt, sleep_ms ms s)).

(** [Frame req{ HEADER_SIZE + static_cast<uint32_t>(body.size()), type, req_id++, body }] *)
Definition request_frame_of (type : Z) (body : bytes) (id : Z) : Frame :=
  mkFrame (u32 (HEADER_SIZE + u32 (zlen body))) type id body.
Definition make_request (type : Z) (body : bytes) : cli S Frame :=
  id ← next_req_id; mret (request_frame_of type body id).

(** A new request, sent, and the response in a new frame. *)
Definition exchange (type : Z) (body : bytes) : cli S (bool * Frame) :=
  req ← make_request type body;
  send_and_receive req empty_Frame.

(** The same without looking at the type of the response. *)
Definition exchange_raw (type : Z) (body : bytes) : cli S (bool * Frame) :=
  req ← make_request type body;
  sent ← send_frame req;
  if negb sent then mret (false, empty_Frame) else read_response_frame empty_Frame.

Fixpoint for_each {A} (l : list A) (f : A -> cli S unit) : cli S unit :=
  match l with
  | [] => mret tt
  | x :: l => _ ← f x; for_each l f
  end.

(** [BodyWriter writer; msg.encode(writer); writer.take_buffer()] *)
Definition encoded {A} (encode : A -> BodyWriter -> BodyWriter) (m : A) : bytes := bw_buffer (encode m empty_writer).

(** [BodyReader reader(resp.body); msg.decode(reader)] *)
Definition decoded {A} (decode : reader A) (resp : Frame) : option A := fst <$> decode (BodyReader_of (body resp)).

End console.

Definition nl : bytes := [Byte.x0a].

(** ** Escaping *)

Definition escape_byte (b : byte) : bytes :=
  if (32 <=? byte_to_Z b) && (byte_to_Z b <=? 126) && negb (byte_to_Z b =? 92) then [b]
  else str "\x" ++ hex2 (byte_to_Z b).

Definition escape_bytes (bs : bytes) : bytes := concat (escape_byte <$> bs).

(** The line of [consume-group]. *)
Definition record_line (topic : bytes) (partition offset : Z) (key value : bytes) : bytes :=
  str "RECORD topic=" ++ topic ++ str " partition=" ++ std_to_string partition ++
  str " offset=" ++ std_to_string offset ++ str " key=" ++ escape_bytes key ++
  str " value=" ++ escape_bytes value ++ nl.

Definition show (o : output) : bytes :=
  match o with
  | Text s => s
  | RecordLine topic partition offset key value => record_line topic partition offset key value
  end.

(** The standard output of a trace. *)
Definition stdout (tr : list event) : bytes :=
  concat (omap (fun e => match e with Printed o => Some (show o) | _ => None end) tr).
