(* ===== verification/ClientCommands.v ===== *)
(** * ClientCommands: the commands of the console client
    (src/cli_main.cpp)

    One definition per branch of [main]; its value is the exit code.  What goes to the
    error stream is not modelled.  Loops without a bound in the source have [fuel]:
    [Blocked] when it is used up. *)
From S2P Require Import Prelude StdString Status RecordCodec FrameCodec BodyCodec ProtocolMessages Client Console.

Definition num_text (n : Z) : bytes := std_to_string n.
Definition none_if_empty (k : bytes) : bytes := if bytes_eqb k [] then str "<none>" else k.

Section commands.
Context {N : Winsock} {S : Type} {M : Machine S}.
Implicit Types (o : Options).

(** ** Tests of the connection *)

Definition cmd_hold_connections o : cli S Z :=
  count ← of_outcome (match args o with [] => Value 10 | a :: _ => stoul a end);
  seconds ← of_outcome (match args o with _ :: a :: _ => stoul a | _ => Value 5 end);
  oks ← mapM (fun _ => machine_op (connect_another (text o host) (num o port))) (seqZ 0 count);
  let connected := zlen (filter (fun b => b = true) oks) in
  _ ← cout (str "Connected " ++ num_text connected ++ str " of " ++ num_text count ++ str " sockets, holding for " ++
            num_text seconds ++ str " seconds..." ++ nl);
  _ ← sleep (seconds * 1000);
  _ ← cout (str "Released " ++ num_text connected ++ str " sockets." ++ nl);
  mret 0.

Definition cmd_stall_frame : cli S Z :=
  sent ← cli_send_all [Byte.x00; Byte.x00];
  if negb sent then mret 1 else
  _ ← cout (str "Sent 2-byte stalled frame header, waiting for server timeout..." ++ nl);
  '(res, _) ← cli_recv_exact 1;
  if bool_decide (res = RecvDisconnected) || bool_decide (res = RecvError) then
    _ ← cout (str "Server closed connection as expected (stall timeout triggered)" ++ nl); mret 0
  else mret 0.

(** The loop of [slow-reader], after [sent_count] requests. *)
Fixpoint slow_reader_loop (fuel : nat) (topic_name : bytes) (partition sent_count : Z) : cli S Z :=
  match fuel with
  | O => blocked
  | Datatypes.S fuel =>
      req ← make_request FETCH (encoded FetchRequest_encode (mkFetchRequest topic_name partition 0 (1024 * 1024) 100));
      sent ← send_frame req;
      if negb sent then
        _ ← cout (str "Connection closed by server after " ++ num_text sent_count ++
                  str " FETCH requests (slow consumer limit enforced)" ++ nl);
        mret 0
      else
        let sent_count := sent_count + 1 in
        _ ← (if sent_count mod 100 =? 0 then sleep 5 else mret tt);
        slow_reader_loop fuel topic_name partition sent_count
  end.

Definition cmd_slow_reader (fuel : nat) o : cli S Z :=
  match args o with
  | topic_name :: p :: _ =>
      partition ← of_outcome (atoi_u16 p);
      _ ← cout (str "Starting slow-reader on " ++ topic_name ++ str " P" ++ num_text partition ++
                str ", sending rapid FETCHes without reading responses..." ++ nl);
      slow_reader_loop fuel topic_name partition 0
  | _ => mret 1
  end.

(** [pipeline]: the requests in one buffer, with their ids, *)
Fixpoint pipeline_requests (count : nat) : cli S (list Z * bytes) :=
  match count with
  | O => mret ([], [])
  | Datatypes.S count =>
      req ← make_request PING [];
      enc ← or_undefined (FrameCodec_encode req);
      '(ids, bs) ← pipeline_requests count;
      mret (request_id req :: ids, enc ++ bs)
  end.

(** and the responses, checked against the ids: true when all are as expected. *)
Fixpoint pipeline_responses (sent_req_ids : list Z) : cli S bool :=
  match sent_req_ids with
  | [] => mret true
  | id :: ids =>
      '(ok, resp) ← read_response_frame empty_Frame;
      if negb ok then mret false else
      if negb (frame_type resp =? PONG) || negb (request_id resp =? id) then mret false else
      pipeline_responses ids
  end.

Definition cmd_pipeline o : cli S Z :=
  count ← of_outcome (match args o with [] => Value 100 | a :: _ => stoul a end);
  _ ← cout (str "Pipelining " ++ num_text count ++ str " PING requests back-to-back..." ++ nl);
  '(sent_req_ids, all_bytes) ← pipeline_requests (Z.to_nat count);
  sent ← cli_send_all all_bytes;
  if negb sent then mret 1 else
  ok ← pipeline_responses sent_req_ids;
  if negb ok then mret 1 else
  _ ← cout (str "SUCCESS: All " ++ num_text count ++
            str " pipelined responses received in strict sequential order with matching request_ids!" ++ nl);
  mret 0.

Definition cmd_shutdown : cli S Z :=
  '(ok, resp) ← exchange SHUTDOWN [];
  if negb ok then _ ← cout (str "Server shutdown acknowledged" ++ nl); mret 0 else
  _ ← cout (str "Server shutdown acknowledged (req_id=" ++ num_text (request_id resp) ++ str ")" ++ nl);
  mret 0.

Definition cmd_ping : cli S Z :=
  '(ok, resp) ← exchange PING [];
  if negb ok then mret 1 else
  if frame_type resp =? PONG then
    _ ← cout (str "PONG received (req_id=" ++ num_text (request_id resp) ++ str ")" ++ nl); mret 0
  else mret 1.

Definition cmd_echo o : cli S Z :=
  let payload := match args o with [] => str "hello" | a :: _ => a end in
  '(ok, resp) ← exchange ECHO payload;
  if negb ok then mret 1 else
  _ ← cout (str "ECHO_REPLY received: " ++ body resp ++ nl);
  mret 0.

(** The request one byte at a time, without a test of the results. *)
Definition cmd_slow_echo o : cli S Z :=
  let payload := match args o with [] => str "slow" | a :: _ => a end in
  req ← make_request ECHO payload;
  encoded ← or_undefined (FrameCodec_encode req);
  _ ← for_each encoded (fun b => _ ← cli_send_all [b]; sleep 20);
  '(ok, resp) ← read_response_frame empty_Frame;
  if negb ok then mret 1 else
  _ ← cout (body resp ++ nl);
  mret 0.

(** ** Tests of the error answers *)

(** [!parse_error_frame(resp, code, err_msg) || code != expected]: the message when the
    response is the error expected. *)
Definition expected_error (resp : Frame) (expected : Z) : option bytes :=
  match FrameCodec_parse_error_frame resp with
  | Some (code, err_msg) => if code =? expected then Some err_msg else None
  | None => None
  end.

Definition cmd_big_frame o : cli S Z :=
  size ← of_outcome (match args o with [] => Value (2 * 1024 * 1024) | a :: _ => stoul a end);
  sent ← cli_send_all (FrameCodec_write_u32 (u32 size));
  if negb sent then mret 1 else
  '(ok, resp) ← read_response_frame empty_Frame;
  if negb ok then mret 1 else
  match expected_error resp FRAME_TOO_LARGE with
  | None => mret 1
  | Some err_msg =>
      _ ← cout (str "BIG-FRAME rejected with ERROR code 2 as expected (" ++ err_msg ++ str ")" ++ nl); mret 0
  end.

Definition cmd_garbage : cli S Z :=
  sent ← cli_send_all (FrameCodec_write_u32 2);
  sent ← (if negb sent then mret false else cli_send_all [Byte.xaa; Byte.xbb]);
  if negb sent then mret 1 else
  '(ok, resp) ← read_response_frame empty_Frame;
  if negb ok then mret 1 else
  match expected_error resp MALFORMED_FRAME with
  | None => mret 1
  | Some err_msg =>
      _ ← cout (str "GARBAGE rejected with ERROR code 3 as expected (" ++ err_msg ++ str ")" ++ nl); mret 0
  end.

(** A key length that exceeds the body. *)
Definition malformed_produce_body : bytes :=
  bw_buffer (BodyWriter_write_u8 65 (BodyWriter_write_u32 10000 (BodyWriter_write_u16 1 (BodyWriter_write_i32 0
    (BodyWriter_write_string (str "orders") empty_writer))))).

Definition cmd_malformed_produce : cli S Z :=
  '(ok, resp) ← exchange_raw PRODUCE malformed_produce_body;
  if negb ok then mret 1 else
  match expected_error resp MALFORMED_BODY with
  | None => mret 1
  | Some _ =>
      id ← next_req_id;
      '(ok, _) ← send_and_receive (mkFrame HEADER_SIZE PING id []) resp;
      if negb ok then mret 1 else
      _ ← cout (str "MALFORMED-PRODUCE received ERROR code 10, subsequent PING succeeded" ++ nl);
      mret 0
  end.

Definition oversized_request (topic_name : bytes) : ProduceRequest :=
  mkProduceRequest topic_name 0 1 [mkProduceRecordPayload [] (replicate (Z.to_nat 1048549) (byte_of_Z 88))].

Definition cmd_produce_oversized o : cli S Z :=
  match args o with
  | [] => mret 1
  | topic_name :: _ =>
      let body := encoded ProduceRequest_encode (oversized_request topic_name) in
      if MAX_FRAME_LENGTH <? HEADER_SIZE + zlen body then mret 1 else
      '(ok, resp) ← exchange_raw PRODUCE body;
      if negb ok then mret 1 else
      if negb (frame_type resp =? MSG_ERROR) then mret 1 else
      match expected_error resp RECORD_TOO_LARGE with
      | None => mret 1
      | Some err_msg =>
          _ ← cout (str "PRODUCE-OVERSIZED rejected with ERROR code 9 as expected (" ++ err_msg ++ str ")" ++ nl);
          mret 0
      end
  end.

Definition cmd_unknown_type : cli S Z :=
  '(ok, resp) ← exchange_raw 0x7E [];
  if negb ok then mret 1 else
  match expected_error resp UNKNOWN_TYPE with
  | None => mret 1
  | Some _ =>
      '(ok, ping_resp) ← exchange_raw PING [];
      if negb ok then mret 1 else
      if negb (frame_type ping_resp =? PONG) then mret 1 else
      _ ← cout (str "UNKNOWN-TYPE received ERROR code 1, subsequent PING succeeded" ++ nl);
      mret 0
  end.

(** ** Topics *)

(** The loop over the arguments of [create-topic]: partitions, retention time, retention
    size, whether one of them was given. *)
Fixpoint create_topic_args (l : list bytes) (p : Z) (ms bs : Z) (has : bool) : outcome (Z * Z * Z * bool) :=
  match l with
  | [] => Value (p, ms, bs, has)
  | a :: rest =>
      let plain :=
        if negb (starts_with (str "--") a) && (p =? 1) then
          match atoi_u16 a with Value p => create_topic_args rest p ms bs has | _ => Undefined end
        else create_topic_args rest p ms bs has in
      match rest with
      | [] => plain
      | v :: rest' =>
          if bytes_eqb a (str "--retention-ms") then
            match stoull v with Value ms => create_topic_args rest' p ms bs true | _ => Thrown end
          else if bytes_eqb a (str "--retention-bytes") then
            match stoull v with Value bs => create_topic_args rest' p ms bs true | _ => Thrown end
          else plain
      end
  end.

Definition cmd_create_topic o : cli S Z :=
  match args o with
  | [] => mret 1
  | topic_name :: rest =>
      '(num_partitions, retention_ms, retention_bytes, has_retention) ←
        of_outcome (create_topic_args rest 1 0 0 false);
      '(ok, _) ← exchange CREATE_TOPIC (encoded CreateTopicRequest_encode
        (mkCreateTopicRequest topic_name num_partitions retention_ms retention_bytes has_retention));
      if negb ok then mret 1 else
      _ ← cout (str "Successfully created topic '" ++ topic_name ++ str "' with " ++ num_text num_partitions ++
                str " partition(s)" ++ nl);
      mret 0
  end.

Definition cmd_topics : cli S Z :=
  '(ok, resp) ← exchange LIST_TOPICS (encoded ListTopicsRequest_encode mkListTopicsRequest);
  if negb ok then mret 1 else
  match decoded ListTopicsResponse_decode resp with
  | None => mret 1
  | Some resp_msg =>
      _ ← cout (str "Topics (" ++ num_text (zlen (lts_topics resp_msg)) ++ str "):" ++ nl);
      _ ← for_each (lts_topics resp_msg) (fun t =>
            cout (str "  - " ++ tiw_name t ++ str " (" ++ num_text (tiw_partitions t) ++ str " partitions)" ++ nl));
      mret 0
  end.

Definition cmd_describe o : cli S Z :=
  match args o with
  | [] => mret 1
  | topic_name :: _ =>
      '(ok, resp) ← exchange DESCRIBE_TOPIC (encoded DescribeTopicRequest_encode (mkDescribeTopicRequest topic_name));
      if negb ok then mret 1 else
      match decoded DescribeTopicResponse_decode resp with
      | None => mret 1
      | Some m =>
          _ ← cout (str "Topic '" ++ dts_name m ++ str "' (" ++ num_text (dts_partitions m) ++ str " partitions");
          _ ← (if (0 <? dts_retention_ms m) || (0 <? dts_retention_bytes m) then
                 cout (str ", retention_ms=" ++ num_text (dts_retention_ms m) ++ str ", retention_bytes=" ++
                       num_text (dts_retention_bytes m))
               else mret tt);
          _ ← (if negb (dts_degraded m =? 0) then cout (str ", status=DEGRADED") else mret tt);
          _ ← cout (str "):" ++ nl);
          _ ← for_each (seqZ 0 (dts_partitions m)) (fun p =>
                off ← or_undefined (dts_partition_offsets m !! Z.to_nat p);
                cout (str "  Partition " ++ num_text p ++ str ": earliest=" ++ num_text (pow_earliest off) ++
                      str ", next_offset=" ++ num_text (pow_next_offset off) ++ str ", segments=" ++
                      num_text (pow_segment_count off) ++ nl));
          mret 0
      end
  end.

(** ** Producing *)

(** The loop over the arguments of [produce]: partition, key and value. *)
Fixpoint produce_args (l : list bytes) (p : Z) (key value : bytes) : outcome (Z * bytes * bytes) :=
  match l with
  | [] => Value (p, key, value)
  | a :: rest =>
      let plain :=
        if bytes_eqb value [] && negb (starts_with (str "--") a) then produce_args rest p key a
        else produce_args rest p key value in
      match rest with
      | [] => plain
      | v :: rest' =>
          if bytes_eqb a (str "--partition") then
            match stoi v with Value p => produce_args rest' p key value | _ => Thrown end
          else if bytes_eqb a (str "--key") then produce_args rest' p v value
          else plain
      end
  end.

Definition cmd_produce o : cli S Z :=
  match args o with
  | [] => mret 1
  | topic_name :: rest =>
      '(partition, key, value) ← of_outcome (produce_args rest (num o partition_arg) (text o key_arg) []);
      '(ok, resp) ← exchange PRODUCE (encoded ProduceRequest_encode
        (mkProduceRequest topic_name partition 1 [mkProduceRecordPayload key value]));
      if negb ok then mret 1 else
      match decoded ProduceResponse_decode resp with
      | None => mret 1
      | Some m =>
          _ ← cout (str "Produced 1 record to topic '" ++ topic_name ++ str "' partition " ++
                    num_text (prs_partition m) ++ str " base_offset=" ++ num_text (prs_base_offset m) ++ nl);
          mret 0
      end
  end.

(** The record with the number [n] of [produce-many]. *)
Definition many_key o (n : Z) : bytes :=
  if negb (bytes_eqb (text o key_prefix_arg) []) then text o key_prefix_arg ++ num_text n
  else if negb (bytes_eqb (text o key_arg) []) then text o key_arg ++ str "_" ++ num_text n
  else [].
Definition many_record o (val_bytes n : Z) : ProduceRecordPayload :=
  mkProduceRecordPayload (many_key o n) (replicate (Z.to_nat val_bytes) (byte_of_Z 88)).
Definition many_request o (topic_name : bytes) (val_bytes produced current_batch_size : Z) : ProduceRequest :=
  mkProduceRequest topic_name (num o partition_arg) (u16 current_batch_size)
    (many_record o val_bytes <$> seqZ produced current_batch_size).

(** [while (produced < total_count)]: false when a request fails. *)
Fixpoint produce_many_loop (fuel : nat) o (topic_name : bytes) (total_count batch_sz val_bytes produced : Z)
    : cli S bool :=
  if produced <? total_count then
    match fuel with
    | O => blocked
    | Datatypes.S fuel =>
        let current_batch_size := Z.min batch_sz (total_count - produced) in
        '(ok, _) ← exchange PRODUCE
          (encoded ProduceRequest_encode (many_request o topic_name val_bytes produced current_batch_size));
        if negb ok then mret false else
        produce_many_loop fuel o topic_name total_count batch_sz val_bytes (produced + current_batch_size)
    end
  else mret true.

Definition cmd_produce_many o : cli S Z :=
  match args o with
  | [] => mret 1
  | topic_name :: rest =>
      total_count ← of_outcome (match rest with a :: _ => stoul a | [] => Value (num o size_arg) end);
      let batch_sz := if 0 <? num o batch_arg then num o batch_arg else 100 in
      let val_bytes := if 0 <? num o size_arg then num o size_arg else 64 in
      ok ← produce_many_loop (Z.to_nat total_count) o topic_name total_count batch_sz val_bytes 0;
      if negb ok then mret 1 else
      '(elapsed_sec, throughput) ← machine_op (timing_text total_count);
      _ ← cout (str "Produced " ++ num_text total_count ++ str " records to '" ++ topic_name ++ str "' in batches of " ++
                num_text batch_sz ++ str " (elapsed: " ++ elapsed_sec ++ str "s, throughput: " ++ throughput ++
                str " records/sec)" ++ nl);
      mret 0
  end.

(** ** Fetching *)

Definition fetch_line (rec : FetchRecordWire) : bytes :=
  str "  [offset " ++ num_text (frw_offset rec) ++ str "] ts=" ++ num_text (frw_timestamp_ms rec) ++ str " key=" ++
  none_if_empty (frw_key rec) ++ str " val=" ++
  (if 50 <? zlen (frw_value rec) then ztake 50 (frw_value rec) ++ str "..." else frw_value rec) ++ nl.

Definition cmd_fetch o : cli S Z :=
  match args o with
  | topic_name :: p :: off :: _ =>
      partition ← of_outcome (atoi_u16 p);
      offset ← of_outcome (stoull off);
      '(ok, resp) ← exchange FETCH (encoded FetchRequest_encode
        (mkFetchRequest topic_name partition offset (num o max_bytes_arg) (num o max_messages_arg)));
      if negb ok then mret 1 else
      match decoded FetchResponse_decode resp with
      | None => mret 1
      | Some m =>
          _ ← cout (str "Fetched " ++ num_text (zlen (frs_records m)) ++ str " records from '" ++ topic_name ++
                    str "' P" ++ num_text partition ++ str " (next_offset=" ++ num_text (frs_next_offset m) ++
                    str ", high_watermark=" ++ num_text (frs_high_watermark m) ++ str ", earliest=" ++
                    num_text (frs_earliest_offset m) ++ str "):" ++ nl);
          _ ← for_each (frs_records m) (fun rec => cout (fetch_line rec));
          mret 0
      end
  | _ => mret 1
  end.

Definition consume_line (rec : FetchRecordWire) : bytes :=
  str "[" ++ num_text (frw_offset rec) ++ str "] key=" ++ none_if_empty (frw_key rec) ++ str " val=" ++
  frw_value rec ++ nl.

(** The loop of [consume]: the exit code. *)
Fixpoint consume_loop (fuel : nat) o (topic_name : bytes) (partition cur_offset : Z) : cli S Z :=
  match fuel with
  | O => blocked
  | Datatypes.S fuel =>
      '(ok, resp) ← exchange FETCH (encoded FetchRequest_encode
        (mkFetchRequest topic_name partition cur_offset (num o max_bytes_arg) (num o max_messages_arg)));
      if negb ok then mret 0 else
      match decoded FetchResponse_decode resp with
      | None => mret 1
      | Some m =>
          _ ← for_each (frs_records m) (fun rec => cout (consume_line rec));
          if negb (bool_decide (frs_records m = [])) then
            consume_loop fuel o topic_name partition (frs_next_offset m)
          else if follow_arg o then
            _ ← sleep 200; consume_loop fuel o topic_name partition cur_offset
          else mret 0
      end
  end.

Definition consume_header o (topic_name : bytes) (partition : Z) : bytes :=
  str "Consuming from topic '" ++ topic_name ++ str "' P" ++ num_text partition ++ str " starting at offset " ++
  num_text (num o from_offset_arg) ++ str " (follow=" ++ (if follow_arg o then str "true" else str "false") ++
  str ")..." ++ nl.

Definition cmd_consume (fuel : nat) o : cli S Z :=
  match args o with
  | topic_name :: p :: _ =>
      partition ← of_outcome (atoi_u16 p);
      _ ← cout (consume_header o topic_name partition);
      consume_loop fuel o topic_name partition (num o from_offset_arg)
  | _ => mret 1
  end.

(** ** Groups *)

Definition strategy_code o : Z := if bytes_eqb (text o strategy_arg) (str "roundrobin") then 1 else 0.

Definition assignment_line (indent : bytes) (a : TopicPartitionWire) : cli S unit :=
  cout (indent ++ str "- " ++ tpw_topic a ++ str ":" ++ num_text (tpw_partition a) ++ nl).

Definition cmd_join_group o : cli S Z :=
  match args o with
  | group_id :: topics_raw :: _ =>
      let topics := filter (fun item => item <> []) (getline_by Byte.x2c [] topics_raw) in
      '(ok, resp) ← exchange JOIN_GROUP (encoded JoinGroupRequest_encode
        (mkJoinGroupRequest group_id (text o member_arg) (num o session_timeout_ms_arg) (strategy_code o)
           (u16 (zlen topics)) topics));
      if negb ok then mret 1 else
      match decoded JoinGroupResponse_decode resp with
      | None => mret 1
      | Some m =>
          _ ← cout (str "Joined group '" ++ group_id ++ str "' successfully:" ++ nl);
          _ ← cout (str "  Member ID: " ++ jgs_member_id m ++ nl);
          _ ← cout (str "  Generation: " ++ num_text (jgs_generation m) ++ nl);
          _ ← cout (str "  Heartbeat interval: " ++ num_text (jgs_heartbeat_interval_ms m) ++ str " ms" ++ nl);
          _ ← cout (str "  Assigned partitions (" ++ num_text (zlen (jgs_assignments m)) ++ str "):" ++ nl);
          _ ← for_each (jgs_assignments m) (assignment_line (str "    "));
          mret 0
      end
  | _ => mret 1
  end.

Definition cmd_heartbeat o : cli S Z :=
  match args o with
  | group_id :: member_id :: g :: _ =>
      gen ← of_outcome (stoul g);
      '(ok, _) ← exchange HEARTBEAT (encoded HeartbeatRequest_encode (mkHeartbeatRequest group_id member_id gen));
      if negb ok then mret 1 else _ ← cout (str "Heartbeat OK" ++ nl); mret 0
  | _ => mret 1
  end.

Definition cmd_leave_group o : cli S Z :=
  match args o with
  | group_id :: member_id :: _ =>
      '(ok, _) ← exchange LEAVE_GROUP (encoded LeaveGroupRequest_encode (mkLeaveGroupRequest group_id member_id));
      if negb ok then mret 1 else _ ← cout (str "Leave group OK" ++ nl); mret 0
  | _ => mret 1
  end.

Definition cmd_commit_offset o : cli S Z :=
  match args o with
  | group_id :: topic_name :: p :: off :: _ =>
      partition ← of_outcome (stoul p);
      offset ← of_outcome (stoull off);
      '(ok, _) ← exchange COMMIT_OFFSET (encoded CommitOffsetRequest_encode
        (mkCommitOffsetRequest group_id (text o member_arg) (num o generation_arg) 1
           [mkCommitOffsetItemWire topic_name (u16 partition) offset]));
      if negb ok then mret 1 else _ ← cout (str "Commit offset OK" ++ nl); mret 0
  | _ => mret 1
  end.

(** [describe] on behalf of another command; [None]: [return 1]. *)
Definition describe_for (topic_name : bytes) : cli S (option DescribeTopicResponse) :=
  '(ok, resp) ← exchange DESCRIBE_TOPIC (encoded DescribeTopicRequest_encode (mkDescribeTopicRequest topic_name));
  mret (if negb ok then None else decoded DescribeTopicResponse_decode resp).

(** The items of [--partitions]. *)
Fixpoint partition_list (items : list bytes) : outcome (list Z) :=
  match items with
  | [] => Value []
  | item :: items =>
      if bytes_eqb item [] then partition_list items else
      match stoul item with
      | Value p => match partition_list items with Value l => Value (u16 p :: l) | oc => oc end
      | _ => Thrown
      end
  end.

Definition cmd_fetch_offsets o : cli S Z :=
  match args o with
  | group_id :: topic_name :: _ =>
      part_list ← (if negb (bytes_eqb (text o partitions_arg) []) then
                     l ← of_outcome (partition_list (getline_by Byte.x2c [] (text o partitions_arg))); mret (Some l)
                   else
                     m ← describe_for topic_name; mret ((fun m => seqZ 0 (dts_partitions m)) <$> m));
      match part_list with
      | None => mret 1
      | Some part_list =>
          '(ok, resp) ← exchange FETCH_OFFSET (encoded FetchOffsetRequest_encode
            (mkFetchOffsetRequest group_id (u16 (zlen part_list)) (mkFetchOffsetQueryWire topic_name <$> part_list)));
          if negb ok then mret 1 else
          match decoded FetchOffsetResponse_decode resp with
          | None => mret 1
          | Some m =>
              _ ← cout (str "Committed offsets for group '" ++ group_id ++ str "' topic '" ++ topic_name ++ str "':" ++ nl);
              _ ← for_each (fos_offsets m) (fun e =>
                    cout (str "  Partition " ++ num_text (oew_partition e) ++ str ": " ++ num_text (oew_offset e) ++ nl));
              mret 0
          end
      end
  | _ => mret 1
  end.

Definition cmd_describe_group o : cli S Z :=
  match args o with
  | [] => mret 1
  | group_id :: _ =>
      '(ok, resp) ← exchange DESCRIBE_GROUP (encoded DescribeGroupRequest_encode (mkDescribeGroupRequest group_id));
      if negb ok then mret 1 else
      match decoded DescribeGroupResponse_decode resp with
      | None => mret 1
      | Some g =>
          _ ← cout (str "Group: " ++ dgs_group_id g ++ nl);
          _ ← cout (str "Generation: " ++ num_text (dgs_generation g) ++ nl);
          _ ← cout (str "State: " ++ dgs_state g ++ nl);
          _ ← cout (str "Strategy: " ++ (if dgs_strategy g =? 0 then str "range" else str "roundrobin") ++ nl);
          _ ← cout (str "Members (" ++ num_text (zlen (dgs_members g)) ++ str "):" ++ nl);
          _ ← for_each (dgs_members g) (fun m =>
                _ ← cout (str "  Member ID: " ++ mdw_member_id m ++ nl);
                _ ← cout (str "    Session timeout: " ++ num_text (mdw_session_timeout_ms m) ++ str " ms" ++ nl);
                _ ← cout (str "    Time since last heartbeat: " ++ num_text (mdw_ms_since_heartbeat m) ++ str " ms" ++ nl);
                _ ← cout (str "    Assigned partitions (" ++ num_text (zlen (mdw_assignment m)) ++ str "):" ++ nl);
                for_each (mdw_assignment m) (assignment_line (str "      ")));
          mret 0
      end
  end.

(** The committed offsets by partition, the last one of a partition counting; -1 without. *)
Definition committed_map (offsets : list OffsetEntryWire) : gmap Z Z :=
  foldl (fun m e => <[oew_partition e := oew_offset e]> m) ∅ offsets.

Definition partition_lag (hw c : Z) : Z :=
  if c <? 0 then hw else if u64 c <=? hw then hw - u64 c else 0.

(** The loop over the partitions: the lines and the sum. *)
Fixpoint lag_loop (m : DescribeTopicResponse) (committed : gmap Z Z) (ps : list Z) (total_lag : Z) : cli S Z :=
  match ps with
  | [] => mret total_lag
  | p :: ps =>
      off ← or_undefined (dts_partition_offsets m !! Z.to_nat p);
      let hw := pow_next_offset off in
      let c := default (-1) (committed !! p) in
      let lag := partition_lag hw c in
      _ ← cout (str "  Partition " ++ num_text p ++ str ": committed=" ++ num_text c ++ str ", high_watermark=" ++
                num_text hw ++ str ", lag=" ++ num_text lag ++ nl);
      lag_loop m committed ps (u64 (total_lag + lag))
  end.

Definition cmd_group_lag o : cli S Z :=
  match args o with
  | group_id :: topic_name :: _ =>
      dt ← describe_for topic_name;
      match dt with
      | None => mret 1
      | Some dt_msg =>
          let ps := seqZ 0 (dts_partitions dt_msg) in
          '(ok, resp) ← exchange FETCH_OFFSET (encoded FetchOffsetRequest_encode
            (mkFetchOffsetRequest group_id (dts_partitions dt_msg) (mkFetchOffsetQueryWire topic_name <$> ps)));
          if negb ok then mret 1 else
          match decoded FetchOffsetResponse_decode resp with
          | None => mret 1
          | Some fo_msg =>
              _ ← cout (str "Group '" ++ group_id ++ str "' lag on topic '" ++ topic_name ++ str "':" ++ nl);
              total_lag ← lag_loop dt_msg (committed_map (fos_offsets fo_msg)) ps 0;
              _ ← cout (str "Total lag: " ++ num_text total_lag ++ nl);
              mret 0
          end
      end
  | _ => mret 1
  end.

End commands.
