(* ===== verification/Latency.v ===== *)
(** * Latency: the statistics of the benchmark (src/bench_main.cpp)

    [compute_latency_stats] on the doubles of IEEE 754: the numbers and the operations
    are those of the Standard Library's [SpecFloat] with the parameters of binary64, so
    that the index of a percentile, which the code computes in floating point, is
    rounded here as it is there.  The main result is that the index is always inside the
    vector, and next to the exact one. *)
From Stdlib Require Import SpecFloat.
From stdpp Require Import sorting.
From S2P Require Import Prelude.

(** ** Doubles *)

Definition double : Type := spec_float.

Definition double_of_Z (n : Z) : double := binary_normalize 53 1024 n 0 false.
Definition dadd : double -> double -> double := SFadd 53 1024.
Definition dmul : double -> double -> double := SFmul 53 1024.
Definition ddiv : double -> double -> double := SFdiv 53 1024.

(** A literal such as 0.95 is the double next to [n / d]. *)
Definition literal (n d : Z) : double := ddiv (double_of_Z n) (double_of_Z d).

(** The integral part of [m * 2^e]. *)
Definition trunc (m e : Z) : Z := if 0 <=? e then m * 2 ^ e else m / 2 ^ (- e).

(** [static_cast<size_t>(x)]: undefined when the value does not fit. *)
Definition to_size_t (x : double) : option Z :=
  match x with
  | S754_zero _ => Some 0
  | S754_finite s m e =>
      let v := trunc (Zpos m) e in
      if s then (if v =? 0 then Some 0 else None) else if v <? 2 ^ 64 then Some v else None
  | _ => None
  end.

(** [std::sort] with [<]. *)
Definition not_greater (x y : double) : Prop := SFltb y x = false.

#[global] Instance not_greater_dec : RelDecision not_greater.
Proof. intros x y. unfold not_greater. apply _. Defined.

Definition std_sort (l : list double) : list double := merge_sort not_greater l.

(** ** The statistics *)

Record LatencyStats := mkLatencyStats {
  ls_count : Z;
  ls_p50 : double;
  ls_p95 : double;
  ls_p99 : double;
  ls_p99_9 : double;
  ls_max_ms : double;
  ls_min_ms : double;
  ls_avg_ms : double;
}.

Definition empty_stats : LatencyStats :=
  let z := S754_zero false in mkLatencyStats 0 z z z z z z z.

(** [get_pct]; no result when the index is outside the vector. *)
Definition get_pct (latencies : list double) (pct : double) : option double :=
  idx ← to_size_t (dmul pct (double_of_Z (zlen latencies - 1)));
  latencies !! Z.to_nat idx.

(** The statistics and the vector, which is sorted in place. *)
Definition compute_latency_stats (latencies : list double) : option (LatencyStats * list double) :=
  if bool_decide (latencies = []) then Some (empty_stats, []) else
  let latencies := std_sort latencies in
  min_ms ← head latencies;
  max_ms ← list.last latencies;
  let sum := foldl dadd (S754_zero false) latencies in
  let avg_ms := ddiv sum (double_of_Z (zlen latencies)) in
  p50 ← get_pct latencies (literal 50 100);
  p95 ← get_pct latencies (literal 95 100);
  p99 ← get_pct latencies (literal 99 100);
  p99_9 ← get_pct latencies (literal 999 1000);
  Some (mkLatencyStats (zlen latencies) p50 p95 p99 p99_9 max_ms min_ms avg_ms, latencies).

(** ** Rounding *)

Lemma shr_1_half r : 0 <= shr_m r -> shr_m (shr_1 r) = shr_m r / 2.
Proof.
  destruct r as [m b c]. cbn. destruct m as [|[p|p|]|]; cbn; try lia; intros _;
    Z.to_euclidean_division_equations; lia.
Qed.

Lemma shr_1_nonneg r : 0 <= shr_m r -> 0 <= shr_m (shr_1 r).
Proof. intros H. rewrite shr_1_half by done. by apply Z.div_pos. Qed.

Lemma iter_shr p : forall r, 0 <= shr_m r ->
  0 <= shr_m (SpecFloat.iter_pos shr_1 p r) /\ shr_m (SpecFloat.iter_pos shr_1 p r) = shr_m r / 2 ^ Zpos p.
Proof.
  induction p as [p IH|p IH|]; intros r Hr; cbn [SpecFloat.iter_pos].
  - destruct (IH (shr_1 r)) as [H1 E1]; [by apply shr_1_nonneg|]. destruct (IH _ H1) as [H2 E2].
    split; [done|]. rewrite E2, E1, shr_1_half by done. rewrite !Z.div_div by lia. f_equal.
    replace (Zpos p~1) with (1 + (Zpos p + Zpos p)) by lia. rewrite !Z.pow_add_r, Z.pow_1_r by lia. ring.
  - destruct (IH r Hr) as [H1 E1]. destruct (IH _ H1) as [H2 E2]. split; [done|].
    rewrite E2, E1, Z.div_div by lia. f_equal. rewrite <- Z.pow_add_r by lia. f_equal. lia.
  - split; [by apply shr_1_nonneg|]. by rewrite shr_1_half.
Qed.

Lemma digits2_range m : 2 ^ (Zpos (digits2_pos m) - 1) <= Zpos m < 2 ^ Zpos (digits2_pos m).
Proof.
  induction m as [m IH|m IH|]; cbn [digits2_pos]; [| |cbn; lia].
  all: rewrite Pos2Z.inj_succ; replace (Z.succ (Zpos (digits2_pos m)) - 1) with (Zpos (digits2_pos m)) by lia.
  all: rewrite Z.pow_succ_r by lia.
  all: replace (2 ^ Zpos (digits2_pos m)) with (2 * 2 ^ (Zpos (digits2_pos m) - 1)) in *
    by (rewrite <- Z.pow_succ_r by lia; f_equal; lia); lia.
Qed.

(** The number of digits is determined by the range. *)
Lemma digits2_unique m d : 2 ^ (d - 1) <= Zpos m < 2 ^ d -> Zpos (digits2_pos m) = d.
Proof.
  intros [H1 H2]. pose proof (digits2_range m) as [H3 H4].
  destruct (Z.lt_trichotomy (Zpos (digits2_pos m)) d) as [H|[H|H]]; [exfalso|done|exfalso].
  - assert (2 ^ Zpos (digits2_pos m) <= 2 ^ (d - 1)) by (apply Z.pow_le_mono_r; lia). lia.
  - assert (2 ^ d <= 2 ^ (Zpos (digits2_pos m) - 1)) by (apply Z.pow_le_mono_r; lia). lia.
Qed.

(** The mantissa that is kept, and the exponent. *)
Lemma shr_fexp_value m e : 0 < m -> - 1074 <= e ->
  let s := Z.max 0 (Zdigits2 m - 53) in
  exists r, shr_fexp 53 1024 m e loc_Exact = (r, e + s) /\ shr_m r = m / 2 ^ s /\
    (s = 0 -> loc_of_shr_record r = loc_Exact).
Proof.
  intros Hm He s. subst s. unfold shr_fexp, fexp, emin. cbn [shr_record_of_loc].
  replace (Z.max (Zdigits2 m + e - 53) (3 - 1024 - 53) - e) with (Z.max (Zdigits2 m - 53) (-1074 - e)) by lia.
  destruct (Z.max (Zdigits2 m - 53) (-1074 - e)) as [|p|p] eqn:E; cbn [shr].
  - replace (Z.max 0 (Zdigits2 m - 53)) with 0 by lia. eexists. split; [f_equal; lia|]. by rewrite Z.div_1_r.
  - replace (Z.max 0 (Zdigits2 m - 53)) with (Zpos p) by lia. eexists. split; [done|].
    split; [|lia]. destruct (iter_shr p {| shr_m := m; shr_r := false; shr_s := false |}) as [_ H]; [cbn; lia|]. exact H.
  - replace (Z.max 0 (Zdigits2 m - 53)) with 0 by lia. eexists. split; [f_equal; lia|]. by rewrite Z.div_1_r.
Qed.

Lemma round_up_one q l : round_nearest_even q l = q \/ round_nearest_even q l = q + 1 /\ l <> loc_Exact.
Proof. destruct l as [|[]]; cbn; [by left| |by left|by right]. destruct (Z.even q); [by left|by right]. Qed.

Lemma digits2_Z m : 0 < m -> 2 ^ (Zdigits2 m - 1) <= m < 2 ^ Zdigits2 m.
Proof. destruct m as [|p|p]; [lia| |lia]. intros _. apply digits2_range. Qed.

Lemma trunc_neg m e : e <= 0 -> trunc m e = m / 2 ^ (- e).
Proof.
  intros He. unfold trunc. destruct (0 <=? e) eqn:E; [|done]. apply Z.leb_le in E.
  replace e with 0 by lia. by rewrite Z.div_1_r, Z.mul_1_r.
Qed.

(** A mantissa of at most 53 digits, or the next power of two, is stored as it is. *)
Lemma round_stored q e : 0 < q <= 2 ^ 53 -> - 1074 <= e <= 0 -> (q = 2 ^ 53 -> e < 0) ->
  exists r s, shr_fexp 53 1024 q e loc_Exact = (r, e + s) /\ 0 < shr_m r /\ e + s <= 0 /\
    trunc (shr_m r) (e + s) = q / 2 ^ (- e).
Proof.
  intros Hq He Hp. destruct (shr_fexp_value q e) as (r & E & Hr & _); [lia|lia|].
  pose proof (digits2_Z q) as Hd. specialize (Hd ltac:(lia)). eexists r, _. split; [exact E|]. rewrite Hr.
  destruct (Z.eq_dec q (2 ^ 53)) as [->|Hne].
  - change (Zdigits2 (2 ^ 53)) with 54. cbn [Z.max Z.sub]. change (Z.max 0 (54 - 53)) with 1.
    specialize (Hp eq_refl). split_and!; [by vm_compute|lia|]. rewrite trunc_neg by lia. rewrite Z.div_div by lia.
    f_equal. rewrite <- Z.pow_add_r by lia. f_equal. lia.
  - assert (Zdigits2 q <= 53).
    { destruct (Z.le_gt_cases (Zdigits2 q) 53); [done|].
      assert (2 ^ 53 <= 2 ^ (Zdigits2 q - 1)) by (apply Z.pow_le_mono_r; lia). lia. }
    replace (Z.max 0 (Zdigits2 q - 53)) with 0 by lia. rewrite Z.pow_0_r, Z.div_1_r. split_and!; [lia|lia|].
    rewrite trunc_neg by lia. f_equal. f_equal. lia.
Qed.

(** Rounding a number below the integer [n] gives at most [n], and an integral part that
    is the exact one or the next. *)
Lemma round_below m e n :
  0 < m -> 0 < n < 2 ^ 53 -> - 1074 <= e < 0 -> m < n * 2 ^ (- e) ->
  exists idx, to_size_t (binary_round_aux 53 1024 false m e loc_Exact) = Some idx /\
    m / 2 ^ (- e) <= idx <= m / 2 ^ (- e) + 1 /\ idx <= n.
Proof.
  intros Hm Hn He Hlt. unfold binary_round_aux. destruct (shr_fexp_value m e Hm ltac:(lia)) as (r & E & Hr & Hex).
  rewrite E, Hr. set (s := Z.max 0 (Zdigits2 m - 53)) in *. set (q := m / 2 ^ s) in *.
  pose proof (digits2_Z m Hm) as Hd.
  assert (s <= - e) as Hs.
  { destruct (Z.le_gt_cases s (- e)) as [H|H]; [done|]. exfalso.
    assert (2 ^ 53 * 2 ^ (- e) <= 2 ^ (Zdigits2 m - 1)).
    { rewrite <- Z.pow_add_r by lia. apply Z.pow_le_mono_r; lia. }
    assert (n * 2 ^ (- e) <= 2 ^ 53 * 2 ^ (- e)) by (apply Z.mul_le_mono_nonneg_r; lia). lia. }
  assert (0 < 2 ^ s) by (apply Z.pow_pos_nonneg; lia).
  assert (2 ^ (- e) = 2 ^ (- (e + s)) * 2 ^ s) as Hsplit by (rewrite <- Z.pow_add_r by lia; f_equal; lia).
  assert (0 < 2 ^ (- (e + s))) by (apply Z.pow_pos_nonneg; lia).
  assert (q < n * 2 ^ (- (e + s))) as Hq.
  { apply Z.div_lt_upper_bound; [done|]. rewrite Hsplit in Hlt. lia. }
  assert (0 < q <= 2 ^ 53 - 1) as Hq53.
  { unfold q. destruct (Z.le_gt_cases (Zdigits2 m) 53) as [H53|H53].
    - replace s with 0 by lia. rewrite Z.pow_0_r, Z.div_1_r.
      assert (2 ^ Zdigits2 m <= 2 ^ 53) by (apply Z.pow_le_mono_r; lia). lia.
    - replace s with (Zdigits2 m - 53) in * by lia. split.
      + apply Z.div_str_pos. split; [lia|]. etrans; [|apply Hd]. apply Z.pow_le_mono_r; lia.
      + apply Z.lt_le_pred, Z.div_lt_upper_bound; [done|]. rewrite <- Z.pow_add_r by lia.
        eapply Z.lt_le_trans; [apply Hd|]. apply Z.pow_le_mono_r; lia. }
  set (q' := round_nearest_even q (loc_of_shr_record r)).
  assert (q <= q' <= q + 1) as Hq'.
  { destruct (round_up_one q (loc_of_shr_record r)) as [H'|[H' _]]; unfold q'; rewrite H'; lia. }
  destruct (round_stored q' (e + s)) as (r2 & s2 & E2 & Hpos & Hle & Ht); [lia|lia| |].
  { intros Hq2. destruct (Z.eq_dec (e + s) 0) as [Hz|]; [|lia]. rewrite Hz in Hq. cbn in Hq. lia. }
  rewrite E2. destruct (shr_m r2) as [|p|p] eqn:Ep; [lia| |lia].
  replace (e + s + s2 <=? 1024 - 53) with true by (symmetry; apply Z.leb_le; lia). cbn [to_size_t]. rewrite Ht.
  assert (q' / 2 ^ (- (e + s)) <= n).
  { rewrite <- (Z.div_mul n (2 ^ (- (e + s)))) by lia. apply Z.div_le_mono; lia. }
  replace (q' / 2 ^ (- (e + s)) <? 2 ^ 64) with true by (symmetry; apply Z.ltb_lt; lia).
  eexists. split; [done|]. split; [|done]. rewrite Hsplit, Z.mul_comm, <- Z.div_div by lia. fold q.
  split; [apply Z.div_le_mono; lia|]. rewrite <- (Z.div_add q 1) by lia. apply Z.div_le_mono; lia.
Qed.

(** ** The index of a percentile *)

Lemma iter_xO m k : Zpos (Pos.iter xO m k) = Zpos m * 2 ^ Zpos k.
Proof.
  induction k as [|k IH] using Pos.peano_ind; [cbn; lia|].
  rewrite Pos.iter_succ, Pos2Z.inj_succ, Z.pow_succ_r by lia. rewrite Pos2Z.inj_xO, IH. lia.
Qed.

Lemma round_exact m e : Zpos (digits2_pos m) <= 53 -> - 1074 <= e <= 971 ->
  binary_round_aux 53 1024 false (Zpos m) e loc_Exact = S754_finite false m e.
Proof.
  intros Hd He. unfold binary_round_aux.
  destruct (shr_fexp_value (Zpos m) e ltac:(lia) ltac:(lia)) as (r & E & Hr & Hex). cbn [Zdigits2] in *.
  replace (Z.max 0 (Zpos (digits2_pos m) - 53)) with 0 in * by lia. rewrite Z.pow_0_r, Z.div_1_r in Hr.
  rewrite E, Hex, Hr by done. cbn [round_nearest_even]. rewrite Z.add_0_r in *. rewrite E, Hr.
  by replace (e <=? 1024 - 53) with true by (symmetry; apply Z.leb_le; lia).
Qed.

(** An integer of at most 53 bits is a double. *)
Lemma double_of_pos n : 0 < n < 2 ^ 53 ->
  exists m e, double_of_Z n = S754_finite false m e /\ Zpos m = n * 2 ^ (- e) /\ -52 <= e <= 0.
Proof.
  destruct n as [|n|n]; [lia| |lia]. intros [_ Hn]. unfold double_of_Z, binary_normalize, binary_round.
  pose proof (digits2_range n) as Hd. rewrite Z.add_0_r.
  assert (Zpos (digits2_pos n) <= 53) as H53.
  { destruct (Z.le_gt_cases (Zpos (digits2_pos n)) 53); [done|].
    assert (2 ^ 53 <= 2 ^ (Zpos (digits2_pos n) - 1)) by (apply Z.pow_le_mono_r; lia). lia. }
  unfold fexp, emin. replace (Z.max (Zpos (digits2_pos n) - 53) (3 - 1024 - 53)) with (Zpos (digits2_pos n) - 53) by lia.
  unfold shl_align. rewrite Z.sub_0_r. destruct (Zpos (digits2_pos n) - 53) as [|k|k] eqn:Ek; [|lia|].
  - exists n, 0. rewrite round_exact by lia. split_and!; [done| |lia|lia]. cbn. lia.
  - exists (Pos.iter xO n k), (Zneg k). split_and!; [|apply iter_xO|lia|lia].
    apply round_exact; [|lia]. apply Z.eq_le_incl, digits2_unique. rewrite iter_xO.
    replace (53 - 1) with (Zpos (digits2_pos n) - 1 + Zpos k) by lia.
    replace 53 with (Zpos (digits2_pos n) + Zpos k) at 1 by lia. rewrite !Z.pow_add_r by lia.
    assert (0 < 2 ^ Zpos k) by (apply Z.pow_pos_nonneg; lia). split; [nia|]. nia.
Qed.

(** [pct * static_cast<double>(n)], for a fraction below one with the exponent -53. *)
Lemma percentile_index p n :
  Zpos p < 2 ^ 53 -> 0 <= n < 2 ^ 53 ->
  exists idx, to_size_t (dmul (S754_finite false p (-53)) (double_of_Z n)) = Some idx /\
    Zpos p * n / 2 ^ 53 <= idx <= Zpos p * n / 2 ^ 53 + 1 /\ 0 <= idx <= n.
Proof.
  intros Hp Hn. destruct (Z.eq_dec n 0) as [->|Hn0].
  { exists 0. split; [done|]. rewrite Z.mul_0_r, Z.div_0_l by lia. lia. }
  destruct (double_of_pos n) as (m & e & E & Hm & He); [lia|]. rewrite E. unfold dmul, SFmul. cbn [xorb].
  assert (0 < 2 ^ (- e)) by (apply Z.pow_pos_nonneg; lia).
  assert (2 ^ (- (-53 + e)) = 2 ^ 53 * 2 ^ (- e)) as Hsp by (rewrite <- Z.pow_add_r by lia; f_equal; lia).
  destruct (round_below (Zpos (p * m)) (-53 + e) n) as (idx & Ei & Hb & Hl); [lia|lia|lia| |].
  { rewrite Hsp, Pos2Z.inj_mul, Hm. nia. }
  exists idx. split; [exact Ei|]. rewrite Hsp, Pos2Z.inj_mul, Hm, Z.mul_assoc, Z.div_mul_cancel_r in Hb by lia.
  split; [done|]. assert (0 <= Zpos p * n / 2 ^ 53) by (apply Z.div_pos; lia). lia.
Qed.

(** The element at the rank num/den of a vector, up to the rounding. *)
Definition ranked (l : list double) (num den : Z) (x : double) : Prop :=
  exists i, l !! Z.to_nat i = Some x /\ 0 <= i < zlen l /\ Z.abs (den * i - num * (zlen l - 1)) < 2 * den.

Lemma get_pct_ranked l num den p :
  literal num den = S754_finite false p (-53) -> Zpos p < 2 ^ 53 -> 0 < den ->
  2 * Z.abs (Zpos p * den - num * 2 ^ 53) <= den -> l <> [] -> zlen l <= 2 ^ 53 ->
  exists x, get_pct l (literal num den) = Some x /\ ranked l num den x.
Proof.
  intros El Hp Hd Hc Hne Hl. unfold get_pct. rewrite El.
  assert (0 < zlen l) by (unfold zlen; destruct l; [done|cbn; lia]).
  destruct (percentile_index p (zlen l - 1) Hp ltac:(lia)) as (idx & -> & Hi & Hr). cbn.
  destruct (lookup_lt_is_Some_2 l (Z.to_nat idx)) as [x Hx]; [unfold zlen in *; lia|].
  exists x. split; [done|]. exists idx. split_and!; [done|lia|lia|].
  set (n := zlen l - 1) in *. assert (0 <= n < 2 ^ 53) by lia.
  assert (2 * Z.abs (Zpos p * n * den - num * n * 2 ^ 53) <= den * n) by nia.
  assert (Zpos p * n - 2 ^ 53 < 2 ^ 53 * (Zpos p * n / 2 ^ 53) <= Zpos p * n).
  { pose proof (Z.mod_pos_bound (Zpos p * n) (2 ^ 53) ltac:(lia)). pose proof (Z.div_mod (Zpos p * n) (2 ^ 53) ltac:(lia)). lia. }
  assert (Z.abs (2 ^ 53 * idx - Zpos p * n) <= 2 ^ 53) by lia.
  assert (Z.abs (2 ^ 53 * (den * idx) - den * (Zpos p * n)) <= den * 2 ^ 53) by nia.
  assert (2 * Z.abs (2 ^ 53 * (den * idx - num * n)) <= den * n + 2 * (den * 2 ^ 53)) by lia.
  assert (den * n < den * 2 ^ 53) by nia. lia.
Qed.

(** ** Sorting *)

(** A duration: zero or positive, and finite. *)
Definition latency (x : double) : bool :=
  match x with S754_zero false | S754_finite false _ _ => true | _ => false end.

Lemma SFltb_asym x y : SFltb x y = true -> SFltb y x = false.
Proof.
  unfold SFltb, SFcompare. destruct x as [[]|[]| |[] m e], y as [[]|[]| |[] m' e']; try done.
  all: rewrite (Z.compare_antisym e e'); change (Pos.compare_cont Eq m' m) with (m' ?= m)%positive;
    change (Pos.compare_cont Eq m m') with (m ?= m')%positive; rewrite (Pos.compare_antisym m m').
  all: destruct (e ?= e'), (m ?= m')%positive; done.
Qed.

#[local] Instance not_greater_total : Total not_greater.
Proof.
  intros x y. unfold not_greater. destruct (SFltb x y) eqn:E; [|by right]. left. by apply SFltb_asym.
Qed.

Lemma not_greater_trans x y z : latency x -> latency y -> latency z ->
  not_greater x y -> not_greater y z -> not_greater x z.
Proof.
  unfold not_greater, SFltb, SFcompare. destruct x as [[]|[]| |[] m e], y as [[]|[]| |[] m' e'], z as [[]|[]| |[] m'' e''];
    try done.
  change (Pos.compare_cont Eq m' m) with (m' ?= m)%positive. change (Pos.compare_cont Eq m'' m') with (m'' ?= m')%positive.
  change (Pos.compare_cont Eq m'' m) with (m'' ?= m)%positive. intros _ _ _.
  destruct (Z.compare_spec e' e), (Pos.compare_spec m' m), (Z.compare_spec e'' e'), (Pos.compare_spec m'' m'),
    (Z.compare_spec e'' e), (Pos.compare_spec m'' m); try done; lia.
Qed.

Lemma latencies_sorted l : Forall latency l -> Sorted not_greater l -> StronglySorted not_greater l.
Proof.
  intros Hf Hs. induction Hs as [|x l Hs IH Hx]; [constructor|]. apply list.Forall_cons in Hf as [Hx0 Hf].
  specialize (IH Hf). constructor; [done|]. destruct Hx as [|y l Hxy]; [constructor|].
  apply list.Forall_cons in Hf as [Hy Hf]. apply StronglySorted_inv in IH as [_ Hy']. constructor; [done|].
  rewrite list.Forall_forall in Hf, Hy' |- *. intros z Hz. by apply (not_greater_trans x y z); auto.
Qed.

Lemma not_greater_refl x : not_greater x x.
Proof. unfold not_greater. destruct (SFltb x x) eqn:E; [|done]. by rewrite (SFltb_asym _ _ E) in E. Qed.

(** The first is the smallest and the last the largest. *)
Lemma sorted_ends l a b : StronglySorted not_greater l -> head l = Some a -> list.last l = Some b ->
  Forall (fun x => not_greater a x /\ not_greater x b) l.
Proof.
  intros Hs Ha Hb. destruct l as [|x l]; [done|]. injection Ha as ->. apply list.Forall_forall. intros y Hy. split.
  - apply StronglySorted_inv in Hs as [_ Hs]. rewrite list.Forall_forall in Hs.
    apply elem_of_cons in Hy as [->|Hy]; [apply not_greater_refl|auto].
  - apply last_Some in Hb as [l' E]. rewrite E in Hs, Hy. apply elem_of_app in Hy as [Hy|Hy].
    + eapply StronglySorted_app_1_elem_of; [exact Hs|done|]. by apply list_elem_of_singleton.
    + apply list_elem_of_singleton in Hy as ->. apply not_greater_refl.
Qed.

(** The four percentiles. *)
Lemma percentiles l : l <> [] -> zlen l <= 2 ^ 53 ->
  (exists x, get_pct l (literal 50 100) = Some x /\ ranked l 50 100 x) /\
  (exists x, get_pct l (literal 95 100) = Some x /\ ranked l 95 100 x) /\
  (exists x, get_pct l (literal 99 100) = Some x /\ ranked l 99 100 x) /\
  (exists x, get_pct l (literal 999 1000) = Some x /\ ranked l 999 1000 x).
Proof.
  intros Hne Hl. split_and!; (eapply get_pct_ranked; [by vm_compute| | | |exact Hne|exact Hl]); by vm_compute.
Qed.

(** C35: the statistics of the benchmark.  For any number of latencies up to 2^53 (durations: not
    negative, not infinite and not NaN), [compute_latency_stats] reads inside its vector
    although it computes the index of a percentile in floating point; the vector is
    sorted, the smallest and the largest latency are reported as they are, and every
    percentile is a latency less than two places from its exact rank. *)
Theorem latency_stats_correct l :
  l <> [] -> zlen l <= 2 ^ 53 -> Forall latency l ->
  exists st sorted, compute_latency_stats l = Some (st, sorted) /\
    sorted ≡ₚ l /\ StronglySorted not_greater sorted /\ ls_count st = zlen l /\
    ls_min_ms st ∈ l /\ ls_max_ms st ∈ l /\
    Forall (fun x => not_greater (ls_min_ms st) x /\ not_greater x (ls_max_ms st)) l /\
    ranked sorted 50 100 (ls_p50 st) /\ ranked sorted 95 100 (ls_p95 st) /\
    ranked sorted 99 100 (ls_p99 st) /\ ranked sorted 999 1000 (ls_p99_9 st).
Proof.
  intros Hne Hl Hlat. unfold compute_latency_stats. rewrite bool_decide_eq_false_2 by done.
  set (sorted := std_sort l). assert (sorted ≡ₚ l) as Hp by apply merge_sort_Permutation.
  assert (zlen sorted = zlen l) as Hz by (unfold zlen; by rewrite Hp).
  assert (sorted <> []) as Hne' by (intros E; rewrite E in Hp; by apply Permutation_nil in Hp).
  assert (StronglySorted not_greater sorted) as Hs.
  { apply latencies_sorted; [by rewrite Hp|]. apply (Sorted_merge_sort not_greater). }
  destruct (head sorted) as [a|] eqn:Ha; [|by destruct sorted].
  destruct (list.last sorted) as [b|] eqn:Hb; [|by apply last_None in Hb].
  destruct (percentiles sorted Hne' ltac:(lia)) as ((p50 & -> & H50) & (p95 & -> & H95) & (p99 & -> & H99) & (p999 & -> & H999)).
  eexists _, _. split; [done|]. cbn [ls_count ls_p50 ls_p95 ls_p99 ls_p99_9 ls_max_ms ls_min_ms].
  split_and!; try done.
  - rewrite <- Hp. by apply head_Some_elem_of.
  - rewrite <- Hp. by apply last_Some_elem_of.
  - rewrite <- Hp. by apply sorted_ends.
Qed.

(** Three latencies of 0.5, 2 and 1 ms. *)
Definition demo_latencies : list double :=
  [literal 1 2; literal 2 1; literal 1 1].

Example latency_stats_correct_witness :
  exists st sorted, compute_latency_stats demo_latencies = Some (st, sorted) /\
    sorted ≡ₚ demo_latencies /\ StronglySorted not_greater sorted /\ ls_count st = zlen demo_latencies /\
    ls_min_ms st ∈ demo_latencies /\ ls_max_ms st ∈ demo_latencies /\
    Forall (fun x => not_greater (ls_min_ms st) x /\ not_greater x (ls_max_ms st)) demo_latencies /\
    ranked sorted 50 100 (ls_p50 st) /\ ranked sorted 95 100 (ls_p95 st) /\
    ranked sorted 99 100 (ls_p99 st) /\ ranked sorted 999 1000 (ls_p99_9 st).
Proof.
  apply (latency_stats_correct demo_latencies).
  - done.
  - by vm_compute.
  - repeat constructor; by vm_compute.
Defined.
