(* ===== verification/BenchRun.v ===== *)
(** * BenchRun: the threads of the benchmark (src/bench_main.cpp)

    What each thread of a scenario does, over any behaviour of the broker, the network, the
    clock and the two flags that the main thread sets ([BenchApi]); how the main thread
    adds the results up; and the output.  A thread is a program in the monad [cli] of
    Client.v with its own socket and its own [req_id].  Threads share nothing but the
    flags and, in the mixed workload, counters that are only added to. *)
From S2P Require Import Prelude StdString Status RecordCodec FrameCodec BodyCodec ProtocolMessages SocketSetup.
From S2P Require Import Client Console Latency.
From Stdlib Require Import SpecFloat.

(** ** System information *)

Record SystemInfo := mkSystemInfo {
  si_cpu_model : bytes;
  si_logical_cores : Z;
  si_ram_bytes : Z;
  si_disk_type : bytes;
}.

(** What the system answers: the name of the processor in the registry as UTF-8, the size
    of the memory, and whether the device of a path has a seek penalty. *)
Record SystemQueries := mkSystemQueries {
  sq_processor_name : option bytes;
  sq_hardware_concurrency : Z;
  sq_total_phys : option Z;
  sq_drive_seek_penalty : option bool;
  sq_volume_seek_penalty : option bool;
}.

Definition blank (b : byte) : bool :=
  bool_decide (b = Byte.x20) || bool_decide (b = Byte.x09) || bool_decide (b = Byte.x0d) || bool_decide (b = Byte.x0a).

Fixpoint drop_blank (s : bytes) : bytes :=
  match s with
  | [] => []
  | c :: s' => if blank c then drop_blank s' else s
  end.

(** From the first to the last character that is not blank; a blank name is kept. *)
Definition trim_name (s : bytes) : bytes :=
  if forallb blank s then s else reverse (drop_blank (reverse (drop_blank s))).

Definition detect_system_info (q : SystemQueries) : SystemInfo :=
  let cpu_model := match sq_processor_name q with Some s => trim_name s | None => str "unknown" end in
  let ram_bytes := default 0 (sq_total_phys q) in
  let disk_type :=
    match sq_drive_seek_penalty q with
    | Some false => str "SSD (Non-rotational / NVMe)"
    | Some true => str "HDD (Rotational)"
    | None => str "unknown"
    end in
  let disk_type :=
    if bytes_eqb disk_type (str "unknown") then
      match sq_volume_seek_penalty q with
      | Some false => str "SSD (Non-rotational)"
      | Some true => str "HDD (Rotational)"
      | None => disk_type
      end
    else disk_type in
  mkSystemInfo cpu_model (sq_hardware_concurrency q) ram_bytes disk_type.

(** ** Output *)

(** [std::fixed << std::setprecision(k) << x]: the exact value, rounded to [k] decimals, ties to
    even. *)
Definition round_div (n d : Z) : Z :=
  let q := n / d in
  match 2 * (n mod d) ?= d with Lt => q | Gt => q + 1 | Eq => if Z.even q then q else q + 1 end.

Definition fixed_digits (k : nat) (n : Z) : bytes :=
  let p := 10 ^ Z.of_nat k in
  std_to_string (n / p) ++
  (if bool_decide (k = 0%nat) then [] else str "." ++ setw_fill0 k (std_to_string (n mod p))).

Definition fixed (k : nat) (x : double) : bytes :=
  let sign (s : bool) := if s then str "-" else [] in
  match x with
  | S754_zero s => sign s ++ fixed_digits k 0
  | S754_finite s m e =>
      let n := Zpos m * 10 ^ Z.of_nat k in
      sign s ++ fixed_digits k (if 0 <=? e then n * 2 ^ e else round_div n (2 ^ (- e)))
  | S754_infinity s => sign s ++ str "inf"
  | S754_nan => str "nan"
  end.

Definition dash_line : bytes := str "---------------------------------------------------------------------" ++ nl.
Definition double_line : bytes := str "=====================================================================" ++ nl.

Definition print_system_info (info : SystemInfo) : bytes :=
  let ram_gb := ddiv (double_of_Z (si_ram_bytes info))
                  (dmul (dmul (double_of_Z 1024) (double_of_Z 1024)) (double_of_Z 1024)) in
  double_line ++ str " StreamForge Performance Benchmark Runner" ++ nl ++ dash_line ++
  str " CPU Model:     " ++ si_cpu_model info ++ nl ++
  str " Logical Cores: " ++ std_to_string (si_logical_cores info) ++ nl ++
  str " Total Memory:  " ++ fixed 2 ram_gb ++ str " GiB" ++ nl ++
  str " Storage Media: " ++ si_disk_type info ++ nl ++ double_line ++ nl.

Definition ms_line (name : bytes) (x : double) : bytes := str "   " ++ name ++ fixed 3 x ++ str " ms" ++ nl.

(** A rate per second; zero when no time has passed. *)
Definition rate (amount duration_sec : double) : double :=
  if SFltb (S754_zero false) duration_sec then ddiv amount duration_sec else S754_zero false.

Definition print_metrics_table (scenario_name : bytes) (total_records total_bytes : Z) (duration_sec : double)
    (stats : LatencyStats) : bytes :=
  let rec_sec := rate (double_of_Z total_records) duration_sec in
  let mb_sec := rate (ddiv (double_of_Z total_bytes) (dmul (double_of_Z 1024) (double_of_Z 1024))) duration_sec in
  nl ++ dash_line ++ str " RESULTS: " ++ scenario_name ++ nl ++ dash_line ++
  str " Total Records:      " ++ std_to_string total_records ++ nl ++
  str " Measurement Time:   " ++ fixed 2 duration_sec ++ str " s" ++ nl ++
  str " Throughput:         " ++ fixed 0 rec_sec ++ str " records/sec" ++ nl ++
  str " Data Rate:          " ++ fixed 2 mb_sec ++ str " MB/sec" ++ nl ++
  str " Latency Percentiles (ms):" ++ nl ++
  ms_line (str "p50:   ") (ls_p50 stats) ++ ms_line (str "p95:   ") (ls_p95 stats) ++
  ms_line (str "p99:   ") (ls_p99 stats) ++ ms_line (str "p99.9: ") (ls_p99_9 stats) ++
  ms_line (str "Max:   ") (ls_max_ms stats) ++ ms_line (str "Min:   ") (ls_min_ms stats) ++
  ms_line (str "Avg:   ") (ls_avg_ms stats) ++ dash_line ++ nl.

(** ** Sockets and frames *)

(** [connect_socket]; it also turns off the delay of small packets. *)
Definition bench_connect_socket {N : Winsock} {S} {A : NetApi S} (sock : Socket) (host : bytes) (port : Z) (s : S)
    : bool * Socket * S :=
  let '(h, s) := ws_socket s in
  if h =? INVALID_SOCKET then (false, sock, s) else
  let s := ws_no_delay h s in
  match inet_pton host with
  | None => (false, sock, ws_closesocket h s)
  | Some addr =>
      let '(res, s) := ws_connect h (mkSockaddr (htons port) addr) s in
      if negb (res =? 0) then (false, sock, ws_closesocket h s)
      else let '((sock, temporary), s) := Socket_assign false sock (mkSocket h) s in
           (true, sock, Socket_destroy temporary s)
  end.

(** What a thread uses besides the socket. *)
Class BenchApi (S : Type) := {
  bench_socket :: SocketApi S;
  (** [connect_socket] on a new socket, which is the one used from then on. *)
  bench_connect : bytes -> Z -> S -> bool * S;
  (** The [i]-th socket is used from now on. *)
  use_socket : nat -> S -> S;
  stop_flag : S -> bool * S;
  measurement_started : S -> bool * S;
  (** [high_resolution_clock::now()] and [steady_clock::now()], nanoseconds. *)
  clock_ns : S -> Z * S;
  (** [system_clock::now()], milliseconds. *)
  system_ms : S -> Z * S;
  bench_sleep : Z -> S -> S;
  (** The owners in a snapshot of all threads of the system. *)
  thread_owners : S -> option (list Z) * S;
}.

Section threads.
Context {N : Winsock} {S : Type} {B : BenchApi S}.

Definition api {A} (op : S -> A * S) : cli S A := on_machine (fun s => Some (op s)).

(** The function of the same name in cli_main.cpp. *)
Definition bench_read_response_frame (out_frame : Frame) : cli S (bool * Frame) := read_response_frame out_frame.

(** An error frame is a response like others here. *)
Definition bench_send_and_receive (req resp : Frame) : cli S (bool * Frame) :=
  sent ← send_frame req;
  if negb sent then mret (false, resp) else bench_read_response_frame resp.

(** [duration<double, std::milli>(t1 - t0).count()] *)
Definition lat_ms (t0 t1 : Z) : double := ddiv (double_of_Z (t1 - t0)) (double_of_Z 1000000).

(** [uint32_t req_id = v] *)
Definition set_req_id (v : Z) : cli S unit := fun w => (Value tt, mkWorld (w_machine w) (u32 v) (w_trace w)).

(** A request and its response, with the time it took. *)
Definition timed_exchange (type : Z) (body : bytes) : cli S (bool * Frame * double) :=
  id ← next_req_id;
  t0 ← api clock_ns;
  '(ok, resp) ← bench_send_and_receive (request_frame_of type body id) empty_Frame;
  t1 ← api clock_ns;
  mret (ok, resp, lat_ms t0 t1).

(** *** Producers *)

Record ThreadResult := mkThreadResult {
  tr_records : Z;
  tr_bytes : Z;
  tr_latencies : list double;
}.

Definition empty_result : ThreadResult := mkThreadResult 0 0 [].

Definition bench_request (topic : bytes) (partition record_size batch_size : Z) : ProduceRequest :=
  mkProduceRequest topic partition (u32 batch_size)
    (replicate (Z.to_nat batch_size) (mkProduceRecordPayload [] (replicate (Z.to_nat record_size) Byte.x42))).

Fixpoint produce_loop (fuel : nat) (body : bytes) (record_size batch_size : Z) (r : ThreadResult) : cli S ThreadResult :=
  match fuel with
  | O => blocked
  | Datatypes.S fuel =>
      stop ← api stop_flag;
      if (stop : bool) then mret r else
      '(ok, resp, lat) ← timed_exchange PRODUCE body;
      if negb ok || negb (frame_type resp =? PRODUCE_OK) then mret r else
      measuring ← api measurement_started;
      produce_loop fuel body record_size batch_size
        (if (measuring : bool) then
           mkThreadResult (u64 (tr_records r + batch_size)) (u64 (tr_bytes r + u64 (batch_size * record_size)))
             (tr_latencies r ++ [lat])
         else r)
  end.

(** Thread [i]; the remainder by zero is undefined. *)
Definition produce_worker (fuel : nat) (host : bytes) (port : Z) (topic : bytes)
    (num_partitions record_size batch_size : Z) (i : Z) : cli S ThreadResult :=
  connected ← api (bench_connect host port);
  if negb connected then mret empty_result else
  _ ← set_req_id (i * 1000000 + 1);
  target_partition ← or_undefined (if num_partitions =? 0 then None else Some (u16 (i mod num_partitions)));
  let body := encoded ProduceRequest_encode (bench_request topic target_partition record_size batch_size) in
  produce_loop fuel body record_size batch_size empty_result.

(** *** The reader *)

Definition fetched_bytes (records : list FetchRecordWire) : Z :=
  foldl (fun n rec => u64 (n + (zlen (frw_key rec) + zlen (frw_value rec)))) 0 records.

Fixpoint fetch_loop (fuel : nat) (topic : bytes) (partition max_bytes max_messages : Z) (cur_offset : Z)
    (r : ThreadResult) : cli S ThreadResult :=
  match fuel with
  | O => blocked
  | Datatypes.S fuel =>
      stop ← api stop_flag;
      if (stop : bool) then mret r else
      let req_msg := mkFetchRequest topic partition cur_offset max_bytes max_messages in
      '(ok, resp, lat) ← timed_exchange FETCH (encoded FetchRequest_encode req_msg);
      if negb ok || negb (frame_type resp =? FETCH_OK) then mret r else
      match decoded FetchResponse_decode resp with
      | None => mret r
      | Some m =>
          if bool_decide (frs_records m = []) then fetch_loop fuel topic partition max_bytes max_messages 0 r else
          measuring ← api measurement_started;
          fetch_loop fuel topic partition max_bytes max_messages (frs_next_offset m)
            (if (measuring : bool) then
               mkThreadResult (u64 (tr_records r + zlen (frs_records m)))
                 (u64 (tr_bytes r + fetched_bytes (frs_records m))) (tr_latencies r ++ [lat])
             else r)
      end
  end.

(** [None] when the connection fails. *)
Definition fetch_worker (fuel : nat) (host : bytes) (port : Z) (topic : bytes)
    (partition max_bytes max_messages : Z) : cli S (option ThreadResult) :=
  connected ← api (bench_connect host port);
  if negb connected then mret None else
  _ ← set_req_id 1;
  r ← fetch_loop fuel topic partition max_bytes max_messages 0 empty_result;
  mret (Some r).

(** *** The mixed workload *)

(** [std::vector<uint8_t> val(100, 'M')] with the time of sending in its first eight bytes. *)
Definition stamped_value (send_time_ms : Z) : bytes := le_store 8 (u64 send_time_ms) ++ replicate 92 Byte.x4d.

Definition mixed_request (topic : bytes) (partition : Z) (send_time_ms : Z) : ProduceRequest :=
  mkProduceRequest topic partition 10 (replicate 10 (mkProduceRecordPayload [] (stamped_value send_time_ms))).

(** What the thread adds to the two counters. *)
Fixpoint mixed_produce_loop (fuel : nat) (topic : bytes) (partition : Z) (records sent_bytes : Z) : cli S (Z * Z) :=
  match fuel with
  | O => blocked
  | Datatypes.S fuel =>
      stop ← api stop_flag;
      if (stop : bool) then mret (records, sent_bytes) else
      send_time_ms ← api system_ms;
      let body := encoded ProduceRequest_encode (mixed_request topic partition send_time_ms) in
      id ← next_req_id;
      '(ok, resp) ← bench_send_and_receive (request_frame_of PRODUCE body id) empty_Frame;
      if negb ok || negb (frame_type resp =? PRODUCE_OK) then mret (records, sent_bytes) else
      measuring ← api measurement_started;
      _ ← api (fun s => (tt, bench_sleep 2 s));
      mixed_produce_loop fuel topic partition (if (measuring : bool) then u64 (records + 10) else records)
        (if (measuring : bool) then u64 (sent_bytes + 10 * 100) else sent_bytes)
  end.

Definition mixed_producer (fuel : nat) (host : bytes) (port : Z) (topic : bytes) (num_partitions : Z) (p : Z)
    : cli S (Z * Z) :=
  connected ← api (bench_connect host port);
  if negb connected then mret (0, 0) else
  _ ← set_req_id (100000 + p * 10000);
  target_part ← or_undefined (if num_partitions =? 0 then None else Some (u16 (p mod num_partitions)));
  mixed_produce_loop fuel topic target_part 0 0.

(** What a consumer keeps: its positions, what it adds to the counters, and the latencies. *)
Record MixedConsumer := mkMixedConsumer {
  mc_positions : gmap Z Z;
  mc_records : Z;
  mc_bytes : Z;
  mc_e2e : list double;
}.

(** The first eight bytes of a value as an [int64_t]. *)
Definition stamp_of (value : bytes) : Z := i64 (le_load (take 8 value)).

(** One measured record.  The subtraction of the times is undefined when it overflows. *)
Definition count_record (recv_time_ms : Z) (rec : FetchRecordWire) (c : MixedConsumer) : cli S MixedConsumer :=
  let records := u64 (mc_records c + 1) in
  let bytes := u64 (mc_bytes c + zlen (frw_value rec)) in
  if zlen (frw_value rec) <? 8 then mret (mkMixedConsumer (mc_positions c) records bytes (mc_e2e c)) else
  let delta := recv_time_ms - stamp_of (frw_value rec) in
  delta ← or_undefined (if (- 2 ^ 63 <=? delta) && (delta <? 2 ^ 63) then Some delta else None);
  let delta_ms := double_of_Z delta in
  mret (mkMixedConsumer (mc_positions c) records bytes
          (if SFleb (S754_zero false) delta_ms && SFltb delta_ms (double_of_Z 10000)
           then mc_e2e c ++ [delta_ms] else mc_e2e c)).

Fixpoint count_records (recv_time_ms : Z) (partition : Z) (records : list FetchRecordWire) (c : MixedConsumer)
    : cli S MixedConsumer :=
  match records with
  | [] => mret c
  | rec :: records =>
      let c := mkMixedConsumer (<[partition := u64 (frw_offset rec + 1)]> (mc_positions c)) (mc_records c)
                 (mc_bytes c) (mc_e2e c) in
      measuring ← api measurement_started;
      c ← (if (measuring : bool) then count_record recv_time_ms rec c else mret c);
      count_records recv_time_ms partition records c
  end.

(** The loop over the assignments; a failure ends the round only. *)
Fixpoint mixed_round (assignments : list TopicPartitionWire) (c : MixedConsumer) : cli S MixedConsumer :=
  match assignments with
  | [] => mret c
  | a :: assignments =>
      let cur_pos := default 0 (mc_positions c !! tpw_partition a) in
      let c := mkMixedConsumer (<[tpw_partition a := cur_pos]> (mc_positions c)) (mc_records c) (mc_bytes c) (mc_e2e c) in
      let freq := mkFetchRequest (tpw_topic a) (tpw_partition a) cur_pos 65536 50 in
      id ← next_req_id;
      '(ok, fresp) ← bench_send_and_receive (request_frame_of FETCH (encoded FetchRequest_encode freq) id) empty_Frame;
      if negb ok || negb (frame_type fresp =? FETCH_OK) then mret c else
      match decoded FetchResponse_decode fresp with
      | None => mret c
      | Some m =>
          if bool_decide (frs_records m = []) then mixed_round assignments c else
          recv_time_ms ← api system_ms;
          c ← count_records recv_time_ms (tpw_partition a) (frs_records m) c;
          mixed_round assignments c
      end
  end.

Fixpoint mixed_consume_loop (fuel : nat) (assignments : list TopicPartitionWire) (c : MixedConsumer)
    : cli S MixedConsumer :=
  match fuel with
  | O => blocked
  | Datatypes.S fuel =>
      stop ← api stop_flag;
      if (stop : bool) then mret c else
      c ← mixed_round assignments c;
      _ ← api (fun s => (tt, bench_sleep 5 s));
      mixed_consume_loop fuel assignments c
  end.

Definition empty_consumer : MixedConsumer := mkMixedConsumer ∅ 0 0 [].

(** The member joins once and keeps the partitions it got; it sends no heartbeat. *)
Definition mixed_consumer (fuel : nat) (host : bytes) (port : Z) (topic group_id : bytes) (c : Z)
    : cli S MixedConsumer :=
  connected ← api (bench_connect host port);
  if negb connected then mret empty_consumer else
  _ ← set_req_id (200000 + c * 10000);
  let jreq := mkJoinGroupRequest group_id [] 10000 0 1 [topic] in
  id ← next_req_id;
  '(ok, jresp) ← bench_send_and_receive (request_frame_of JOIN_GROUP (encoded JoinGroupRequest_encode jreq) id) empty_Frame;
  if negb ok || negb (frame_type jresp =? JOIN_GROUP_OK) then mret empty_consumer else
  match decoded JoinGroupResponse_decode jresp with
  | None => mret empty_consumer
  | Some jmsg =>
      let positions := foldl (fun m a => <[tpw_partition a := 0]> m) ∅ (jgs_assignments jmsg) in
      c ← mixed_consume_loop fuel (jgs_assignments jmsg) (mkMixedConsumer positions 0 0 []);
      let lreq := mkLeaveGroupRequest group_id (jgs_member_id jmsg) in
      id ← next_req_id;
      _ ← bench_send_and_receive (request_frame_of LEAVE_GROUP (encoded LeaveGroupRequest_encode lreq) id) empty_Frame;
      mret c
  end.

(** *** Connection scaling *)

(** Threads of the system that belong to the process. *)
Definition get_server_thread_count_by_pid (pid : Z) : cli S Z :=
  owners ← api thread_owners;
  mret (match owners with
        | None => 0
        | Some l => u32 (zlen (filter (fun p => p = pid) l))
        end).

Fixpoint open_sockets (host : bytes) (port : Z) (n : nat) : cli S bool :=
  match n with
  | O => mret true
  | Datatypes.S n =>
      connected ← api (bench_connect host port);
      if negb connected then mret false else open_sockets host port n
  end.

(** One PING on each socket. *)
Fixpoint ping_round (sockets : list nat) (ping_lats : list double) : cli S (list double) :=
  match sockets with
  | [] => mret ping_lats
  | i :: sockets =>
      _ ← api (fun s => (tt, use_socket i s));
      '(ok, resp, lat) ← timed_exchange PING [];
      ping_round sockets (if ok && (frame_type resp =? PONG) then ping_lats ++ [lat] else ping_lats)
  end.

Fixpoint ping_loop (fuel : nat) (sockets : list nat) (start duration_sec server_pid max_thread_count : Z)
    (ping_lats : list double) : cli S (Z * list double) :=
  match fuel with
  | O => blocked
  | Datatypes.S fuel =>
      now ← api clock_ns;
      if negb (Z.quot (now - start) 1000000000 <? duration_sec) then mret (max_thread_count, ping_lats) else
      max_thread_count ←
        (if 0 <? server_pid then
           cur_t ← get_server_thread_count_by_pid server_pid;
           mret (if max_thread_count <? cur_t then cur_t else max_thread_count)
         else mret max_thread_count);
      ping_lats ← ping_round sockets ping_lats;
      _ ← api (fun s => (tt, bench_sleep 50 s));
      ping_loop fuel sockets start duration_sec server_pid max_thread_count ping_lats
  end.

(** The exit code and the output. *)
Definition run_connection_scaling_bench (fuel : nat) (host : bytes) (port num_connections duration_sec server_pid : Z)
    : cli S (Z * bytes) :=
  let starting := str "Running Connection Scaling Benchmark: " ++ std_to_string num_connections ++
                  str " connections..." ++ nl in
  opened ← open_sockets host port (Z.to_nat num_connections);
  if negb opened then mret (1, starting) else
  _ ← api (fun s => (tt, bench_sleep 400 s));
  max_thread_count ← (if 0 <? server_pid then get_server_thread_count_by_pid server_pid else mret 0);
  start ← api clock_ns;
  _ ← set_req_id 1;
  '(max_thread_count, ping_lats) ← ping_loop fuel (seq 0 (Z.to_nat num_connections)) start duration_sec server_pid
                                     max_thread_count [];
  '(stats, _) ← or_undefined (compute_latency_stats ping_lats);
  mret (0, starting ++ dash_line ++
    str " RESULTS: Connection Scaling (N = " ++ std_to_string num_connections ++ str ")" ++ nl ++ dash_line ++
    str " Connected Sockets:   " ++ std_to_string num_connections ++ nl ++
    (if 0 <? server_pid then str " Server Thread Count: " ++ std_to_string max_thread_count ++ nl else []) ++
    str " PING Latency Percentiles (ms):" ++ nl ++
    ms_line (str "p50:   ") (ls_p50 stats) ++ ms_line (str "p95:   ") (ls_p95 stats) ++
    ms_line (str "p99:   ") (ls_p99 stats) ++ ms_line (str "Max:   ") (ls_max_ms stats) ++
    ms_line (str "Avg:   ") (ls_avg_ms stats) ++ dash_line ++ nl).

End threads.
