(* ===== verification/BenchMain.v ===== *)
(** * BenchMain: the scenarios and the command line of the benchmark (src/bench_main.cpp)

    The main thread of each scenario: it starts the threads of BenchRun.v, sleeps, sets the
    flags, joins them and reports.  [BenchEnv] gives every thread its surroundings; what
    the flags do in time is part of these. *)
From stdpp Require Import functions.
From Stdlib Require Import SpecFloat.
From S2P Require Import Prelude StdString Status RecordCodec FrameCodec BodyCodec ProtocolMessages SocketSetup.
From S2P Require Import Client Console Latency BenchRun.

(** ** Options *)

Inductive bench_num :=
| b_port | b_partitions | b_record_size | b_batch_size | b_connections | b_producers | b_consumers
| b_duration_sec | b_warmup_sec | b_max_bytes | b_max_messages | b_server_pid.
Inductive bench_text := b_host | b_topic | b_group | b_label.

#[global] Instance bench_num_eq_dec : EqDecision bench_num.
Proof. solve_decision. Defined.
#[global] Instance bench_text_eq_dec : EqDecision bench_text.
Proof. solve_decision. Defined.

Record BenchOptions := mkBenchOptions {
  bnum : bench_num -> Z;
  btext : bench_text -> bytes;
}.

Definition bench_default_num (x : bench_num) : Z :=
  match x with
  | b_port => 9092
  | b_partitions | b_connections => 1
  | b_record_size => 100
  | b_batch_size => 50
  | b_producers | b_consumers => 4
  | b_duration_sec => 5
  | b_warmup_sec => 2
  | b_max_bytes => 1048500
  | b_max_messages => 500
  | b_server_pid => 0
  end.
Definition bench_default_text (subcommand : bytes) (x : bench_text) : bytes :=
  match x with
  | b_host => str "127.0.0.1"
  | b_topic => str "bench_topic"
  | b_group => str "bench_cg"
  | b_label => subcommand
  end.
Definition default_bench_options (subcommand : bytes) : BenchOptions :=
  mkBenchOptions bench_default_num (bench_default_text subcommand).

Definition set_bnum (x : bench_num) (v : Z) (o : BenchOptions) : BenchOptions :=
  mkBenchOptions (<[x := v]> (bnum o)) (btext o).
Definition set_btext (x : bench_text) (v : bytes) (o : BenchOptions) : BenchOptions :=
  mkBenchOptions (bnum o) (<[x := v]> (btext o)).

Inductive bench_assignment :=
| BText (x : bench_text)
| BNum (x : bench_num) (conv : bytes -> outcome Z).

Definition bench_option (arg : bytes) : option bench_assignment :=
  if bytes_eqb arg (str "--host") then Some (BText b_host) else
  if bytes_eqb arg (str "--port") then Some (BNum b_port atoi_u16) else
  if bytes_eqb arg (str "--topic") then Some (BText b_topic) else
  if bytes_eqb arg (str "--partitions") then Some (BNum b_partitions atoi_u16) else
  if bytes_eqb arg (str "--record-size") then Some (BNum b_record_size stoull) else
  if bytes_eqb arg (str "--batch-size") then Some (BNum b_batch_size stoull) else
  if bytes_eqb arg (str "--connections") then Some (BNum b_connections stoull) else
  if bytes_eqb arg (str "--producers") then Some (BNum b_producers stoull) else
  if bytes_eqb arg (str "--consumers") then Some (BNum b_consumers stoull) else
  if bytes_eqb arg (str "--group") then Some (BText b_group) else
  if bytes_eqb arg (str "--duration-sec") then Some (BNum b_duration_sec stoul) else
  if bytes_eqb arg (str "--warmup-sec") then Some (BNum b_warmup_sec stoul) else
  if bytes_eqb arg (str "--max-bytes") then Some (BNum b_max_bytes stoul) else
  if bytes_eqb arg (str "--max-messages") then Some (BNum b_max_messages stoul) else
  if bytes_eqb arg (str "--server-pid") then Some (BNum b_server_pid stoul) else
  if bytes_eqb arg (str "--label") then Some (BText b_label) else None.

Definition bench_assign (a : bench_assignment) (v : bytes) (o : BenchOptions) : outcome BenchOptions :=
  match a with
  | BText x => Value (set_btext x v o)
  | BNum x conv => match conv v with Value n => Value (set_bnum x n o) | Undefined => Undefined | _ => Thrown end
  end.

(** The loop over [argv] from its third element on; other arguments are skipped. *)
Fixpoint parse_bench_options (argv : list bytes) (o : BenchOptions) : outcome BenchOptions :=
  match argv with
  | [] => Value o
  | arg :: rest =>
      match bench_option arg, rest with
      | Some a, v :: rest => match bench_assign a v o with Value o => parse_bench_options rest o | oc => oc end
      | _, _ => parse_bench_options rest o
      end
  end.

(** ** The scenarios *)

(** The surroundings of the threads and of the main thread, and the nanoseconds from the
    start of the measurement until the last thread was joined. *)
Record BenchEnv (S : Type) := mkBenchEnv {
  be_worker : nat -> World S;
  be_consumer : nat -> World S;
  be_main : World S;
  be_elapsed_ns : Z;
}.
Arguments mkBenchEnv {S} _ _ _ _.
Arguments be_worker {S} _ _.
Arguments be_consumer {S} _ _.
Arguments be_main {S} _.
Arguments be_elapsed_ns {S} _.

(** Threads that are joined: all results, unless one of them does not return normally (an
    exception that leaves a thread ends the process). *)
Fixpoint join_all {A} (l : list (outcome A)) : outcome (list A) :=
  match l with
  | [] => Value []
  | Value a :: l => match join_all l with Value r => Value (a :: r) | oc => oc end
  | Thrown :: _ => Thrown
  | Exit code :: _ => Exit code
  | Blocked :: _ => Blocked
  | Undefined :: _ => Undefined
  end.

Definition bind_outcome {A C} (m : outcome A) (k : A -> outcome C) : outcome C :=
  match m with
  | Value a => k a
  | Thrown => Thrown
  | Exit code => Exit code
  | Blocked => Blocked
  | Undefined => Undefined
  end.

Definition stats_of (latencies : list double) : outcome LatencyStats :=
  match compute_latency_stats latencies with Some (st, _) => Value st | None => Undefined end.

(** [duration<double>(measure_end - measure_start).count()] *)
Definition seconds (ns : Z) : double := ddiv (double_of_Z ns) (double_of_Z 1000000000).

Section scenarios.
Context {N : Winsock} {S : Type} {B : BenchApi S} (env : BenchEnv S) (fuel : nat).

(** A thread of its own. *)
Definition spawn {A} (w : World S) (m : cli S A) : outcome A := (m w).1.

Definition grand_total (results : list ThreadResult) : ThreadResult :=
  foldl (fun g tr => mkThreadResult (u64 (tr_records g + tr_records tr)) (u64 (tr_bytes g + tr_bytes tr))
                       (tr_latencies g ++ tr_latencies tr)) empty_result results.

Definition run_produce_bench (host : bytes) (port : Z) (topic : bytes)
    (num_partitions record_size batch_size num_connections duration_sec warmup_sec : Z) (label : bytes)
    : outcome (Z * bytes) :=
  let starting := str "Starting Produce Benchmark [" ++ label ++ str "]:" ++ nl ++
    str "  Connections: " ++ std_to_string num_connections ++ str " | Partitions: " ++ std_to_string num_partitions ++
    str " | Record Size: " ++ std_to_string record_size ++ str " B | Batch Size: " ++ std_to_string batch_size ++
    str " | Duration: " ++ std_to_string duration_sec ++ str "s (warmup " ++ std_to_string warmup_sec ++ str "s)..." ++ nl in
  bind_outcome (join_all ((fun i => spawn (be_worker env i)
      (produce_worker fuel host port topic num_partitions record_size batch_size (Z.of_nat i))) <$>
        seq 0 (Z.to_nat num_connections))) (fun results =>
  let total := grand_total results in
  bind_outcome (stats_of (tr_latencies total)) (fun stats =>
  Value (0, starting ++ print_metrics_table label (tr_records total) (tr_bytes total) (seconds (be_elapsed_ns env)) stats))).

Definition run_fetch_bench (host : bytes) (port : Z) (topic : bytes)
    (partition max_bytes max_messages duration_sec warmup_sec : Z) (label : bytes) : outcome (Z * bytes) :=
  let starting := str "Starting Fetch Benchmark [" ++ label ++ str "]:" ++ nl ++
    str "  Topic: " ++ topic ++ str " P" ++ std_to_string partition ++
    str " | Max Bytes: " ++ std_to_string max_bytes ++ str " | Max Messages: " ++ std_to_string max_messages ++
    str " | Duration: " ++ std_to_string duration_sec ++ str "s (warmup " ++ std_to_string warmup_sec ++ str "s)..." ++ nl in
  bind_outcome (spawn (be_worker env 0) (fetch_worker fuel host port topic partition max_bytes max_messages)) (fun r =>
  match r with
  | None => Value (1, starting)
  | Some r =>
      bind_outcome (stats_of (tr_latencies r)) (fun stats =>
      Value (0, starting ++ print_metrics_table label (tr_records r) (tr_bytes r) (seconds (be_elapsed_ns env)) stats))
  end).

Definition run_mixed_bench (host : bytes) (port : Z) (topic : bytes) (num_partitions num_producers num_consumers : Z)
    (group_id : bytes) (duration_sec warmup_sec : Z) : outcome (Z * bytes) :=
  let starting := str "Starting Mixed Workload Benchmark:" ++ nl ++
    str "  Producers: " ++ std_to_string num_producers ++ str " | Consumers: " ++ std_to_string num_consumers ++
    str " | Group: " ++ group_id ++ str " | Topic: " ++ topic ++
    str " | Duration: " ++ std_to_string duration_sec ++ str "s (warmup " ++ std_to_string warmup_sec ++ str "s)..." ++ nl in
  bind_outcome (join_all ((fun p => spawn (be_worker env p)
      (mixed_producer fuel host port topic num_partitions (Z.of_nat p))) <$> seq 0 (Z.to_nat num_producers))) (fun produced =>
  bind_outcome (join_all ((fun c => spawn (be_consumer env c)
      (mixed_consumer fuel host port topic group_id (Z.of_nat c))) <$> seq 0 (Z.to_nat num_consumers))) (fun consumed =>
  let actual_measure_sec := seconds (be_elapsed_ns env) in
  let p_rec := foldl (fun n r => u64 (n + r.1)) 0 produced in
  let c_rec := foldl (fun n c => u64 (n + mc_records c)) 0 consumed in
  let p_rate := rate (double_of_Z p_rec) actual_measure_sec in
  let c_rate := rate (double_of_Z c_rec) actual_measure_sec in
  bind_outcome (stats_of (concat (mc_e2e <$> consumed))) (fun e2e =>
  Value (0, starting ++ nl ++ dash_line ++ str " RESULTS: Mixed Workload (Producers + Consumers)" ++ nl ++ dash_line ++
    str " Producer Rate:      " ++ fixed 0 p_rate ++ str " records/sec (" ++ std_to_string p_rec ++ str " total)" ++ nl ++
    str " Consumer Rate:      " ++ fixed 0 c_rate ++ str " records/sec (" ++ std_to_string c_rec ++ str " total)" ++ nl ++
    str " End-to-End Latency (Produce -> Receive):" ++ nl ++
    ms_line (str "p50:   ") (ls_p50 e2e) ++ ms_line (str "p95:   ") (ls_p95 e2e) ++
    ms_line (str "p99:   ") (ls_p99 e2e) ++ ms_line (str "p99.9: ") (ls_p99_9 e2e) ++
    ms_line (str "Max:   ") (ls_max_ms e2e) ++ ms_line (str "Min:   ") (ls_min_ms e2e) ++
    ms_line (str "Avg:   ") (ls_avg_ms e2e) ++ dash_line ++ nl)))).

(** ** [main] *)

Definition bench_usage : bytes :=
  str "Usage: streamforge_bench <subcommand> [options]" ++ nl ++ nl ++ str "Subcommands:" ++ nl ++
  str "  system-info                                 Print host hardware configuration" ++ nl ++
  str "  produce-throughput [options]                Measure produce throughput & latency" ++ nl ++
  str "  produce-scaling [options]                   Measure multi-connection produce scaling" ++ nl ++
  str "  fetch-throughput [options]                  Measure fetch throughput & batching" ++ nl ++
  str "  mixed-workload [options]                    Measure concurrent producers & consumers" ++ nl ++
  str "  connection-scaling [options]                Measure idle connection scaling & p99 ping" ++ nl ++ nl ++
  str "Options:" ++ nl ++
  str "  --host HOST             Broker IP (default: 127.0.0.1)" ++ nl ++
  str "  --port PORT             Broker port (default: 9092)" ++ nl ++
  str "  --topic TOPIC           Target topic (default: bench_topic)" ++ nl ++
  str "  --partitions N          Number of partitions (default: 1)" ++ nl ++
  str "  --record-size BYTES     Record payload size (default: 100)" ++ nl ++
  str "  --batch-size N          Batch produce count (default: 50)" ++ nl ++
  str "  --connections N         Concurrent client connections (default: 1)" ++ nl ++
  str "  --producers N           Producer count in mixed workload (default: 4)" ++ nl ++
  str "  --consumers N           Consumer count in mixed workload (default: 4)" ++ nl ++
  str "  --group ID              Consumer group ID (default: bench_cg)" ++ nl ++
  str "  --duration-sec N        Measurement duration in seconds (default: 5)" ++ nl ++
  str "  --warmup-sec N          Warmup duration in seconds (default: 2)" ++ nl ++
  str "  --server-pid PID        Server PID for thread inspection" ++ nl.

Definition bench_command (subcommand : bytes) (o : BenchOptions) : outcome (Z * bytes) :=
  let host := btext o b_host in
  let port := bnum o b_port in
  let topic := btext o b_topic in
  let duration_sec := bnum o b_duration_sec in
  let warmup_sec := bnum o b_warmup_sec in
  if bytes_eqb subcommand (str "system-info") then Value (0, []) else
  if bytes_eqb subcommand (str "produce-throughput") || bytes_eqb subcommand (str "produce-scaling") then
    run_produce_bench host port topic (bnum o b_partitions) (bnum o b_record_size) (bnum o b_batch_size)
      (bnum o b_connections) duration_sec warmup_sec (btext o b_label) else
  if bytes_eqb subcommand (str "fetch-throughput") then
    run_fetch_bench host port topic 0 (bnum o b_max_bytes) (bnum o b_max_messages) duration_sec warmup_sec
      (btext o b_label) else
  if bytes_eqb subcommand (str "mixed-workload") then
    run_mixed_bench host port topic (bnum o b_partitions) (bnum o b_producers) (bnum o b_consumers)
      (btext o b_group) duration_sec warmup_sec else
  if bytes_eqb subcommand (str "connection-scaling") then
    spawn (be_main env) (run_connection_scaling_bench fuel host port (bnum o b_connections) duration_sec
      (bnum o b_server_pid))
  else Value (1, []).

(** The exit code and the standard output; [argv] without the name of the program.  The
    constructor of [WinsockRuntime] throws when Winsock is not there. *)
Definition bench_main (q : SystemQueries) (winsock : bool) (argv : list bytes) : outcome (Z * bytes) :=
  if negb winsock then Thrown else
  match argv with
  | [] => Value (1, print_system_info (detect_system_info q) ++ bench_usage)
  | subcommand :: argv =>
      bind_outcome (parse_bench_options argv (default_bench_options subcommand)) (fun o =>
      bind_outcome (bench_command subcommand o) (fun '(code, out) =>
      Value (code, print_system_info (detect_system_info q) ++ out)))
  end.

End scenarios.
