(* ===== verification/GroupConsumer.v ===== *)
(** * GroupConsumer: the consumer of a group
    (the command [consume-group] of src/cli_main.cpp)

    The variables the lambdas of the command capture are the record [Consumer]; each
    lambda and each loop body is a function on it.  The two [std::map]s are finite maps;
    a commit goes through them in ascending order ([ascending]).  Clocks are in
    nanoseconds.

    [committed_records_printed] is what the command promises its user: no offset is ever
    committed before all the records up to it are printed. *)
From S2P Require Import Prelude StdString Status RecordCodec FrameCodec BodyCodec ProtocolMessages Client Console.
From S2P Require Import ClientCommands.

Record Consumer := mkConsumer {
  member_id : bytes;
  generation : Z;                         (* uint32_t *)
  heartbeat_interval_ms : Z;              (* uint32_t *)
  assignments : list TopicPartitionWire;
  partition_positions : gmap Z Z;         (* uint16_t -> uint64_t *)
  uncommitted_offsets : gmap Z Z;
  records_since_commit : Z;               (* size_t *)
  total_records_processed : Z;            (* size_t *)
  last_heartbeat_time : Z;
  last_record_time : Z;
}.

(** Assignments. *)
Definition set_membership (m : JoinGroupResponse) (c : Consumer) : Consumer :=
  mkConsumer (jgs_member_id m) (jgs_generation m) (jgs_heartbeat_interval_ms m) (jgs_assignments m) ∅ ∅ 0
    (total_records_processed c) (last_heartbeat_time c) (last_record_time c).
Definition clear_member_id (c : Consumer) : Consumer :=
  mkConsumer [] (generation c) (heartbeat_interval_ms c) (assignments c) (partition_positions c)
    (uncommitted_offsets c) (records_since_commit c) (total_records_processed c) (last_heartbeat_time c)
    (last_record_time c).
Definition set_progress (positions uncommitted : gmap Z Z) (since total : Z) (c : Consumer) : Consumer :=
  mkConsumer (member_id c) (generation c) (heartbeat_interval_ms c) (assignments c) positions uncommitted since total
    (last_heartbeat_time c) (last_record_time c).
Definition set_times (heartbeat record : Z) (c : Consumer) : Consumer :=
  mkConsumer (member_id c) (generation c) (heartbeat_interval_ms c) (assignments c) (partition_positions c)
    (uncommitted_offsets c) (records_since_commit c) (total_records_processed c) heartbeat record.
Definition set_position (p v : Z) (c : Consumer) : Consumer :=
  set_progress (<[p := v]> (partition_positions c)) (uncommitted_offsets c) (records_since_commit c)
    (total_records_processed c) c.

(** [partition_positions[p]], which enters a zero for a new key. *)
Definition position (p : Z) (c : Consumer) : Z := default 0 (partition_positions c !! p).
Definition read_position (p : Z) (c : Consumer) : Consumer := set_position p (position p c) c.

(** The entries of a [std::map] in its order. *)
Definition key_le (a b : Z * Z) : Prop := a.1 <= b.1.
#[global] Instance key_le_dec : RelDecision key_le.
Proof. intros a b. unfold key_le. apply _. Defined.
Definition ascending (m : gmap Z Z) : list (Z * Z) := merge_sort key_le (map_to_list m).

(** The code of an error frame; [parse_error_frame] leaves 0 when it fails. *)
Definition error_code (resp : Frame) : Z := from_option fst 0 (FrameCodec_parse_error_frame resp).

(** [duration_cast<milliseconds>] *)
Definition to_ms (ns : Z) : Z := Z.quot ns 1000000.

Section consumer.
Context {N : Winsock} {S : Type} {M : Machine S}.
Context (o : Options) (group_id topic_name : bytes).

Definition limit_reached (limit n : Z) : bool := (0 <? limit) && (limit <=? n).

(** Up to [n] attempts to connect. *)
Fixpoint reconnect (n : nat) : cli S unit :=
  match n with
  | O => mret tt
  | Datatypes.S n => ok ← connected o; if (ok : bool) then mret tt else _ ← sleep 200; reconnect n
  end.

Definition join_request (member : bytes) : JoinGroupRequest :=
  mkJoinGroupRequest group_id member (num o session_timeout_ms_arg) (strategy_code o) 1 [topic_name].

(** The first part of [do_join]: the response to JOIN_GROUP, [None] for [return false]. *)
Definition join_response (c : Consumer) : cli S (option Frame * Consumer) :=
  valid ← socket_valid;
  valid ← (if negb valid then _ ← reconnect 25; socket_valid else mret true);
  if negb valid then mret (None, c) else
  req ← make_request JOIN_GROUP (encoded JoinGroupRequest_encode (join_request (member_id c)));
  '(ok, resp) ← send_and_receive req empty_Frame;
  if (ok : bool) then mret (Some resp, c) else
  valid ← socket_valid;
  resp ← (if negb valid then
            _ ← reconnect 25;
            valid ← socket_valid;
            if (valid : bool) then
              id ← next_req_id;
              '(_, resp) ← send_and_receive (mkFrame (frame_length req) JOIN_GROUP id (body req)) resp;
              mret resp
            else mret resp
          else mret resp);
  if negb (frame_type resp =? MSG_ERROR) then mret (None, c) else
  if negb (error_code resp =? UNKNOWN_GROUP_OR_MEMBER) then mret (None, c) else
  let c := clear_member_id c in
  req ← make_request JOIN_GROUP (encoded JoinGroupRequest_encode (join_request []));
  '(ok, resp) ← send_and_receive req resp;
  mret (if (ok : bool) then Some resp else None, c).

(** Where to start in a partition without a committed offset. *)
Definition reset_position (p : Z) : cli S Z :=
  dt ← describe_for topic_name;
  mret (match dt with
        | Some m =>
            match dts_partition_offsets m !! Z.to_nat p with
            | Some off => if bytes_eqb (text o reset_arg) (str "latest") then pow_next_offset off else pow_earliest off
            | None => 0
            end
        | None => 0
        end).

(** The loop over the committed offsets. *)
Fixpoint start_positions (offsets : list OffsetEntryWire) (c : Consumer) : cli S Consumer :=
  match offsets with
  | [] => mret c
  | off_item :: offsets =>
      v ← (if 0 <=? oew_offset off_item then mret (u64 (oew_offset off_item))
           else reset_position (oew_partition off_item));
      start_positions offsets (set_position (oew_partition off_item) v c)
  end.

(** The positions of the assigned partitions; false for [return false]. *)
Definition fetch_positions (c : Consumer) : cli S (bool * Consumer) :=
  if bool_decide (assignments c = []) then mret (true, c) else
  '(ok, resp) ← exchange FETCH_OFFSET (encoded FetchOffsetRequest_encode
    (mkFetchOffsetRequest group_id (u16 (zlen (assignments c)))
       ((fun a => mkFetchOffsetQueryWire (tpw_topic a) (tpw_partition a)) <$> assignments c)));
  if negb ok then mret (false, c) else
  match decoded FetchOffsetResponse_decode resp with
  | None => mret (false, c)
  | Some m => c ← start_positions (fos_offsets m) c; mret (true, c)
  end.

Definition do_join (c : Consumer) : cli S (bool * Consumer) :=
  '(resp, c) ← join_response c;
  match resp with
  | None => mret (false, c)
  | Some resp =>
      match decoded JoinGroupResponse_decode resp with
      | None => mret (false, c)
      | Some m =>
          '(ok, c) ← fetch_positions (set_membership m c);
          if negb ok then mret (false, c) else
          t1 ← machine_op steady_now;
          t2 ← machine_op steady_now;
          mret (true, set_times t1 t2 c)
      end
  end.

Definition commit_request (c : Consumer) : CommitOffsetRequest :=
  let entries := (fun e => mkCommitOffsetItemWire topic_name e.1 e.2) <$> ascending (uncommitted_offsets c) in
  mkCommitOffsetRequest group_id (member_id c) (generation c) (u16 (zlen entries)) entries.

(** What the two lambdas make of a failed exchange. *)
Definition group_error (resp : Frame) : Z :=
  if (error_code resp =? ILLEGAL_GENERATION) || (error_code resp =? UNKNOWN_GROUP_OR_MEMBER) then 15 else -1.

Definition do_commit (c : Consumer) : cli S (Z * Consumer) :=
  if bool_decide (uncommitted_offsets c = ∅) then mret (0, c) else
  '(ok, resp) ← exchange_raw COMMIT_OFFSET (encoded CommitOffsetRequest_encode (commit_request c));
  if negb ok then _ ← close_socket; mret (15, c) else
  if frame_type resp =? MSG_ERROR then mret (group_error resp, c) else
  mret (0, set_progress (partition_positions c) ∅ 0 (total_records_processed c) c).

Definition do_heartbeat (c : Consumer) : cli S (Z * Consumer) :=
  '(ok, resp) ← exchange_raw HEARTBEAT
    (encoded HeartbeatRequest_encode (mkHeartbeatRequest group_id (member_id c) (generation c)));
  if negb ok then _ ← close_socket; mret (15, c) else
  if frame_type resp =? MSG_ERROR then mret (group_error resp, c) else
  now ← machine_op steady_now;
  mret (0, set_times now (last_record_time c) c).

(** ** The main loop *)

(** The loop over the records of a response. *)
Fixpoint process_records (a : TopicPartitionWire) (records : list FetchRecordWire) (c : Consumer) : cli S Consumer :=
  match records with
  | [] => mret c
  | rec :: records =>
      _ ← print (RecordLine (tpw_topic a) (tpw_partition a) (frw_offset rec) (frw_key rec) (frw_value rec));
      let next := u64 (frw_offset rec + 1) in
      let total := u64 (total_records_processed c + 1) in
      let c := set_progress (<[tpw_partition a := next]> (partition_positions c))
                 (<[tpw_partition a := next]> (uncommitted_offsets c)) (u64 (records_since_commit c + 1)) total c in
      if limit_reached (num o crash_after_arg) total then exit_process 0 else
      if limit_reached (num o max_records_arg) total then mret c else
      _ ← (if 0 <? num o process_delay_ms_arg then sleep (num o process_delay_ms_arg) else mret tt);
      process_records a records c
  end.

(** How a round of the loop over the assignments ends. *)
Inductive flow := Continue | Break.

(** After [OFFSET_OUT_OF_RANGE]: the consumer when the position was reset. *)
Definition reset_out_of_range (a : TopicPartitionWire) (c : Consumer) : cli S (option Consumer) :=
  dt ← describe_for (tpw_topic a);
  mret (match dt with
        | Some m =>
            match dts_partition_offsets m !! Z.to_nat (tpw_partition a) with
            | Some off => Some (set_progress (<[tpw_partition a := pow_earliest off]> (partition_positions c))
                                 (<[tpw_partition a := pow_earliest off]> (uncommitted_offsets c))
                                 (records_since_commit c) (total_records_processed c) c)
            | None => None
            end
        | None => None
        end).

(** The end of a round: the limit on the number of records. *)
Definition end_of_round (c : Consumer) (any : bool) : cli S (flow * Consumer * bool) :=
  mret (if limit_reached (num o max_records_arg) (total_records_processed c) then Break else Continue, c, any).

(** [do_join(true); break;] *)
Definition rejoin (c : Consumer) (any : bool) : cli S (flow * Consumer * bool) :=
  '(_, c) ← do_join c; mret (Break, c, any).

(** A response with records. *)
Definition handle_records (a : TopicPartitionWire) (records : list FetchRecordWire) (c : Consumer)
    : cli S (flow * Consumer * bool) :=
  now ← machine_op steady_now;
  c ← process_records a records (set_times (last_heartbeat_time c) now c);
  if num o commit_every_arg <=? records_since_commit c then
    '(cr, c) ← do_commit c;
    if cr =? 15 then rejoin c true else end_of_round c true
  else end_of_round c true.

(** One assignment; [any] is [any_records_in_round]. *)
Definition fetch_partition (a : TopicPartitionWire) (c : Consumer) (any : bool) : cli S (flow * Consumer * bool) :=
  stop ← machine_op stop_requested;
  if (stop : bool) then mret (Break, c, any) else
  let cur_pos := position (tpw_partition a) c in
  let c := read_position (tpw_partition a) c in
  '(ok, resp) ← exchange_raw FETCH (encoded FetchRequest_encode
    (mkFetchRequest (tpw_topic a) (tpw_partition a) cur_pos (num o max_bytes_arg) (num o max_messages_per_fetch_arg)));
  if negb ok then _ ← close_socket; rejoin c any else
  if (frame_type resp =? MSG_ERROR) && (group_error resp =? 15) then rejoin c any else
  reset ← (if (frame_type resp =? MSG_ERROR) && (error_code resp =? OFFSET_OUT_OF_RANGE)
           then reset_out_of_range a c else mret None);
  match reset with
  | Some c => mret (Continue, c, any)
  | None =>
      if frame_type resp =? FETCH_OK then
        match decoded FetchResponse_decode resp with
        | None => mret (Break, c, any)
        | Some m =>
            if bool_decide (frs_records m = []) then end_of_round c any
            else handle_records a (frs_records m) c
        end
      else end_of_round c any
  end.

Fixpoint fetch_round (l : list TopicPartitionWire) (c : Consumer) (any : bool) : cli S (Consumer * bool) :=
  match l with
  | [] => mret (c, any)
  | a :: l =>
      '(fl, c, any) ← fetch_partition a c any;
      match fl with
      | Break => mret (c, any)
      | Continue => fetch_round l c any
      end
  end.

(** What an iteration does before it fetches: [None] to go on, or how it ends. *)
Definition heartbeat_check (now : Z) (c : Consumer) : cli S (option flow * Consumer) :=
  if heartbeat_interval_ms c <=? u32 (to_ms (now - last_heartbeat_time c)) then
    '(hb_res, c) ← do_heartbeat c;
    if hb_res =? 15 then '(ok, c) ← do_join c; mret (Some (if (ok : bool) then Continue else Break), c)
    else mret (if hb_res <? 0 then Some Break else None, c)
  else mret (None, c).

(** One iteration of [while (!g_stop_requested.load())], the test included. *)
Definition consumer_iteration (c : Consumer) : cli S (flow * Consumer) :=
  stop ← machine_op stop_requested;
  if (stop : bool) then mret (Break, c) else
  if limit_reached (num o max_records_arg) (total_records_processed c) then mret (Break, c) else
  now ← machine_op steady_now;
  if limit_reached (num o idle_exit_ms_arg) (u64 (to_ms (now - last_record_time c))) then mret (Break, c) else
  '(fl, c) ← heartbeat_check now c;
  match fl with
  | Some fl => mret (fl, c)
  | None =>
      if bool_decide (assignments c = []) then _ ← sleep 50; mret (Continue, c) else
      '(c, any) ← fetch_round (assignments c) c false;
      _ ← (if negb any then sleep 20 else mret tt);
      mret (Continue, c)
  end.

Fixpoint consumer_loop (fuel : nat) (c : Consumer) : cli S Consumer :=
  match fuel with
  | O => blocked
  | Datatypes.S fuel =>
      '(fl, c) ← consumer_iteration c;
      match fl with
      | Break => mret c
      | Continue => consumer_loop fuel c
      end
  end.

(** The last commit, and the farewell. *)
Definition graceful_exit (c : Consumer) : cli S Z :=
  '(_, c) ← do_commit c;
  if bool_decide (member_id c = []) then mret 0 else
  _ ← exchange LEAVE_GROUP (encoded LeaveGroupRequest_encode (mkLeaveGroupRequest group_id (member_id c)));
  mret 0.

Definition consume_group (fuel : nat) : cli S Z :=
  t1 ← machine_op steady_now;
  t2 ← machine_op steady_now;
  '(ok, c) ← do_join (mkConsumer (text o member_arg) 0 (num o session_timeout_ms_arg / 3) [] ∅ ∅ 0 0 t1 t2);
  if negb ok then mret 1 else
  c ← consumer_loop fuel c;
  graceful_exit c.

End consumer.

Definition cmd_consume_group {N : Winsock} {S} {M : Machine S} (fuel : nat) (o : Options) : cli S Z :=
  match args o with
  | group_id :: topic_name :: _ => consume_group o group_id topic_name fuel
  | _ => mret 1
  end.
