(* ===== verification/ConsumerSafety.v ===== *)
(** * ConsumerSafety: what the consumer of a group commits
    (the command [consume-group] of src/cli_main.cpp)

    The theorem holds for any surroundings: any broker, any failure of the network, any
    clock, any moment of Ctrl-C, and runs that never end.  The only premise is on the
    answers to FETCH: the records are those from the offset asked for on, one after the
    other ([honest]); [fetch_request_correct] shows it of the broker.

    [hoare P m Q] is partial correctness on traces: from a trace with [P], the program
    ends with [Q]; if it does not end with a value, what was committed by then is still
    covered. *)
From S2P Require Import Prelude StdString Status RecordCodec FrameCodec BodyCodec ProtocolMessages MessageRanges.
From S2P Require Import Client Console ClientCommands GroupConsumer.

(** ** What a trace says *)

(** The offsets of the records of partition [p] that were printed. *)
Definition printed_offset (p : Z) (e : event) : option Z :=
  match e with
  | Printed (RecordLine _ q off _ _) => if q =? p then Some off else None
  | _ => None
  end.
Definition printed_of (p : Z) (tr : list event) : list Z := omap (printed_offset p) tr.

Section trace.
Context {N : Winsock}.

(** A frame that tells the consumer where to start in a partition: a committed offset,
    the bounds of the log, or the answer to JOIN_GROUP, which sets all positions to 0. *)
Definition gives_position (f : Frame) (p s : Z) : Prop :=
  (exists m e, decoded FetchOffsetResponse_decode f = Some m /\ e ∈ fos_offsets m /\
     oew_partition e = p /\ 0 <= oew_offset e /\ s = u64 (oew_offset e)) \/
  (exists m off, decoded DescribeTopicResponse_decode f = Some m /\
     dts_partition_offsets m !! Z.to_nat p = Some off /\ (s = pow_earliest off \/ s = pow_next_offset off)) \/
  (is_Some (decoded JoinGroupResponse_decode f) /\ s = 0).

(** Since a frame gave the position [s], exactly the records from [s] up to [o] were
    printed, in order. *)
Definition reads_up_to (p o : Z) (tr : list event) : Prop :=
  exists tr1 f tr2 s, tr = tr1 ++ Received f :: tr2 /\ gives_position f p s /\ s <= o /\
    printed_of p tr2 = seqZ s (o - s).

(** Every commit that was sent: what it commits was printed before. *)
Definition commits_covered (tr : list event) : Prop :=
  forall tr1 f tr2, tr = tr1 ++ Sent f :: tr2 -> frame_type f = COMMIT_OFFSET ->
  exists m, body f = encoded CommitOffsetRequest_encode m /\
    Forall (fun e => reads_up_to (ciw_partition e) (ciw_offset e) tr1) (cor_entries m).

(** The answer to a FETCH holds the records from the offset asked for on. *)
Definition honest_answer (req resp : Frame) : bool :=
  if (frame_type req =? FETCH) && (frame_type resp =? FETCH_OK) then
    match decoded FetchRequest_decode req, decoded FetchResponse_decode resp with
    | Some m, Some r =>
        bool_decide (frw_offset <$> frs_records r = seqZ (fr_start_offset m) (zlen (frs_records r))) &&
        (fr_start_offset m + zlen (frs_records r) <? 2 ^ 64)
    | _, _ => true
    end
  else true.

Definition honest (tr : list event) : Prop :=
  forall tr1 req resp tr2, tr = tr1 ++ Sent req :: Received resp :: tr2 -> honest_answer req resp = true.

(** A test for [honest]. *)
Fixpoint honestb (tr : list event) : bool :=
  match tr with
  | [] => true
  | e :: tr' =>
      match e, tr' with
      | Sent req, Received resp :: _ => honest_answer req resp && honestb tr'
      | _, _ => honestb tr'
      end
  end.

Lemma honestb_spec tr : honestb tr = true -> honest tr.
Proof.
  intros H tr1. revert tr H. induction tr1 as [|e tr1 IH]; intros tr H req resp tr2 ->.
  - cbn [app honestb] in H. by apply andb_true_iff in H as [H _].
  - eapply (IH (tr1 ++ Sent req :: Received resp :: tr2)); [|done]. cbn [app honestb] in H.
    destruct e as [f| | |]; try done. destruct (tr1 ++ _) as [|[] l]; try done. by apply andb_true_iff in H as [_ H].
Qed.

Lemma honest_prefix tr es : honest (tr ++ es) -> honest tr.
Proof. intros H tr1 req resp tr2 ->. eapply H. by rewrite <- app_assoc. Qed.

(** ** Events that change nothing *)

Definition neutral (e : event) : Prop :=
  match e with
  | Sent f => frame_type f <> COMMIT_OFFSET
  | Printed (RecordLine _ _ _ _ _) => False
  | _ => True
  end.

Lemma printed_of_app p tr es : printed_of p (tr ++ es) = printed_of p tr ++ printed_of p es.
Proof. apply omap_app. Qed.

Lemma reads_up_to_app p o tr es : printed_of p es = [] -> reads_up_to p o tr -> reads_up_to p o (tr ++ es).
Proof.
  intros He (tr1 & f & tr2 & s & -> & Hs & Hle & Hp). exists tr1, f, (tr2 ++ es), s.
  split_and!; [by rewrite <- app_assoc|done|done|]. by rewrite printed_of_app, He, app_nil_r.
Qed.

Lemma neutral_printed p e : neutral e -> printed_of p [e] = [].
Proof. destruct e as [| | |[]]; done. Qed.

Lemma commits_covered_snoc tr e : neutral e \/ (exists o, e = Printed o) -> commits_covered tr ->
  commits_covered (tr ++ [e]).
Proof.
  intros He Hc tr1 f tr2 Heq Hty. destruct tr2 as [|e' tr2 _] using rev_ind.
  - apply app_inj_tail in Heq as [-> ->]. by destruct He as [He|[o He]].
  - rewrite app_comm_cons, app_assoc in Heq. apply app_inj_tail in Heq as [-> ->]. by eapply Hc.
Qed.

(** ** The invariant *)

(** The positions of the consumer are those of the trace, and an offset not yet
    committed is the position of its partition.  [J] is a fact that is carried along. *)
Definition tracks (J : Prop) (c : Consumer) (tr : list event) : Prop :=
  (J /\ Forall TopicPartitionWire_wf (assignments c)) /\
  forall p, is_u64 (position p c) /\ reads_up_to p (position p c) tr /\
    (forall o, uncommitted_offsets c !! p = Some o -> o = position p c).

Definition covered (tr : list event) : Prop := honest tr -> commits_covered tr.

(** [Q] and the commits, as long as the answers are honest. *)
Definition inv (Q : list event -> Prop) (tr : list event) : Prop := honest tr -> commits_covered tr /\ Q tr.

Lemma inv_covered Q tr : inv Q tr -> covered tr.
Proof. intros H Hh. by apply H. Qed.

Lemma inv_mono (Q R : list event -> Prop) tr : (honest tr -> Q tr -> R tr) -> inv Q tr -> inv R tr.
Proof. intros HQR H Hh. destruct (H Hh). auto. Qed.

(** A property of the consumer that events without effect keep. *)
Definition stable (Q : list event -> Prop) : Prop := forall tr e, neutral e -> Q tr -> Q (tr ++ [e]).

Lemma inv_snoc Q tr e : stable Q -> neutral e -> inv Q tr -> inv Q (tr ++ [e]).
Proof.
  intros Hs He H Hh. destruct (H (honest_prefix _ _ Hh)) as [Hc HQ].
  split; [apply commits_covered_snoc; auto|by apply Hs].
Qed.

Lemma tracks_stable J c : stable (tracks J c).
Proof.
  intros tr e He [Hw Hc]. split; [done|]. intros p. destruct (Hc p) as (Hu & Hr & Ho). split_and!; [done| |done].
  apply reads_up_to_app; [by apply neutral_printed|done].
Qed.

Lemma implies_stable (J : Prop) Q : stable Q -> stable (fun tr => J -> Q tr).
Proof. intros Hs tr e He H HJ. auto. Qed.

Lemma and_stable Q R : stable Q -> stable R -> stable (fun tr => Q tr /\ R tr).
Proof. intros HQ HR tr e He [? ?]. auto. Qed.

Lemma pure_stable (J : Prop) : stable (fun _ => J).
Proof. by intros tr e _ H. Qed.

(** A frame after which nothing was printed. *)
Definition heard (f : Frame) (tr : list event) : Prop :=
  exists tr1 tr2, tr = tr1 ++ Received f :: tr2 /\ forall p, printed_of p tr2 = [].

Lemma heard_now f tr : heard f (tr ++ [Received f]).
Proof. by exists tr, []. Qed.

Lemma heard_stable f : stable (heard f).
Proof.
  intros tr e He (tr1 & tr2 & -> & Hp). exists tr1, (tr2 ++ [e]). split; [by rewrite <- app_assoc|].
  intros p. by rewrite printed_of_app, Hp, neutral_printed.
Qed.

Lemma reads_heard f p s tr : heard f tr -> gives_position f p s -> reads_up_to p s tr.
Proof.
  intros (tr1 & tr2 & -> & Hp) Hg. exists tr1, f, tr2, s. split_and!; [done|done|lia|]. rewrite Hp, Z.sub_diag. done.
Qed.

(** The answer to a JOIN_GROUP was heard and nothing printed since. *)
Definition joined (tr : list event) : Prop := exists f, heard f tr /\ is_Some (decoded JoinGroupResponse_decode f).

Lemma joined_stable : stable joined.
Proof. intros tr e He (f & Hf & Hd). exists f. split; [by apply heard_stable|done]. Qed.

(** ** The consumer's variables *)

Lemma tracks_join J f m c tr : (J : Prop) -> heard f tr -> decoded JoinGroupResponse_decode f = Some m ->
  tracks J (set_membership m c) tr.
Proof.
  intros HJ Hf Hd. split; [split; [done|]|].
  - unfold decoded in Hd. apply fmap_Some in Hd as ([v br] & Hd & ->).
    apply (consumes_body _ _ _ _ _ consumes_JoinGroupResponse) in Hd as [(_ & _ & _ & _ & _ & Hw) _]. exact Hw.
  - intros p. unfold position. cbn [set_membership partition_positions uncommitted_offsets]. rewrite !lookup_empty.
    split; [by vm_compute|]. split; [|done]. apply (reads_heard f); [done|]. right; right. by rewrite Hd.
Qed.

Lemma position_set q p v c : position q (set_position p v c) = if decide (p = q) then v else position q c.
Proof.
  unfold position. cbn. destruct (decide (p = q)) as [->|Hne]; [by rewrite lookup_insert_eq|by rewrite lookup_insert_ne].
Qed.

(** A position, and perhaps the offset to commit, is set to [v]. *)
Lemma tracks_set J p v U since total c tr :
  tracks J c tr -> is_u64 v -> reads_up_to p v tr ->
  U = uncommitted_offsets c /\ uncommitted_offsets c !! p = None \/ U = <[p := v]> (uncommitted_offsets c) ->
  tracks J (set_progress (<[p := v]> (partition_positions c)) U since total c) tr.
Proof.
  intros [Hw Hc] Hv Hr HU. split; [done|]. intros q. destruct (Hc q) as (Hu & Hq & Ho).
  unfold position in *. cbn [partition_positions set_progress uncommitted_offsets].
  destruct (decide (p = q)) as [->|Hne].
  - rewrite lookup_insert_eq. cbn. split_and!; [done|done|]. intros o Hl.
    destruct HU as [[-> HU]| ->]; [congruence|]. rewrite lookup_insert_eq in Hl. congruence.
  - rewrite lookup_insert_ne by done. split_and!; [done|done|]. intros o Hl. apply Ho.
    destruct HU as [[-> HU]| ->]; [done|]. by rewrite lookup_insert_ne in Hl.
Qed.

Lemma tracks_read_position J p c tr : tracks J c tr -> tracks J (read_position p c) tr.
Proof.
  intros [Hw Hc]. split; [done|]. intros q. destruct (Hc q) as (Hu & Hq & Ho). unfold read_position.
  rewrite position_set. destruct (decide (p = q)) as [->|]; by split_and!.
Qed.

(** One more record is printed. *)
Lemma reads_print a off k v p o tr :
  tpw_partition a = p -> off = o -> reads_up_to p o tr ->
  reads_up_to p (o + 1) (tr ++ [Printed (RecordLine (tpw_topic a) (tpw_partition a) off k v)]).
Proof.
  intros <- -> (tr1 & f & tr2 & s & -> & Hg & Hle & Hp). eexists tr1, f, _, s.
  split_and!; [by rewrite <- app_assoc|done|lia|]. rewrite printed_of_app, Hp. unfold printed_of. cbn.
  rewrite Z.eqb_refl. replace (o + 1 - s) with ((o - s) + 1) by lia.
  rewrite seqZ_app by lia. f_equal. by rewrite seqZ_cons, seqZ_nil, Zplus_minus by lia.
Qed.

Lemma reads_print_other a off k v p o tr :
  tpw_partition a <> p -> reads_up_to p o tr ->
  reads_up_to p o (tr ++ [Printed (RecordLine (tpw_topic a) (tpw_partition a) off k v)]).
Proof.
  intros Hne. apply reads_up_to_app. unfold printed_of. cbn. by rewrite (proj2 (Z.eqb_neq _ _)).
Qed.

Lemma tracks_print J a rec c tr since total :
  let p := tpw_partition a in let next := u64 (frw_offset rec + 1) in
  tracks J c tr -> frw_offset rec = position p c -> position p c + 1 < 2 ^ 64 ->
  tracks J (set_progress (<[p := next]> (partition_positions c)) (<[p := next]> (uncommitted_offsets c)) since total c)
    (tr ++ [Printed (RecordLine (tpw_topic a) p (frw_offset rec) (frw_key rec) (frw_value rec))]).
Proof.
  intros p next [Hw Hc] Hoff Hlt. destruct (Hc p) as (Hu & Hr & _). unfold is_u64 in Hu.
  assert (next = position p c + 1) as Hnext by (unfold next; rewrite Hoff; apply u64_id; unfold is_u64; lia).
  split; [done|]. intros q. destruct (Hc q) as (Hu' & Hr' & Ho'). unfold position in *.
  cbn [partition_positions set_progress uncommitted_offsets]. destruct (decide (p = q)) as [<-|Hne].
  - rewrite !lookup_insert_eq. cbn [default from_option id]. split_and!; [unfold is_u64; lia| |by intros o [= <-]].
    rewrite Hnext. by apply reads_print.
  - rewrite !lookup_insert_ne by done. split_and!; [done|by apply reads_print_other|done].
Qed.

(** A commit of what the consumer holds is covered. *)
Lemma commit_snoc J c tr f group_id topic_name : tracks J c tr -> commits_covered tr ->
  body f = encoded CommitOffsetRequest_encode (commit_request group_id topic_name c) ->
  commits_covered (tr ++ [Sent f]).
Proof.
  intros [_ Hc] Hcov Hb tr1 g tr2 Heq Hty. destruct tr2 as [|e' tr2 _] using rev_ind.
  - apply app_inj_tail in Heq as [-> Heq]. injection Heq as <-. eexists. split; [exact Hb|]. cbn.
    apply Forall_fmap, list.Forall_forall. intros [p o] Hin. cbn.
    unfold ascending in Hin. rewrite merge_sort_Permutation in Hin. apply elem_of_map_to_list in Hin.
    destruct (Hc p) as (_ & Hr & Ho). by rewrite (Ho o Hin).
  - rewrite app_comm_cons, app_assoc in Heq. apply app_inj_tail in Heq as [-> _]. by eapply Hcov.
Qed.

End trace.

(** ** Partial correctness *)

Section hoare.
Context {N : Winsock} {S : Type} {M : Machine S}.

Definition hoare {A} (P : list event -> Prop) (m : cli S A) (Q : A -> list event -> Prop) : Prop :=
  forall w, P (w_trace w) ->
    match m w with (Value a, w') => Q a (w_trace w') | (_, w') => covered (w_trace w') end.

Lemma hoare_ret {A} (P : list event -> Prop) (a : A) Q : (forall tr, P tr -> Q a tr) -> hoare P (mret a) Q.
Proof. intros H w HP. cbn. auto. Qed.

Lemma hoare_bind {A B} P (m : cli S A) (k : A -> cli S B) Q R :
  hoare P m Q -> (forall a, hoare (Q a) (k a) R) -> hoare P (m ≫= k) R.
Proof.
  intros Hm Hk w HP. specialize (Hm w HP). unfold mbind, cli_bind. destruct (m w) as [[a| | | |] w']; try done.
  by apply Hk.
Qed.

Lemma hoare_mono {A} (P P' : list event -> Prop) (m : cli S A) (Q Q' : A -> list event -> Prop) :
  hoare P m Q -> (forall tr, P' tr -> P tr) -> (forall a tr, Q a tr -> Q' a tr) -> hoare P' m Q'.
Proof.
  intros Hm HP HQ w Hw. specialize (Hm w (HP _ Hw)). destruct (m w) as [[a| | | |] w']; auto.
Qed.

Lemma hoare_pre {A} (P P' : list event -> Prop) (m : cli S A) Q :
  (forall tr, P' tr -> P tr) -> hoare P m Q -> hoare P' m Q.
Proof. intros HP Hm. by eapply hoare_mono. Qed.

Lemma hoare_pure {A} (J : Prop) P (m : cli S A) Q : (J -> hoare P m Q) -> hoare (fun tr => P tr /\ J) m Q.
Proof. intros H w [HP HJ]. by apply H. Qed.

(** What does not touch the trace. *)
Lemma hoare_machine {A} P (op : S -> A * S) (Q : A -> list event -> Prop) :
  (forall a tr, P tr -> Q a tr) -> hoare P (machine_op op) Q.
Proof. intros H w HP. unfold machine_op, on_machine. destruct (op (w_machine w)) as [a s]. cbn. auto. Qed.

Lemma hoare_req_id P (Q : Z -> list event -> Prop) : (forall a tr, P tr -> Q a tr) -> hoare P next_req_id Q.
Proof. intros H w HP. cbn. auto. Qed.

Lemma hoare_machine_inv {A} Q (op : S -> A * S) : hoare (inv Q) (machine_op op) (fun _ => inv Q).
Proof. by apply hoare_machine. Qed.

Lemma hoare_reconnect Q o n : hoare (inv Q) (reconnect o n) (fun _ => inv Q).
Proof.
  induction n as [|n IH]; cbn [reconnect]; [by apply hoare_ret|].
  eapply hoare_bind; [apply hoare_machine_inv|]. intros [|]; [by apply hoare_ret|].
  eapply hoare_bind; [apply hoare_machine_inv|]. intros ?. exact IH.
Qed.

Lemma hoare_read P Q out :
  (forall tr, P tr -> covered tr) -> (forall tr, P tr -> Q (false, out) tr) ->
  (forall f tr, P tr -> Q (true, f) (tr ++ [Received f])) -> hoare P (read_response_frame out) Q.
Proof.
  intros Hc Hf Ht w HP. unfold read_response_frame, cli_recv_exact, on_machine, mbind, cli_bind.
  destruct (recv_exact 4 (w_machine w)) as [[[res lb] s1]|]; cbn [mbind option_bind w_trace]; [|auto].
  destruct (negb _); [cbn; auto|]. destruct (_ <? _); [cbn; auto|]. cbn [w_machine w_req_id w_trace].
  destruct (recv_exact _ s1) as [[[res' pl] s2]|]; cbn [mbind option_bind w_trace]; [|auto].
  destruct (negb _); [cbn; auto|]. apply Ht. exact HP.
Qed.

Lemma hoare_send P Q f :
  (forall tr, P tr -> covered tr /\ covered (tr ++ [Sent f])) -> (forall b tr, P tr -> Q b (tr ++ [Sent f])) ->
  hoare P (send_frame f) Q.
Proof.
  intros Hc HQ w HP. unfold send_frame, or_undefined, send_bytes, on_machine, mbind, cli_bind.
  destruct (FrameCodec_encode f) as [enc|]; [|by apply Hc]. cbn [mret cli_ret log w_machine w_req_id w_trace].
  destruct (send_all enc _) as [[res s]|]; cbn [w_trace]; [by apply HQ|by apply Hc].
Qed.

(** ** Exchanges *)

(** Sending [f] keeps the invariant. *)
Definition may_send (Q : list event -> Prop) (f : Frame) : Prop := forall tr, inv Q tr -> inv Q (tr ++ [Sent f]).

Lemma may_send_neutral Q f : stable Q -> frame_type f <> COMMIT_OFFSET -> may_send Q f.
Proof. intros Hs Hf tr. by apply inv_snoc. Qed.

Lemma hoare_send_and_receive Q req out : stable Q -> may_send Q req ->
  hoare (inv Q) (send_and_receive req out) (fun r => inv (fun tr => Q tr /\ (r.1 = true -> heard r.2 tr))).
Proof.
  intros Hs Hm. unfold send_and_receive. eapply hoare_bind.
  { apply (hoare_send _ (fun _ => inv Q)); [|auto]. intros tr Hi. split; eapply inv_covered; [exact Hi|by apply Hm]. }
  intros sent. destruct (negb sent); [apply hoare_ret; intros tr; by apply inv_mono|].
  eapply hoare_bind.
  { apply (hoare_read _ (fun r => inv (fun tr => Q tr /\ (r.1 = true -> heard r.2 tr)))).
    - by intros tr Hi; eapply inv_covered.
    - intros tr. by apply inv_mono.
    - intros f tr Hi. eapply inv_mono; [|by apply inv_snoc].
      intros _ HQ. split; [done|]. intros _. apply heard_now. }
  intros [ok resp]. destruct ok; apply hoare_ret; intros tr; apply inv_mono; [|by intros _ [? _]].
  intros _ [HQ Hh]. split; [done|]. intros _. by apply Hh.
Qed.

(** The request and its answer end the trace. *)
Definition answered (req resp : Frame) (tr : list event) : Prop :=
  exists tr0, tr = tr0 ++ [Sent req; Received resp].

Lemma hoare_make_request Q type body :
  hoare (inv Q) (make_request type body) (fun req tr => inv Q tr /\ exists id, req = request_frame_of type body id).
Proof.
  eapply hoare_bind; [by apply (hoare_req_id _ (fun _ => inv Q))|]. intros id. apply hoare_ret. eauto.
Qed.

Lemma hoare_exchange_raw Q type body : stable Q -> (forall id, may_send Q (request_frame_of type body id)) ->
  hoare (inv Q) (exchange_raw type body) (fun r => inv (fun tr => Q tr /\
    (r.1 = true -> exists id, answered (request_frame_of type body id) r.2 tr))).
Proof.
  intros Hs Hm. eapply hoare_bind; [apply hoare_make_request|]. intros req. apply hoare_pure. intros [id ->].
  eapply hoare_bind.
  { apply (hoare_send _ (fun _ tr => exists tr0, tr = tr0 ++ [Sent (request_frame_of type body id)] /\ inv Q tr)).
    - intros tr Hi. split; eapply inv_covered; [exact Hi|by apply Hm].
    - intros b tr Hi. eexists. split; [done|by apply Hm]. }
  intros sent. destruct (negb sent).
  - apply hoare_ret. intros tr (tr0 & _ & Hi). eapply inv_mono; [|exact Hi]. done.
  - apply hoare_read.
    + intros tr (tr0 & _ & Hi). by eapply inv_covered.
    + intros tr (tr0 & _ & Hi). eapply inv_mono; [|exact Hi]. done.
    + intros f tr (tr0 & -> & Hi). eapply inv_mono; [|by apply inv_snoc].
      intros _ HQ. split; [done|]. intros _. exists id, tr0. by rewrite <- app_assoc.
Qed.

Lemma hoare_exchange Q type body : stable Q -> type <> COMMIT_OFFSET ->
  hoare (inv Q) (exchange type body) (fun r => inv (fun tr => Q tr /\ (r.1 = true -> heard r.2 tr))).
Proof.
  intros Hs Ht. eapply hoare_bind; [apply hoare_make_request|]. intros req. apply hoare_pure. intros [id ->].
  apply hoare_send_and_receive; [done|]. by apply may_send_neutral.
Qed.

Lemma hoare_describe Q t : stable Q ->
  hoare (inv Q) (describe_for t) (fun r => inv (fun tr => Q tr /\
    forall m, r = Some m -> exists f, heard f tr /\ decoded DescribeTopicResponse_decode f = Some m)).
Proof.
  intros Hs. eapply hoare_bind; [by apply hoare_exchange|]. intros [ok resp]. apply hoare_ret. intros tr.
  apply inv_mono. intros _ [HQ Hh]. split; [done|]. intros m Hm. destruct ok; cbn in Hm; [|done]. eauto.
Qed.

End hoare.

(** ** The consumer *)

Section consumer.
Context {N : Winsock} {S : Type} {M : Machine S}.
Context (o : Options) (group_id topic_name : bytes) (J : Prop).

Lemma hoare_join_response (K : Prop) c :
  hoare (inv (fun tr => J /\ (K -> tracks J c tr))) (join_response (S := S) o group_id topic_name c)
    (fun r => inv (fun tr => (J /\ (K -> tracks J r.2 tr)) /\ forall f, r.1 = Some f -> heard f tr)).
Proof.
  set (Q := fun tr => J /\ (K -> tracks J c tr)).
  assert (stable Q) as Hs by (apply and_stable; [apply pure_stable|apply implies_stable, tracks_stable]).
  assert (forall tr, inv Q tr -> inv (fun tr => (J /\ (K -> tracks J c tr)) /\ forall f, None = Some f -> heard f tr) tr) as Hnone
    by (intros tr; by apply inv_mono).
  unfold join_response. eapply hoare_bind; [apply hoare_machine_inv|]. intros v1.
  eapply (hoare_bind _ _ _ (fun _ => inv Q)).
  { destruct v1; cbn [negb]; [by apply hoare_ret|]. eapply hoare_bind; [apply hoare_reconnect|]. intros ?.
    apply hoare_machine_inv. }
  intros v2. destruct v2; cbn [negb]; [|by apply hoare_ret].
  eapply hoare_bind; [apply hoare_make_request|]. intros req. apply hoare_pure. intros [id ->].
  eapply hoare_bind; [by apply hoare_send_and_receive, may_send_neutral|].
  intros [ok resp]. destruct ok.
  { apply hoare_ret. intros tr. apply inv_mono. intros _ [HQ Hh]. split; [done|]. intros f [= <-]. by apply Hh. }
  apply (hoare_pre (inv Q)); [intros tr; apply inv_mono; by intros _ [? _]|].
  eapply hoare_bind; [apply hoare_machine_inv|]. intros v3.
  eapply (hoare_bind _ _ _ (fun _ => inv Q)).
  { destruct v3; cbn [negb]; [by apply hoare_ret|]. eapply hoare_bind; [apply hoare_reconnect|]. intros ?.
    eapply hoare_bind; [apply hoare_machine_inv|]. intros v4. destruct v4; [|by apply hoare_ret].
    eapply hoare_bind; [by apply (hoare_req_id _ (fun _ => inv Q))|]. intros id'.
    eapply hoare_bind; [by apply hoare_send_and_receive, may_send_neutral|].
    intros [ok' resp']. apply hoare_ret. intros tr. apply inv_mono. by intros _ [? _]. }
  intros resp'. destruct (negb _); [by apply hoare_ret|]. destruct (negb _); [by apply hoare_ret|].
  eapply hoare_bind; [apply hoare_make_request|]. intros req. apply hoare_pure. intros [id' ->].
  eapply hoare_bind; [by apply hoare_send_and_receive, may_send_neutral|].
  intros [ok' resp'']. apply hoare_ret. intros tr. apply inv_mono. intros _ [HQ Hh]. split; [exact HQ|].
  intros f Hf. destruct ok'; [|done]. injection Hf as <-. by apply Hh.
Qed.

(** While the positions are set up. *)
Definition starting (c : Consumer) (tr : list event) : Prop :=
  tracks J c tr /\ uncommitted_offsets c = ∅ /\ joined tr.

Lemma starting_stable c : stable (starting c).
Proof. apply and_stable; [apply tracks_stable|]. apply and_stable; [apply pure_stable|apply joined_stable]. Qed.

Lemma starting_set p v c tr : starting c tr -> is_u64 v -> reads_up_to p v tr -> starting (set_position p v c) tr.
Proof.
  intros (Hc & Hu & Hj) Hv Hr. split; [|done]. apply tracks_set; [done|done|done|]. left. by rewrite Hu.
Qed.

Lemma joined_zero p tr : joined tr -> reads_up_to p 0 tr.
Proof. intros (f & Hf & Hd). apply (reads_heard f); [done|]. by right; right. Qed.

Lemma described_offset f m p off :
  decoded DescribeTopicResponse_decode f = Some m -> dts_partition_offsets m !! p = Some off ->
  is_u64 (pow_earliest off) /\ is_u64 (pow_next_offset off).
Proof.
  intros Hd Hp. unfold decoded in Hd. apply fmap_Some in Hd as ([v br] & Hd & ->).
  apply (consumes_body _ _ _ _ _ consumes_DescribeTopicResponse) in Hd as (_ & _ & _ & Hw & _).
  destruct (Forall_lookup_1 _ _ _ _ Hw Hp) as (? & ? & _). done.
Qed.

Lemma hoare_reset_position R p c : stable R ->
  hoare (inv (fun tr => starting c tr /\ R tr)) (reset_position (S := S) o topic_name p)
    (fun v => inv (fun tr => (starting c tr /\ R tr) /\ is_u64 v /\ reads_up_to p v tr)).
Proof.
  intros HR. eapply hoare_bind; [apply hoare_describe, and_stable; [apply starting_stable|exact HR]|].
  intros dt. apply hoare_ret. intros tr. apply inv_mono.
  intros _ [[Hst HRt] Hd]. split; [done|]. assert (is_u64 0 /\ reads_up_to p 0 tr) as Hzero
    by (split; [by vm_compute|apply joined_zero, Hst]).
  destruct dt as [m|]; [|done]. destruct (dts_partition_offsets m !! Z.to_nat p) as [off|] eqn:Ho; [|done].
  destruct (Hd m eq_refl) as (f & Hf & Hm). destruct (described_offset _ _ _ _ Hm Ho) as [H1 H2].
  destruct (bytes_eqb _ _); (split; [done|]); apply (reads_heard f); try done; right; left; exists m, off; auto.
Qed.

Lemma hoare_start_positions f m offsets : forall c,
  decoded FetchOffsetResponse_decode f = Some m -> (forall e, e ∈ offsets -> e ∈ fos_offsets m) ->
  hoare (inv (fun tr => starting c tr /\ heard f tr)) (start_positions (S := S) o topic_name offsets c)
    (fun c' => inv (tracks J c')).
Proof.
  induction offsets as [|e offsets IH]; intros c Hm Hin; cbn [start_positions].
  { apply hoare_ret. intros tr. apply inv_mono. by intros _ [[? _] _]. }
  assert (forall e, e ∈ offsets -> e ∈ fos_offsets m) as Hin' by (intros; apply Hin; by right).
  eapply (hoare_bind _ _ _ (fun v => inv (fun tr => starting (set_position (oew_partition e) v c) tr /\ heard f tr)));
    [|intros v; by apply IH].
  destruct (Z.leb_spec 0 (oew_offset e)) as [Hle|Hlt].
  - apply hoare_ret. intros tr. apply inv_mono. intros _ [Hst Hf]. split; [|done].
    apply starting_set; [done|apply u64_range|]. apply (reads_heard f); [done|]. left.
    exists m, e. split_and!; try done. apply Hin. by left.
  - eapply hoare_mono; [apply (hoare_reset_position (heard f) (oew_partition e) c), heard_stable|done|].
    intros v tr. apply inv_mono. intros _ ([Hst Hf] & Hv & Hr). split; [by apply starting_set|done].
Qed.

Lemma hoare_fetch_positions c :
  hoare (inv (starting c)) (fetch_positions (S := S) o group_id topic_name c) (fun r => inv (tracks J r.2)).
Proof.
  unfold fetch_positions. destruct (bool_decide _); [apply hoare_ret; intros tr; apply inv_mono; by intros _ [? _]|].
  eapply hoare_bind; [by apply hoare_exchange; [apply starting_stable|]|]. intros [ok resp].
  destruct ok; cbn [negb]; [|apply hoare_ret; intros tr; apply inv_mono; by intros _ [[? _] _]].
  destruct (decoded _ resp) as [m|] eqn:Hm; [|apply hoare_ret; intros tr; apply inv_mono; by intros _ [[? _] _]].
  eapply hoare_bind.
  { eapply hoare_pre; [|by apply (hoare_start_positions resp m)]. intros tr. apply inv_mono. intros _ [? Hh]. auto. }
  intros c'. by apply hoare_ret.
Qed.

(** When the consumer tracks before, or [do_join] succeeds, it tracks afterwards. *)
Lemma hoare_do_join (K : Prop) c :
  hoare (inv (fun tr => J /\ (K -> tracks J c tr))) (do_join (S := S) o group_id topic_name c)
    (fun r => inv (fun tr => J /\ (K \/ r.1 = true -> tracks J r.2 tr))).
Proof.
  eapply hoare_bind; [apply hoare_join_response|]. intros [resp c1]. cbn [fst snd].
  assert (forall tr, inv (fun tr => (J /\ (K -> tracks J c1 tr)) /\ forall f, resp = Some f -> heard f tr) tr ->
    inv (fun tr => J /\ (K \/ false = true -> tracks J c1 tr)) tr) as Hfail.
  { intros tr. apply inv_mono. intros _ [[HJ HK] _]. split; [done|]. intros [?|?]; [by apply HK|done]. }
  destruct resp as [f|]; [|by apply hoare_ret]. destruct (decoded _ f) as [m|] eqn:Hm; [|by apply hoare_ret].
  eapply hoare_bind.
  { eapply hoare_pre; [|apply hoare_fetch_positions]. intros tr. apply inv_mono. intros _ [[HJ _] Hf]. specialize (Hf f eq_refl).
    split; [by apply (tracks_join J f)|]. split; [done|]. exists f. by rewrite Hm. }
  intros [ok c2]. destruct ok; cbn [negb]; [|apply hoare_ret; intros tr; apply inv_mono; intros _ H; split; [apply H|by intros _]].
  eapply hoare_bind; [apply hoare_machine_inv|]. intros t1. eapply hoare_bind; [apply hoare_machine_inv|]. intros t2.
  apply hoare_ret. intros tr. apply inv_mono. intros _ H. split; [apply H|]. intros _. exact H.
Qed.

Lemma hoare_rejoin c any :
  hoare (inv (tracks J c)) (rejoin (S := S) o group_id topic_name c any) (fun r => inv (tracks J r.1.2)).
Proof.
  eapply hoare_bind; [eapply hoare_pre; [|apply (hoare_do_join True)]; intros tr; apply inv_mono; intros _ H; split; [apply H|done]|].
  intros [ok c']. apply hoare_ret. intros tr. apply inv_mono. intros _ [_ H]. apply H. by left.
Qed.

Lemma commit_may_send c id :
  may_send (tracks J c) (request_frame_of COMMIT_OFFSET
    (encoded CommitOffsetRequest_encode (commit_request group_id topic_name c)) id).
Proof.
  intros tr Hi Hh. destruct (Hi (honest_prefix _ _ Hh)) as [Hc [Hw Ht]]. split; [by eapply commit_snoc|].
  split; [done|]. intros p. destruct (Ht p) as (Hu & Hr & Ho). split; [done|]. split; [|done]. by apply reads_up_to_app.
Qed.

Lemma hoare_do_commit c :
  hoare (inv (tracks J c)) (do_commit (S := S) group_id topic_name c) (fun r => inv (tracks J r.2)).
Proof.
  unfold do_commit. destruct (bool_decide _); [by apply hoare_ret|].
  eapply hoare_bind; [apply hoare_exchange_raw; [apply tracks_stable|intros id; apply commit_may_send]|].
  intros [ok resp]. destruct ok; cbn [negb].
  - destruct (_ =? _); apply hoare_ret; intros tr; apply inv_mono; intros _ [[Hw Hc] _]; [by split|].
    split; [exact Hw|]. intros p. destruct (Hc p) as (Hu & Hr & _). split; [exact Hu|]. split; [exact Hr|]. done.
  - apply (hoare_pre (inv (tracks J c))); [intros tr; apply inv_mono; by intros _ [? _]|].
    eapply hoare_bind; [apply hoare_machine_inv|]. intros ?. by apply hoare_ret.
Qed.

Lemma hoare_do_heartbeat c :
  hoare (inv (tracks J c)) (do_heartbeat (S := S) group_id c) (fun r => inv (tracks J r.2)).
Proof.
  unfold do_heartbeat. eapply hoare_bind.
  { apply hoare_exchange_raw; [apply tracks_stable|]. intros id. by apply may_send_neutral; [apply tracks_stable|]. }
  intros [ok resp]. apply (hoare_pre (inv (tracks J c))); [intros tr; apply inv_mono; by intros _ [? _]|].
  destruct ok; cbn [negb].
  - destruct (_ =? _); [by apply hoare_ret|]. eapply hoare_bind; [apply hoare_machine_inv|]. intros now.
    by apply hoare_ret.
  - eapply hoare_bind; [apply hoare_machine_inv|]. intros ?. by apply hoare_ret.
Qed.

(** The records of an answer continue where the consumer is. *)
Definition continues (p : Z) (records : list FetchRecordWire) (c : Consumer) : Prop :=
  frw_offset <$> records = seqZ (position p c) (zlen records) /\ position p c + zlen records < 2 ^ 64.

Lemma continues_cons p rec records c since total next :
  next = u64 (frw_offset rec + 1) -> is_u64 (position p c) -> continues p (rec :: records) c ->
  frw_offset rec = position p c /\ position p c + 1 < 2 ^ 64 /\
  continues p records (set_progress (<[p := next]> (partition_positions c)) (<[p := next]> (uncommitted_offsets c)) since total c).
Proof.
  intros -> Hu [Ho Hlt]. rewrite zlen_cons in *. pose proof (zlen_nonneg records) as Hn.
  cbn [fmap list_fmap] in Ho. rewrite seqZ_cons in Ho by lia. injection Ho as Ho Hos.
  split; [done|]. split; [lia|]. unfold is_u64 in Hu.
  assert (u64 (frw_offset rec + 1) = position p c + 1) as Hnext by (rewrite Ho; apply u64_id; unfold is_u64; lia).
  assert (forall U, position p (set_progress (<[p := position p c + 1]> (partition_positions c)) U since total c) =
    position p c + 1) as Hset by (intros U; unfold position at 1; cbn; by rewrite lookup_insert_eq).
  unfold continues. rewrite Hnext, Hset. split; [|lia]. rewrite Hos. f_equal; lia.
Qed.

Lemma hoare_process_records a records : forall c,
  hoare (inv (fun tr => tracks J c tr /\ continues (tpw_partition a) records c)) (process_records (S := S) o a records c)
    (fun c' => inv (tracks J c')).
Proof.
  induction records as [|rec records IH]; intros c; cbn [process_records].
  { apply hoare_ret. intros tr. apply inv_mono. by intros _ [? _]. }
  set (next := u64 (frw_offset rec + 1)). set (total := u64 (total_records_processed c + 1)).
  set (c' := set_progress _ _ _ total c).
  eapply (hoare_bind _ _ _ (fun _ => inv (fun tr => tracks J c' tr /\ continues (tpw_partition a) records c'))).
  - intros w Hi. cbn. intros Hh. destruct (Hi (honest_prefix _ _ Hh)) as [Hc [Ht Hco]].
    assert (is_u64 (position (tpw_partition a) c)) as Hu by apply Ht.
    destruct (continues_cons _ _ _ _ (u64 (records_since_commit c + 1)) total next eq_refl Hu Hco) as (Ho & Hlt & Hco').
    split; [apply commits_covered_snoc; eauto|]. split; [|exact Hco']. by apply tracks_print.
  - intros _. cbn zeta. destruct (limit_reached _ _).
    { intros w Hi. by eapply inv_covered. }
    destruct (limit_reached _ _); [apply hoare_ret; intros tr; apply inv_mono; by intros _ [? _]|].
    eapply hoare_bind; [|intros ?; apply IH]. destruct (_ <? _); [apply hoare_machine_inv|by apply hoare_ret].
Qed.

Lemma hoare_reset_out_of_range R a c : stable R ->
  hoare (inv (fun tr => tracks J c tr /\ R tr)) (reset_out_of_range (S := S) a c)
    (fun r => inv (fun tr => match r with Some c' => tracks J c' tr | None => tracks J c tr /\ R tr end)).
Proof.
  intros HR. eapply hoare_bind; [apply hoare_describe, and_stable; [apply tracks_stable|exact HR]|].
  intros dt. apply hoare_ret. intros tr. apply inv_mono. intros _ [[Ht HRt] Hd].
  destruct dt as [m|]; [|done]. destruct (_ !! _) as [off|] eqn:Ho; [|done].
  destruct (Hd m eq_refl) as (f & Hf & Hm). destruct (described_offset _ _ _ _ Hm Ho) as [H1 _].
  apply tracks_set; [done|done| |by right]. apply (reads_heard f); [done|]. right; left. exists m, off. auto.
Qed.

Lemma hoare_end_of_round c any :
  hoare (inv (tracks J c)) (end_of_round (S := S) o c any) (fun r => inv (tracks J r.1.2)).
Proof. by apply hoare_ret. Qed.

Lemma hoare_handle_records a records c :
  hoare (inv (fun tr => tracks J c tr /\ continues (tpw_partition a) records c))
    (handle_records (S := S) o group_id topic_name a records c) (fun r => inv (tracks J r.1.2)).
Proof.
  eapply hoare_bind; [apply hoare_machine_inv|]. intros now.
  eapply hoare_bind; [eapply hoare_pre; [|apply hoare_process_records]; intros tr; apply inv_mono; intros _ H; exact H|].
  intros c'.
  destruct (_ <=? _); [|apply hoare_end_of_round]. eapply hoare_bind; [apply hoare_do_commit|].
  intros [cr c'']. destruct (_ =? _); [apply hoare_rejoin|apply hoare_end_of_round].
Qed.

Hypothesis options_ok : is_u32 (num o max_bytes_arg) /\ is_u32 (num o max_messages_per_fetch_arg).

(** An honest answer to the consumer's FETCH continues where it is. *)
Lemma honest_continues a c tr id resp m :
  TopicPartitionWire_wf a -> is_u64 (position (tpw_partition a) c) -> honest tr ->
  let req := mkFetchRequest (tpw_topic a) (tpw_partition a) (position (tpw_partition a) c) (num o max_bytes_arg)
               (num o max_messages_per_fetch_arg) in
  answered (request_frame_of FETCH (encoded FetchRequest_encode req) id) resp tr ->
  frame_type resp = FETCH_OK -> decoded FetchResponse_decode resp = Some m ->
  continues (tpw_partition a) (frs_records m) c.
Proof.
  intros [Htl Hp] Hu Hh req [tr0 Htr] Hty Hm. rewrite Htr in Hh. specialize (Hh tr0 _ _ [] eq_refl).
  unfold honest_answer in Hh. rewrite Hty, Hm in Hh. cbn [frame_type request_frame_of] in Hh. rewrite !Z.eqb_refl in Hh.
  cbn [andb] in Hh. assert (FetchRequest_wf req) as Hwf by (destruct options_ok; refine (conj _ (conj _ (conj _ (conj _ _)))); done).
  unfold decoded at 1 in Hh. cbn [body request_frame_of] in Hh. unfold encoded in Hh.
  rewrite (layout_roundtrips _ _ _ _ FetchRequest_reads FetchRequest_encode_append req Hwf) in Hh.
  cbn [fmap option_fmap option_map fst] in Hh. apply andb_true_iff in Hh as [H1 H2].
  apply bool_decide_eq_true in H1. apply Z.ltb_lt in H2. by split.
Qed.

Lemma hoare_fetch_partition a c any :
  hoare (inv (fun tr => tracks J c tr /\ TopicPartitionWire_wf a)) (fetch_partition (S := S) o group_id topic_name a c any)
    (fun r => inv (tracks J r.1.2)).
Proof.
  unfold fetch_partition. eapply hoare_bind; [apply hoare_machine_inv|]. intros stop. destruct stop.
  { apply hoare_ret. intros tr. apply inv_mono. by intros _ [? _]. }
  set (c' := read_position _ c). set (req := mkFetchRequest _ _ _ _ _).
  assert (position (tpw_partition a) c' = position (tpw_partition a) c) as Hpos
    by (unfold c', read_position; rewrite position_set; by destruct (decide _)).
  apply (hoare_pre (inv (fun tr => tracks J c' tr /\ TopicPartitionWire_wf a))).
  { intros tr. apply inv_mono. intros _ [? ?]. split; [by apply tracks_read_position|done]. }
  assert (stable (fun tr => tracks J c' tr /\ TopicPartitionWire_wf a)) as Hs
    by (apply and_stable; [apply tracks_stable|apply pure_stable]).
  eapply hoare_bind; [apply hoare_exchange_raw; [done|intros id; by apply may_send_neutral]|]. intros [ok resp].
  destruct ok; cbn [negb].
  2: { eapply hoare_bind; [apply hoare_machine_inv|]. intros ?.
       eapply hoare_pre; [|apply hoare_rejoin]. intros tr. apply inv_mono. by intros _ [[? _] _]. }
  set (R := fun _ : list event => forall m, frame_type resp = FETCH_OK -> decoded FetchResponse_decode resp = Some m ->
    continues (tpw_partition a) (frs_records m) c').
  apply (hoare_pre (inv (fun tr => tracks J c' tr /\ R tr))).
  { intros tr. apply inv_mono. intros Hh [[Ht Hw] Ha]. split; [done|]. destruct (Ha eq_refl) as [id Hid].
    intros m Hty Hm. eapply honest_continues; [done|apply Ht|exact Hh|rewrite Hpos; exact Hid|done|done]. }
  destruct (_ && _); [eapply hoare_pre; [|apply hoare_rejoin]; intros tr; apply inv_mono; by intros _ [? _]|].
  eapply (hoare_bind _ _ _ (fun r => inv (fun tr => match r with Some c'' => tracks J c'' tr | None => tracks J c' tr /\ R tr end))).
  { destruct (_ && _); [apply hoare_reset_out_of_range, pure_stable|by apply hoare_ret]. }
  intros [c''|]; [by apply hoare_ret|].
  assert (forall A (m : cli S A) Q, hoare (inv (tracks J c')) m Q -> hoare (inv (fun tr => tracks J c' tr /\ R tr)) m Q)
    as Hweak by (intros A m Q Hm; eapply hoare_pre; [|exact Hm]; intros tr; apply inv_mono; by intros _ [? _]).
  destruct (Z.eqb_spec (frame_type resp) FETCH_OK) as [Hty|]; [|apply Hweak, hoare_end_of_round].
  destruct (decoded _ resp) as [m|] eqn:Hm; [|apply Hweak; by apply hoare_ret].
  destruct (bool_decide _); [apply Hweak, hoare_end_of_round|].
  eapply hoare_pre; [|apply hoare_handle_records]. intros tr. apply inv_mono. intros _ [Ht HR]. split; [done|by apply HR].
Qed.

End consumer.

Section loop.
Context {N : Winsock} {S : Type} {M : Machine S}.
Context (o : Options) (group_id topic_name : bytes).
Hypothesis options_ok : is_u32 (num o max_bytes_arg) /\ is_u32 (num o max_messages_per_fetch_arg).

Lemma hoare_fetch_round l : forall c any, let J := Forall TopicPartitionWire_wf l in
  hoare (inv (tracks J c)) (fetch_round (S := S) o group_id topic_name l c any) (fun r => inv (tracks True r.1)).
Proof.
  induction l as [|a l IH]; intros c any; cbn [fetch_round]; cbn zeta in *.
  { apply hoare_ret. intros tr. apply inv_mono. by intros _ [[_ ?] ?]. }
  eapply hoare_bind.
  { eapply hoare_pre; [|apply (hoare_fetch_partition o group_id topic_name (Forall TopicPartitionWire_wf (a :: l)) options_ok)].
    intros tr. apply inv_mono. intros _ H. split; [exact H|].
    destruct H as [[HJ _] _]. by apply list.Forall_cons in HJ as [? _]. }
  intros [[[|] c'] any'].
  - eapply hoare_pre; [|apply IH]. intros tr. apply inv_mono. intros _ [[HJ Hw] Hc].
    apply list.Forall_cons in HJ as [_ HJ]. by split.
  - apply hoare_ret. intros tr. apply inv_mono. by intros _ [[_ ?] ?].
Qed.

Lemma hoare_heartbeat_check now c :
  hoare (inv (tracks True c)) (heartbeat_check (S := S) o group_id topic_name now c) (fun r => inv (tracks True r.2)).
Proof.
  unfold heartbeat_check. destruct (_ <=? _); [|by apply hoare_ret].
  eapply hoare_bind; [apply hoare_do_heartbeat|]. intros [res c']. destruct (_ =? _); [|by apply hoare_ret].
  eapply hoare_bind; [eapply hoare_pre; [|apply (hoare_do_join _ _ _ True True)]; intros tr; by apply inv_mono|].
  intros [ok c'']. apply hoare_ret. intros tr. apply inv_mono. intros _ [_ H]. apply H. by left.
Qed.

Lemma hoare_iteration c :
  hoare (inv (tracks True c)) (consumer_iteration (S := S) o group_id topic_name c) (fun r => inv (tracks True r.2)).
Proof.
  unfold consumer_iteration. eapply hoare_bind; [apply hoare_machine_inv|]. intros stop.
  destruct stop; [by apply hoare_ret|]. destruct (limit_reached _ _); [by apply hoare_ret|].
  eapply hoare_bind; [apply hoare_machine_inv|]. intros now. destruct (limit_reached _ _); [by apply hoare_ret|].
  eapply hoare_bind; [apply hoare_heartbeat_check|]. intros [[fl|] c']; [by apply hoare_ret|].
  destruct (bool_decide _).
  - eapply hoare_bind; [apply hoare_machine_inv|]. intros ?. by apply hoare_ret.
  - eapply hoare_bind.
    { eapply hoare_pre; [|apply hoare_fetch_round]. intros tr. apply inv_mono. by intros _ [[_ ?] ?]. }
    intros [c'' any]. eapply (hoare_bind _ _ _ (fun _ => inv (tracks True c''))); [|intros ?; by apply hoare_ret].
    destruct (negb any); [apply hoare_machine_inv|by apply hoare_ret].
Qed.

Lemma hoare_loop fuel : forall c,
  hoare (inv (tracks True c)) (consumer_loop (S := S) o group_id topic_name fuel c) (fun c' => inv (tracks True c')).
Proof.
  induction fuel as [|fuel IH]; intros c; cbn [consumer_loop]; [intros w; apply inv_covered|].
  eapply hoare_bind; [apply hoare_iteration|]. intros [[|] c']; [apply IH|by apply hoare_ret].
Qed.

Lemma hoare_consume_group fuel :
  hoare (inv (fun _ => True)) (consume_group (S := S) o group_id topic_name fuel) (fun _ => covered).
Proof.
  eapply hoare_bind; [apply hoare_machine_inv|]. intros t1. eapply hoare_bind; [apply hoare_machine_inv|]. intros t2.
  eapply hoare_bind; [eapply hoare_pre; [|apply (hoare_do_join _ _ _ True False)]; intros tr; by apply inv_mono|].
  intros [ok c]. destruct ok; cbn [negb]; [|apply hoare_ret; intros tr; apply inv_covered].
  eapply hoare_bind; [eapply hoare_pre; [|apply hoare_loop]; intros tr; apply inv_mono; intros _ [_ H]; apply H; by right|].
  intros c'. eapply hoare_bind; [apply hoare_do_commit|]. intros [cr c''].
  destruct (bool_decide _); [apply hoare_ret; intros tr; apply inv_covered|].
  eapply hoare_bind; [by apply hoare_exchange; [apply tracks_stable|]|]. intros r. apply hoare_ret.
  intros tr. apply inv_covered.
Qed.

End loop.

(** C9: no record is lost by a consumer of a group.  Whatever the broker, the network and
    the clock do, and however the command ends (also by a crash, or not at all): as long
    as answers to FETCH hold the records from the offset asked for on, every offset [o]
    the command sends in a commit for a partition is one up to which it has printed all
    records, one by one from the position the broker gave it (the committed offset, the
    bounds of the log, or 0). *)
Theorem committed_records_printed {N : Winsock} {S : Type} {M : Machine S} fuel (o : Options) (s : S) id :
  is_u32 (num o max_bytes_arg) /\ is_u32 (num o max_messages_per_fetch_arg) ->
  let tr := w_trace (cmd_consume_group fuel o (mkWorld s id [])).2 in
  honest tr -> commits_covered tr.
Proof.
  intros Ho. unfold cmd_consume_group. assert (commits_covered []) as Hnil by (by intros [|? ?] f tr2).
  destruct (args o) as [|group_id [|topic_name rest]]; [done|done|]. cbn zeta. intros Hh.
  pose proof (hoare_consume_group o group_id topic_name Ho fuel (mkWorld s id []) (fun _ => conj Hnil I)) as H.
  destruct (consume_group _ _ _ _ _) as [[a| | | |] w']; by apply H.
Qed.

(** A failed rejoin makes the consumer start over.  When the consumer joins again and
    JOIN_GROUP succeeds but the committed offsets cannot be fetched, the loop goes on with
    the new assignment all the same (the result of [do_join] is not looked at), and every
    position is 0, whatever was committed: the next FETCH of each partition asks for
    offset 0, and the next commit moves the group back. *)
Theorem failed_rejoin_starts_over {N : Winsock} {S : Type} {M : Machine S} o group_id topic_name (c c1 : Consumer) any
    f m resp (w w1 w2 : World S) :
  join_response o group_id topic_name c w = (Value (Some f, c1), w1) ->
  decoded JoinGroupResponse_decode f = Some m -> jgs_assignments m <> [] ->
  exchange FETCH_OFFSET (encoded FetchOffsetRequest_encode
    (mkFetchOffsetRequest group_id (u16 (zlen (jgs_assignments m)))
       ((fun a => mkFetchOffsetQueryWire (tpw_topic a) (tpw_partition a)) <$> jgs_assignments m))) w1 =
    (Value (false, resp), w2) ->
  exists c', rejoin o group_id topic_name c any w = (Value (Break, c', any), w2) /\
    assignments c' = jgs_assignments m /\ (forall p, position p c' = 0).
Proof.
  intros Hj Hm Hne He. exists (set_membership m c1).
  assert (forall p, position p (set_membership m c1) = 0) as Hpos by (intros p; unfold position; cbn; by rewrite lookup_empty).
  split; [|by split].
  unfold rejoin, do_join, mbind, cli_bind. rewrite Hj, Hm. unfold fetch_positions.
  rewrite bool_decide_eq_false_2 by done. unfold mbind, cli_bind. cbn [assignments set_membership]. by rewrite He.
Qed.

(** ** An example *)

(** A broker whose answers are given in advance. *)
Record Replay := mkReplay { rp_incoming : bytes }.

#[global] Instance Replay_socket : SocketApi Replay := {
  recv_exact n s :=
    if n <=? zlen (rp_incoming s) then Some (RecvSuccess, ztake n (rp_incoming s), mkReplay (zdrop n (rp_incoming s)))
    else Some (RecvDisconnected, rp_incoming s, mkReplay []);
  send_all _ s := Some (SendSuccess, s);
}.

#[global] Instance Replay_machine : Machine Replay := {
  sk_is_valid _ := true;
  sk_close s := s;
  Console.connect_socket _ _ s := (true, s);
  connect_another _ _ s := (true, s);
  steady_now s := (0, s);
  stop_requested s := (false, s);
  sleep_ms _ s := s;
  timing_text _ s := (([], []), s);
}.

(** [consume-group g orders --commit-every 2 --max-records 2]: the group is at offset 5. *)
Definition demo_consume_group : Options :=
  set_num commit_every_arg 2 (set_num max_records_arg 2
    (mkOptions default_num default_text false (str "consume-group") [str "g"; str "orders"])).

Definition demo_answer (type id : Z) (body : bytes) : Frame := request_frame_of type body id.

Definition demo_answers : list Frame :=
  [demo_answer JOIN_GROUP_OK 1000 (encoded (JoinGroupResponse_encode (W := x86_winsock))
     (mkJoinGroupResponse (str "m") 3 1000 1 [mkTopicPartitionWire (str "orders") 0]));
   demo_answer OFFSETS 1001 (encoded (FetchOffsetResponse_encode (W := x86_winsock))
     (mkFetchOffsetResponse 1 [mkOffsetEntryWire (str "orders") 0 5]));
   demo_answer FETCH_OK 1002 (encoded (FetchResponse_encode (W := x86_winsock))
     (mkFetchResponse 7 9 0 2 [mkFetchRecordWire 5 0 (str "a") (str "x"); mkFetchRecordWire 6 0 (str "b") (str "y")]));
   demo_answer COMMIT_OK 1003 []; demo_answer LEAVE_GROUP_OK 1004 []].

Definition demo_replay : Replay := mkReplay (concat (frame_bytes <$> demo_answers)).

(** It prints the two records, commits offset 7 and leaves. *)
Example demo_consumer_commits :
  let '(oc, w) := cmd_consume_group (N := x86_winsock) 10 demo_consume_group (mkWorld demo_replay 1000 []) in
  oc = Value 0 /\
  stdout (w_trace w) =
    str "RECORD topic=orders partition=0 offset=5 key=a value=x" ++ nl ++
    str "RECORD topic=orders partition=0 offset=6 key=b value=y" ++ nl /\
  w_trace w !! 8%nat =
    Some (Sent (request_frame_of COMMIT_OFFSET (encoded (CommitOffsetRequest_encode (W := x86_winsock))
      (mkCommitOffsetRequest (str "g") (str "m") 3 1 [mkCommitOffsetItemWire (str "orders") 0 7])) 1003)).
Proof. by vm_compute. Qed.

Example committed_records_printed_witness :
  honestb (N := x86_winsock)
    (w_trace (cmd_consume_group (N := x86_winsock) 10 demo_consume_group (mkWorld demo_replay 1000 [])).2) = true /\
  commits_covered (N := x86_winsock)
    (w_trace (cmd_consume_group (N := x86_winsock) 10 demo_consume_group (mkWorld demo_replay 1000 [])).2).
Proof.
  assert (is_u32 (num demo_consume_group max_bytes_arg) /\ is_u32 (num demo_consume_group max_messages_per_fetch_arg))
    as Ho by (split; by vm_compute).
  assert (honestb (N := x86_winsock)
    (w_trace (cmd_consume_group (N := x86_winsock) 10 demo_consume_group (mkWorld demo_replay 1000 [])).2) = true) as Hb
    by (vm_compute; reflexivity).
  split; [exact Hb|].
  exact (committed_records_printed (N := x86_winsock) 10 demo_consume_group demo_replay 1000 Ho (honestb_spec _ Hb)).
Defined.

(** The group is at offset 5; the second FETCH_OFFSET is answered with an error. *)
Definition demo_rejoin_answers : list Frame :=
  [demo_answer JOIN_GROUP_OK 1000 (encoded (JoinGroupResponse_encode (W := x86_winsock))
     (mkJoinGroupResponse (str "m") 4 1000 1 [mkTopicPartitionWire (str "orders") 0]));
   FrameCodec_create_error_frame (W := x86_winsock) 1001 INTERNAL_ERROR (str "busy")].

Definition demo_rejoining : Consumer :=
  mkConsumer (str "m") 3 1000 [mkTopicPartitionWire (str "orders") 0] {[0 := 5]} ∅ 0 0 0 0.

Example failed_rejoin_starts_over_witness :
  position 0 demo_rejoining = 5 /\
  exists c' w', rejoin (N := x86_winsock) demo_consume_group (str "g") (str "orders") demo_rejoining false
      (mkWorld (mkReplay (concat (frame_bytes <$> demo_rejoin_answers))) 1000 []) = (Value (Break, c', false), w') /\
    assignments c' = [mkTopicPartitionWire (str "orders") 0] /\ position 0 c' = 0.
Proof.
  split; [reflexivity|].
  destruct (failed_rejoin_starts_over (N := x86_winsock) demo_consume_group (str "g") (str "orders") demo_rejoining
    demo_rejoining false (hd empty_Frame demo_rejoin_answers)
    (mkJoinGroupResponse (str "m") 4 1000 1 [mkTopicPartitionWire (str "orders") 0])
    (nth 1 demo_rejoin_answers empty_Frame)
    (mkWorld (mkReplay (concat (frame_bytes <$> demo_rejoin_answers))) 1000 [])
    (mkWorld (mkReplay (frame_bytes (nth 1 demo_rejoin_answers empty_Frame))) 1001
       [Sent (request_frame_of JOIN_GROUP (encoded (JoinGroupRequest_encode (W := x86_winsock))
          (join_request demo_consume_group (str "g") (str "orders") (str "m"))) 1000);
        Received (hd empty_Frame demo_rejoin_answers)])
    (mkWorld (mkReplay []) 1002
       [Sent (request_frame_of JOIN_GROUP (encoded (JoinGroupRequest_encode (W := x86_winsock))
          (join_request demo_consume_group (str "g") (str "orders") (str "m"))) 1000);
        Received (hd empty_Frame demo_rejoin_answers);
        Sent (request_frame_of FETCH_OFFSET (encoded (FetchOffsetRequest_encode (W := x86_winsock))
          (mkFetchOffsetRequest (str "g") 1 [mkFetchOffsetQueryWire (str "orders") 0])) 1001);
        Received (nth 1 demo_rejoin_answers empty_Frame)]))
    as (c' & H1 & H2 & H3).
  - vm_compute. reflexivity.
  - vm_compute. reflexivity.
  - discriminate.
  - vm_compute. reflexivity.
  - eexists c', _. split; [exact H1|]. split; [exact H2|apply H3].
Defined.
