(* ===== verification/FileHandle.v ===== *)
(** * FileHandle: files, the operations of the operating system on them, and the
    owning handle of include/streamforge/FileHandle.hpp

    The Win32 calls and the [std::filesystem] functions the storage engine uses
    are the operations of the class [Win32]; its laws are their documented
    effect on the regular files of the volume and say nothing about success:
    every call may fail at any time and a write may be partial.  [Reliable]
    adds that the calls do succeed, and is assumed only where a theorem says
    that an operation does its work.  [memory_disk] is an instance of both,
    [full_disk] one in which no write succeeds.

    [io] is the monad of the storage code: the volume is passed along, and [None]
    stands for an execution without a result (undefined behaviour, an exception
    that leaves the function, or a loop that does not end).  [wp] is its total
    correctness: the computation has a result and the result satisfies the
    postcondition. *)
From S2P Require Import Prelude StdString Status.

(** [std::filesystem::path], component by component. *)
Abbreviation path := (list bytes).

Definition path_string (p : path) : bytes :=
  match p with
  | [] => []
  | c :: cs => foldl (fun acc c => acc ++ str "\" ++ c) c cs
  end.

Inductive disposition := OPEN_ALWAYS | OPEN_EXISTING.

(** The files after a successful [CreateFileW]. *)
Definition opened (disp : disposition) (p : path) (m : gmap path bytes) : gmap path bytes :=
  match disp, m !! p with
  | OPEN_ALWAYS, None => <[p := []]> m
  | _, _ => m
  end.

Class Win32 := {
  disk : Type;
  (** The contents of the regular files. *)
  files : disk -> gmap path bytes;
  CreateFileW : path -> disposition -> disk -> bool * disk;
  (** [WriteFile] at offset 0xFFFFFFFFFFFFFFFF: append; result, bytes written. *)
  WriteFile : path -> bytes -> disk -> bool * Z * disk;
  (** Result and the bytes read at an offset. *)
  ReadFile : path -> Z -> Z -> disk -> bool * bytes;
  GetFileSizeEx : path -> disk -> option Z;
  SetFilePointerEx : path -> Z -> disk -> bool;
  (** [SetEndOfFile] with the file pointer at the given position. *)
  SetEndOfFile : path -> Z -> disk -> bool * disk;
  FlushFileBuffers : path -> disk -> disk;
  (** A directory opened with [FILE_FLAG_BACKUP_SEMANTICS]; for writing or not. *)
  CreateFileW_directory : path -> bool -> disk -> bool;
  (** [None]: a [std::filesystem::filesystem_error] is thrown. *)
  fs_create_directories : path -> disk -> option disk;
  fs_exists : path -> disk -> bool;
  fs_remove : path -> disk -> disk;
  (** The names of the regular files a [directory_iterator] visits. *)
  fs_directory : path -> disk -> list bytes;

  CreateFileW_files p disp d ok d' :
    CreateFileW p disp d = (ok, d') ->
    files d' = (if ok then opened disp p (files d) else files d) /\
    (ok = true -> disp = OPEN_EXISTING -> is_Some (files d !! p));
  WriteFile_files p buf d ok written d' :
    WriteFile p buf d = (ok, written, d') ->
    0 <= written <= zlen buf /\
    files d' = alter (fun c => c ++ ztake written buf) p (files d);
  ReadFile_data p off n d data :
    0 <= off -> 0 <= n -> ReadFile p off n d = (true, data) ->
    exists c, files d !! p = Some c /\ data = ztake n (zdrop off c);
  GetFileSizeEx_size p d n c :
    GetFileSizeEx p d = Some n -> files d !! p = Some c -> n = zlen c;
  SetEndOfFile_files p n d ok d' c :
    SetEndOfFile p n d = (ok, d') -> files d !! p = Some c -> 0 <= n <= zlen c ->
    files d' = if ok then <[p := ztake n c]> (files d) else files d;
  SetEndOfFile_other p n d ok d' q :
    SetEndOfFile p n d = (ok, d') -> q <> p -> files d' !! q = files d !! q;
  FlushFileBuffers_files p d : files (FlushFileBuffers p d) = files d;
  fs_create_directories_files p d d' :
    fs_create_directories p d = Some d' -> files d' = files d;
  fs_remove_files p d :
    files (fs_remove p d) = delete p (files d) \/ files (fs_remove p d) = files d;
  fs_directory_spec dir d name :
    name ∈ fs_directory dir d <-> is_Some (files d !! (dir ++ [name]));
  fs_directory_nodup dir d : NoDup (fs_directory dir d);
}.

(** The calls succeed when their arguments are valid.  Paths that differ name different
    files: on a volume whose names ignore case, as those of NTFS usually do, this holds for
    sets of names that do not differ in case only.  A directory that is there can be
    iterated over, which std::filesystem does not promise. *)
Class Reliable (W : Win32) : Prop := {
  CreateFileW_always p d : exists d', CreateFileW p OPEN_ALWAYS d = (true, d');
  CreateFileW_existing p d :
    is_Some (files d !! p) -> exists d', CreateFileW p OPEN_EXISTING d = (true, d');
  WriteFile_complete p buf d :
    is_Some (files d !! p) -> exists d', WriteFile p buf d = (true, zlen buf, d');
  ReadFile_complete p off n d c :
    files d !! p = Some c -> 0 <= off -> 0 <= n -> off + n <= zlen c ->
    exists data, ReadFile p off n d = (true, data);
  GetFileSizeEx_complete p d :
    is_Some (files d !! p) -> is_Some (GetFileSizeEx p d);
  SetFilePointerEx_complete p n d : SetFilePointerEx p n d = true;
  SetEndOfFile_complete p n d : exists d', SetEndOfFile p n d = (true, d');
  fs_create_directories_complete p d : is_Some (fs_create_directories p d);
  (** No directory carries the name of a data file. *)
  fs_exists_spec p d : fs_exists p d = true <-> is_Some (files d !! p);
  fs_remove_complete p d : files (fs_remove p d) = delete p (files d);
}.

(** A volume that fails once and for all: what a process sees of its files when it is
    about to die.  Reads work; a call that changes files does its work, or it fails
    and is the last one to change them (a write may then have stored a part of its
    buffer). *)
Class FailStop (W : Win32) := {
  dead : disk -> Prop;
  ReadFile_stop p off n d c :
    files d !! p = Some c -> 0 <= off -> 0 <= n -> off + n <= zlen c ->
    exists data, ReadFile p off n d = (true, data);
  GetFileSizeEx_stop p d : is_Some (files d !! p) -> is_Some (GetFileSizeEx p d);
  SetFilePointerEx_stop p n d : SetFilePointerEx p n d = true;
  fs_exists_stop p d : fs_exists p d = true <-> is_Some (files d !! p);
  fs_create_directories_stop p d :
    exists d', fs_create_directories p d = Some d' /\ (dead d' <-> dead d);
  FlushFileBuffers_stop p d : dead (FlushFileBuffers p d) <-> dead d;
  CreateFileW_existing_stop p d :
    is_Some (files d !! p) ->
    exists d', CreateFileW p OPEN_EXISTING d = (true, d') /\ (dead d' <-> dead d);
  CreateFileW_missing_stop p d ok d' :
    CreateFileW p OPEN_EXISTING d = (ok, d') -> (dead d' <-> dead d);
  CreateFileW_stop p d ok d' :
    CreateFileW p OPEN_ALWAYS d = (ok, d') ->
    if ok then ~ dead d /\ ~ dead d' else dead d';
  WriteFile_stop p buf d ok written d' :
    WriteFile p buf d = (ok, written, d') -> is_Some (files d !! p) ->
    ok = true /\ written = zlen buf /\ ~ dead d' \/ ok = false /\ dead d';
  WriteFile_dead p buf d ok written d' :
    dead d -> WriteFile p buf d = (ok, written, d') ->
    ok = false /\ dead d' /\ files d' = files d;
  SetEndOfFile_stop p n d ok d' :
    SetEndOfFile p n d = (ok, d') ->
    if ok then ~ dead d /\ ~ dead d' else dead d' /\ files d' = files d;
  fs_remove_stop p d :
    files (fs_remove p d) = delete p (files d) /\ ~ dead d /\ ~ dead (fs_remove p d) \/
    files (fs_remove p d) = files d /\ dead (fs_remove p d);
}.

(** On a volume whose calls succeed nothing ever dies. *)
#[global, refine] Instance reliable_failstop (W : Win32) (R : Reliable W) : FailStop W := {|
  dead _ := False;
|}.
Proof.
  - apply ReadFile_complete.
  - apply GetFileSizeEx_complete.
  - apply SetFilePointerEx_complete.
  - apply fs_exists_spec.
  - intros p d. destruct (fs_create_directories_complete p d) as [d' E]. by exists d'.
  - done.
  - intros p d Hs. destruct (CreateFileW_existing p d Hs) as [d' E]. by exists d'.
  - done.
  - intros p d ok d' E. destruct (CreateFileW_always p d) as [d'' E']. rewrite E' in E.
    injection E as <- <-. auto.
  - intros p buf d ok n d' E Hs. destruct (WriteFile_complete p buf d Hs) as [d'' E'].
    rewrite E' in E. injection E as <- <- <-. left. auto.
  - done.
  - intros p n d ok d' E. destruct (SetEndOfFile_complete p n d) as [d'' E']. rewrite E' in E.
    injection E as <- <-. auto.
  - intros p d. left. split; [apply fs_remove_complete|auto].
Defined.

(** ** The monad *)

Section monad.
Context {W : Win32}.

Definition io (A : Type) : Type := disk -> option (A * disk).

#[global] Instance io_ret : MRet io := fun A a d => Some (a, d).
#[global] Instance io_bind : MBind io :=
  fun A B k m d => match m d with Some (a, d') => k a d' | None => None end.

(** No result. *)
Definition io_fail {A} : io A := fun _ => None.
Definition io_opt {A} (o : option A) : io A :=
  fun d => match o with Some a => Some (a, d) | None => None end.
Definition io_get {A} (f : disk -> A) : io A := fun d => Some (f d, d).
Definition io_set {A} (f : disk -> A * disk) : io A := fun d => Some (f d).
Definition io_run (f : disk -> disk) : io unit := fun d => Some (tt, f d).

Definition wp {A} (m : io A) (Q : A -> disk -> Prop) (d : disk) : Prop :=
  exists a d', m d = Some (a, d') /\ Q a d'.

End monad.

(** ** FileHandle *)

(** [None] is [INVALID_HANDLE_VALUE]; the files are opened with all sharing
    flags and every access carries its own position, so that a handle is the
    file it was opened on. *)
Abbreviation FileHandle := (option path).

Section FileHandle.
Context {W : Win32}.

Definition FileHandle_is_valid (h : FileHandle) : bool :=
  match h with Some _ => true | None => false end.

Definition FileHandle_write (h : FileHandle) (buffer : bytes) : io bool :=
  match h with
  | None => mret false
  | Some p => io_set (fun d =>
      let '(res, written, d') := WriteFile p buffer d in
      (res && (written =? zlen buffer), d'))
  end.

(** The result and the bytes read; [bytes_read] is their number. *)
Definition FileHandle_read_at (h : FileHandle) (file_offset size : Z) : io (bool * bytes) :=
  match h with
  | None => mret (false, [])
  | Some p => io_get (fun d =>
      let '(res, data) := ReadFile p file_offset size d in
      (res && (zlen data =? size), data))
  end.

Definition FileHandle_get_size (h : FileHandle) : io Z :=
  match h with
  | None => mret 0
  | Some p => io_get (fun d => default 0 (GetFileSizeEx p d))
  end.

Definition FileHandle_flush (h : FileHandle) : io unit :=
  match h with
  | None => mret tt
  | Some p => io_run (FlushFileBuffers p)
  end.

Definition FileHandle_truncate (h : FileHandle) (new_size : Z) : io bool :=
  match h with
  | None => mret false
  | Some p => io_set (fun d =>
      if negb (SetFilePointerEx p new_size d) then (false, d) else SetEndOfFile p new_size d)
  end.

Definition FileHandle_open_read_write (p : path) (create_if_missing : bool) : io FileHandle :=
  io_set (fun d =>
    let '(ok, d') := CreateFileW p (if create_if_missing then OPEN_ALWAYS else OPEN_EXISTING) d in
    (if ok then Some p else None, d')).

Definition FileHandle_open_read_only (p : path) : io FileHandle :=
  io_set (fun d =>
    let '(ok, d') := CreateFileW p OPEN_EXISTING d in (if ok then Some p else None, d')).

Definition FileHandle_flush_directory (dir : path) : io bool :=
  io_set (fun d =>
    let h := CreateFileW_directory dir true d in
    let h := if negb h then CreateFileW_directory dir false d else h in
    if h then (true, FlushFileBuffers dir d) else (false, d)).

(** [std::filesystem::create_directories], which may throw. *)
Definition create_directories (p : path) : io unit :=
  fun d => match fs_create_directories p d with Some d' => Some (tt, d') | None => None end.

End FileHandle.

(** ** Rules of [wp] *)

Section wp.
Context {W : Win32}.

Lemma wp_ret {A} (a : A) Q d : Q a d -> wp (mret a) Q d.
Proof. intros. by exists a, d. Qed.

Lemma wp_bind {A B} (m : io A) (k : A -> io B) Q d :
  wp m (fun a d' => wp (k a) Q d') d -> wp (m ≫= k) Q d.
Proof.
  intros (a & d' & Hm & b & d'' & Hk & HQ). exists b, d''. split; [|done].
  unfold mbind, io_bind. by rewrite Hm.
Qed.

Lemma wp_mono {A} (m : io A) (P Q : A -> disk -> Prop) d :
  wp m P d -> (forall a d', P a d' -> Q a d') -> wp m Q d.
Proof. intros (a & d' & Hm & HP) HPQ. exists a, d'. auto. Qed.

Lemma wp_opt {A} (o : option A) a Q d : o = Some a -> Q a d -> wp (io_opt o) Q d.
Proof. intros -> HQ. by exists a, d. Qed.

Lemma wp_result {A} (m : io A) Q d a d' : wp m Q d -> m d = Some (a, d') -> Q a d'.
Proof. intros (a' & d'' & Hm & HQ) Hm'. congruence. Qed.

Lemma wp_files {A} (m : io A) (Q : A -> disk -> Prop) d :
  wp m Q d -> exists a d', m d = Some (a, d') /\ Q a d'.
Proof. done. Qed.

(** Whatever happens, a write appends a prefix of the buffer, all of it when it
    reports success. *)
Lemma wp_write p buf Q d c :
  files d !! p = Some c ->
  (forall (ok : bool) n d', 0 <= n <= zlen buf -> (ok = true -> n = zlen buf) ->
     files d' = <[p := c ++ ztake n buf]> (files d) -> Q ok d') ->
  wp (FileHandle_write (Some p) buf) Q d.
Proof.
  intros Hp HQ. cbn. unfold io_set, wp.
  destruct (WriteFile p buf d) as [[ok n] d'] eqn:E.
  apply WriteFile_files in E as [Hn Hf]. do 2 eexists. split; [done|].
  apply (HQ _ n); [done| |].
  - intros H. zbool. done.
  - rewrite Hf. apply map_eq. intros q. destruct (decide (q = p)) as [->|].
    + by rewrite lookup_alter_eq, Hp, lookup_insert_eq.
    + by rewrite lookup_alter_ne, lookup_insert_ne by done.
Qed.

Lemma wp_truncate p n Q d c :
  files d !! p = Some c -> 0 <= n <= zlen c ->
  (forall (ok : bool) d', files d' = (if ok then <[p := ztake n c]> (files d) else files d) -> Q ok d') ->
  wp (FileHandle_truncate (Some p) n) Q d.
Proof.
  intros Hp Hn HQ. cbn. unfold io_set, wp. destruct (negb _).
  - do 2 eexists. split; [done|]. by apply (HQ false).
  - destruct (SetEndOfFile p n d) as [ok d'] eqn:E. do 2 eexists. split; [done|].
    apply HQ. by eapply SetEndOfFile_files.
Qed.

(** A read that reports success returns the requested range of the file. *)
Lemma wp_read_at p off n Q d :
  0 <= off -> 0 <= n ->
  (forall data, Q (false, data) d) ->
  (forall c, files d !! p = Some c -> zlen (ztake n (zdrop off c)) = n ->
     Q (true, ztake n (zdrop off c)) d) ->
  wp (FileHandle_read_at (Some p) off n) Q d.
Proof.
  intros Hoff Hn Hfail Hok. cbn. unfold io_get, wp.
  destruct (ReadFile p off n d) as [[] data] eqn:E; cbn.
  - apply ReadFile_data in E as (c & Hc & ->); [|done..].
    destruct (Z.eqb_spec (zlen (ztake n (zdrop off c))) n); do 2 eexists; (split; [done|]); auto.
  - do 2 eexists. split; [done|]. apply Hfail.
Qed.

Lemma wp_open_always p Q d :
  (forall d', files d' = files d -> Q None d') ->
  (forall d', files d' = opened OPEN_ALWAYS p (files d) -> Q (Some p) d') ->
  wp (FileHandle_open_read_write p true) Q d.
Proof.
  intros Hfail Hok. unfold FileHandle_open_read_write, io_set, wp.
  destruct (CreateFileW p OPEN_ALWAYS d) as [[] d'] eqn:E;
    apply CreateFileW_files in E as [Hf _]; do 2 eexists; (split; [done|]); auto.
Qed.

Lemma wp_open_read_only p Q d :
  (forall d', files d' = files d -> Q None d') ->
  (forall d', is_Some (files d !! p) -> files d' = files d -> Q (Some p) d') ->
  wp (FileHandle_open_read_only p) Q d.
Proof.
  intros Hfail Hok. unfold FileHandle_open_read_only, io_set, wp.
  destruct (CreateFileW p OPEN_EXISTING d) as [[] d'] eqn:E;
    apply CreateFileW_files in E as [Hf Hs]; do 2 eexists; (split; [done|]).
  - apply Hok; [by apply Hs|]. by rewrite Hf.
  - by apply Hfail.
Qed.

End wp.

(** ** Rules for a volume that may die *)

Section failstop.
Context {W : Win32} {F : FailStop W}.

Lemma wp_write_stop p buf Q d c :
  files d !! p = Some c ->
  (forall d', ~ dead d' -> files d' = <[p := c ++ buf]> (files d) -> Q true d') ->
  (forall n d', 0 <= n <= zlen buf -> dead d' -> files d' = <[p := c ++ ztake n buf]> (files d) ->
     Q false d') ->
  wp (FileHandle_write (Some p) buf) Q d.
Proof.
  intros Hp Hok Hfail. cbn. unfold io_set, wp.
  destruct (WriteFile p buf d) as [[ok n] d'] eqn:E.
  pose proof (WriteFile_files _ _ _ _ _ _ E) as [Hn Hf]. do 2 eexists. split; [done|].
  assert (files d' = <[p := c ++ ztake n buf]> (files d)) as Hf'.
  { rewrite Hf. apply map_eq. intros q. destruct (decide (q = p)) as [->|].
    - by rewrite lookup_alter_eq, Hp, lookup_insert_eq.
    - by rewrite lookup_alter_ne, lookup_insert_ne by done. }
  apply WriteFile_stop in E as [(-> & -> & Hd)|(-> & Hd)]; [| |by eexists].
  - rewrite Z.eqb_refl. apply Hok; [done|]. by rewrite ztake_ge in Hf'.
  - by apply (Hfail n).
Qed.

Lemma wp_truncate_stop p n Q d c :
  files d !! p = Some c -> 0 <= n <= zlen c ->
  (forall d', ~ dead d' -> files d' = <[p := ztake n c]> (files d) -> Q true d') ->
  (forall d', dead d' -> files d' = files d -> Q false d') ->
  wp (FileHandle_truncate (Some p) n) Q d.
Proof.
  intros Hp Hn Hok Hfail. cbn. unfold io_set, wp. rewrite SetFilePointerEx_stop. cbn [negb].
  destruct (SetEndOfFile p n d) as [ok d'] eqn:E. do 2 eexists. split; [done|].
  pose proof (SetEndOfFile_files _ _ _ _ _ _ E Hp Hn) as Hf.
  apply SetEndOfFile_stop in E. destruct ok; [by apply Hok; [apply E|]|by apply Hfail; [apply E|]].
Qed.

Lemma wp_open_stop p Q d :
  (forall d', ~ dead d' -> files d' = opened OPEN_ALWAYS p (files d) -> Q (Some p) d') ->
  (forall d', dead d' -> files d' = files d -> Q None d') ->
  wp (FileHandle_open_read_write p true) Q d.
Proof.
  intros Hok Hfail. unfold FileHandle_open_read_write, io_set, wp.
  destruct (CreateFileW p OPEN_ALWAYS d) as [ok d'] eqn:E. do 2 eexists. split; [done|].
  pose proof (CreateFileW_files _ _ _ _ _ E) as [Hf _]. apply CreateFileW_stop in E.
  destruct ok; [by apply Hok; [apply E|]|by apply Hfail].
Qed.

Lemma wp_open_existing_ok p Q d :
  is_Some (files d !! p) ->
  (forall d', files d' = files d -> (dead d' <-> dead d) -> Q (Some p) d') ->
  wp (FileHandle_open_read_only p) Q d.
Proof.
  intros Hs Hok. unfold FileHandle_open_read_only, io_set, wp.
  destruct (CreateFileW_existing_stop p d) as (d' & E & Hd); [done|]. rewrite E. do 2 eexists.
  split; [done|]. apply CreateFileW_files in E as [Hf _]. auto.
Qed.

Lemma wp_open_missing p Q d :
  files d !! p = None ->
  (forall d', files d' = files d -> (dead d' <-> dead d) -> Q None d') ->
  wp (FileHandle_open_read_only p) Q d.
Proof.
  intros Hn Hok. unfold FileHandle_open_read_only, io_set, wp.
  destruct (CreateFileW p OPEN_EXISTING d) as [ok d'] eqn:E. do 2 eexists. split; [done|].
  pose proof (CreateFileW_files _ _ _ _ _ E) as [Hf Hs]. apply CreateFileW_missing_stop in E.
  destruct ok; [|by apply Hok]. destruct Hs as [? Hs]; [done..|]. congruence.
Qed.

Lemma wp_read_ok p off n Q d c :
  files d !! p = Some c -> 0 <= off -> 0 <= n -> off + n <= zlen c ->
  Q (true, ztake n (zdrop off c)) d ->
  wp (FileHandle_read_at (Some p) off n) Q d.
Proof.
  intros Hp Hoff Hn Hle HQ. cbn. unfold io_get, wp.
  destruct (ReadFile_stop p off n d c) as [data E]; [done..|]. rewrite E.
  apply ReadFile_data in E as (c' & Hc & ->); [|done..]. simplify_eq.
  rewrite zlen_ztake, zlen_zdrop by lia. do 2 eexists. split; [done|].
  replace (_ =? _) with true by (symmetry; apply Z.eqb_eq; lia). done.
Qed.

Lemma wp_get_size_ok p Q d c :
  files d !! p = Some c -> Q (zlen c) d -> wp (FileHandle_get_size (Some p)) Q d.
Proof.
  intros Hp HQ. cbn. unfold io_get, wp. do 2 eexists. split; [done|].
  destruct (GetFileSizeEx_stop p d) as [n E]; [by eexists|].
  rewrite E. cbn. by rewrite (GetFileSizeEx_size _ _ _ _ E Hp).
Qed.

Lemma wp_create_directories_ok p Q d :
  (forall d', files d' = files d -> (dead d' <-> dead d) -> Q tt d') -> wp (create_directories p) Q d.
Proof.
  intros HQ. unfold create_directories, wp.
  destruct (fs_create_directories_stop p d) as (d' & E & Hd). rewrite E.
  do 2 eexists. split; [done|]. apply HQ; [|done]. by eapply fs_create_directories_files.
Qed.

Lemma wp_flush h Q d :
  (forall d', files d' = files d -> (dead d' <-> dead d) -> Q tt d') -> wp (FileHandle_flush h) Q d.
Proof.
  intros HQ. destruct h as [p|]; [|by apply wp_ret, HQ].
  exists tt, (FlushFileBuffers p d). split; [done|].
  apply HQ; [apply FlushFileBuffers_files|apply FlushFileBuffers_stop].
Qed.

Lemma wp_flush_directory dir Q d :
  (forall b d', files d' = files d -> (dead d' <-> dead d) -> Q b d') ->
  wp (FileHandle_flush_directory dir) Q d.
Proof.
  intros HQ. unfold FileHandle_flush_directory, io_set, wp.
  destruct (CreateFileW_directory dir true d), (CreateFileW_directory dir false d); cbn;
    do 2 eexists; (split; [done|]); apply HQ;
    done || apply FlushFileBuffers_files || apply FlushFileBuffers_stop.
Qed.

(** A computation that finds the volume dead leaves it as it is. *)
Definition inert {A} (m : io A) (D : A -> Prop) : Prop :=
  forall d, dead d -> wp m (fun a d' => dead d' /\ files d' = files d /\ D a) d.

Lemma inert_wp {A} (m : io A) D Q d :
  inert m D -> dead d -> (forall a d', dead d' -> files d' = files d -> D a -> Q a d') -> wp m Q d.
Proof.
  intros Hi Hd HQ. eapply wp_mono; [by apply Hi|]. intros a d' (? & ? & ?). by apply HQ.
Qed.

Lemma inert_ret {A} (a : A) (D : A -> Prop) : D a -> inert (mret a) D.
Proof. intros Ha d Hd. by apply wp_ret. Qed.

Lemma inert_bind {A B} (m : io A) (k : A -> io B) (D : A -> Prop) E :
  inert m D -> (forall a, D a -> inert (k a) E) -> inert (m ≫= k) E.
Proof.
  intros Hm Hk d Hd. apply wp_bind. eapply inert_wp; [exact Hm|done|]. intros a d1 Hd1 Hf1 Ha.
  eapply inert_wp; [by apply Hk|done|]. intros b d2 Hd2 Hf2 Hb. split_and!; [done|congruence|done].
Qed.

Lemma inert_mono {A} (m : io A) (D E : A -> Prop) : inert m D -> (forall a, D a -> E a) -> inert m E.
Proof. intros Hm HD d Hd. eapply inert_wp; [exact Hm|done|]. auto. Qed.

Lemma inert_flush h : inert (FileHandle_flush h) (fun _ => True).
Proof. intros d Hd. apply wp_flush. intros d' Hf Hdd. split_and!; [by apply Hdd|done|done]. Qed.

Lemma inert_flush_directory dir : inert (FileHandle_flush_directory dir) (fun _ => True).
Proof.
  intros d Hd. apply wp_flush_directory. intros b d' Hf Hdd. split_and!; [by apply Hdd|done|done].
Qed.

Lemma inert_open p : inert (FileHandle_open_read_write p true) (fun h => h = None).
Proof.
  intros d Hd. unfold FileHandle_open_read_write, io_set, wp.
  destruct (CreateFileW p OPEN_ALWAYS d) as [ok d'] eqn:E. do 2 eexists. split; [done|].
  pose proof (CreateFileW_files _ _ _ _ _ E) as [Hf _]. apply CreateFileW_stop in E.
  destruct ok; [tauto|done].
Qed.

Lemma inert_write h buf : inert (FileHandle_write h buf) (fun ok => ok = false).
Proof.
  intros d Hd. destruct h as [p|]; [|by apply wp_ret]. cbn. unfold io_set, wp.
  destruct (WriteFile p buf d) as [[ok n] d'] eqn:E. do 2 eexists. split; [done|].
  apply WriteFile_dead in E as (-> & ? & ?); done.
Qed.

Lemma inert_truncate h n : inert (FileHandle_truncate h n) (fun _ => True).
Proof.
  intros d Hd. destruct h as [p|]; [|by apply wp_ret]. cbn. unfold io_set, wp.
  rewrite SetFilePointerEx_stop. cbn [negb].
  destruct (SetEndOfFile p n d) as [ok d'] eqn:E. do 2 eexists. split; [done|].
  apply SetEndOfFile_stop in E. destruct ok; [tauto|]. by destruct E.
Qed.

Lemma inert_create_directories p : inert (create_directories p) (fun _ => True).
Proof.
  intros d Hd. apply wp_create_directories_ok. intros d' Hf Hdd. split_and!; [by apply Hdd|done|done].
Qed.

End failstop.

(** ** Rules for a volume on which the calls succeed *)

Section reliable.
Context {W : Win32} {R : Reliable W}.

Lemma wp_write_ok p buf Q d c :
  files d !! p = Some c ->
  (forall d', files d' = <[p := c ++ buf]> (files d) -> Q true d') ->
  wp (FileHandle_write (Some p) buf) Q d.
Proof. intros Hp HQ. eapply wp_write_stop; [exact Hp|by eauto|done]. Qed.

Lemma wp_truncate_ok p n Q d c :
  files d !! p = Some c -> 0 <= n <= zlen c ->
  (forall d', files d' = <[p := ztake n c]> (files d) -> Q true d') ->
  wp (FileHandle_truncate (Some p) n) Q d.
Proof. intros Hp Hn HQ. eapply wp_truncate_stop; [exact Hp|done|by eauto|done]. Qed.

Lemma wp_open_ok p Q d :
  (forall d', files d' = opened OPEN_ALWAYS p (files d) -> Q (Some p) d') ->
  wp (FileHandle_open_read_write p true) Q d.
Proof. intros HQ. apply wp_open_stop; [by eauto|done]. Qed.

End reliable.

Lemma opened_lookup (p : path) (m : gmap path bytes) (q : path) :
  opened OPEN_ALWAYS p m !! q =
  if decide (q = p) then Some (default [] (m !! p)) else m !! q.
Proof.
  unfold opened. destruct (m !! p) as [c|] eqn:E; case_decide; subst; cbn; try done.
  - by rewrite lookup_insert_eq.
  - by rewrite lookup_insert_ne.
Qed.

(** ** Instances *)

(** The names of the files directly in a directory. *)
Definition memory_directory (dir : path) (m : gmap path bytes) : list bytes :=
  omap (fun '(p, _) =>
    match list.last p with
    | Some name => if bool_decide (p = dir ++ [name]) then Some name else None
    | None => None
    end) (map_to_list m).

Lemma memory_directory_spec dir m name :
  name ∈ memory_directory dir m <-> is_Some (m !! (dir ++ [name])).
Proof.
  unfold memory_directory. rewrite list_elem_of_omap. split.
  - intros ([p c] & Hp & Hn). apply elem_of_map_to_list in Hp.
    destruct (list.last p) as [n|]; [|done]. case_bool_decide; simplify_eq. by eexists.
  - intros [c Hc]. exists (dir ++ [name], c). rewrite elem_of_map_to_list. split; [done|].
    by rewrite list.last_snoc, bool_decide_eq_true_2.
Qed.

Lemma omap_nodup {A B} (f : A -> option B) l :
  (forall x y b, x ∈ l -> y ∈ l -> f x = Some b -> f y = Some b -> x = y) ->
  NoDup l -> NoDup (omap f l).
Proof.
  intros Hf. induction 1 as [|x l Hx Hl IH]; [constructor|]. cbn.
  destruct (f x) as [b|] eqn:E; [|apply IH; set_solver].
  constructor; [|apply IH; set_solver]. rewrite list_elem_of_omap. intros (y & Hy & Ey).
  assert (x = y) as -> by (eapply Hf; set_solver). done.
Qed.

Lemma memory_directory_nodup dir m : NoDup (memory_directory dir m).
Proof.
  apply omap_nodup; [|apply NoDup_map_to_list].
  intros [p c] [q c'] b Hp Hq E1 E2. apply elem_of_map_to_list in Hp, Hq.
  destruct (list.last p); [|done]. destruct (list.last q); [|done].
  repeat case_bool_decide; simplify_eq. done.
Qed.

(** A volume in memory on which every call succeeds. *)
#[global, refine] Instance memory_disk : Win32 := {|
  disk := gmap path bytes;
  files m := m;
  CreateFileW p disp m :=
    match disp, m !! p with
    | OPEN_EXISTING, None => (false, m)
    | _, _ => (true, opened disp p m)
    end;
  WriteFile p buf m := (true, zlen buf, alter (fun c => c ++ buf) p m);
  ReadFile p off n m :=
    match m !! p with
    | Some c => (true, ztake n (zdrop off c))
    | None => (false, [])
    end;
  GetFileSizeEx p m := zlen <$> m !! p;
  SetFilePointerEx p n m := true;
  SetEndOfFile p n m := (true, alter (ztake n) p m);
  FlushFileBuffers p m := m;
  CreateFileW_directory p b m := true;
  fs_create_directories p m := Some m;
  fs_exists p m := bool_decide (is_Some (m !! p));
  fs_remove p m := delete p m;
  fs_directory := memory_directory;
|}.
Proof.
  - intros p disp d ok d' E. destruct disp, (d !! p) as [c|] eqn:Ep; simplify_eq; by eauto.
  - intros p buf d ok n d' [= <- <- <-]. pose proof (zlen_nonneg buf). split; [lia|].
    by rewrite ztake_ge.
  - intros p off n d data Hoff Hn E. destruct (d !! p) as [c|]; simplify_eq. by eexists.
  - intros p d n c E Hc. cbn in *. rewrite Hc in E. by simplify_eq/=.
  - intros p n d ok d' c E Hc Hn. injection E as <- <-. apply map_eq. intros q.
    destruct (decide (q = p)) as [->|].
    + rewrite lookup_alter_eq, lookup_insert_eq. by rewrite Hc.
    + by rewrite lookup_alter_ne, lookup_insert_ne by done.
  - intros p n d ok d' q [= <- <-] Hq. by apply lookup_alter_ne.
  - done.
  - intros p d d' [= <-]. done.
  - auto.
  - intros. apply memory_directory_spec.
  - intros. apply memory_directory_nodup.
Defined.

#[global] Instance memory_reliable : Reliable memory_disk.
Proof.
  constructor; cbn.
  - intros p d. destruct (d !! p); by eexists.
  - intros p d [c Hc]. rewrite Hc. by eexists.
  - intros. by eexists.
  - intros p off n d c Hc _ _ _. rewrite Hc. by eexists.
  - intros p d [c Hc]. rewrite Hc. by eexists.
  - done.
  - intros. by eexists.
  - intros. by eexists.
  - intros p d. apply bool_decide_eq_true.
  - done.
Qed.

(** A full volume: files are opened and read, and no write succeeds. *)
#[local, refine] Instance full_disk : Win32 := {|
  disk := gmap path bytes;
  files m := m;
  CreateFileW p disp m :=
    match m !! p with None => (false, m) | Some _ => (true, m) end;
  WriteFile p buf m := (false, 0, m);
  ReadFile p off n m :=
    match m !! p with
    | Some c => (true, ztake n (zdrop off c))
    | None => (false, [])
    end;
  GetFileSizeEx p m := zlen <$> m !! p;
  SetFilePointerEx p n m := true;
  SetEndOfFile p n m := (false, m);
  FlushFileBuffers p m := m;
  CreateFileW_directory p b m := true;
  fs_create_directories p m := Some m;
  fs_exists p m := bool_decide (is_Some (m !! p));
  fs_remove p m := m;
  fs_directory := memory_directory;
|}.
Proof.
  - intros p disp d ok d' E. unfold opened. destruct (d !! p) as [c|] eqn:Ep; simplify_eq.
    + split; [by destruct disp|by eauto].
    + done.
  - intros p buf d ok n d' [= <- <- <-]. pose proof (zlen_nonneg buf). split; [lia|].
    apply map_eq. intros q. rewrite lookup_alter. case_decide; subst; [|done].
    destruct (d !! _); cbn; by rewrite ?app_nil_r.
  - intros p off n d data Hoff Hn E. destruct (d !! p) as [c|]; simplify_eq. by eexists.
  - intros p d n c E Hc. cbn in *. rewrite Hc in E. by simplify_eq/=.
  - intros p n d ok d' c [= <- <-] Hc Hn. done.
  - intros p n d ok d' q [= <- <-] Hq. done.
  - done.
  - intros p d d' [= <-]. done.
  - auto.
  - intros. apply memory_directory_spec.
  - intros. apply memory_directory_nodup.
Defined.
