(* ===== verification/CrashDisk.v ===== *)
(** * CrashDisk: a process that dies while it works on its files

    [dying W] is the volume [W] as a process sees it that has a given number of calls
    left: it dies in the next call that would change files, of which a write may still
    store the first bytes of its buffer, and nothing the code does afterwards reaches
    the volume.  Running an operation of the storage engine on [dying W] and looking
    at the volume that remains is a crash at an arbitrary point of the operation; the
    bytes given to the operating system stay, as they do when the process is killed
    (CrashPoint.hpp ends the process with [std::_Exit]).  On a volume whose calls
    succeed it is a [FailStop] one. *)
From S2P Require Import Prelude StdString Status FileHandle.

Section dying.
Context (W : Win32).

(** [calls_left] is [None] once the process is dead; [torn_bytes] is what the write
    it dies in still stores. *)
Record dying_disk := mkDying {
  volume : @disk W;
  calls_left : option nat;
  torn_bytes : Z;
}.

Definition with_volume (v : @disk W) (d : dying_disk) : dying_disk :=
  mkDying v (calls_left d) (torn_bytes d).

Definition killed (d : dying_disk) : dying_disk := mkDying (volume d) None (torn_bytes d).

(** A call that changes files: it is made, or it is not. *)
Definition change {A} (d : dying_disk) (failed : A) (f : @disk W -> A * @disk W) : A * dying_disk :=
  match calls_left d with
  | Some (S n) => let '(a, v) := f (volume d) in (a, mkDying v (Some n) (torn_bytes d))
  | _ => (failed, killed d)
  end.

(** The write of the given buffer, or of a part of it. *)
Definition dying_write (p : path) (buf : bytes) (d : dying_disk) : bool * Z * dying_disk :=
  match calls_left d with
  | Some (S n) => let '(ok, w, v) := WriteFile p buf (volume d) in (ok, w, mkDying v (Some n) (torn_bytes d))
  | Some O => let '(_, w, v) := WriteFile p (ztake (torn_bytes d) buf) (volume d) in
              (false, w, mkDying v None (torn_bytes d))
  | None => (false, 0, d)
  end.

Definition dying_create (p : path) (disp : disposition) (d : dying_disk) : bool * dying_disk :=
  match disp with
  | OPEN_EXISTING => let '(ok, v) := CreateFileW p OPEN_EXISTING (volume d) in (ok, with_volume v d)
  | OPEN_ALWAYS => change d false (CreateFileW p OPEN_ALWAYS)
  end.

#[local, refine] Instance dying : Win32 := {|
  disk := dying_disk;
  files d := files (volume d);
  CreateFileW := dying_create;
  WriteFile := dying_write;
  ReadFile p off n d := ReadFile p off n (volume d);
  GetFileSizeEx p d := GetFileSizeEx p (volume d);
  SetFilePointerEx p n d := SetFilePointerEx p n (volume d);
  SetEndOfFile p n d := change d false (SetEndOfFile p n);
  FlushFileBuffers p d := with_volume (FlushFileBuffers p (volume d)) d;
  CreateFileW_directory p b d := CreateFileW_directory p b (volume d);
  fs_create_directories p d := (fun v => with_volume v d) <$> fs_create_directories p (volume d);
  fs_exists p d := fs_exists p (volume d);
  fs_remove p d := (change d tt (fun v => (tt, fs_remove p v))).2;
  fs_directory dir d := fs_directory dir (volume d);
|}.
Proof.
  - intros p disp d ok d' E. unfold dying_create, change in E. destruct disp.
    + destruct (calls_left d) as [[|n]|]; [by simplify_eq| |by simplify_eq].
      destruct (CreateFileW p OPEN_ALWAYS (volume d)) as [b v] eqn:Ec. injection E as <- <-.
      by apply CreateFileW_files in Ec as [Hf _].
    + destruct (CreateFileW p OPEN_EXISTING (volume d)) as [b v] eqn:Ec. injection E as <- <-.
      by apply CreateFileW_files in Ec.
  - intros p buf d ok w d' E. unfold dying_write in E. pose proof (zlen_nonneg buf).
    destruct (calls_left d) as [[|n]|].
    + destruct (WriteFile p _ (volume d)) as [[b w'] v] eqn:Ew. injection E as <- <- <-.
      apply WriteFile_files in Ew as [Hw Hf]. cbn [volume]. rewrite Hf.
      assert (zlen (ztake (torn_bytes d) buf) <= zlen buf).
      { unfold ztake, zlen. rewrite length_take. lia. }
      split; [lia|]. f_equal.
      replace (ztake w' (ztake (torn_bytes d) buf)) with (ztake w' buf); [done|].
      unfold ztake, zlen in *. rewrite length_take in Hw. rewrite take_take. f_equal. lia.
    + destruct (WriteFile p buf (volume d)) as [[b w'] v] eqn:Ew. injection E as <- <- <-.
      by apply WriteFile_files in Ew.
    + injection E as <- <- <-. split; [lia|]. rewrite ztake_0. apply map_eq. intros q.
      rewrite lookup_alter. case_decide; [subst|done].
      destruct (files (volume d) !! _); cbn; by rewrite ?app_nil_r.
  - intros p off n d data. apply ReadFile_data.
  - intros p d n c. apply GetFileSizeEx_size.
  - intros p n d ok d' c E Hc Hn. unfold change in E.
    destruct (calls_left d) as [[|k]|]; [by simplify_eq| |by simplify_eq].
    destruct (SetEndOfFile p n (volume d)) as [b v] eqn:Es. injection E as <- <-.
    by eapply SetEndOfFile_files.
  - intros p n d ok d' q E Hq. unfold change in E.
    destruct (calls_left d) as [[|k]|]; [by simplify_eq| |by simplify_eq].
    destruct (SetEndOfFile p n (volume d)) as [b v] eqn:Es. injection E as <- <-.
    by eapply SetEndOfFile_other.
  - intros p d. apply FlushFileBuffers_files.
  - intros p d d' E. destruct (fs_create_directories p (volume d)) eqn:Ef; [|done].
    injection E as <-. by eapply fs_create_directories_files.
  - intros p d. unfold change. destruct (calls_left d) as [[|k]|]; [by right| |by right].
    apply fs_remove_files.
  - intros dir d name. apply fs_directory_spec.
  - intros dir d. apply fs_directory_nodup.
Defined.

(** A crash is the last failure a process sees. *)
#[global, refine] Instance dying_failstop (R : Reliable W) : FailStop dying := {|
  dead d := calls_left d = None;
|}.
Proof.
  - intros p off n d c. apply (ReadFile_complete (W := W)).
  - intros p d. apply (GetFileSizeEx_complete (W := W)).
  - intros p n d. apply (SetFilePointerEx_complete (W := W)).
  - intros p d. apply (fs_exists_spec (W := W)).
  - intros p d. destruct (fs_create_directories_complete p (volume d)) as [v E].
    exists (with_volume v d). split; [|done]. cbn. by rewrite E.
  - done.
  - intros p d Hs. destruct (CreateFileW_existing p (volume d) Hs) as [v E].
    exists (with_volume v d). split; [|done]. cbn. by rewrite E.
  - intros p d ok d' E. cbn in E. destruct (CreateFileW p OPEN_EXISTING (volume d)).
    by injection E as <- <-.
  - intros p d ok d' E. cbn in E. unfold change in E.
    destruct (calls_left d) as [[|k]|]; [by simplify_eq| |by simplify_eq].
    destruct (CreateFileW_always p (volume d)) as [v Ev]. rewrite Ev in E. by injection E as <- <-.
  - intros p buf d ok w d' E Hs. cbn in E. unfold dying_write in E.
    destruct (calls_left d) as [[|k]|] eqn:El.
    + destruct (WriteFile p _ (volume d)) as [[b w'] v]. injection E as <- <- <-. by right.
    + destruct (WriteFile_complete p buf (volume d) Hs) as [v Ev]. rewrite Ev in E.
      injection E as <- <- <-. by left.
    + injection E as <- <- <-. by right.
  - intros p buf d ok w d' Hd E. cbn in *. unfold dying_write in E. rewrite Hd in E.
    by injection E as <- <- <-.
  - intros p n d ok d' E. cbn in E. unfold change in E.
    destruct (calls_left d) as [[|k]|]; [by simplify_eq| |by simplify_eq].
    destruct (SetEndOfFile_complete p n (volume d)) as [v Ev]. rewrite Ev in E. by injection E as <- <-.
  - intros p d. cbn. unfold change. destruct (calls_left d) as [[|k]|]; [by right| |by right].
    left. split; [apply (fs_remove_complete (W := W))|done].
Defined.

End dying.

Arguments mkDying {W} _ _ _.
Arguments volume {W} _.
Arguments calls_left {W} _.
Arguments torn_bytes {W} _.

(** The volume [d] of a process that makes [n] more calls and stores the first [torn]
    bytes of the write after them. *)
Definition crash_after {W : Win32} (n : nat) (torn : Z) (d : @disk W) : @disk (dying W) :=
  mkDying d (Some n) torn.
