(* ===== verification/OffsetIndex.v ===== *)
(** * OffsetIndex: the sparse index of a segment (src/OffsetIndex.cpp)

    Entries map a relative offset to a file position.  [lookup] is a binary
    search; it is proved to return the position of the last entry at or below
    the target.  The index file is proved to be read back as it was written. *)
From S2P Require Import Prelude StdString Status Crc32 RecordCodec FileHandle.

Record IndexEntry := mkIndexEntry {
  relative_offset : Z;   (* uint32_t *)
  file_position : Z;     (* uint32_t *)
}.

#[global] Instance IndexEntry_eq_dec : EqDecision IndexEntry.
Proof. solve_decision. Defined.

(** [m_entries] *)
Abbreviation OffsetIndex := (list IndexEntry).

(** [std::upper_bound] on [first, first + count): [before e] is the comparison
    of the target with an element. *)
Fixpoint std_upper_bound {A} (before : A -> bool) (l : list A) (fuel first count : nat) : nat :=
  match fuel with
  | O => first
  | S fuel =>
      if bool_decide (count = 0%nat) then first else
      let step := (count / 2)%nat in
      match l !! (first + step)%nat with
      | Some e =>
          if negb (before e)
          then std_upper_bound before l fuel (first + step + 1) (count - (step + 1))
          else std_upper_bound before l fuel first step
      | None => first
      end
  end.

Definition OffsetIndex_add_entry (idx : OffsetIndex) (rel_off file_pos : Z) : OffsetIndex :=
  idx ++ [mkIndexEntry rel_off file_pos].

Definition OffsetIndex_lookup (idx : OffsetIndex) (target_relative_offset : Z) : Z :=
  match idx with
  | [] => 0
  | front :: _ =>
      let it := std_upper_bound (fun e => target_relative_offset <? relative_offset e)
                  idx (length idx) 0 (length idx) in
      if bool_decide (it = 0%nat) then file_position front
      else match idx !! (it - 1)%nat with Some e => file_position e | None => 0 end
  end.

(** The bytes one entry occupies in the file. *)
Definition IndexEntry_write (e : IndexEntry) : bytes :=
  RecordCodec_write_u32 (relative_offset e) ++ RecordCodec_write_u32 (file_position e).

(** The entries of a buffer: the loop of [load_from_file]. *)
Definition index_of_bytes (buffer : bytes) : OffsetIndex :=
  (fun i => mkIndexEntry (RecordCodec_read_u32 (zdrop (i * 8) buffer))
                         (RecordCodec_read_u32 (zdrop (i * 8 + 4) buffer)))
  <$> seqZ 0 (zlen buffer / 8).

Section io.
Context {W : Win32}.

Definition OffsetIndex_load_from_file (file : FileHandle) : io (bool * OffsetIndex) :=
  file_size ← FileHandle_get_size file;
  if file_size =? 0 then mret (true, []) else
  '(ok, data) ← FileHandle_read_at file 0 (u32 file_size);
  let buffer := data ++ replicate (Z.to_nat (file_size - zlen data)) Byte.x00 in
  if negb ok then mret (false, []) else
  mret (true, index_of_bytes buffer).

Definition OffsetIndex_append_to_file (idx : OffsetIndex) (file : FileHandle)
    (rel_off file_pos : Z) : io (bool * OffsetIndex) :=
  let buf := RecordCodec_write_u32 rel_off ++ RecordCodec_write_u32 file_pos in
  let idx := OffsetIndex_add_entry idx rel_off file_pos in
  ok ← FileHandle_write file buf;
  mret (ok, idx).

Definition OffsetIndex_rewrite_file (idx : OffsetIndex) (file : FileHandle) : io bool :=
  _ ← FileHandle_truncate file 0;
  match idx with
  | [] => mret true
  | _ => FileHandle_write file (concat (IndexEntry_write <$> idx))
  end.

End io.

(** ** Binary search *)

Lemma std_upper_bound_split {A} (before : A -> bool) (l1 l2 : list A) fuel first count :
  Forall (fun e => before e = false) l1 -> Forall (fun e => before e = true) l2 ->
  (first <= length l1 <= first + count)%nat -> (first + count <= length (l1 ++ l2))%nat ->
  (count <= fuel)%nat ->
  std_upper_bound before (l1 ++ l2) fuel first count = length l1.
Proof.
  intros H1 H2. revert first count.
  induction fuel as [|fuel IH]; intros first count Hin Hle Hf; cbn [std_upper_bound]; [lia|].
  case_bool_decide; [lia|].
  assert (count / 2 < count)%nat as Hstep by (apply Nat.div_lt; lia).
  destruct (lookup_lt_is_Some_2 (l1 ++ l2) (first + count / 2)) as [e He]; [lia|].
  rewrite He. destruct (decide (first + count / 2 < length l1)%nat) as [Hlt|Hge].
  - rewrite lookup_app_l in He by done.
    rewrite (proj1 (list.Forall_forall _ _) H1 e) by (by eapply list_elem_of_lookup_2).
    apply IH; lia.
  - rewrite lookup_app_r in He by lia.
    rewrite (proj1 (list.Forall_forall _ _) H2 e) by (by eapply list_elem_of_lookup_2).
    apply IH; lia.
Qed.

(** Strictly increasing relative offsets. *)
Abbreviation index_sorted := (StronglySorted (fun a b => relative_offset a < relative_offset b)).

(** Reference: the position of the last entry at or below the target. *)
Definition index_lookup_spec (idx : OffsetIndex) (target : Z) : Z :=
  match list.last (filter (fun e => relative_offset e <= target) idx) with
  | Some e => file_position e
  | None => match idx with [] => 0 | front :: _ => file_position front end
  end.

Lemma index_split idx target :
  index_sorted idx ->
  exists l2, idx = filter (fun e => relative_offset e <= target) idx ++ l2 /\
    Forall (fun e => (target <? relative_offset e) = false)
      (filter (fun e => relative_offset e <= target) idx) /\
    Forall (fun e => (target <? relative_offset e) = true) l2.
Proof.
  induction 1 as [|e idx Hs (l2 & IH & IH1 & IH2) He]; [by exists []|].
  rewrite filter_cons. case_decide as Hle.
  - exists l2. split; [by rewrite <- app_comm_cons, <- IH|]. split; [|done].
    constructor; [|done]. apply Z.ltb_ge. done.
  - assert (filter (fun e => relative_offset e <= target) idx = []) as Hnil.
    { apply filter_none. eapply Forall_impl; [|exact He]. cbn. lia. }
    exists (e :: idx). rewrite Hnil. split_and!; [done|constructor|].
    constructor; [apply Z.ltb_lt; lia|].
    eapply Forall_impl; [|exact He]. cbn. intros x Hx. apply Z.ltb_lt. lia.
Qed.

Lemma OffsetIndex_lookup_correct idx target :
  index_sorted idx -> OffsetIndex_lookup idx target = index_lookup_spec idx target.
Proof.
  intros Hs. destruct (index_split idx target Hs) as (l2 & Hidx & H1 & H2).
  unfold index_lookup_spec. set (l1 := filter _ _) in *. clearbody l1.
  destruct idx as [|front rest]; [by destruct l1|]. unfold OffsetIndex_lookup.
  rewrite Hidx. rewrite std_upper_bound_split by (done || (rewrite ?length_app; lia)).
  destruct l1 as [|e l1] using rev_ind; [done|].
  rewrite bool_decide_eq_false_2 by (rewrite length_app; cbn; lia).
  rewrite list.last_snoc, length_app, Nat.add_sub, <- (app_assoc l1). cbn [app].
  by rewrite list_lookup_middle.
Qed.

(** ** The index file *)

Definition IndexEntry_wf (e : IndexEntry) : Prop :=
  is_u32 (relative_offset e) /\ is_u32 (file_position e).

Definition index_bytes (idx : OffsetIndex) : bytes :=
  concat ((fun e => be_store 4 (relative_offset e) ++ be_store 4 (file_position e)) <$> idx).

Lemma zlen_index_bytes idx : zlen (index_bytes idx) = 8 * zlen idx.
Proof.
  unfold index_bytes. induction idx as [|e idx IH]; cbn [fmap list_fmap concat]; zlen_nil; [done|].
  rewrite !zlen_app, !zlen_be_store, zlen_cons, IH. lia.
Qed.

Lemma index_write_bytes idx :
  Forall IndexEntry_wf idx -> concat (IndexEntry_write <$> idx) = index_bytes idx.
Proof.
  unfold index_bytes. induction 1 as [|e idx [H1 H2] Hidx IH]; [done|].
  cbn [fmap list_fmap concat]. f_equal; [|exact IH].
  unfold IndexEntry_write. by rewrite !RecordCodec_write_u32_be.
Qed.

Lemma index_bytes_app idx1 idx2 : index_bytes (idx1 ++ idx2) = index_bytes idx1 ++ index_bytes idx2.
Proof. unfold index_bytes. by rewrite fmap_app, concat_app. Qed.

Lemma index_read_bytes pre idx tail :
  Forall IndexEntry_wf idx ->
  (fun i => mkIndexEntry (RecordCodec_read_u32 (zdrop (i * 8) (index_bytes pre ++ index_bytes idx ++ tail)))
              (RecordCodec_read_u32 (zdrop (i * 8 + 4) (index_bytes pre ++ index_bytes idx ++ tail))))
    <$> seqZ (zlen pre) (zlen idx) = idx.
Proof.
  intros Hidx. revert pre. induction Hidx as [|e idx [H1 H2] Hidx IH]; intros pre; [done|].
  rewrite zlen_cons. pose proof (zlen_nonneg idx). rewrite seqZ_cons by lia.
  rewrite fmap_cons. f_equal.
  - destruct e as [ro fp]. cbn in H1, H2.
    change (index_bytes (_ :: idx)) with ((be_store 4 ro ++ be_store 4 fp) ++ index_bytes idx).
    f_equal.
    + eapply (read_u32_at _ _ (index_bytes pre));
        [by rewrite <- !app_assoc|rewrite zlen_index_bytes; lia|done].
    + eapply (read_u32_at _ _ (index_bytes pre ++ be_store 4 ro));
        [by rewrite <- !app_assoc|rewrite zlen_app, zlen_index_bytes, zlen_be_store; lia|done].
  - specialize (IH (pre ++ [e])).
    rewrite zlen_app in IH. change (zlen [e]) with 1 in IH.
    rewrite index_bytes_app in IH.
    replace (Z.pred (1 + zlen idx)) with (zlen idx) by lia.
    change (Z.succ (zlen pre)) with (zlen pre + 1).
    replace (index_bytes (e :: idx)) with (index_bytes [e] ++ index_bytes idx)
      by (by rewrite <- index_bytes_app).
    rewrite <- (app_assoc (index_bytes [e])), (app_assoc (index_bytes pre)). exact IH.
Qed.

Lemma index_of_bytes_of idx : Forall IndexEntry_wf idx -> index_of_bytes (index_bytes idx) = idx.
Proof.
  intros Hidx. unfold index_of_bytes. rewrite zlen_index_bytes, Z.mul_comm, Z.div_mul by lia.
  pose proof (index_read_bytes [] idx [] Hidx) as Hrd.
  change (index_bytes []) with (@nil byte) in Hrd. cbn [app] in Hrd.
  by rewrite app_nil_r in Hrd.
Qed.

Section failstop.
Context {W : Win32} {F : FailStop W}.

Lemma wp_index_load_any p c Q d :
  files d !! p = Some c -> is_u32 (zlen c) ->
  Q (true, index_of_bytes c) d -> wp (OffsetIndex_load_from_file (Some p)) Q d.
Proof.
  intros Hp Hlen HQ. unfold OffsetIndex_load_from_file.
  apply wp_bind. eapply wp_get_size_ok; [done|].
  destruct (Z.eqb_spec (zlen c) 0) as [Hz|Hz].
  - apply zlen_zero in Hz. subst c. by apply wp_ret.
  - apply wp_bind. rewrite u32_id by done.
    eapply wp_read_ok; [done|lia|apply zlen_nonneg|lia|].
    rewrite zdrop_0, ztake_ge, Z.sub_diag, app_nil_r by lia. cbn [negb]. by apply wp_ret.
Qed.

Lemma wp_index_load p idx Q d :
  files d !! p = Some (index_bytes idx) -> Forall IndexEntry_wf idx ->
  is_u32 (zlen (index_bytes idx)) ->
  Q (true, idx) d -> wp (OffsetIndex_load_from_file (Some p)) Q d.
Proof.
  intros Hp Hidx Hlen HQ. eapply wp_index_load_any; [done|done|].
  by rewrite index_of_bytes_of.
Qed.

Lemma inert_rewrite idx h : inert (OffsetIndex_rewrite_file idx h) (fun _ => True).
Proof.
  eapply inert_bind; [apply inert_truncate|]. intros _ _.
  destruct idx; [by apply inert_ret|]. by eapply inert_mono; [apply inert_write|].
Qed.

(** The index file is replaced by the entries, or the volume dies and the file is
    the old one or a part of the new one. *)
Lemma wp_index_rewrite_stop p idx c Q d :
  files d !! p = Some c -> Forall IndexEntry_wf idx ->
  (forall d', ~ dead d' -> files d' = <[p := index_bytes idx]> (files d) -> Q true d') ->
  (forall ok c' d', dead d' -> files d' = <[p := c']> (files d) ->
     zlen c' <= Z.max (zlen c) (zlen (index_bytes idx)) -> Q ok d') ->
  wp (OffsetIndex_rewrite_file idx (Some p)) Q d.
Proof.
  intros Hp Hidx HQ Hfail. unfold OffsetIndex_rewrite_file. pose proof (zlen_nonneg c).
  rewrite index_write_bytes by done.
  apply wp_bind. eapply wp_truncate_stop; [done|lia|..]; rewrite ?ztake_0; intros d' Hd Hd'.
  - destruct idx as [|e idx]; [by apply wp_ret, HQ|]. set (new := index_bytes (e :: idx)) in *.
    eapply wp_write_stop; [rewrite Hd'; apply lookup_insert_eq|..].
    + intros d'' Hd2 Hd''. apply HQ; [done|]. by rewrite Hd'', Hd', insert_insert_eq.
    + intros n d'' Hn Hd2 Hd''. eapply Hfail; [done|by rewrite Hd'', Hd', insert_insert_eq|].
      cbn [app]. rewrite zlen_ztake by lia. lia.
  - assert (forall d'', dead d'' -> files d'' = files d' -> forall ok, Q ok d'') as Hend.
    { intros d'' Hd2 Hd'' ok. apply (Hfail _ c); [done|rewrite Hd'', Hd'; by rewrite insert_id|lia]. }
    destruct idx as [|e idx]; [by apply wp_ret, Hend|].
    eapply inert_wp; [apply inert_write|done|]. intros. by apply Hend.
Qed.

Lemma wp_index_append_stop p idx ro fp Q d :
  files d !! p = Some (index_bytes idx) -> is_u32 ro -> is_u32 fp ->
  (forall d', ~ dead d' -> files d' = <[p := index_bytes (idx ++ [mkIndexEntry ro fp])]> (files d) ->
     Q (true, idx ++ [mkIndexEntry ro fp]) d') ->
  (forall i c d', dead d' -> files d' = <[p := c]> (files d) ->
     zlen c <= zlen (index_bytes idx) + 8 -> Q (false, i) d') ->
  wp (OffsetIndex_append_to_file idx (Some p) ro fp) Q d.
Proof.
  intros Hp Hro Hfp HQ Hfail. unfold OffsetIndex_append_to_file. apply wp_bind.
  eapply wp_write_stop; [done|intros d' Hd Hd'|intros n d' Hn Hd Hd']; apply wp_ret.
  - apply HQ; [done|].
    rewrite Hd', index_bytes_app, !RecordCodec_write_u32_be by done.
    change (index_bytes [mkIndexEntry ro fp]) with ((be_store 4 ro ++ be_store 4 fp) ++ []).
    by rewrite app_nil_r.
  - eapply Hfail; [done|exact Hd'|]. rewrite !RecordCodec_write_u32_be in * by done.
    rewrite zlen_app, zlen_ztake by lia. rewrite zlen_app, !zlen_be_store. lia.
Qed.

End failstop.

Section reliable.
Context {W : Win32} {R : Reliable W}.

Lemma wp_index_rewrite p idx c Q d :
  files d !! p = Some c -> Forall IndexEntry_wf idx ->
  (forall d', files d' = <[p := index_bytes idx]> (files d) -> Q true d') ->
  wp (OffsetIndex_rewrite_file idx (Some p)) Q d.
Proof. intros Hp Hidx HQ. eapply wp_index_rewrite_stop; [done..|by eauto|done]. Qed.

(** What the index writes to its file it reads back: on a volume whose calls
    succeed, rewriting the index file of a list of entries, whatever the file
    held before, and loading it returns exactly these entries. *)
Theorem index_file_roundtrip p idx c d :
  files d !! p = Some c -> Forall IndexEntry_wf idx -> 8 * zlen idx < 2 ^ 32 ->
  wp (_ ← OffsetIndex_rewrite_file idx (Some p); OffsetIndex_load_from_file (Some p))
     (fun '(ok, idx') d' => ok = true /\ idx' = idx /\ files d' !! p = Some (index_bytes idx)) d.
Proof.
  intros Hp Hidx Hlen. apply wp_bind. eapply wp_index_rewrite; [done..|]. intros d' Hd'.
  assert (files d' !! p = Some (index_bytes idx)) as Hp' by (rewrite Hd'; apply lookup_insert_eq).
  eapply wp_index_load; [done..| |done].
  rewrite zlen_index_bytes. pose proof (zlen_nonneg idx). unfold is_u32. lia.
Qed.

End reliable.

Example index_file_roundtrip_witness :
  let p := [str "data"; str "0.index"] in
  let d : @disk memory_disk := {[ p := str "old" ]} in
  let idx := [mkIndexEntry 0 0; mkIndexEntry 70 4100] in
  wp (_ ← OffsetIndex_rewrite_file idx (Some p); OffsetIndex_load_from_file (Some p))
     (fun '(ok, idx') d' => ok = true /\ idx' = idx /\ files d' !! p = Some (index_bytes idx)) d.
Proof.
  apply (index_file_roundtrip (W := memory_disk) _ _ (str "old")).
  - reflexivity.
  - repeat constructor; cbn; lia.
  - vm_compute. reflexivity.
Defined.

(** The binary search of [lookup] is right: on an index with increasing
    relative offsets it returns the position of the last entry that is at or
    below the target, of the first entry when there is none, and 0 for an empty
    index. *)
Theorem index_lookup_correct idx target :
  StronglySorted (fun a b => relative_offset a < relative_offset b) idx ->
  OffsetIndex_lookup idx target = index_lookup_spec idx target.
Proof. apply OffsetIndex_lookup_correct. Qed.

Example index_lookup_correct_witness :
  OffsetIndex_lookup [mkIndexEntry 0 0; mkIndexEntry 40 4100; mkIndexEntry 90 8300] 89 = 4100.
Proof.
  etransitivity; [apply index_lookup_correct|].
  - repeat constructor; cbn; lia.
  - reflexivity.
Defined.
