(* ===== verification/LogSegment.v ===== *)
(** * LogSegment: one segment of a partition's log (src/LogSegment.cpp)

    The state of a segment is the record [LogSegment] with the members of the
    class (the three paths are functions of the base offset and the directory,
    as in the constructor); every member function is a definition of the [io]
    monad that returns the segment it leaves behind.  The warnings sent to the
    logger and the crash points, which the default build compiles away, have no
    counterpart.

    [seg_view d s rs] says that the segment [s] on the volume [d] holds exactly
    the records [rs]; [seg_stats s rs] that its running totals are those of
    [rs].  Appending, reading, sealing and recovery are specified by them. *)
From S2P Require Import Prelude StdString Status Crc32 RecordCodec FileHandle OffsetIndex.

Record SealedMarker := mkSealedMarker {
  magic : Z;               (* uint32_t *)
  record_count : Z;        (* uint64_t *)
  last_offset : Z;         (* uint64_t *)
  crc32_of_whole_log : Z;  (* uint32_t *)
  max_timestamp_ms : Z;    (* int64_t *)
}.

Definition SEALED_MAGIC : Z := 0x5346534C.

(** The packed struct in memory. *)
Definition SealedMarker_bytes (m : SealedMarker) : bytes :=
  le_store 4 (magic m) ++ le_store 8 (record_count m) ++ le_store 8 (last_offset m) ++
  le_store 4 (crc32_of_whole_log m) ++ le_store 8 (max_timestamp_ms m).

Definition SealedMarker_of (bs : bytes) : SealedMarker :=
  mkSealedMarker (le_load (ztake 4 bs)) (le_load (ztake 8 (zdrop 4 bs)))
    (le_load (ztake 8 (zdrop 12 bs))) (le_load (ztake 4 (zdrop 20 bs)))
    (i64 (le_load (ztake 8 (zdrop 24 bs)))).

Definition sizeof_SealedMarker : Z := 32.

Record LogSegment := mkLogSegment {
  m_base_offset : Z;             (* uint64_t *)
  m_partition_dir : path;
  m_log_file : FileHandle;
  m_index_file : FileHandle;
  m_index : OffsetIndex;
  m_log_size_bytes : Z;          (* uint32_t *)
  m_bytes_since_last_index : Z;  (* uint32_t *)
  m_index_interval_bytes : Z;    (* uint32_t *)
  m_is_sealed : bool;
  m_running_crc_raw : Z;         (* uint32_t *)
  m_record_count : Z;            (* uint64_t *)
  m_last_offset : Z;             (* uint64_t *)
  m_max_timestamp_ms : Z;        (* int64_t *)
}.

(** Assignments to the members. *)
Definition seg_set_files (log idx : FileHandle) (s : LogSegment) : LogSegment :=
  mkLogSegment (m_base_offset s) (m_partition_dir s) log idx (m_index s)
    (m_log_size_bytes s) (m_bytes_since_last_index s) (m_index_interval_bytes s) (m_is_sealed s)
    (m_running_crc_raw s) (m_record_count s) (m_last_offset s) (m_max_timestamp_ms s).
Definition seg_set_index (i : OffsetIndex) (s : LogSegment) : LogSegment :=
  mkLogSegment (m_base_offset s) (m_partition_dir s) (m_log_file s) (m_index_file s) i
    (m_log_size_bytes s) (m_bytes_since_last_index s) (m_index_interval_bytes s) (m_is_sealed s)
    (m_running_crc_raw s) (m_record_count s) (m_last_offset s) (m_max_timestamp_ms s).
Definition seg_set_size (n : Z) (s : LogSegment) : LogSegment :=
  mkLogSegment (m_base_offset s) (m_partition_dir s) (m_log_file s) (m_index_file s) (m_index s)
    n (m_bytes_since_last_index s) (m_index_interval_bytes s) (m_is_sealed s)
    (m_running_crc_raw s) (m_record_count s) (m_last_offset s) (m_max_timestamp_ms s).
Definition seg_set_since (n : Z) (s : LogSegment) : LogSegment :=
  mkLogSegment (m_base_offset s) (m_partition_dir s) (m_log_file s) (m_index_file s) (m_index s)
    (m_log_size_bytes s) n (m_index_interval_bytes s) (m_is_sealed s)
    (m_running_crc_raw s) (m_record_count s) (m_last_offset s) (m_max_timestamp_ms s).
Definition seg_set_sealed (b : bool) (s : LogSegment) : LogSegment :=
  mkLogSegment (m_base_offset s) (m_partition_dir s) (m_log_file s) (m_index_file s) (m_index s)
    (m_log_size_bytes s) (m_bytes_since_last_index s) (m_index_interval_bytes s) b
    (m_running_crc_raw s) (m_record_count s) (m_last_offset s) (m_max_timestamp_ms s).
Definition seg_set_totals (crc count last ts : Z) (s : LogSegment) : LogSegment :=
  mkLogSegment (m_base_offset s) (m_partition_dir s) (m_log_file s) (m_index_file s) (m_index s)
    (m_log_size_bytes s) (m_bytes_since_last_index s) (m_index_interval_bytes s) (m_is_sealed s)
    crc count last ts.

Definition LogSegment_format_base_offset (base_offset : Z) : bytes :=
  setw_fill0 20 (std_to_string base_offset).

Definition segment_path (ext : bytes) (base_offset : Z) (dir : path) : path :=
  dir ++ [LogSegment_format_base_offset base_offset ++ ext].

Definition LogSegment_log_path (s : LogSegment) : path :=
  segment_path (str ".log") (m_base_offset s) (m_partition_dir s).
Definition LogSegment_index_path (s : LogSegment) : path :=
  segment_path (str ".index") (m_base_offset s) (m_partition_dir s).
Definition LogSegment_sealed_path (s : LogSegment) : path :=
  segment_path (str ".sealed") (m_base_offset s) (m_partition_dir s).

(** The constructor. *)
Definition LogSegment_new (base_offset : Z) (dir : path) (index_interval : Z) : LogSegment :=
  mkLogSegment base_offset dir None None [] 0 0 index_interval false INITIAL_CRC 0 0 0.

Definition LogSegment_running_crc (s : LogSegment) : Z := Crc32_finalize (m_running_crc_raw s).

Definition LogSegment_lookup_file_position (s : LogSegment) (target_offset : Z) : Z :=
  if target_offset <=? m_base_offset s then 0
  else OffsetIndex_lookup (m_index s) (u32 (target_offset - m_base_offset s)).

(** One validated record is added to the totals and, when due, to the index:
    the body of the scanning loops after [decode]. *)
Definition LogSegment_account (s : LogSegment) (current_pos bytes_since_idx : Z)
    (buf : bytes) (record : Record) : LogSegment * Z :=
  let rel_offset := u32 (offset record - m_base_offset s) in
  let '(s, bytes_since_idx) :=
    if bool_decide (m_index s = []) || (m_index_interval_bytes s <=? bytes_since_idx)
    then (seg_set_index (OffsetIndex_add_entry (m_index s) rel_offset current_pos) s, 0)
    else (s, bytes_since_idx) in
  (seg_set_totals (Crc32_update (m_running_crc_raw s) buf) (u64 (m_record_count s + 1))
     (offset record)
     (if m_max_timestamp_ms s <? timestamp_ms record then timestamp_ms record
      else m_max_timestamp_ms s) s,
   bytes_since_idx).

Section LogSegment.
Context {W : Win32}.

Definition LogSegment_has_sealed_marker (s : LogSegment) : io bool :=
  io_get (fs_exists (LogSegment_sealed_path s)).

(** What an incomplete read leaves in [out_marker] is not given: the callers use it
    only when the status is OK. *)
Definition LogSegment_read_sealed_marker (s : LogSegment) : io (Status * SealedMarker) :=
  let empty := mkSealedMarker SEALED_MAGIC 0 0 0 0 in
  marker_file ← FileHandle_open_read_only (LogSegment_sealed_path s);
  if negb (FileHandle_is_valid marker_file) then
    mret (mkStatus NotFound (str "Sealed marker file not found: " ++
            path_string (LogSegment_sealed_path s)), empty) else
  '(ok, data) ← FileHandle_read_at marker_file 0 sizeof_SealedMarker;
  let out_marker := SealedMarker_of data in
  if negb ok || (zlen data <? 24) then
    mret (mkStatus Corrupt (str "Sealed marker file corrupted or incomplete: " ++
            path_string (LogSegment_sealed_path s)), empty) else
  if negb (magic out_marker =? SEALED_MAGIC) then
    mret (mkStatus Corrupt (str "Invalid sealed marker magic header in " ++
            path_string (LogSegment_sealed_path s)), out_marker) else
  mret (Status_OK, out_marker).

Definition LogSegment_write_sealed_marker (s : LogSegment) : io Status :=
  marker_file ← FileHandle_open_read_write (LogSegment_sealed_path s) true;
  if negb (FileHandle_is_valid marker_file) then
    mret (mkStatus IoError (str "Failed to open sealed marker file: " ++
            path_string (LogSegment_sealed_path s))) else
  let marker := mkSealedMarker SEALED_MAGIC (m_record_count s) (m_last_offset s)
                  (LogSegment_running_crc s) (m_max_timestamp_ms s) in
  ok ← FileHandle_write marker_file (SealedMarker_bytes marker);
  if negb ok then mret (mkStatus IoError (str "Failed to write sealed marker to file")) else
  _ ← FileHandle_flush marker_file;
  mret Status_OK.

Definition LogSegment_open (s : LogSegment) : io (Status * LogSegment) :=
  _ ← create_directories (m_partition_dir s);
  log ← FileHandle_open_read_write (LogSegment_log_path s) true;
  let s := seg_set_files log (m_index_file s) s in
  if negb (FileHandle_is_valid log) then
    mret (mkStatus IoError (str "Failed to open log file: " ++
            path_string (LogSegment_log_path s)), s) else
  idx ← FileHandle_open_read_write (LogSegment_index_path s) true;
  let s := seg_set_files (m_log_file s) idx s in
  if negb (FileHandle_is_valid idx) then
    mret (mkStatus IoError (str "Failed to open index file: " ++
            path_string (LogSegment_index_path s)), s) else
  size ← FileHandle_get_size (m_log_file s);
  let s := seg_set_size (u32 size) s in
  '(loaded, entries) ← OffsetIndex_load_from_file (m_index_file s);
  let s := seg_set_index entries s in
  if negb loaded then
    mret (mkStatus IoError (str "Failed to load index file: " ++
            path_string (LogSegment_index_path s)), s) else
  let s := seg_set_since
    match list.last (m_index s) with
    | Some e => if file_position e <=? m_log_size_bytes s
                then u32 (m_log_size_bytes s - file_position e) else 0
    | None => m_log_size_bytes s
    end s in
  has ← LogSegment_has_sealed_marker s;
  if negb has then mret (Status_OK, s) else
  '(st, marker) ← LogSegment_read_sealed_marker s;
  if negb (Status_ok st) then mret (Status_OK, s) else
  mret (Status_OK,
    seg_set_sealed true
      (seg_set_totals (m_running_crc_raw s) (record_count marker) (last_offset marker)
         (max_timestamp_ms marker) s)).

Definition LogSegment_flush (s : LogSegment) : io unit :=
  _ ← FileHandle_flush (m_log_file s); FileHandle_flush (m_index_file s).

Definition LogSegment_seal (s : LogSegment) : io LogSegment :=
  let s := seg_set_sealed true s in
  _ ← LogSegment_flush s;
  mret s.

(** The record of the caller, whose timestamp is overwritten, is not used after
    the call and is not returned. *)
Definition LogSegment_append_with_timestamp (s : LogSegment) (record : Record) (custom_ts : Z)
    (sync : bool) : io (Status * LogSegment) :=
  if m_is_sealed s then
    mret (mkStatus IoError (str "Cannot append to a sealed log segment"), s) else
  let record := mkRecord (offset record) custom_ts (key record) (value record) in
  encoded ← io_opt (RecordCodec_encode record);
  if MAX_RECORD_SIZE <? zlen encoded then
    mret (mkStatus RecordTooLarge (str "Record size " ++ std_to_string (zlen encoded) ++
            str " exceeds 1 MiB limit"), s) else
  let record_bytes := u32 (zlen encoded) in
  let record_pos := m_log_size_bytes s in
  written ← FileHandle_write (m_log_file s) encoded;
  if negb written then mret (mkStatus IoError (str "Failed to write record to log file"), s) else
  let s := seg_set_size (u32 (m_log_size_bytes s + record_bytes)) s in
  let s := seg_set_totals (Crc32_update (m_running_crc_raw s) encoded) (u64 (m_record_count s + 1))
             (offset record)
             (if m_max_timestamp_ms s <? custom_ts then custom_ts else m_max_timestamp_ms s) s in
  let rel_offset := u32 (offset record - m_base_offset s) in
  if bool_decide (m_index s = []) || (m_index_interval_bytes s <=? m_bytes_since_last_index s) then
    '(ok, entries) ← OffsetIndex_append_to_file (m_index s) (m_index_file s) rel_offset record_pos;
    let s := seg_set_index entries s in
    if negb ok then mret (mkStatus IoError (str "Failed to append index entry"), s) else
    let s := seg_set_since 0 s in
    _ ← (if sync then LogSegment_flush s else mret tt);
    mret (Status_OK, s)
  else
    let s := seg_set_since (u32 (m_bytes_since_last_index s + record_bytes)) s in
    _ ← (if sync then LogSegment_flush s else mret tt);
    mret (Status_OK, s).

Definition LogSegment_append (s : LogSegment) (record : Record) (sync : bool)
    : io (Status * LogSegment) :=
  LogSegment_append_with_timestamp s record (timestamp_ms record) sync.

Definition LogSegment_read_record_at (s : LogSegment) (file_pos : Z) (out_record : Record)
    : io (Status * Record) :=
  if m_log_size_bytes s <=? file_pos then
    mret (mkStatus OffsetOutOfRange (str "File position beyond log size"), out_record) else
  '(ok, header) ← FileHandle_read_at (m_log_file s) file_pos 28;
  if negb ok then
    mret (mkStatus Corrupt (str "Failed to read record header at position " ++
            std_to_string file_pos), out_record) else
  let length := RecordCodec_read_u32 header in
  if (length <? 24) || (MAX_RECORD_SIZE <? length) then
    mret (mkStatus Corrupt (str "Invalid record length (" ++ std_to_string length ++
            str ") at position " ++ std_to_string file_pos), out_record) else
  let total_record_size := u32 (4 + length) in
  '(ok, buffer) ← FileHandle_read_at (m_log_file s) file_pos total_record_size;
  if negb ok then
    mret (mkStatus Corrupt (str "Failed to read complete record buffer at position " ++
            std_to_string file_pos), out_record) else
  io_opt (RecordCodec_decode buffer out_record).

(** The scanning loop of [recover_and_rebuild_index]; it is left with the segment,
    the position reached, the bytes since the last index entry and the next
    offset.  Each round advances by at least 28 bytes, so that the size of the log
    bounds the number of rounds. *)
Fixpoint LogSegment_recover_loop (fuel : nat) (s : LogSegment)
    (current_pos bytes_since_idx out_next_offset : Z) : io (LogSegment * Z * Z * Z) :=
  let break := mret (s, current_pos, bytes_since_idx, out_next_offset) in
  match fuel with
  | O => io_fail
  | S fuel =>
      if negb (current_pos <? m_log_size_bytes s) then break else
      if m_log_size_bytes s <? u32 (current_pos + 28) then break else
      '(ok, header) ← FileHandle_read_at (m_log_file s) current_pos 28;
      if negb ok then break else
      let length := RecordCodec_read_u32 header in
      if (length <? 24) || (MAX_RECORD_SIZE <? length) then break else
      let total_size := u32 (4 + length) in
      if m_log_size_bytes s <? u32 (current_pos + total_size) then break else
      '(ok, buf) ← FileHandle_read_at (m_log_file s) current_pos total_size;
      if negb ok then break else
      '(st, record) ← io_opt (RecordCodec_decode buf empty_Record);
      if negb (Status_ok st) then break else
      let '(s, bytes_since_idx) := LogSegment_account s current_pos bytes_since_idx buf record in
      LogSegment_recover_loop fuel s (u32 (current_pos + total_size))
        (u32 (bytes_since_idx + total_size)) (u64 (offset record + 1))
  end.

(** Both scans end alike: the unreadable tail is cut off and the index file is
    rewritten. *)
Definition LogSegment_finish_scan (s : LogSegment) (current_pos bytes_since_idx : Z)
    : io LogSegment :=
  s ← (if current_pos <? m_log_size_bytes s then
         _ ← FileHandle_truncate (m_log_file s) current_pos;
         mret (seg_set_size current_pos s)
       else mret s);
  _ ← OffsetIndex_rewrite_file (m_index s) (m_index_file s);
  mret (seg_set_since bytes_since_idx s).

Definition LogSegment_recover_and_rebuild_index (s : LogSegment) : io (Status * LogSegment * Z) :=
  let s := seg_set_index [] s in
  size ← FileHandle_get_size (m_log_file s);
  let s := seg_set_size (u32 size) s in
  let s := seg_set_totals INITIAL_CRC 0 (m_base_offset s) 0 s in
  '(s, current_pos, bytes_since_idx, out_next_offset) ←
    LogSegment_recover_loop (S (Z.to_nat (m_log_size_bytes s))) s 0 0 (m_base_offset s);
  s ← LogSegment_finish_scan s current_pos bytes_since_idx;
  mret (Status_OK, s, out_next_offset).

Definition LogSegment_verify_quick (s : LogSegment) : io (Status * bool) :=
  if m_log_size_bytes s =? 0 then mret (Status_OK, true) else
  if m_log_size_bytes s <? 28 then mret (Status_OK, false) else
  if existsb (fun entry => m_log_size_bytes s <=? file_position entry) (m_index s)
  then mret (Status_OK, false) else
  '(st_first, _) ← LogSegment_read_record_at s 0 empty_Record;
  if negb (Status_ok st_first) then mret (Status_OK, false) else
  let last_rec_pos :=
    if (m_base_offset s <=? m_last_offset s) && (0 <? m_record_count s)
    then LogSegment_lookup_file_position s (m_last_offset s)
    else match list.last (m_index s) with Some e => file_position e | None => 0 end in
  if last_rec_pos <? m_log_size_bytes s then
    '(st, _) ← LogSegment_read_record_at s last_rec_pos empty_Record;
    mret (Status_OK, Status_ok st)
  else mret (Status_OK, true).

(** The counters of [verify_and_rebuild_full]: bytes scanned, records validated,
    corruptions. *)
Record ScanReport := mkScanReport {
  out_bytes_scanned : Z;
  out_records_validated : Z;
  out_corruption_count : Z;
}.

Definition report_corruption (r : ScanReport) : ScanReport :=
  mkScanReport (out_bytes_scanned r) (out_records_validated r) (u64 (out_corruption_count r + 1)).

Fixpoint LogSegment_verify_loop (fuel : nat) (s : LogSegment)
    (current_pos bytes_since_idx : Z) (rep : ScanReport) : io (LogSegment * Z * Z * ScanReport) :=
  let break rep := mret (s, current_pos, bytes_since_idx, rep) in
  match fuel with
  | O => io_fail
  | S fuel =>
      if negb (current_pos <? m_log_size_bytes s) then break rep else
      if m_log_size_bytes s <? u32 (current_pos + 28) then break (report_corruption rep) else
      '(ok, header) ← FileHandle_read_at (m_log_file s) current_pos 28;
      if negb ok then break (report_corruption rep) else
      let length := RecordCodec_read_u32 header in
      if (length <? 24) || (MAX_RECORD_SIZE <? length) then break (report_corruption rep) else
      let total_size := u32 (4 + length) in
      if m_log_size_bytes s <? u32 (current_pos + total_size) then break (report_corruption rep) else
      '(ok, buf) ← FileHandle_read_at (m_log_file s) current_pos total_size;
      if negb ok then break (report_corruption rep) else
      '(st, record) ← io_opt (RecordCodec_decode buf empty_Record);
      if negb (Status_ok st) then break (report_corruption rep) else
      let '(s, bytes_since_idx) := LogSegment_account s current_pos bytes_since_idx buf record in
      LogSegment_verify_loop fuel s (u32 (current_pos + total_size))
        (u32 (bytes_since_idx + total_size))
        (mkScanReport (u64 (out_bytes_scanned rep + total_size))
           (u64 (out_records_validated rep + 1)) (out_corruption_count rep))
  end.

Definition LogSegment_verify_and_rebuild_full (s : LogSegment) (rep : ScanReport)
    : io (Status * LogSegment * ScanReport) :=
  let s := seg_set_index [] s in
  size ← FileHandle_get_size (m_log_file s);
  let s := seg_set_size (u32 size) s in
  let s := seg_set_totals INITIAL_CRC 0 (m_base_offset s) 0 s in
  '(s, current_pos, bytes_since_idx, rep) ←
    LogSegment_verify_loop (S (Z.to_nat (m_log_size_bytes s))) s 0 0 rep;
  s ← LogSegment_finish_scan s current_pos bytes_since_idx;
  mret (Status_OK, s, rep).

End LogSegment.

(** ** What a segment holds *)

Definition log_bytes (rs : list Record) : bytes := concat (record_bytes <$> rs).

(** File position of record [i]. *)
Definition rec_pos (rs : list Record) (i : nat) : Z := zlen (log_bytes (take i rs)).

(** No position or size computed in 32 bits wraps below this size. *)
Definition LOG_LIMIT : Z := 2 ^ 32 - 2 ^ 21.

(** Well-formed records with consecutive offsets. *)
Definition recs_ok (base : Z) (rs : list Record) : Prop :=
  Forall Record_wf rs /\ forall i r, rs !! i = Some r -> offset r = base + Z.of_nat i.

Definition entry_ok (rs : list Record) (e : IndexEntry) : Prop :=
  exists i, (i < length rs)%nat /\ e = mkIndexEntry (Z.of_nat i) (rec_pos rs i).

(** Every entry points at the record it names, entries are in order, and the
    first record is indexed. *)
Record index_ok (rs : list Record) (es : OffsetIndex) : Prop := {
  io_entries : Forall (entry_ok rs) es;
  io_sorted : index_sorted es;
  io_head : match es with [] => rs = [] | e :: _ => e = mkIndexEntry 0 0 end;
}.

Definition max_ts (rs : list Record) : Z :=
  foldl (fun m r => if m <? timestamp_ms r then timestamp_ms r else m) 0 rs.

Record seg_totals (s : LogSegment) (rs : list Record) : Prop := {
  st_crc : m_running_crc_raw s = Crc32_update INITIAL_CRC (log_bytes rs);
  st_count : m_record_count s = zlen rs;
  st_last : rs <> [] -> m_last_offset s = m_base_offset s + zlen rs - 1;
  st_max_ts : m_max_timestamp_ms s = max_ts rs;
}.

Section view.
Context {W : Win32}.

Record seg_view (d : disk) (s : LogSegment) (rs : list Record) : Prop := {
  sv_log_file : m_log_file s = Some (LogSegment_log_path s);
  sv_index_file : m_index_file s = Some (LogSegment_index_path s);
  sv_log : files d !! LogSegment_log_path s = Some (log_bytes rs);
  sv_idx : files d !! LogSegment_index_path s = Some (index_bytes (m_index s));
  sv_size : m_log_size_bytes s = zlen (log_bytes rs);
  sv_limit : zlen (log_bytes rs) <= LOG_LIMIT;
  sv_recs : recs_ok (m_base_offset s) rs;
  sv_base : 0 <= m_base_offset s /\ m_base_offset s + zlen rs < 2 ^ 64;
  sv_index : index_ok rs (m_index s);
}.

End view.

(** ** Positions *)

#[local] Arguments record_bytes : simpl never.
#[local] Opaque Crc32_update Crc32_calculate.
#[local] Opaque RecordCodec_encode RecordCodec_decode.

Lemma log_bytes_app rs1 rs2 : log_bytes (rs1 ++ rs2) = log_bytes rs1 ++ log_bytes rs2.
Proof. unfold log_bytes. by rewrite fmap_app, concat_app. Qed.

Lemma log_bytes_cons r rs : log_bytes (r :: rs) = record_bytes r ++ log_bytes rs.
Proof. done. Qed.

Lemma log_bytes_one r : log_bytes [r] = record_bytes r.
Proof. unfold log_bytes. cbn. apply app_nil_r. Qed.

Lemma log_bytes_split rs i r :
  rs !! i = Some r ->
  log_bytes rs = log_bytes (take i rs) ++ record_bytes r ++ log_bytes (drop (S i) rs).
Proof.
  intros Hr. rewrite <- (take_drop_middle rs i r Hr) at 1.
  by rewrite log_bytes_app, log_bytes_cons.
Qed.

Lemma rec_pos_0 rs : rec_pos rs 0 = 0.
Proof. done. Qed.

Lemma rec_pos_S rs i r : rs !! i = Some r -> rec_pos rs (S i) = rec_pos rs i + record_size r.
Proof.
  intros Hr. unfold rec_pos. erewrite take_S_r by done.
  by rewrite log_bytes_app, zlen_app, log_bytes_one, zlen_record_bytes.
Qed.

Lemma rec_pos_all rs i : (length rs <= i)%nat -> rec_pos rs i = zlen (log_bytes rs).
Proof. intros. unfold rec_pos. by rewrite take_ge. Qed.

Lemma rec_pos_bound rs i r :
  rs !! i = Some r -> 0 <= rec_pos rs i /\ rec_pos rs i + record_size r <= zlen (log_bytes rs).
Proof.
  intros Hr. split; [apply zlen_nonneg|]. rewrite (log_bytes_split rs i r) by done.
  unfold rec_pos. rewrite !zlen_app, zlen_record_bytes.
  pose proof (zlen_nonneg (log_bytes (drop (S i) rs))). lia.
Qed.

Lemma rec_pos_app rs rs' i : (i <= length rs)%nat -> rec_pos (rs ++ rs') i = rec_pos rs i.
Proof. intros. unfold rec_pos. by rewrite take_app_le. Qed.

Lemma zlen_log_bytes_ge rs : 28 * zlen rs <= zlen (log_bytes rs).
Proof.
  induction rs as [|r rs IH]; [done|]. rewrite log_bytes_cons, zlen_cons, zlen_app, zlen_record_bytes.
  pose proof (record_size_ge r). lia.
Qed.

Lemma zlen_take_nat {A} (l : list A) i : (i <= length l)%nat -> zlen (take i l) = Z.of_nat i.
Proof. intros. unfold zlen. rewrite length_take. lia. Qed.

Lemma rec_pos_ge rs i : (i <= length rs)%nat -> 28 * Z.of_nat i <= rec_pos rs i.
Proof.
  intros Hi. unfold rec_pos. pose proof (zlen_log_bytes_ge (take i rs)).
  rewrite zlen_take_nat in H by done. done.
Qed.

(** The part of the log from record [i] on. *)
Lemma zdrop_rec_pos rs i : zdrop (rec_pos rs i) (log_bytes rs) = log_bytes (drop i rs).
Proof.
  unfold rec_pos. rewrite <- (take_drop i rs) at 2. rewrite log_bytes_app.
  by apply zdrop_app_exact.
Qed.

(** ** Records *)

Lemma recs_ok_app base rs1 rs2 :
  recs_ok base (rs1 ++ rs2) <-> recs_ok base rs1 /\ recs_ok (base + zlen rs1) rs2.
Proof.
  unfold recs_ok. rewrite Forall_app. split.
  - intros [[H1 H2] Ho]. split; (split; [done|]); intros i r Hi.
    + apply Ho. by apply lookup_app_l_Some.
    + rewrite (Ho (length rs1 + i)%nat r); [unfold zlen; lia|].
      rewrite lookup_app_r by lia. by rewrite Nat.add_comm, Nat.add_sub.
  - intros [[H1 Ho1] [H2 Ho2]]. split; [done|]. intros i r Hi.
    apply lookup_app_Some in Hi as [Hi|[Hl Hi]]; [by apply Ho1|].
    rewrite (Ho2 _ _ Hi). unfold zlen. lia.
Qed.

Lemma recs_ok_nil base : recs_ok base [].
Proof. split; [constructor|]. intros i r Hi. by rewrite lookup_nil in Hi. Qed.

Lemma recs_ok_one base r : recs_ok base [r] <-> Record_wf r /\ offset r = base.
Proof.
  unfold recs_ok. rewrite Forall_singleton. split.
  - intros [Hw Ho]. split; [done|]. rewrite (Ho 0%nat r) by done. lia.
  - intros [Hw <-]. split; [done|]. intros [|i] r' Hi; [simplify_eq/=; lia|].
    by rewrite lookup_cons, lookup_nil in Hi.
Qed.

Lemma max_ts_snoc rs r :
  max_ts (rs ++ [r]) = if max_ts rs <? timestamp_ms r then timestamp_ms r else max_ts rs.
Proof. unfold max_ts. by rewrite foldl_app. Qed.

Lemma max_ts_range rs : Forall Record_wf rs -> is_i64 (max_ts rs) /\ 0 <= max_ts rs.
Proof.
  induction rs as [|r rs IH] using rev_ind; intros Hw;
    [change (max_ts []) with 0; unfold is_i64; lia|].
  apply Forall_app in Hw as [Hw [(_ & Ht & _) _]%list.Forall_cons].
  destruct (IH Hw) as [H1 H2]. rewrite max_ts_snoc. destruct (Z.ltb_spec (max_ts rs) (timestamp_ms r)).
  - split; [done|lia].
  - done.
Qed.

(** The header of an encoded record tells its length. *)
Lemma record_bytes_length r rest n :
  Record_wf r -> 4 <= n ->
  RecordCodec_read_u32 (ztake n (record_bytes r ++ rest)) = record_size r - 4.
Proof.
  intros (_ & _ & Hs) Hn. pose proof (record_size_ge r).
  unfold record_bytes. rewrite <- app_assoc.
  rewrite ztake_app_ge by (rewrite zlen_be_store; lia).
  apply read_u32_be_store. unfold is_u32, MAX_RECORD_SIZE in *. lia.
Qed.

Lemma Record_wf_size r : Record_wf r -> 28 <= record_size r <= MAX_RECORD_SIZE + 4.
Proof. intros (_ & _ & Hs). pose proof (record_size_ge r). lia. Qed.

(** ** Reading *)

Section read.
Context {W : Win32} {F : FailStop W}.

Lemma wp_read_record d s rs i r out Q :
  seg_view d s rs -> rs !! i = Some r ->
  Q (Status_OK, r) d -> wp (LogSegment_read_record_at s (rec_pos rs i) out) Q d.
Proof.
  intros V Hr HQ. destruct (rec_pos_bound rs i r Hr) as [Hp0 Hp].
  destruct (sv_recs _ _ _ V) as [Hw _].
  assert (Record_wf r) as Hwr by (by eapply list.Forall_lookup in Hw).
  pose proof (Record_wf_size r Hwr) as Hsz. unfold LogSegment_read_record_at.
  rewrite (sv_size _ _ _ V). rewrite (proj2 (Z.leb_gt _ _)) by lia.
  rewrite (sv_log_file _ _ _ V). apply wp_bind.
  eapply wp_read_ok; [apply (sv_log _ _ _ V)|lia..|]. cbn [negb].
  rewrite zdrop_rec_pos, (drop_S rs r) by done. rewrite log_bytes_cons.
  rewrite record_bytes_length by (done || lia).
  unfold MAX_RECORD_SIZE in *. zdecide.
  replace (4 + (record_size r - 4)) with (record_size r) by lia.
  rewrite u32_id by (unfold is_u32; lia). apply wp_bind.
  eapply wp_read_ok; [apply (sv_log _ _ _ V)|lia..|]. cbn [negb].
  rewrite zdrop_rec_pos, (drop_S rs r), log_bytes_cons by done.
  rewrite ztake_app_exact by (by rewrite zlen_record_bytes).
  eapply wp_opt; [|exact HQ]. rewrite <- (app_nil_r (record_bytes r)).
  by apply RecordCodec_decode_bytes.
Qed.

End read.

(** The position [lookup_file_position] returns is the start of a record at or
    before the target. *)
Lemma index_lookup_record rs es rel :
  index_ok rs es -> rs <> [] -> 0 <= rel ->
  exists i, (i < length rs)%nat /\ Z.of_nat i <= rel /\ OffsetIndex_lookup es rel = rec_pos rs i.
Proof.
  intros [Hes Hsort Hhd] Hne Hrel. rewrite OffsetIndex_lookup_correct by done.
  unfold index_lookup_spec. destruct es as [|e0 es]; [done|]. subst e0.
  assert (0 < length rs)%nat by (destruct rs; [done|cbn; lia]).
  destruct (list.last _) as [e|] eqn:E.
  - apply last_Some_elem_of, list_elem_of_filter in E as [Hle He].
    rewrite list.Forall_forall in Hes. destruct (Hes e He) as (i & Hi & ->). by exists i.
  - exists 0%nat. split_and!; [done|lia|done].
Qed.

Lemma lookup_file_position_record {W : Win32} d s rs target :
  seg_view d s rs -> rs <> [] -> target - m_base_offset s < 2 ^ 32 ->
  exists i, (i < length rs)%nat /\
    LogSegment_lookup_file_position s target = rec_pos rs i /\
    (i <> 0%nat -> m_base_offset s + Z.of_nat i <= target).
Proof.
  intros V Hne Ht. unfold LogSegment_lookup_file_position.
  destruct (Z.leb_spec target (m_base_offset s)).
  - exists 0%nat. split_and!; [destruct rs; [done|cbn; lia]|done|done].
  - rewrite u32_id by (unfold is_u32; lia).
    destruct (index_lookup_record rs (m_index s) (target - m_base_offset s))
      as (i & Hi & Hle & ->); [apply V|done|lia|].
    exists i. split_and!; [done|done|lia].
Qed.

(** ** File names *)

Lemma format_base_offset_spec b :
  is_u64 b ->
  Forall (fun c => isdigit c = true) (LogSegment_format_base_offset b) /\
  length (LogSegment_format_base_offset b) = 20%nat /\
  std_stoull (LogSegment_format_base_offset b) = Some (b, 20%nat).
Proof.
  unfold is_u64. intros Hb. destruct (to_string_spec b) as (Hd & Hv & Hne); [lia|].
  destruct (setw_fill0_digits 20 (std_to_string b) Hd) as [Hd' Hv'].
  assert (length (LogSegment_format_base_offset b) = 20%nat) as Hlen.
  { apply setw_fill0_length, to_string_length; [|done]. split; [lia|].
    eapply Z.lt_trans; [apply Hb|]. done. }
  split_and!; [done|done|].
  unfold std_stoull, LogSegment_format_base_offset in *.
  rewrite <- (app_nil_r (setw_fill0 20 _)).
  rewrite std_sto_digits; [|done| |done|]; rewrite ?Hv', ?Hv.
  - by rewrite Hlen.
  - intros E. by rewrite E in Hlen.
  - lia.
Qed.

Lemma segment_path_inj e1 e2 b1 b2 dir :
  is_u64 b1 -> is_u64 b2 -> segment_path e1 b1 dir = segment_path e2 b2 dir -> b1 = b2 /\ e1 = e2.
Proof.
  intros H1 H2 E. apply app_inv_head in E. injection E as E.
  destruct (format_base_offset_spec b1 H1) as (_ & Hl1 & Hs1).
  destruct (format_base_offset_spec b2 H2) as (_ & Hl2 & Hs2).
  apply app_inj_1 in E as [E ->]; [|congruence]. split; [|done].
  rewrite E in Hs1. congruence.
Qed.

Lemma segment_path_ext e1 e2 b dir : e1 <> e2 -> segment_path e1 b dir <> segment_path e2 b dir.
Proof.
  intros Hne E. apply app_inv_head in E. injection E as E. apply app_inv_head in E. done.
Qed.

Lemma ext_log_index : str ".log" <> str ".index".
Proof. done. Qed.
Lemma ext_log_sealed : str ".log" <> str ".sealed".
Proof. done. Qed.
Lemma ext_index_sealed : str ".index" <> str ".sealed".
Proof. done. Qed.

(** ** Index entries *)

Lemma index_sorted_snoc (es : OffsetIndex) e :
  index_sorted es -> Forall (fun x => relative_offset x < relative_offset e) es ->
  index_sorted (es ++ [e]).
Proof.
  intros Hs. induction Hs as [|x es Hs IH Hx]; intros Hall; cbn.
  - repeat constructor.
  - apply list.Forall_cons in Hall as [Hxe Hall]. constructor; [by apply IH|].
    apply Forall_app. split; [done|]. by apply Forall_singleton.
Qed.

Lemma entry_ok_app rs rs' e : entry_ok rs e -> entry_ok (rs ++ rs') e.
Proof.
  intros (i & Hi & ->). exists i. rewrite length_app, rec_pos_app by lia. split; [lia|done].
Qed.

Lemma index_ok_keep rs r es : index_ok rs es -> es <> [] -> index_ok (rs ++ [r]) es.
Proof.
  intros [He Hs Hh] Hne. split; [|done|by destruct es].
  eapply Forall_impl; [|exact He]. intros e. apply entry_ok_app.
Qed.

Lemma index_ok_add rs r es :
  index_ok rs es ->
  index_ok (rs ++ [r]) (es ++ [mkIndexEntry (zlen rs) (zlen (log_bytes rs))]).
Proof.
  intros [He Hs Hh]. split.
  - apply Forall_app. split.
    + eapply Forall_impl; [|exact He]. intros e. apply entry_ok_app.
    + apply Forall_singleton. exists (length rs). rewrite length_app. split; [cbn; lia|].
      rewrite rec_pos_app, rec_pos_all by lia. done.
  - apply index_sorted_snoc; [done|]. eapply Forall_impl; [|exact He].
    intros e (i & Hi & ->). unfold zlen. cbn. lia.
  - destruct es as [|e es]; [by subst rs|done].
Qed.

Lemma index_ok_wf rs es :
  index_ok rs es -> zlen (log_bytes rs) <= LOG_LIMIT -> Forall IndexEntry_wf es.
Proof.
  intros [He _ _] Hl. eapply Forall_impl; [|exact He]. intros e (i & Hi & ->).
  pose proof (rec_pos_ge rs i ltac:(lia)).
  destruct (lookup_lt_is_Some_2 rs i Hi) as [r Hr].
  pose proof (rec_pos_bound rs i r Hr). pose proof (record_size_ge r).
  unfold IndexEntry_wf, is_u32, LOG_LIMIT in *. cbn. lia.
Qed.

Lemma index_ok_nil : index_ok [] [].
Proof. split; [constructor|constructor|done]. Qed.

(** An index has at most as many entries as the segment has records. *)
Lemma index_sorted_length (es : OffsetIndex) lo hi :
  index_sorted es -> lo <= hi -> Forall (fun e => lo <= relative_offset e < hi) es -> zlen es <= hi - lo.
Proof.
  intros Hs. revert lo. induction Hs as [|e es Hs IH He]; intros lo Hlo Hall.
  - change (zlen (@nil IndexEntry)) with 0. lia.
  - apply list.Forall_cons in Hall as [H1 Hall]. rewrite zlen_cons.
    enough (zlen es <= hi - (relative_offset e + 1)) by lia. apply IH; [lia|].
    apply list.Forall_forall. intros x Hx.
    rewrite list.Forall_forall in He, Hall. specialize (He x Hx). specialize (Hall x Hx).
    cbn in He. lia.
Qed.

Lemma index_ok_length rs es : index_ok rs es -> zlen es <= zlen rs.
Proof.
  intros [He Hs _]. pose proof (zlen_nonneg rs).
  pose proof (index_sorted_length es 0 (zlen rs) Hs ltac:(lia)) as Hl.
  rewrite Z.sub_0_r in Hl. apply Hl. eapply Forall_impl; [|exact He].
  intros e (i & Hi & ->). unfold zlen. cbn. lia.
Qed.

Lemma index_file_size rs es :
  index_ok rs es -> zlen (log_bytes rs) <= LOG_LIMIT -> is_u32 (zlen (index_bytes es)).
Proof.
  intros Hi Hl. rewrite zlen_index_bytes. pose proof (index_ok_length _ _ Hi).
  pose proof (zlen_log_bytes_ge rs). pose proof (zlen_nonneg es).
  unfold is_u32, LOG_LIMIT in *. lia.
Qed.

(** ** Appending *)

(** The same segment with other contents. *)
Definition same_segment (s s' : LogSegment) : Prop :=
  m_base_offset s' = m_base_offset s /\ m_partition_dir s' = m_partition_dir s /\
  m_index_interval_bytes s' = m_index_interval_bytes s.

(** Only the two files of a segment differ. *)
Definition same_files_but {W : Win32} (ps : list path) (d d' : disk) : Prop :=
  forall p, p ∉ ps -> files d' !! p = files d !! p.

Lemma same_files_but_refl {W : Win32} ps d d' : files d' = files d -> same_files_but ps d d'.
Proof. intros E p _. by rewrite E. Qed.

Lemma same_files_but_trans {W : Win32} ps1 ps2 d1 d2 d3 :
  same_files_but ps1 d1 d2 -> same_files_but ps2 d2 d3 -> same_files_but (ps1 ++ ps2) d1 d3.
Proof. intros H1 H2 p Hp. rewrite H2, H1; set_solver. Qed.

Ltac seg_simpl :=
  cbn [seg_set_files seg_set_index seg_set_size seg_set_since seg_set_sealed seg_set_totals
       LogSegment_log_path LogSegment_index_path LogSegment_sealed_path
       m_base_offset m_partition_dir m_log_file m_index_file m_index m_log_size_bytes
       m_bytes_since_last_index m_index_interval_bytes m_is_sealed m_running_crc_raw
       m_record_count m_last_offset m_max_timestamp_ms] in *.

Lemma seg_totals_snoc s rs r :
  seg_totals s rs -> zlen rs + 1 < 2 ^ 64 -> offset r = m_base_offset s + zlen rs ->
  seg_totals
    (seg_set_totals (Crc32_update (m_running_crc_raw s) (record_bytes r))
       (u64 (m_record_count s + 1)) (offset r)
       (if m_max_timestamp_ms s <? timestamp_ms r then timestamp_ms r else m_max_timestamp_ms s) s)
    (rs ++ [r]).
Proof.
  intros [Hc Hn Hl Ht] Hlim Ho. pose proof (zlen_nonneg rs). split; seg_simpl.
  - rewrite log_bytes_app, Crc32_update_app, <- Hc, log_bytes_one. done.
  - rewrite Hn, zlen_app, u64_id; [done|unfold is_u64; lia].
  - intros _. rewrite zlen_app. change (zlen [r]) with 1. lia.
  - by rewrite max_ts_snoc, Ht.
Qed.

Lemma seg_totals_ext s s' rs :
  seg_totals s rs -> m_base_offset s' = m_base_offset s ->
  m_running_crc_raw s' = m_running_crc_raw s -> m_record_count s' = m_record_count s ->
  m_last_offset s' = m_last_offset s -> m_max_timestamp_ms s' = m_max_timestamp_ms s ->
  seg_totals s' rs.
Proof. intros [H1 H2 H3 H4] E1 E2 E3 E4 E5. split; congruence || (rewrite E4, E1; done). Qed.

Section append.
Context {W : Win32} {F : FailStop W}.

(** What the caller of [append_with_timestamp] has to provide. *)
Record append_pre (s : LogSegment) (rs : list Record) (r : Record) : Prop := {
  ap_wf : is_i64 (timestamp_ms r);
  ap_size : record_size r <= MAX_RECORD_SIZE;
  ap_offset : offset r = m_base_offset s + zlen rs;
  ap_next : offset r + 1 < 2 ^ 64;
  ap_limit : zlen (log_bytes rs) + record_size r <= LOG_LIMIT;
}.

Lemma append_pre_wf s rs r : 0 <= m_base_offset s -> append_pre s rs r -> Record_wf r.
Proof.
  intros Hb [H1 H2 H3 H4 H5]. pose proof (zlen_nonneg rs). pose proof (record_size_ge r).
  repeat split; unfold is_u64, is_i64, MAX_RECORD_SIZE in *; lia.
Qed.

Lemma append_encode s rs r :
  0 <= m_base_offset s -> append_pre s rs r -> RecordCodec_encode r = Some (record_bytes r).
Proof.
  intros Hb Hp. destruct (append_pre_wf s rs r Hb Hp) as (Ho & _ & Hs).
  apply RecordCodec_encode_spec; [done|]. unfold MAX_RECORD_SIZE in Hs. lia.
Qed.

(** The segment between the write to the log and the index update. *)
Definition seg_grown (s : LogSegment) (r : Record) : LogSegment :=
  seg_set_totals (Crc32_update (m_running_crc_raw s) (record_bytes r)) (u64 (m_record_count s + 1))
    (offset r)
    (if m_max_timestamp_ms s <? timestamp_ms r then timestamp_ms r else m_max_timestamp_ms s)
    (seg_set_size (m_log_size_bytes s + record_size r) s).

Lemma seg_grown_totals s rs r :
  0 <= m_base_offset s -> seg_totals s rs -> append_pre s rs r ->
  seg_totals (seg_grown s r) (rs ++ [r]).
Proof.
  intros Hb Ht Hp. pose proof (ap_offset _ _ _ Hp). pose proof (ap_next _ _ _ Hp).
  pose proof (zlen_nonneg rs).
  pose proof (seg_totals_snoc s rs r Ht ltac:(lia) ltac:(lia)) as T.
  destruct T as [T1 T2 T3 T4]. unfold seg_grown. split; seg_simpl; assumption.
Qed.

Lemma seg_view_append d d' s rs r es since :
  seg_view d s rs -> append_pre s rs r ->
  es = m_index s /\ es <> [] \/
  es = m_index s ++ [mkIndexEntry (zlen rs) (zlen (log_bytes rs))] ->
  files d' !! LogSegment_log_path s = Some (log_bytes rs ++ record_bytes r) ->
  files d' !! LogSegment_index_path s = Some (index_bytes es) ->
  seg_view d' (seg_set_since since (seg_set_index es (seg_grown s r))) (rs ++ [r]).
Proof.
  intros V Hp Hes Hlog Hidx. destruct (sv_base _ _ _ V) as [Hb Hb'].
  pose proof (append_pre_wf s rs r Hb Hp) as Hwf. destruct Hp.
  split; unfold seg_grown; seg_simpl; try apply V.
  - by rewrite log_bytes_app, log_bytes_one.
  - done.
  - rewrite log_bytes_app, log_bytes_one, zlen_app, zlen_record_bytes, (sv_size _ _ _ V). done.
  - rewrite log_bytes_app, log_bytes_one, zlen_app, zlen_record_bytes. lia.
  - apply recs_ok_app. split; [apply V|]. by apply recs_ok_one.
  - rewrite zlen_app. change (zlen [r]) with 1. lia.
  - destruct Hes as [[-> Hne]| ->]; [apply index_ok_keep|apply index_ok_add]; try apply V. done.
Qed.

Lemma wp_flush_segment (s : LogSegment) Q d :
  (forall d', files d' = files d -> Q tt d') -> wp (LogSegment_flush s) Q d.
Proof.
  intros HQ. unfold LogSegment_flush. apply wp_bind, wp_flush. intros d1 H1 _.
  apply wp_flush. intros d2 H2 _. apply HQ. congruence.
Qed.

Lemma wp_sync (sync : bool) (s : LogSegment) Q d :
  (forall d', files d' = files d -> Q tt d') ->
  wp (if sync then LogSegment_flush s else mret tt) Q d.
Proof. intros HQ. destruct sync; [by apply wp_flush_segment|by apply wp_ret, HQ]. Qed.

Lemma seg_view_files d d' s rs : files d' = files d -> seg_view d s rs -> seg_view d' s rs.
Proof. intros E []. split; rewrite ?E; done. Qed.

(** The record is appended and indexed, or the volume dies: then a part of the record
    (all of it when the index entry was the last write) is in the log. *)
Lemma wp_append_fs d s rs r sync Q :
  seg_view d s rs -> seg_totals s rs -> m_is_sealed s = false -> append_pre s rs r ->
  (forall d' s', seg_view d' s' (rs ++ [r]) -> seg_totals s' (rs ++ [r]) ->
     same_segment s s' -> m_is_sealed s' = false ->
     same_files_but [LogSegment_log_path s; LogSegment_index_path s] d d' ->
     Q (Status_OK, s') d') ->
  (forall d' st s' n idx, m_code st <> OK -> dead d' -> 0 <= n <= record_size r ->
     is_u32 (zlen idx) ->
     files d' = <[LogSegment_index_path s := idx]>
       (<[LogSegment_log_path s := log_bytes rs ++ ztake n (record_bytes r)]> (files d)) ->
     Q (st, s') d') ->
  wp (LogSegment_append_with_timestamp s r (timestamp_ms r) sync) Q d.
Proof.
  intros V T Hns Hp HQ Hfail. destruct (sv_base _ _ _ V) as [Hb _].
  pose proof (append_pre_wf s rs r Hb Hp) as Hwf. pose proof (Record_wf_size r Hwf) as Hsz.
  pose proof (ap_limit _ _ _ Hp) as Hlim. pose proof (ap_size _ _ _ Hp).
  pose proof (zlen_nonneg (log_bytes rs)). pose proof (zlen_nonneg rs).
  pose proof (zlen_log_bytes_ge rs). pose proof (index_ok_length _ _ (sv_index _ _ _ V)) as Hes.
  pose proof (zlen_index_bytes (m_index s)) as Hix. pose proof (zlen_nonneg (m_index s)).
  assert (LogSegment_index_path s <> LogSegment_log_path s) as Hpath
    by (intros E; symmetry in E; by eapply segment_path_ext in E; [|apply ext_log_index]).
  unfold LogSegment_append_with_timestamp. rewrite Hns. destruct r as [off ts k v] eqn:Er.
  cbn [offset timestamp_ms key value]. rewrite <- Er in *. apply wp_bind.
  eapply wp_opt; [by eapply append_encode|]. rewrite zlen_record_bytes. zdecide.
  rewrite (sv_log_file _ _ _ V). apply wp_bind. unfold LOG_LIMIT in Hlim.
  eapply wp_write_stop; [apply V|intros d1 _ Hd1|intros n d1 Hn Hdd Hd1]; cbn [negb].
  2:{ apply wp_ret. rewrite zlen_record_bytes in Hn.
      apply (Hfail d1 _ _ n (index_bytes (m_index s))); [done|done|done|unfold is_u32; lia|].
      rewrite insert_id; [exact Hd1|]. rewrite lookup_insert_ne by done. apply V. }
  rewrite (u32_id (record_size r)) by (unfold is_u32; lia).
  rewrite u32_id by (rewrite (sv_size _ _ _ V); unfold is_u32; lia).
  replace ts with (timestamp_ms r) by (by rewrite Er).
  replace off with (offset r) by (by rewrite Er).
  change (seg_set_totals _ _ _ _ _) with (seg_grown s r).
  assert (files d1 !! LogSegment_log_path s = Some (log_bytes rs ++ record_bytes r)) as Hlog
    by (rewrite Hd1; apply lookup_insert_eq).
  assert (files d1 !! LogSegment_index_path s = Some (index_bytes (m_index s))) as Hidx
    by (rewrite Hd1, lookup_insert_ne by done; apply V).
  assert (same_files_but [LogSegment_log_path s; LogSegment_index_path s] d d1) as Hsame.
  { intros p Hpp. rewrite Hd1, lookup_insert_ne; set_solver. }
  pose proof (seg_grown_totals s rs r Hb T Hp) as T'.
  replace (m_index (seg_grown s r)) with (m_index s) by done.
  replace (m_index_file (seg_grown s r)) with (m_index_file s) by done.
  rewrite (sv_index_file _ _ _ V).
  replace (u32 (offset r - m_base_offset (seg_grown s r))) with (zlen rs)
    by (cbn [seg_grown seg_set_totals seg_set_size m_base_offset];
        rewrite (ap_offset _ _ _ Hp), u32_id by (unfold is_u32; lia); lia).
  rewrite (sv_size _ _ _ V).
  destruct (_ || _) eqn:Eb.
  - apply wp_bind.
    eapply wp_index_append_stop; [exact Hidx|unfold is_u32; lia|unfold is_u32; lia| |]; cbn [negb].
    + intros d2 _ Hd2. apply wp_bind, wp_sync. intros d3 Hd3. apply wp_ret, HQ.
      * eapply seg_view_files; [exact Hd3|]. eapply seg_view_append; [done..|by right| |].
        -- by rewrite Hd2, lookup_insert_ne.
        -- rewrite Hd2. apply lookup_insert_eq.
      * by eapply seg_totals_ext.
      * done.
      * done.
      * intros p Hpp. rewrite Hd3, Hd2, lookup_insert_ne by set_solver. by apply Hsame.
    + intros i c d2 Hdd Hd2 Hc. apply wp_ret.
      apply (Hfail d2 _ _ (record_size r) c); [done|done|lia| |].
      * pose proof (zlen_nonneg c). unfold is_u32; lia.
      * rewrite ztake_ge by (rewrite zlen_record_bytes; lia). by rewrite Hd2, Hd1.
  - apply orb_false_iff in Eb as [Eb _]. apply bool_decide_eq_false in Eb.
    apply wp_bind, wp_sync. intros d3 Hd3. apply wp_ret, HQ.
    + eapply seg_view_files; [exact Hd3|].
      apply (seg_view_append d d1 s rs r (m_index s)); [done..|by left|done|done].
    + by eapply seg_totals_ext.
    + done.
    + done.
    + intros p Hpp. rewrite Hd3. by apply Hsame.
Qed.

End append.

Lemma wp_append {W : Win32} {R : Reliable W} d s rs r sync Q :
  seg_view d s rs -> seg_totals s rs -> m_is_sealed s = false -> append_pre s rs r ->
  (forall d' s', seg_view d' s' (rs ++ [r]) -> seg_totals s' (rs ++ [r]) ->
     same_segment s s' -> m_is_sealed s' = false ->
     same_files_but [LogSegment_log_path s; LogSegment_index_path s] d d' ->
     Q (Status_OK, s') d') ->
  wp (LogSegment_append_with_timestamp s r (timestamp_ms r) sync) Q d.
Proof. intros V T Hns Hp HQ. eapply wp_append_fs; [done..|exact HQ|done]. Qed.

(** ** Scanning *)

(** Bytes at which a scan stops: no complete, valid record at their start. *)
Definition scan_stops (tail : bytes) : Prop :=
  zlen tail < 28 \/
  let length := RecordCodec_read_u32 tail in
  length < 24 \/ MAX_RECORD_SIZE < length \/ zlen tail < 4 + length \/
  exists st r, RecordCodec_decode (ztake (4 + length) tail) empty_Record = Some (st, r) /\
    m_code st <> OK.

(** A record whose write was cut short by a crash. *)
Lemma torn_record_stops r tail rest :
  Record_wf r -> record_bytes r = tail ++ rest -> rest <> [] -> scan_stops tail.
Proof.
  intros Hwf E Hne. destruct (decide (zlen tail < 28)); [by left|]. right.
  assert (RecordCodec_read_u32 tail = record_size r - 4) as ->.
  { rewrite <- (record_bytes_length r [] (zlen tail)) by (done || lia).
    by rewrite app_nil_r, E, ztake_app_exact. }
  right; right; left. pose proof (zlen_record_bytes r) as Hl. rewrite E, zlen_app in Hl.
  pose proof (zlen_nonneg rest). destruct (decide (zlen rest = 0)) as [Hz|]; [|lia].
  apply zlen_zero in Hz. done.
Qed.

Lemma scan_stops_nil : scan_stops [].
Proof. by left. Qed.

(** Index and totals after the records [rs] have been scanned. *)
Record scanned (s : LogSegment) (rs : list Record) : Prop := {
  sc_index : index_ok rs (m_index s);
  sc_totals : seg_totals s rs;
}.

(** Members a scan does not touch. *)
Definition scan_frame (s s' : LogSegment) : Prop :=
  same_segment s s' /\ m_log_file s' = m_log_file s /\ m_index_file s' = m_index_file s /\
  m_log_size_bytes s' = m_log_size_bytes s /\ m_is_sealed s' = m_is_sealed s.

Lemma scan_frame_trans s1 s2 s3 : scan_frame s1 s2 -> scan_frame s2 s3 -> scan_frame s1 s3.
Proof. unfold scan_frame, same_segment. intuition congruence. Qed.

Lemma account_scanned s rs since r :
  scanned s rs -> 0 <= m_base_offset s -> offset r = m_base_offset s + zlen rs ->
  zlen rs + 1 < 2 ^ 32 ->
  let s' := (LogSegment_account s (zlen (log_bytes rs)) since (record_bytes r) r).1 in
  scanned s' (rs ++ [r]) /\ scan_frame s s'.
Proof.
  intros [Hi Ht] Hb Ho Hlim. pose proof (zlen_nonneg rs). unfold LogSegment_account.
  rewrite u32_id by (unfold is_u32; lia). rewrite Ho. replace (_ + _ - _) with (zlen rs) by lia.
  rewrite <- Ho. destruct (_ || _) eqn:E; cbn [fst].
  - split; [|done]. split.
    + seg_simpl. by apply index_ok_add.
    + apply (seg_totals_snoc (seg_set_index _ s)); [by eapply seg_totals_ext|lia|done].
  - apply orb_false_iff in E as [E _]. apply bool_decide_eq_false in E.
    split; [|done]. split.
    + seg_simpl. by apply index_ok_keep.
    + apply seg_totals_snoc; [done|lia|done].
Qed.

Section scan.
Context {W : Win32} {F : FailStop W}.

(** The loop stops at the tail. *)
Lemma wp_recover_stop fuel s pos since next Q d pre tail :
  m_log_file s = Some (LogSegment_log_path s) ->
  files d !! LogSegment_log_path s = Some (pre ++ tail) -> pos = zlen pre ->
  m_log_size_bytes s = zlen (pre ++ tail) -> zlen (pre ++ tail) <= LOG_LIMIT ->
  scan_stops tail -> (0 < fuel)%nat ->
  Q (s, pos, since, next) d -> wp (LogSegment_recover_loop fuel s pos since next) Q d.
Proof.
  intros Hh Hf -> Hsz Hlim Hst Hfuel HQ. destruct fuel as [|fuel]; [lia|].
  cbn [LogSegment_recover_loop]. rewrite Hsz, Hh. rewrite zlen_app in *.
  pose proof (zlen_nonneg pre). pose proof (zlen_nonneg tail). unfold LOG_LIMIT in Hlim.
  destruct (Z.ltb_spec (zlen pre) (zlen pre + zlen tail)) as [Hlt|]; cbn [negb];
    [|by apply wp_ret].
  rewrite u32_id by (unfold is_u32; lia).
  destruct (Z.ltb_spec (zlen pre + zlen tail) (zlen pre + 28)) as [|Hge]; [by apply wp_ret|].
  destruct Hst as [Hst|Hst]; [lia|].
  apply wp_bind. eapply wp_read_ok; [exact Hf|lia|lia|rewrite zlen_app; lia|]. cbn [negb].
  rewrite zdrop_app_exact by done.
  replace (RecordCodec_read_u32 (ztake 28 tail)) with (RecordCodec_read_u32 tail)
    by (unfold RecordCodec_read_u32, ztake; rewrite take_take; done).
  set (len := RecordCodec_read_u32 tail) in *. cbn zeta in Hst.
  destruct (_ || _) eqn:Eb; [by apply wp_ret|]. apply orb_false_iff in Eb as [E1 E2].
  unfold MAX_RECORD_SIZE in *. zbool. rewrite !u32_id by (rewrite ?u32_id; unfold is_u32; lia).
  destruct (Z.ltb_spec (zlen pre + zlen tail) (zlen pre + (4 + len))); [by apply wp_ret|].
  destruct Hst as [?|[?|[?|(st & r & Hdec & Hne)]]]; [lia..|].
  apply wp_bind. eapply wp_read_ok; [exact Hf|lia|lia|rewrite zlen_app; lia|]. cbn [negb].
  rewrite zdrop_app_exact by done. apply wp_bind. eapply wp_opt; [exact Hdec|].
  cbv beta iota. rewrite (proj2 (Status_ok_false st) Hne). by apply wp_ret.
Qed.

(** One valid record is accounted for and the loop goes on behind it. *)
Lemma wp_recover_record fuel s pos since next Q d pre r rest :
  m_log_file s = Some (LogSegment_log_path s) ->
  files d !! LogSegment_log_path s = Some (pre ++ record_bytes r ++ rest) -> pos = zlen pre ->
  m_log_size_bytes s = zlen (pre ++ record_bytes r ++ rest) ->
  zlen (pre ++ record_bytes r ++ rest) <= LOG_LIMIT -> Record_wf r ->
  (let '(s', since') := LogSegment_account s pos since (record_bytes r) r in
   wp (LogSegment_recover_loop fuel s' (pos + record_size r) (u32 (since' + record_size r))
         (u64 (offset r + 1))) Q d) ->
  wp (LogSegment_recover_loop (S fuel) s pos since next) Q d.
Proof.
  intros Hh Hf -> Hsz Hlim Hwf HQ. cbn [LogSegment_recover_loop]. rewrite Hsz, Hh.
  pose proof (Record_wf_size r Hwf). rewrite !zlen_app, zlen_record_bytes in *.
  pose proof (zlen_nonneg pre). pose proof (zlen_nonneg rest).
  unfold LOG_LIMIT, MAX_RECORD_SIZE in *.
  rewrite u32_id by (unfold is_u32; lia). zdecide. apply wp_bind.
  eapply wp_read_ok; [exact Hf|lia|lia|rewrite !zlen_app, zlen_record_bytes; lia|]. cbn [negb].
  rewrite zdrop_app_exact, record_bytes_length by (done || lia).
  replace (4 + (record_size r - 4)) with (record_size r) by lia.
  rewrite !u32_id by (rewrite ?u32_id; unfold is_u32; lia). zdecide. apply wp_bind.
  eapply wp_read_ok; [exact Hf|lia|lia|rewrite !zlen_app, zlen_record_bytes; lia|]. cbn [negb].
  rewrite zdrop_app_exact, ztake_app_exact by (done || by rewrite zlen_record_bytes).
  apply wp_bind. eapply wp_opt.
  { rewrite <- (app_nil_r (record_bytes r)). by apply RecordCodec_decode_bytes. }
  change (negb (Status_ok Status_OK)) with false. cbv beta iota.
  destruct (LogSegment_account _ _ _ _ _). exact HQ.
Qed.

Lemma wp_recover_loop rest : forall fuel s since done tail Q d,
  m_log_file s = Some (LogSegment_log_path s) ->
  files d !! LogSegment_log_path s = Some (log_bytes done ++ log_bytes rest ++ tail) ->
  m_log_size_bytes s = zlen (log_bytes done ++ log_bytes rest ++ tail) ->
  zlen (log_bytes done ++ log_bytes rest ++ tail) <= LOG_LIMIT ->
  scan_stops tail -> (length rest < fuel)%nat -> scanned s done ->
  recs_ok (m_base_offset s) (done ++ rest) -> 0 <= m_base_offset s ->
  m_base_offset s + zlen (done ++ rest) < 2 ^ 64 ->
  (forall s' since', scanned s' (done ++ rest) -> scan_frame s s' ->
     Q (s', zlen (log_bytes (done ++ rest)), since', m_base_offset s + zlen (done ++ rest)) d) ->
  wp (LogSegment_recover_loop fuel s (zlen (log_bytes done)) since (m_base_offset s + zlen done)) Q d.
Proof.
  induction rest as [|r rest IH]; intros fuel s since done tail Q d Hh Hf Hsz Hlim Hst Hfuel
    Hsc Hok Hb Hb' HQ.
  - rewrite app_nil_r in *. cbn [log_bytes] in *. change (log_bytes []) with (@nil byte) in *.
    eapply wp_recover_stop; try eassumption; try done. apply HQ; [done|by repeat split].
  - rewrite log_bytes_cons, <- app_assoc in *. cbn [length] in Hfuel.
    destruct fuel as [|fuel]; [lia|].
    pose proof (zlen_log_bytes_ge (done ++ r :: rest)) as Hge.
    assert (recs_ok (m_base_offset s + zlen done) (r :: rest)) as [Hwf Ho]
      by (by apply recs_ok_app in Hok as [_ ?]).
    apply list.Forall_cons in Hwf as [Hwf _]. specialize (Ho 0%nat r eq_refl).
    pose proof (zlen_nonneg done). pose proof (zlen_nonneg rest). pose proof (zlen_nonneg tail).
    assert (zlen done + 1 < 2 ^ 32) as Hcount.
    { rewrite log_bytes_app, log_bytes_cons, !zlen_app, zlen_cons in Hge.
      rewrite !zlen_app in Hlim. unfold LOG_LIMIT in Hlim. lia. }
    eapply wp_recover_record; [done..|].
    pose proof (account_scanned s done since r Hsc Hb ltac:(lia) Hcount) as Hacc. cbn zeta in Hacc.
    destruct (LogSegment_account _ _ _ _ _) as [s1 since1]. cbn [fst] in Hacc.
    destruct Hacc as [Hsc1 Hfr]. pose proof Hfr as ((Eb & Ed & Ei) & El & Eix & Es & Ese).
    rewrite zlen_app, zlen_cons in Hb'.
    assert (LogSegment_log_path s1 = LogSegment_log_path s) as Ep
      by (unfold LogSegment_log_path; by rewrite Eb, Ed).
    rewrite u64_id by (unfold is_u64; lia).
    replace (zlen (log_bytes done) + record_size r) with (zlen (log_bytes (done ++ [r])))
      by (by rewrite log_bytes_app, zlen_app, log_bytes_one, zlen_record_bytes).
    replace (offset r + 1) with (m_base_offset s1 + zlen (done ++ [r]))
      by (rewrite Eb, zlen_app, Ho; change (zlen [r]) with 1; lia).
    apply (IH fuel s1 _ (done ++ [r]) tail); rewrite ?Ep, ?El, ?Eb, ?Es, ?log_bytes_app,
      ?log_bytes_one, <- ?app_assoc; try done; [lia|rewrite !zlen_app; change (zlen [r]) with 1; lia|].
    intros s' since' Hsc' Hfr'. rewrite <- log_bytes_cons, <- log_bytes_app.
    apply HQ; [done|by eapply scan_frame_trans].
Qed.

End scan.

(** ** The two scans agree *)

Section equivalence.
Context {W : Win32}.

Lemma verify_loop_recover fuel s pos since rep next d :
  (fun '(s, pos, since, _, d) => (s, pos, since, d)) <$>
    LogSegment_verify_loop fuel s pos since rep d =
  (fun '(s, pos, since, _, d) => (s, pos, since, d)) <$>
    LogSegment_recover_loop fuel s pos since next d.
Proof.
  revert s pos since rep next d. induction fuel as [|fuel IH]; intros s pos since rep next d; [done|].
  cbn [LogSegment_verify_loop LogSegment_recover_loop].
  destruct (negb _); [done|]. destruct (_ <? u32 (_ + 28)); [done|].
  unfold mbind, io_bind.
  destruct (FileHandle_read_at _ pos 28 d) as [[[[] header] d1]|]; cbn [negb]; [|done..].
  destruct (_ || _); [done|]. destruct (_ <? _); [done|].
  destruct (FileHandle_read_at _ pos _ d1) as [[[[] buf] d2]|]; cbn [negb]; [|done..].
  unfold io_opt. destruct (RecordCodec_decode buf empty_Record) as [[st r]|]; [|done].
  destruct (negb _); [done|]. destruct (LogSegment_account _ _ _ _ _) as [s1 since1].
  apply IH.
Qed.

(** The segment and the volume a scan leaves behind. *)
Definition scan_result {A} (o : option ((Status * LogSegment * A) * disk))
    : option (Status * LogSegment * disk) :=
  (fun '(st, s, _, d) => (st, s, d)) <$> o.

Lemma verify_full_recover s rep d :
  scan_result (LogSegment_verify_and_rebuild_full s rep d) =
  scan_result (LogSegment_recover_and_rebuild_index s d).
Proof.
  unfold LogSegment_verify_and_rebuild_full, LogSegment_recover_and_rebuild_index, scan_result.
  unfold mbind, io_bind.
  destruct (FileHandle_get_size _ d) as [[size d1]|]; [|done].
  set (s1 := seg_set_totals _ _ _ _ _).
  pose proof (verify_loop_recover (S (Z.to_nat (m_log_size_bytes s1))) s1 0 0 rep
    (m_base_offset s1) d1) as E.
  destruct (LogSegment_verify_loop _ _ _ _ _ d1) as [[[[[? ?] ?] ?] ?]|],
    (LogSegment_recover_loop _ _ _ _ _ d1) as [[[[[? ?] ?] ?] ?]|]; try discriminate E; [|done].
  cbn in E. injection E as -> -> -> ->.
  destruct (LogSegment_finish_scan _ _ _ _) as [[? ?]|]; done.
Qed.

End equivalence.

(** ** Recovery *)

Section recovery.
Context {W : Win32} {F : FailStop W}.

(** An opened segment whose log holds the records [rs] followed by bytes at which
    a scan stops, and whose index file holds anything. *)
Record seg_torn (d : disk) (s : LogSegment) (rs : list Record) (tail idx : bytes) : Prop := {
  tn_log_file : m_log_file s = Some (LogSegment_log_path s);
  tn_index_file : m_index_file s = Some (LogSegment_index_path s);
  tn_log : files d !! LogSegment_log_path s = Some (log_bytes rs ++ tail);
  tn_idx : files d !! LogSegment_index_path s = Some idx;
  tn_limit : zlen (log_bytes rs ++ tail) <= LOG_LIMIT;
  tn_stop : scan_stops tail;
  tn_recs : recs_ok (m_base_offset s) rs;
  tn_base : 0 <= m_base_offset s /\ m_base_offset s + zlen rs < 2 ^ 64;
}.

(** What a scan leaves behind when the volume dies in it: the tail cut off or not, and
    an index file that is not larger than the old or the new one. *)
Definition scan_died (d d' : disk) (s : LogSegment) (rs : list Record) (tail idx : bytes) : Prop :=
  dead d' /\ exists log i,
    files d' = <[LogSegment_index_path s := i]> (<[LogSegment_log_path s := log]> (files d)) /\
    (log = log_bytes rs ++ tail \/ log = log_bytes rs) /\ (is_u32 (zlen idx) -> is_u32 (zlen i)).

Lemma wp_finish_scan_fs d s rs tail idx since Q :
  seg_torn d s rs tail idx -> m_log_size_bytes s = zlen (log_bytes rs ++ tail) -> scanned s rs ->
  (forall d' s', seg_view d' s' rs -> seg_totals s' rs -> same_segment s s' ->
     m_is_sealed s' = m_is_sealed s ->
     same_files_but [LogSegment_log_path s; LogSegment_index_path s] d d' -> Q s' d') ->
  (forall d' s', scan_died d d' s rs tail idx -> Q s' d') ->
  wp (LogSegment_finish_scan s (zlen (log_bytes rs)) since) Q d.
Proof.
  intros [Hlf Hif Hlog Hidx Hlim _ Hrecs Hb] Hsz [Hix Ht] HQ Hfail. unfold LogSegment_finish_scan.
  rewrite zlen_app in *. pose proof (zlen_nonneg (log_bytes rs)). pose proof (zlen_nonneg tail).
  assert (LogSegment_index_path s <> LogSegment_log_path s) as Hpath
    by (intros E; symmetry in E; by eapply segment_path_ext in E; [|apply ext_log_index]).
  apply wp_bind.
  apply wp_mono with (P := fun s1 d1 =>
    s1 = seg_set_size (zlen (log_bytes rs)) s /\
    (files d1 = <[LogSegment_log_path s := log_bytes rs]> (files d) \/
     dead d1 /\ files d1 = files d)).
  { destruct (Z.ltb_spec (zlen (log_bytes rs)) (m_log_size_bytes s)).
    - apply wp_bind. rewrite Hlf.
      eapply wp_truncate_stop; [exact Hlog|rewrite zlen_app; lia|intros d1 _ Hd1|intros d1 Hdd Hd1];
        apply wp_ret; (split; [done|]).
      + left. by rewrite ztake_app_exact in Hd1.
      + by right.
    - assert (tail = []) as -> by (apply zlen_zero; lia). rewrite app_nil_r in Hlog.
      apply wp_ret. split; [|left; by rewrite insert_id].
      destruct s; cbn in *. unfold seg_set_size. cbn. f_equal. change (zlen []) with 0 in Hsz. lia. }
  intros s1 d1 [-> Hd1]. seg_simpl. apply wp_bind. rewrite Hif.
  destruct Hd1 as [Hd1|[Hdd Hd1]].
  2:{ eapply inert_wp; [apply inert_rewrite|done|]. intros _ d2 Hd2 Hf2 _. apply wp_ret, Hfail.
      split; [done|]. exists (log_bytes rs ++ tail), idx. split_and!; [|by left|done].
      rewrite Hf2, Hd1. rewrite !insert_id; rewrite ?lookup_insert_ne by done; done. }
  pose proof (index_file_size _ _ Hix ltac:(lia)) as Hisz.
  eapply (wp_index_rewrite_stop _ _ idx);
    [by rewrite Hd1, lookup_insert_ne|eapply index_ok_wf; [done|lia]|intros d2 _ Hd2|
     intros ok i d2 Hdd Hd2 Hi]; apply wp_ret.
  2:{ apply Hfail. split; [done|]. exists (log_bytes rs), i. split_and!; [by rewrite Hd2, Hd1|by right|].
      pose proof (zlen_nonneg i). unfold is_u32 in *. lia. }
  apply HQ.
  - split; seg_simpl; try done.
    + by rewrite Hd2, lookup_insert_ne, Hd1, lookup_insert_eq.
    + by rewrite Hd2, lookup_insert_eq.
    + lia.
  - by eapply seg_totals_ext.
  - done.
  - done.
  - intros p Hp. rewrite Hd2, lookup_insert_ne, Hd1, lookup_insert_ne; set_solver.
Qed.

Lemma scanned_nil s : scanned (seg_set_totals INITIAL_CRC 0 (m_base_offset s) 0 (seg_set_index [] s)) [].
Proof. split; [apply index_ok_nil|]. by split. Qed.

Lemma wp_recover_fs d s rs tail idx Q :
  seg_torn d s rs tail idx ->
  (forall d' s', seg_view d' s' rs -> seg_totals s' rs -> same_segment s s' ->
     m_is_sealed s' = m_is_sealed s ->
     same_files_but [LogSegment_log_path s; LogSegment_index_path s] d d' ->
     Q (Status_OK, s', m_base_offset s + zlen rs) d') ->
  (forall d' s' next, scan_died d d' s rs tail idx -> Q (Status_OK, s', next) d') ->
  wp (LogSegment_recover_and_rebuild_index s) Q d.
Proof.
  intros T HQ Hfail. pose proof T as [Hlf Hif Hlog Hidx Hlim Hst Hrecs [Hb Hb']].
  unfold LogSegment_recover_and_rebuild_index. apply wp_bind.
  change (m_log_file (seg_set_index [] s)) with (m_log_file s). rewrite Hlf.
  eapply wp_get_size_ok; [exact Hlog|]. pose proof (zlen_nonneg (log_bytes rs ++ tail)).
  rewrite u32_id by (unfold is_u32, LOG_LIMIT in *; lia).
  cbv zeta. set (s1 := seg_set_totals _ _ _ _ _).
  assert (scanned s1 []) as Hsc by (split; [apply index_ok_nil|by split]).
  apply wp_bind.
  replace (m_base_offset s1) with (m_base_offset s1 + zlen (@nil Record))
    by (change (zlen (@nil Record)) with 0; lia).
  apply (wp_recover_loop rs _ s1 0 [] tail); try done.
  - change (m_log_size_bytes s1) with (zlen (log_bytes rs ++ tail)).
    pose proof (zlen_log_bytes_ge rs). rewrite zlen_app in *. pose proof (zlen_nonneg tail).
    unfold zlen in *. lia.
  - cbn [app]. intros s2 since Hsc2 ((Eb & Ed & Ei) & El & Eix & Es & Ese).
    apply wp_bind. eapply (wp_finish_scan_fs _ _ rs tail idx); [|by rewrite Es|done| |].
    { split; unfold LogSegment_log_path, LogSegment_index_path in *;
        rewrite ?Eb, ?Ed, ?El, ?Eix; done. }
    2:{ intros d' s' Hdied. apply wp_ret, Hfail. unfold scan_died, LogSegment_log_path,
          LogSegment_index_path in *. rewrite Eb, Ed in Hdied. exact Hdied. }
    intros d' s' V T' (Eb' & Ed' & Ei') Ese' Hsame. apply wp_ret.
    replace (m_base_offset s1) with (m_base_offset s) by done.
    apply HQ; [done|done| |by rewrite Ese', Ese|].
    + unfold same_segment. rewrite Eb', Ed', Ei', Eb, Ed, Ei. done.
    + unfold LogSegment_log_path, LogSegment_index_path in *. rewrite Eb, Ed in Hsame. done.
Qed.

Lemma wp_verify_full_fs d s rs tail idx rep Q :
  seg_torn d s rs tail idx ->
  (forall d' s' rep', seg_view d' s' rs -> seg_totals s' rs -> same_segment s s' ->
     m_is_sealed s' = m_is_sealed s ->
     same_files_but [LogSegment_log_path s; LogSegment_index_path s] d d' ->
     Q (Status_OK, s', rep') d') ->
  (forall d' s' rep', scan_died d d' s rs tail idx -> Q (Status_OK, s', rep') d') ->
  wp (LogSegment_verify_and_rebuild_full s rep) Q d.
Proof.
  intros T HQ Hfail. pose proof (verify_full_recover s rep d) as E.
  assert (wp (LogSegment_recover_and_rebuild_index s)
    (fun '(st, s', _) d' => st = Status_OK /\ forall rep', Q (st, s', rep') d') d)
    as ([[st s'] nx] & d' & Er & -> & HQ')
    by (eapply wp_recover_fs; [done|..]; intros; split; auto).
  rewrite Er in E. unfold wp.
  destruct (LogSegment_verify_and_rebuild_full s rep d) as [[[[st2 s2] rep2] d2]|]; [|done].
  cbn in E. injection E as -> -> ->. do 2 eexists. split; [done|]. apply HQ'.
Qed.

End recovery.

Section reliable.
Context {W : Win32} {R : Reliable W}.

Lemma wp_recover d s rs tail idx Q :
  seg_torn d s rs tail idx ->
  (forall d' s', seg_view d' s' rs -> seg_totals s' rs -> same_segment s s' ->
     m_is_sealed s' = m_is_sealed s ->
     same_files_but [LogSegment_log_path s; LogSegment_index_path s] d d' ->
     Q (Status_OK, s', m_base_offset s + zlen rs) d') ->
  wp (LogSegment_recover_and_rebuild_index s) Q d.
Proof. intros T HQ. eapply wp_recover_fs; [done|exact HQ|]. by intros d' s' nx [[] _]. Qed.

Lemma wp_verify_full d s rs tail idx rep Q :
  seg_torn d s rs tail idx ->
  (forall d' s' rep', seg_view d' s' rs -> seg_totals s' rs -> same_segment s s' ->
     m_is_sealed s' = m_is_sealed s ->
     same_files_but [LogSegment_log_path s; LogSegment_index_path s] d d' ->
     Q (Status_OK, s', rep') d') ->
  wp (LogSegment_verify_and_rebuild_full s rep) Q d.
Proof. intros T HQ. eapply wp_verify_full_fs; [done|exact HQ|]. by intros d' s' r [[] _]. Qed.

End reliable.

(** ** The sealed marker *)

Definition SealedMarker_wf (m : SealedMarker) : Prop :=
  magic m = SEALED_MAGIC /\ is_u64 (record_count m) /\ is_u64 (last_offset m) /\
  is_u32 (crc32_of_whole_log m) /\ is_i64 (max_timestamp_ms m).

Lemma zlen_SealedMarker_bytes m : zlen (SealedMarker_bytes m) = sizeof_SealedMarker.
Proof. unfold SealedMarker_bytes. autorewrite with sflen. done. Qed.

(** Reading one field of the packed struct. *)
Lemma le_field n v pre post bs off k :
  bs = pre ++ le_store n v ++ post -> off = zlen pre -> k = Z.of_nat n ->
  le_load (ztake k (zdrop off bs)) = v mod 256 ^ Z.of_nat n.
Proof.
  intros -> -> ->. rewrite zdrop_app_exact, ztake_app_exact by (done || by rewrite zlen_le_store).
  apply le_load_store.
Qed.

Lemma SealedMarker_of_bytes m : SealedMarker_wf m -> SealedMarker_of (SealedMarker_bytes m) = m.
Proof.
  destruct m as [mg n l c t]. intros (Hm & Hn & Hl & Hc & Ht).
  cbn [magic record_count last_offset crc32_of_whole_log max_timestamp_ms] in *. subst mg.
  unfold SealedMarker_of, SealedMarker_bytes.
  cbn [magic record_count last_offset crc32_of_whole_log max_timestamp_ms].
  unfold is_u64, is_u32 in *. f_equal.
  - erewrite (le_field 8 n (le_store 4 SEALED_MAGIC)); [|done..].
    apply Z.mod_small. done.
  - erewrite (le_field 8 l (le_store 4 SEALED_MAGIC ++ le_store 8 n)); [|by rewrite <- app_assoc|done..].
    apply Z.mod_small. done.
  - erewrite (le_field 4 c (le_store 4 SEALED_MAGIC ++ le_store 8 n ++ le_store 8 l));
      [|by rewrite <- !app_assoc|done..]. apply Z.mod_small. done.
  - erewrite (le_field 8 t (le_store 4 SEALED_MAGIC ++ le_store 8 n ++ le_store 8 l ++ le_store 4 c) []);
      [|by rewrite <- !app_assoc, app_nil_r|done..].
    change (256 ^ Z.of_nat 8) with (2 ^ 64). by apply i64_u64.
Qed.

(** What [read_sealed_marker] makes of the contents of the marker file. *)
Definition marker_at (o : option bytes) : option SealedMarker :=
  match o with
  | Some c =>
      if sizeof_SealedMarker <=? zlen c then
        let m := SealedMarker_of (ztake sizeof_SealedMarker c) in
        if magic m =? SEALED_MAGIC then Some m else None
      else None
  | None => None
  end.

Definition seg_marker (s : LogSegment) : SealedMarker :=
  mkSealedMarker SEALED_MAGIC (m_record_count s) (m_last_offset s) (LogSegment_running_crc s)
    (m_max_timestamp_ms s).

Lemma marker_at_bytes m rest :
  SealedMarker_wf m -> marker_at (Some (SealedMarker_bytes m ++ rest)) = Some m.
Proof.
  intros Hm. unfold marker_at. rewrite zlen_app, zlen_SealedMarker_bytes.
  pose proof (zlen_nonneg rest). zdecide.
  rewrite ztake_app_exact by (by rewrite zlen_SealedMarker_bytes).
  rewrite SealedMarker_of_bytes by done. destruct Hm as [-> _]. done.
Qed.

Lemma zlen_pos {A} (l : list A) : l <> [] -> 1 <= zlen l.
Proof. destruct l; [done|]. rewrite zlen_cons. pose proof (zlen_nonneg l). lia. Qed.

(** The marker of a segment that holds the records [rs]. *)
Definition marker_of (base : Z) (rs : list Record) : SealedMarker :=
  mkSealedMarker SEALED_MAGIC (zlen rs) (base + zlen rs - 1) (Crc32_calculate (log_bytes rs))
    (max_ts rs).

Lemma seg_marker_of s rs : seg_totals s rs -> rs <> [] -> seg_marker s = marker_of (m_base_offset s) rs.
Proof.
  intros [Tc Tn Tl Tt] Hne. unfold seg_marker, marker_of, LogSegment_running_crc.
  by rewrite Tc, Tn, Tt, (Tl Hne).
Qed.

Lemma seg_marker_wf s rs :
  seg_totals s rs -> rs <> [] -> recs_ok (m_base_offset s) rs -> 0 <= m_base_offset s ->
  m_base_offset s + zlen rs < 2 ^ 64 -> SealedMarker_wf (seg_marker s).
Proof.
  intros T Hne [Hw _] Hb Hb'. rewrite (seg_marker_of s rs) by done.
  pose proof (zlen_pos rs Hne). unfold marker_of. repeat split; cbn; try (apply Crc32_calculate_range);
    try (apply (max_ts_range rs Hw)); lia.
Qed.

Section marker.
Context {W : Win32} {F : FailStop W}.

Lemma wp_read_marker s Q d :
  (forall d' st, files d' = files d ->
     (m_code st <> OK -> marker_at (files d !! LogSegment_sealed_path s) = None ->
      forall m, Q (st, m) d') /\
     (forall m, marker_at (files d !! LogSegment_sealed_path s) = Some m -> Q (Status_OK, m) d')) ->
  wp (LogSegment_read_sealed_marker s) Q d.
Proof.
  intros HQ. unfold LogSegment_read_sealed_marker. apply wp_bind.
  destruct (files d !! LogSegment_sealed_path s) as [c|] eqn:Ec.
  - apply wp_open_existing_ok; [by eexists|]. intros d1 Hd1 _. cbn [FileHandle_is_valid negb].
    apply wp_bind.
    destruct (Z.leb_spec sizeof_SealedMarker (zlen c)) as [Hle|Hlt].
    + eapply wp_read_ok; [by rewrite Hd1|lia|done|lia|]. rewrite zdrop_0.
      rewrite zlen_ztake, Z.min_l by done. cbn [negb orb]. cbv iota zeta beta.
      change (sizeof_SealedMarker <? 24) with false. cbv iota.
      assert (marker_at (Some c) =
        let m := SealedMarker_of (ztake sizeof_SealedMarker c) in
        if magic m =? SEALED_MAGIC then Some m else None) as Hm
        by (unfold marker_at; by rewrite (proj2 (Z.leb_le _ _) Hle)).
      cbv zeta in Hm. destruct (magic _ =? _) eqn:Em; cbn [negb]; apply wp_ret.
      * by apply (HQ d1 Status_OK Hd1).
      * by apply HQ.
    + eapply wp_read_at; [lia|done| |].
      * intros data. cbn [negb orb]. apply wp_ret. apply HQ; [done..|].
        unfold marker_at. by rewrite (proj2 (Z.leb_gt _ _) Hlt).
      * intros c' Hc' Hl. rewrite Hd1, Ec in Hc'. simplify_eq.
        rewrite zdrop_0, zlen_ztake in Hl by done. lia.
  - apply wp_open_read_only; intros d1.
    + intros Hd1. cbn [FileHandle_is_valid negb]. apply wp_ret. by apply HQ.
    + rewrite Ec. by intros [? ?].
Qed.

(** The marker file of a segment is written, or the volume dies with a part of it. *)
Lemma wp_write_marker_fs s Q d :
  files d !! LogSegment_sealed_path s = None ->
  (forall d', files d' = <[LogSegment_sealed_path s := SealedMarker_bytes (seg_marker s)]> (files d) ->
     Q Status_OK d') ->
  (forall st d', m_code st <> OK -> dead d' ->
     files d' = files d \/
     (exists n, 0 <= n <= sizeof_SealedMarker /\
        files d' = <[LogSegment_sealed_path s := ztake n (SealedMarker_bytes (seg_marker s))]> (files d)) ->
     Q st d') ->
  wp (LogSegment_write_sealed_marker s) Q d.
Proof.
  intros Hn HQ Hfail. unfold LogSegment_write_sealed_marker. apply wp_bind.
  apply wp_open_stop; [intros d1 _ Hd1|intros d1 Hdd Hd1]; cbn [FileHandle_is_valid negb].
  2:{ apply wp_ret, Hfail; [done..|]. by left. }
  assert (files d1 = <[LogSegment_sealed_path s := []]> (files d)) as Hd1'
    by (rewrite Hd1; unfold opened; by rewrite Hn).
  apply wp_bind. eapply wp_write_stop; [rewrite Hd1'; apply lookup_insert_eq|..].
  - intros d2 _ Hd2. cbn [negb]. apply wp_bind, wp_flush. intros d3 Hd3 _. apply wp_ret, HQ.
    by rewrite Hd3, Hd2, Hd1', insert_insert_eq.
  - intros n d2 Hn2 Hdd Hd2. cbn [negb]. apply wp_ret, Hfail; [done..|]. right. exists n.
    change (mkSealedMarker _ _ _ _ _) with (seg_marker s) in *.
    rewrite zlen_SealedMarker_bytes in Hn2. split; [done|]. by rewrite Hd2, Hd1', insert_insert_eq.
Qed.

(** ** Opening *)

Definition opened_segment (base : Z) (dir : path) (iv : Z) (log idx : bytes)
    (mk : option SealedMarker) : LogSegment :=
  let s := LogSegment_new base dir iv in
  mkLogSegment base dir (Some (LogSegment_log_path s)) (Some (LogSegment_index_path s))
    (index_of_bytes idx) (zlen log)
    match list.last (index_of_bytes idx) with
    | Some e => if file_position e <=? zlen log then u32 (zlen log - file_position e) else 0
    | None => zlen log
    end
    iv (match mk with Some _ => true | None => false end) INITIAL_CRC
    (match mk with Some m => record_count m | None => 0 end)
    (match mk with Some m => last_offset m | None => 0 end)
    (match mk with Some m => max_timestamp_ms m | None => 0 end).

(** The files after a segment has been opened. *)
Definition opened_files (base : Z) (dir : path) (m : gmap path bytes) : gmap path bytes :=
  opened OPEN_ALWAYS (segment_path (str ".index") base dir)
    (opened OPEN_ALWAYS (segment_path (str ".log") base dir) m).

(** Both files are opened or created; when the volume dies the index file, and perhaps
    the log, is missing. *)
Lemma wp_open_fs base dir iv Q d :
  let log := default [] (files d !! segment_path (str ".log") base dir) in
  let idx := default [] (files d !! segment_path (str ".index") base dir) in
  zlen log <= LOG_LIMIT -> is_u32 (zlen idx) ->
  (forall d', files d' = opened_files base dir (files d) ->
     Q (Status_OK, opened_segment base dir iv log idx
          (marker_at (files d !! segment_path (str ".sealed") base dir))) d') ->
  (forall st s' d', m_code st <> OK -> dead d' ->
     files d' = files d \/
     files d' = opened OPEN_ALWAYS (segment_path (str ".log") base dir) (files d) ->
     Q (st, s') d') ->
  wp (LogSegment_open (LogSegment_new base dir iv)) Q d.
Proof.
  intros log idx Hlog Hidx HQ Hfail. unfold LogSegment_open. pose proof (zlen_nonneg log) as Hl0.
  set (s0 := LogSegment_new base dir iv).
  apply wp_bind, wp_create_directories_ok. intros d0 Hd0 _.
  apply wp_bind, wp_open_stop; [intros d1 _ Hd1|intros d1 Hdd Hd1]; rewrite Hd0 in Hd1;
    cbn [FileHandle_is_valid negb].
  2:{ apply wp_ret, Hfail; [done..|]. by left. }
  apply wp_bind, wp_open_stop; [intros d2 _ Hd2|intros d2 Hdd Hd2]; rewrite Hd1 in Hd2;
    cbn [FileHandle_is_valid negb].
  2:{ apply wp_ret, Hfail; [done..|]. by right. }
  change (files d2 = opened_files base dir (files d)) in Hd2.
  pose proof (segment_path_ext _ _ base dir ext_log_index).
  pose proof (segment_path_ext _ _ base dir ext_log_sealed).
  pose proof (segment_path_ext _ _ base dir ext_index_sealed).
  assert (files d2 !! LogSegment_log_path s0 = Some log) as Hfl.
  { rewrite Hd2. unfold opened_files. rewrite !opened_lookup, decide_False by done.
    by rewrite decide_True by done. }
  assert (files d2 !! LogSegment_index_path s0 = Some idx) as Hfi.
  { rewrite Hd2. unfold opened_files. rewrite opened_lookup, decide_True by done.
    rewrite opened_lookup, decide_False by done. done. }
  assert (files d2 !! LogSegment_sealed_path s0 = files d !! segment_path (str ".sealed") base dir) as Hfs.
  { rewrite Hd2. unfold opened_files. by rewrite !opened_lookup, !decide_False by done. }
  cbv zeta. apply wp_bind. cbn [seg_set_files m_log_file m_index_file].
  eapply wp_get_size_ok; [exact Hfl|]. rewrite u32_id by (unfold is_u32, LOG_LIMIT in *; lia).
  apply wp_bind. cbn [seg_set_size m_index_file].
  eapply wp_index_load_any; [exact Hfi|done|]. cbn [negb]. apply wp_bind. unfold io_get.
  match goal with |- context [LogSegment_has_sealed_marker ?x] => set (s1 := x) end.
  change (LogSegment_sealed_path s1) with (LogSegment_sealed_path s0).
  exists (fs_exists (LogSegment_sealed_path s0) d2), d2. split; [done|].
  destruct (fs_exists _ d2) eqn:Ex; cbn [negb].
  - apply wp_bind, wp_read_marker. change (LogSegment_sealed_path s1) with (LogSegment_sealed_path s0).
    rewrite Hfs. intros d3 st Hd3. split.
    + intros Hst Hm m. rewrite (proj2 (Status_ok_false st) Hst). cbn [negb].
      apply wp_ret. specialize (HQ d3). rewrite Hm in HQ. apply HQ. congruence.
    + intros m Hm. change (Status_ok Status_OK) with true. cbn [negb].
      apply wp_ret. specialize (HQ d3). rewrite Hm in HQ. apply HQ. congruence.
  - assert (files d !! segment_path (str ".sealed") base dir = None) as Hn.
    { rewrite <- Hfs. apply eq_None_not_Some. intros Hs. apply fs_exists_stop in Hs. congruence. }
    apply wp_ret. specialize (HQ d2). rewrite Hn in HQ. by apply HQ.
Qed.

Lemma inert_segment_open s : inert (LogSegment_open s) (fun r => m_code r.1 <> OK).
Proof.
  eapply inert_bind; [apply inert_create_directories|]. intros _ _.
  eapply inert_bind; [apply inert_open|]. intros h ->. by apply inert_ret.
Qed.

Lemma inert_flush_segment s : inert (LogSegment_flush s) (fun _ => True).
Proof. eapply inert_bind; [apply inert_flush|]. intros _ _. apply inert_flush. Qed.

Lemma inert_seal s : inert (LogSegment_seal s) (fun _ => True).
Proof. eapply inert_bind; [apply inert_flush_segment|]. intros _ _. by apply inert_ret. Qed.

Lemma inert_write_marker s : inert (LogSegment_write_sealed_marker s) (fun _ => True).
Proof. eapply inert_bind; [apply inert_open|]. intros h ->. by apply inert_ret. Qed.

End marker.

Section reliable.
Context {W : Win32} {R : Reliable W}.

Lemma wp_write_marker s Q d :
  files d !! LogSegment_sealed_path s = None ->
  (forall d', files d' = <[LogSegment_sealed_path s := SealedMarker_bytes (seg_marker s)]> (files d) ->
     Q Status_OK d') ->
  wp (LogSegment_write_sealed_marker s) Q d.
Proof. intros Hn HQ. by apply wp_write_marker_fs. Qed.

Lemma wp_open base dir iv Q d :
  let log := default [] (files d !! segment_path (str ".log") base dir) in
  let idx := default [] (files d !! segment_path (str ".index") base dir) in
  zlen log <= LOG_LIMIT -> is_u32 (zlen idx) ->
  (forall d', files d' = opened_files base dir (files d) ->
     Q (Status_OK, opened_segment base dir iv log idx
          (marker_at (files d !! segment_path (str ".sealed") base dir))) d') ->
  wp (LogSegment_open (LogSegment_new base dir iv)) Q d.
Proof. intros log idx Hlog Hidx HQ. by apply wp_open_fs. Qed.

End reliable.

(** ** Quick verification *)

Section verify.
Context {W : Win32} {F : FailStop W}.

Lemma index_ok_last rs es e :
  index_ok rs es -> list.last es = Some e -> exists i, (i < length rs)%nat /\ file_position e = rec_pos rs i.
Proof.
  intros [He _ _] Hl. apply last_Some_elem_of in Hl. rewrite list.Forall_forall in He.
  destruct (He e Hl) as (i & Hi & ->). by exists i.
Qed.

Lemma index_ok_positions rs es :
  index_ok rs es -> existsb (fun e => zlen (log_bytes rs) <=? file_position e) es = false.
Proof.
  intros [He _ _]. apply not_true_is_false. intros Hex.
  apply existsb_exists in Hex as (e & Hin & Hle). apply list_elem_of_In in Hin.
  rewrite list.Forall_forall in He. destruct (He e Hin) as (i & Hi & ->).
  destruct (lookup_lt_is_Some_2 rs i Hi) as [r Hr].
  pose proof (rec_pos_bound rs i r Hr). pose proof (record_size_ge r). zbool. cbn in *. lia.
Qed.

(** An intact segment passes. *)
Lemma wp_verify_quick d s rs Q :
  seg_view d s rs -> m_last_offset s - m_base_offset s < 2 ^ 32 ->
  Q (Status_OK, true) d -> wp (LogSegment_verify_quick s) Q d.
Proof.
  intros V Hlast HQ. unfold LogSegment_verify_quick. rewrite (sv_size _ _ _ V).
  destruct rs as [|r0 rs']; [by apply wp_ret|]. set (rs := r0 :: rs') in *.
  assert (28 <= zlen (log_bytes rs)) as Hge.
  { pose proof (zlen_log_bytes_ge rs) as H. unfold rs in *. rewrite zlen_cons in H.
    pose proof (zlen_nonneg rs'). lia. }
  zdecide. rewrite index_ok_positions by apply V. cbv iota.
  apply wp_bind. change 0 with (rec_pos rs 0) at 1.
  eapply (wp_read_record d s rs 0 r0); [done|done|].
  change (negb (Status_ok Status_OK)) with false. cbv beta iota zeta.
  set (pos := if _ && _ then _ else _).
  assert (exists i, (i < length rs)%nat /\ pos = rec_pos rs i) as (i & Hi & ->).
  { unfold pos. destruct (_ && _).
    - destruct (lookup_file_position_record d s rs (m_last_offset s) V) as (i & ? & ? & _);
        [done|done|]. by exists i.
    - destruct (list.last (m_index s)) as [e|] eqn:El.
      + eapply index_ok_last; [apply V|done].
      + exists 0%nat. split; [cbn; lia|done]. }
  destruct (lookup_lt_is_Some_2 rs i Hi) as [r Hr].
  pose proof (rec_pos_bound rs i r Hr). pose proof (record_size_ge r). zdecide.
  apply wp_bind. eapply wp_read_record; [done|done|]. by apply wp_ret.
Qed.

End verify.

(** ** Properties *)

Section properties.
Context {W : Win32} {R : Reliable W}.

(** Crash recovery of a segment is exact.  Whatever the index file holds, and
    however the log ends after its last complete record (nothing, a record whose
    write was cut short, a record whose checksum fails), opening the segment and
    recovering it succeeds and leaves a segment that holds exactly the complete
    records: the log file is cut back to them, the index is rebuilt so that every
    entry points at the record it names, the running totals are theirs, and the
    next offset follows the last record. *)
Theorem segment_recovery_exact base dir iv rs tail idx d :
  files d !! segment_path (str ".log") base dir = Some (log_bytes rs ++ tail) ->
  files d !! segment_path (str ".index") base dir = Some idx ->
  is_u32 (zlen idx) -> zlen (log_bytes rs ++ tail) <= LOG_LIMIT -> scan_stops tail ->
  recs_ok base rs -> 0 <= base -> base + zlen rs < 2 ^ 64 ->
  wp ('(_, s) ← LogSegment_open (LogSegment_new base dir iv);
      LogSegment_recover_and_rebuild_index s)
    (fun '(st, s, next) d' =>
       st = Status_OK /\ next = base + zlen rs /\ seg_view d' s rs /\ seg_totals s rs /\
       m_base_offset s = base /\ m_partition_dir s = dir /\
       same_files_but [segment_path (str ".log") base dir; segment_path (str ".index") base dir] d d') d.
Proof.
  intros Hlog Hidx Hi Hlim Hst Hrecs Hb Hb'. apply wp_bind.
  apply wp_open; rewrite ?Hlog, ?Hidx; cbn [default]; [done|done|]. intros d1 Hd1.
  assert (files d1 = files d) as Hd1'.
  { rewrite Hd1. unfold opened_files, opened. rewrite Hlog. by rewrite Hidx. }
  eapply (wp_recover d1 _ rs tail idx).
  - split; rewrite ?Hd1'; done.
  - intros d' s' V T (Eb & Ed & _) _ Hsame. rewrite Eb, Ed. split_and!; try done.
    intros p Hp. rewrite Hsame by done. by rewrite Hd1'.
Qed.

(** Appending to a segment: on a volume whose calls succeed, appending the next
    record to an unsealed segment that holds the records [rs] reports success, and
    the segment then holds [rs] followed by the record, in the log file as well as
    in the index and the running totals; no other file changes. *)
Theorem segment_append_correct d s rs r sync :
  seg_view d s rs -> seg_totals s rs -> m_is_sealed s = false -> append_pre s rs r ->
  wp (LogSegment_append_with_timestamp s r (timestamp_ms r) sync)
    (fun '(st, s') d' =>
       st = Status_OK /\ seg_view d' s' (rs ++ [r]) /\ seg_totals s' (rs ++ [r]) /\
       m_base_offset s' = m_base_offset s /\ m_partition_dir s' = m_partition_dir s /\
       same_files_but [LogSegment_log_path s; LogSegment_index_path s] d d') d.
Proof.
  intros V T Hs Hp. eapply wp_append; [done..|].
  intros d' s' V' T' (Eb & Ed & _) _ Hf. done.
Qed.

(** Reading by offset through the sparse index: for a record of the segment,
    the position [lookup_file_position] returns for its offset is the start of a
    record not after it, and reading at the record's own position returns it. *)
Theorem segment_lookup_read d s rs i r :
  seg_view d s rs -> rs !! i = Some r ->
  (exists j, (j <= i)%nat /\ LogSegment_lookup_file_position s (offset r) = rec_pos rs j) /\
  wp (LogSegment_read_record_at s (rec_pos rs i) empty_Record)
    (fun '(st, r') d' => st = Status_OK /\ r' = r /\ d' = d) d.
Proof.
  intros V Hr. split; [|by eapply wp_read_record].
  destruct (sv_recs _ _ _ V) as [_ Ho]. specialize (Ho i r Hr).
  pose proof (sv_limit _ _ _ V). pose proof (zlen_log_bytes_ge rs). unfold LOG_LIMIT in *.
  pose proof (lookup_lt_Some _ _ _ Hr).
  destruct (lookup_file_position_record d s rs (offset r) V) as (j & Hj & E & Hle).
  - by intros ->.
  - unfold zlen in *. lia.
  - exists j. split; [|done]. destruct j; [lia|]. specialize (Hle ltac:(lia)). lia.
Qed.

(** The sealed marker survives a restart: sealing a segment, writing its marker
    and reading the marker back returns the number of records, the last offset, the
    largest timestamp and a checksum that is the CRC-32 of the whole log file. *)
Theorem sealed_marker_roundtrip d s rs :
  seg_view d s rs -> seg_totals s rs -> rs <> [] ->
  files d !! LogSegment_sealed_path s = None ->
  wp (s ← LogSegment_seal s; _ ← LogSegment_write_sealed_marker s; LogSegment_read_sealed_marker s)
    (fun '(st, m) d' => st = Status_OK /\ record_count m = zlen rs /\
       last_offset m = m_base_offset s + zlen rs - 1 /\ max_timestamp_ms m = max_ts rs /\
       exists c, files d' !! LogSegment_log_path s = Some c /\
         crc32_of_whole_log m = Crc32_calculate c) d.
Proof.
  intros V [Tc Tn Tl Tt] Hne Hn. apply wp_bind. unfold LogSegment_seal. apply wp_bind.
  apply wp_flush_segment. intros d1 Hd1. apply wp_ret. apply wp_bind.
  apply wp_write_marker; [by rewrite Hd1|]. intros d2 Hd2.
  set (s' := seg_set_sealed true s) in *.
  pose proof (sv_base _ _ _ V) as [Hb Hb'].
  assert (SealedMarker_wf (seg_marker s')) as Hwf
    by (eapply (seg_marker_wf s' rs); [by split|done|apply V|done..]).
  apply wp_read_marker. intros d3 st Hd3.
  assert (marker_at (files d2 !! LogSegment_sealed_path s') = Some (seg_marker s')) as Hm.
  { rewrite Hd2, lookup_insert_eq, <- (app_nil_r (SealedMarker_bytes _)). by apply marker_at_bytes. }
  rewrite Hm. split; [done|]. intros m [= <-].
  cbn [seg_marker record_count last_offset max_timestamp_ms crc32_of_whole_log].
  split_and!; [done|done|by apply Tl|done|].
  exists (log_bytes rs). split.
  - rewrite Hd3, Hd2, lookup_insert_ne, Hd1; [apply V|].
    intros E. symmetry in E. by eapply segment_path_ext in E; [|apply ext_log_sealed].
  - unfold LogSegment_running_crc. cbn. by rewrite Tc.
Qed.

End properties.

(** ** A concrete segment *)

Definition demo_dir : path := [str "data"; str "events"; str "0"].
Definition demo_records : list Record :=
  [mkRecord 5 1000 (str "k") (str "first"); mkRecord 6 1003 [] (str "second")].
Definition demo_next : Record := mkRecord 7 1001 (str "k") (str "third").
Definition demo_index : OffsetIndex := [mkIndexEntry 0 0].
Definition demo_disk : @disk memory_disk :=
  <[segment_path (str ".log") 5 demo_dir := log_bytes demo_records]>
  (<[segment_path (str ".index") 5 demo_dir := index_bytes demo_index]> (∅ : gmap path bytes)).
Definition demo_segment : LogSegment :=
  mkLogSegment 5 demo_dir (Some (segment_path (str ".log") 5 demo_dir))
    (Some (segment_path (str ".index") 5 demo_dir)) demo_index (zlen (log_bytes demo_records)) 0 4096
    false (Crc32_update INITIAL_CRC (log_bytes demo_records)) 2 6 1003.

Lemma demo_recs_ok : recs_ok 5 demo_records.
Proof.
  unfold demo_records. apply (recs_ok_app 5 [_] [_]). split; apply recs_ok_one; by vm_compute.
Qed.

Lemma demo_index_ok : index_ok demo_records demo_index.
Proof.
  split; [|repeat constructor|done]. repeat constructor. exists 0%nat. split; [cbn; lia|done].
Qed.

Lemma demo_view : @seg_view memory_disk demo_disk demo_segment demo_records.
Proof.
  split; try done.
  - apply demo_recs_ok.
  - apply demo_index_ok.
Qed.

Lemma demo_totals : seg_totals demo_segment demo_records.
Proof. split; try done. Qed.

Example segment_append_correct_witness :
  wp (W := memory_disk)
    (LogSegment_append_with_timestamp demo_segment demo_next (timestamp_ms demo_next) true)
    (fun '(st, s') d' =>
       st = Status_OK /\ seg_view d' s' (demo_records ++ [demo_next]) /\
       seg_totals s' (demo_records ++ [demo_next]) /\
       m_base_offset s' = m_base_offset demo_segment /\
       m_partition_dir s' = m_partition_dir demo_segment /\
       same_files_but [LogSegment_log_path demo_segment; LogSegment_index_path demo_segment]
         demo_disk d') demo_disk.
Proof.
  apply (segment_append_correct (W := memory_disk)).
  - apply demo_view.
  - apply demo_totals.
  - reflexivity.
  - split; by vm_compute.
Defined.

Example segment_recovery_exact_witness :
  let d : @disk memory_disk :=
    <[segment_path (str ".log") 5 demo_dir :=
        log_bytes demo_records ++ take 30 (record_bytes demo_next)]>
    {[segment_path (str ".index") 5 demo_dir := str "garbage"]} in
  wp (W := memory_disk)
    ('(_, s) ← LogSegment_open (LogSegment_new 5 demo_dir 4096);
     LogSegment_recover_and_rebuild_index s)
    (fun '(st, s, next) d' =>
       st = Status_OK /\ next = 5 + zlen demo_records /\ seg_view d' s demo_records /\
       seg_totals s demo_records /\ m_base_offset s = 5 /\ m_partition_dir s = demo_dir /\
       same_files_but [segment_path (str ".log") 5 demo_dir; segment_path (str ".index") 5 demo_dir]
         d d') d.
Proof.
  apply (segment_recovery_exact (W := memory_disk) 5 demo_dir 4096 demo_records
           (take 30 (record_bytes demo_next)) (str "garbage")).
  - reflexivity.
  - reflexivity.
  - by vm_compute.
  - by vm_compute.
  - apply (torn_record_stops demo_next _ (drop 30 (record_bytes demo_next))).
    + by vm_compute.
    + by rewrite take_drop.
    + by vm_compute.
  - apply demo_recs_ok.
  - lia.
  - by vm_compute.
Defined.

Example segment_lookup_read_witness :
  (exists j, (j <= 1)%nat /\ LogSegment_lookup_file_position demo_segment 6 = rec_pos demo_records j) /\
  wp (W := memory_disk)
    (LogSegment_read_record_at demo_segment (rec_pos demo_records 1) empty_Record)
    (fun '(st, r') d' =>
       st = Status_OK /\ r' = mkRecord 6 1003 [] (str "second") /\ d' = demo_disk) demo_disk.
Proof.
  apply (segment_lookup_read (W := memory_disk) demo_disk demo_segment demo_records 1
           (mkRecord 6 1003 [] (str "second"))).
  - apply demo_view.
  - reflexivity.
Defined.

Example sealed_marker_roundtrip_witness :
  wp (W := memory_disk)
    (s ← LogSegment_seal demo_segment; _ ← LogSegment_write_sealed_marker s;
     LogSegment_read_sealed_marker s)
    (fun '(st, m) d' => st = Status_OK /\ record_count m = zlen demo_records /\
       last_offset m = m_base_offset demo_segment + zlen demo_records - 1 /\
       max_timestamp_ms m = max_ts demo_records /\
       exists c, files d' !! LogSegment_log_path demo_segment = Some c /\
         crc32_of_whole_log m = Crc32_calculate c) demo_disk.
Proof.
  apply (sealed_marker_roundtrip (W := memory_disk)).
  - apply demo_view.
  - apply demo_totals.
  - done.
  - reflexivity.
Defined.

(** The full verification of a segment and crash recovery are the same scan:
    on every volume, for every segment and whatever the calls return, both leave
    the same segment and the same files, or both leave none. *)
Theorem full_scan_is_recovery {W : Win32} s rep d :
  scan_result (LogSegment_verify_and_rebuild_full s rep d) =
  scan_result (LogSegment_recover_and_rebuild_index s d).
Proof. apply verify_full_recover. Qed.
