(* ===== verification/Partition.v ===== *)
(** * Partition: an ordered sequence of segments (src/Partition.cpp)

    The state is the record [Partition]; the member functions are definitions of
    the [io] monad.  Each runs under the partition's lock and is one atomic step;
    the current time is an argument.  [part_ok d p olds a ra] is the invariant: the
    sealed segments [olds], each with its records, followed by the active segment
    [a] with the records [ra].  Its abstraction is the earliest offset and the list
    of all records, and every operation is specified on it. *)
From S2P Require Import Prelude StdString Status Crc32 RecordCodec FileHandle OffsetIndex LogSegment.

Record Partition := mkPartition {
  pt_partition_id : Z;         (* uint32_t *)
  pt_partition_dir : path;
  pt_config : StorageConfig;
  pt_next_offset : Z;          (* uint64_t *)
  pt_segments : list LogSegment;
  pt_is_degraded : bool;
}.

Record ReadResult := mkReadResult {
  rr_records : list Record;
  rr_status : Status;
}.

Record DeletionCandidate := mkDeletionCandidate {
  dc_base_offset : Z;
  dc_records : Z;
  dc_bytes : Z;
  dc_log_path : path;
  dc_index_path : path;
  dc_sealed_path : path;
}.

(** Assignments to the members. *)
Definition pt_set_next (n : Z) (p : Partition) : Partition :=
  mkPartition (pt_partition_id p) (pt_partition_dir p) (pt_config p) n (pt_segments p)
    (pt_is_degraded p).
Definition pt_set_segments (l : list LogSegment) (p : Partition) : Partition :=
  mkPartition (pt_partition_id p) (pt_partition_dir p) (pt_config p) (pt_next_offset p) l
    (pt_is_degraded p).
Definition Partition_set_degraded (b : bool) (p : Partition) : Partition :=
  mkPartition (pt_partition_id p) (pt_partition_dir p) (pt_config p) (pt_next_offset p)
    (pt_segments p) b.

Definition Partition_new (id : Z) (dir : path) (config : StorageConfig) : Partition :=
  mkPartition id dir config 0 [] false.

(** [path::stem] and [path::extension] of a file name: the extension starts at
    the last dot, unless that is the first character. *)
Definition split_extension (name : bytes) : bytes * bytes :=
  match list_find (fun c => c = Byte.x2e) (rev name) with
  | Some (i, _) =>
      let pos := (length name - 1 - i)%nat in
      if bool_decide (pos = 0%nat) then (name, []) else (take pos name, drop pos name)
  | None => (name, [])
  end.

(** The base offset a directory entry stands for. *)
Definition log_base_offset (name : bytes) : option Z :=
  let '(stem, ext) := split_extension name in
  if bool_decide (ext = str ".log") then fst <$> std_stoull stem else None.

Definition Partition_active_segment_unlocked (p : Partition) : option LogSegment :=
  list.last (pt_segments p).

(** The active segment after an operation on it. *)
Definition pt_set_active (s : LogSegment) (p : Partition) : Partition :=
  pt_set_segments (<[pred (length (pt_segments p)) := s]> (pt_segments p)) p.

Definition Partition_earliest_offset (p : Partition) : Z :=
  match pt_segments p with [] => 0 | s :: _ => m_base_offset s end.

Definition Partition_segment_count (p : Partition) : Z := zlen (pt_segments p).

Definition Partition_total_bytes (p : Partition) : Z :=
  foldl (fun total s => u64 (total + m_log_size_bytes s)) 0 (pt_segments p).

(** [4 + 24 + static_cast<uint32_t>(key.size() + value.size())] *)
Definition Partition_record_size (k v : bytes) : Z := u32 (4 + 24 + u32 (zlen k + zlen v)).

(** The segment in which a read starts: the last one whose successor does not
    start at or before the offset. *)
Fixpoint Partition_find_segment (segs : list LogSegment) (start_offset : Z) : list LogSegment :=
  match segs with
  | s :: ((next :: _) as rest) =>
      if m_base_offset next <=? start_offset then Partition_find_segment rest start_offset else segs
  | _ => segs
  end.

(** The two prefix counts of [scan_and_delete_segments], over the segments before
    the active one. *)
Fixpoint Partition_deletable_by_age (now_ms retention_ms : Z) (segs : list LogSegment) : nat :=
  match segs with
  | [] | [_] => 0
  | s :: rest =>
      if (0 <? m_max_timestamp_ms s) && (i64 retention_ms <? now_ms - m_max_timestamp_ms s)
      then S (Partition_deletable_by_age now_ms retention_ms rest) else 0
  end.

Fixpoint Partition_deletable_by_size (retention_bytes current_total : Z) (segs : list LogSegment)
    : nat :=
  match segs with
  | [] | [_] => 0
  | s :: rest =>
      if retention_bytes <? current_total
      then S (Partition_deletable_by_size retention_bytes
                (u64 (current_total - m_log_size_bytes s)) rest) else 0
  end.

Definition Partition_deletable_count (p : Partition) (now_ms retention_ms retention_bytes : Z) : nat :=
  let by_age := if 0 <? retention_ms
                then Partition_deletable_by_age now_ms retention_ms (pt_segments p) else 0%nat in
  let by_size := if 0 <? retention_bytes
                 then Partition_deletable_by_size retention_bytes (Partition_total_bytes p)
                        (pt_segments p) else 0%nat in
  let count := Nat.max by_age by_size in
  if bool_decide (length (pt_segments p) <= count)%nat then (length (pt_segments p) - 1)%nat else count.

Definition Partition_candidate (s : LogSegment) : DeletionCandidate :=
  mkDeletionCandidate (m_base_offset s) (m_record_count s) (m_log_size_bytes s)
    (LogSegment_log_path s) (LogSegment_index_path s) (LogSegment_sealed_path s).

Section Partition.
Context {W : Win32}.

(** The loop of [open_and_recover] over the sorted base offsets. *)
Fixpoint Partition_recover_segments (p : Partition) (base_offsets : list Z) : io (Status * Partition) :=
  match base_offsets with
  | [] => mret (Status_OK, p)
  | base_off :: rest =>
      '(st, seg) ← LogSegment_open
        (LogSegment_new base_off (pt_partition_dir p) (index_interval_bytes (pt_config p)));
      if negb (Status_ok st) then mret (st, p) else
      match rest with
      | _ :: _ =>
          has ← LogSegment_has_sealed_marker seg;
          if negb has then
            '(st, seg, _) ← LogSegment_recover_and_rebuild_index seg;
            if negb (Status_ok st) then mret (st, p) else
            seg ← LogSegment_seal seg;
            _ ← LogSegment_write_sealed_marker seg;
            _ ← LogSegment_flush seg;
            _ ← FileHandle_flush_directory (pt_partition_dir p);
            Partition_recover_segments (pt_set_segments (pt_segments p ++ [seg]) p) rest
          else if bool_decide (startup_scan (pt_config p) = str "full") then
            '(_, seg, rep) ← LogSegment_verify_and_rebuild_full seg (mkScanReport 0 0 0);
            let p := if 0 <? out_corruption_count rep then Partition_set_degraded true p else p in
            seg ← LogSegment_seal seg;
            Partition_recover_segments (pt_set_segments (pt_segments p ++ [seg]) p) rest
          else
            '(_, valid) ← LogSegment_verify_quick seg;
            let p := if negb valid then Partition_set_degraded true p else p in
            seg ← LogSegment_seal seg;
            Partition_recover_segments (pt_set_segments (pt_segments p ++ [seg]) p) rest
      | [] =>
          '(st, seg, next) ← LogSegment_recover_and_rebuild_index seg;
          let p := pt_set_next next p in
          if negb (Status_ok st) then mret (st, p) else
          Partition_recover_segments (pt_set_segments (pt_segments p ++ [seg]) p) rest
      end
  end.

Definition Partition_open_and_recover (p : Partition) : io (Status * Partition) :=
  _ ← create_directories (pt_partition_dir p);
  names ← io_get (fs_directory (pt_partition_dir p));
  let base_offsets := merge_sort Z.le (omap log_base_offset names) in
  let p := pt_set_segments [] p in
  let base_offsets := match base_offsets with [] => [0] | _ => base_offsets end in
  '(st, p) ← Partition_recover_segments p base_offsets;
  if negb (Status_ok st) then mret (st, p) else
  mret (Status_OK,
    match list.last (pt_segments p) with
    | Some s => if pt_next_offset p <? m_base_offset s then pt_set_next (m_base_offset s) p else p
    | None => p
    end).

Definition Partition_roll_segment_unlocked (p : Partition) : io (Status * Partition) :=
  '(st, new_seg) ← LogSegment_open
    (LogSegment_new (pt_next_offset p) (pt_partition_dir p) (index_interval_bytes (pt_config p)));
  if negb (Status_ok st) then mret (st, p) else
  let olds := pt_segments p in
  let p := pt_set_segments (olds ++ [new_seg]) p in
  _ ← FileHandle_flush_directory (pt_partition_dir p);
  match list.last olds with
  | Some old_seg =>
      old_seg ← LogSegment_seal old_seg;
      let p := pt_set_segments (<[pred (length olds) := old_seg]> (pt_segments p)) p in
      st ← LogSegment_write_sealed_marker old_seg;
      if negb (Status_ok st) then mret (st, p) else
      _ ← LogSegment_flush old_seg;
      _ ← FileHandle_flush_directory (pt_partition_dir p);
      mret (Status_OK, p)
  | None => mret (Status_OK, p)
  end.

(** The active segment for a record of the given size, rolled when there is none
    or when the record does not fit. *)
Definition Partition_segment_for (p : Partition) (record_size : Z) : io (Status * Partition) :=
  '(st, p) ← (match Partition_active_segment_unlocked p with
              | None => Partition_roll_segment_unlocked p
              | Some _ => mret (Status_OK, p)
              end);
  if negb (Status_ok st) then mret (st, p) else
  match Partition_active_segment_unlocked p with
  | None => io_fail
  | Some active =>
      if (0 <? m_log_size_bytes active) &&
         (segment_max_bytes (pt_config p) <? u64 (m_log_size_bytes active + record_size))
      then Partition_roll_segment_unlocked p
      else mret (Status_OK, p)
  end.

Definition record_too_large (size : Z) : Status :=
  mkStatus RecordTooLarge (str "Record size (" ++ std_to_string size ++
    str ") exceeds maximum limit of 1 MiB").

Definition Partition_append_with_timestamp (p : Partition) (k v : bytes) (ts : Z)
    : io (Result Z * Partition) :=
  let size := Partition_record_size k v in
  if MAX_RECORD_SIZE <? size then mret (Err (record_too_large size), p) else
  '(st, p) ← Partition_segment_for p size;
  if negb (Status_ok st) then mret (Err st, p) else
  match Partition_active_segment_unlocked p with
  | None => io_fail
  | Some active =>
      let record := mkRecord (pt_next_offset p) ts k v in
      '(st, active) ← LogSegment_append_with_timestamp active record ts (sync_on_append (pt_config p));
      let p := pt_set_active active p in
      if negb (Status_ok st) then mret (Err st, p) else
      let assigned_offset := pt_next_offset p in
      mret (Ok assigned_offset, pt_set_next (u64 (pt_next_offset p + 1)) p)
  end.

Definition Partition_append (now_ms : Z) (p : Partition) (k v : bytes) : io (Result Z * Partition) :=
  Partition_append_with_timestamp p k v now_ms.

(** The second loop of [append_batch]. *)
Fixpoint Partition_append_items (now_ms : Z) (p : Partition) (batch : list (bytes * bytes))
    : io (Status * Partition) :=
  match batch with
  | [] => mret (Status_OK, p)
  | (k, v) :: rest =>
      '(st, p) ← Partition_segment_for p (Partition_record_size k v);
      if negb (Status_ok st) then mret (st, p) else
      match Partition_active_segment_unlocked p with
      | None => io_fail
      | Some active =>
          let record := mkRecord (pt_next_offset p) now_ms k v in
          '(st, active) ← LogSegment_append active record false;
          let p := pt_set_active active p in
          if negb (Status_ok st) then mret (st, p) else
          Partition_append_items now_ms (pt_set_next (u64 (pt_next_offset p + 1)) p) rest
      end
  end.

Fixpoint flush_segments (segs : list LogSegment) : io unit :=
  match segs with
  | [] => mret tt
  | s :: segs => _ ← LogSegment_flush s; flush_segments segs
  end.

Definition Partition_flush (p : Partition) : io unit := flush_segments (pt_segments p).

Definition Partition_append_batch (now_ms : Z) (p : Partition) (batch : list (bytes * bytes))
    : io (Result Z * Partition) :=
  if bool_decide (batch = []) then
    mret (Err (mkStatus InvalidArgument (str "Cannot append empty batch")), p) else
  match list_find (fun '(k, v) => MAX_RECORD_SIZE < Partition_record_size k v) batch with
  | Some (_, (k, v)) => mret (Err (record_too_large (Partition_record_size k v)), p)
  | None =>
      let base_assigned_offset := pt_next_offset p in
      '(st, p) ← Partition_append_items now_ms p batch;
      if negb (Status_ok st) then mret (Err st, p) else
      _ ← (if sync_on_append (pt_config p) then Partition_flush p else mret tt);
      mret (Ok base_assigned_offset, p)
  end.

(** The [while] loop of [read] over one segment: [inl] when the function returns,
    [inr] when the loop ends with the records and the two totals so far.  Every
    round advances by at least 28 bytes. *)
Fixpoint Partition_read_loop (fuel : nat) (seg : LogSegment) (start_offset max_messages max_bytes : Z)
    (pos : Z) (records : list Record) (total_bytes total_messages : Z)
    : io (ReadResult + (list Record * Z * Z)) :=
  match fuel with
  | O => io_fail
  | S fuel =>
      if negb (pos <? m_log_size_bytes seg) then mret (inr (records, total_bytes, total_messages)) else
      '(st, rec) ← LogSegment_read_record_at seg pos empty_Record;
      if negb (Status_ok st) then
        if bool_decide (m_code st = OffsetOutOfRange)
        then mret (inr (records, total_bytes, total_messages))
        else mret (inl (mkReadResult records st))
      else
      let rec_bytes := Partition_record_size (key rec) (value rec) in
      let pos := u64 (pos + rec_bytes) in
      if offset rec <? start_offset then
        Partition_read_loop fuel seg start_offset max_messages max_bytes pos records total_bytes
          total_messages
      else
      let records := records ++ [rec] in
      let total_bytes := u64 (total_bytes + rec_bytes) in
      let total_messages := u64 (total_messages + 1) in
      if (max_messages <=? total_messages) || (max_bytes <=? total_bytes)
      then mret (inl (mkReadResult records Status_OK))
      else Partition_read_loop fuel seg start_offset max_messages max_bytes pos records total_bytes
             total_messages
  end.

(** The [for] loop of [read] over the segments. *)
Fixpoint Partition_read_segments (segs : list LogSegment) (start_offset max_messages max_bytes : Z)
    (records : list Record) (total_bytes total_messages : Z) : io ReadResult :=
  match segs with
  | [] => mret (mkReadResult records Status_OK)
  | seg :: segs =>
      res ← Partition_read_loop (S (Z.to_nat (m_log_size_bytes seg))) seg start_offset max_messages
              max_bytes (LogSegment_lookup_file_position seg start_offset) records total_bytes
              total_messages;
      match res with
      | inl result => mret result
      | inr (records, total_bytes, total_messages) =>
          Partition_read_segments segs start_offset max_messages max_bytes records total_bytes
            total_messages
      end
  end.

Definition Partition_read (p : Partition) (start_offset max_messages max_bytes : Z) : io ReadResult :=
  if start_offset =? pt_next_offset p then mret (mkReadResult [] Status_OK) else
  let earliest := Partition_earliest_offset p in
  if (pt_next_offset p <? start_offset) || (start_offset <? earliest) then
    mret (mkReadResult [] (mkStatus OffsetOutOfRange
      (str "Start offset " ++ std_to_string start_offset ++ str " out of valid range [" ++
       std_to_string earliest ++ str ", " ++ std_to_string (pt_next_offset p) ++ str ")"))) else
  Partition_read_segments (Partition_find_segment (pt_segments p) start_offset) start_offset
    max_messages max_bytes [] 0 0.

Fixpoint remove_candidates (l : list DeletionCandidate) : io unit :=
  match l with
  | [] => mret tt
  | c :: l =>
      _ ← io_run (fs_remove (dc_log_path c));
      _ ← io_run (fs_remove (dc_index_path c));
      _ ← io_run (fs_remove (dc_sealed_path c));
      remove_candidates l
  end.

(** [out_deleted] is returned; [None] when the function leaves it as it was. *)
Definition Partition_scan_and_delete_segments (now_ms : Z) (p : Partition)
    (retention_ms retention_bytes : Z) (dry_run : bool)
    : io (Status * Partition * option (list DeletionCandidate)) :=
  if zlen (pt_segments p) <=? 1 then mret (Status_OK, p, None) else
  let deletable_count := Partition_deletable_count p now_ms retention_ms retention_bytes in
  if bool_decide (deletable_count = 0%nat) then mret (Status_OK, p, None) else
  let out_deleted := Partition_candidate <$> take deletable_count (pt_segments p) in
  if dry_run then mret (Status_OK, p, Some out_deleted) else
  let p := pt_set_segments (drop deletable_count (pt_segments p)) p in
  _ ← remove_candidates out_deleted;
  _ ← FileHandle_flush_directory (pt_partition_dir p);
  mret (Status_OK, p, Some out_deleted).

End Partition.

(** ** The invariant *)

(** Segments with the records they hold. *)
Abbreviation segrecs := (list (LogSegment * list Record)).

Definition records_of (l : segrecs) : list Record := concat (snd <$> l).

(** Each segment starts at the offset after the last record of the one before. *)
Fixpoint chained (b : Z) (l : segrecs) : Prop :=
  match l with
  | [] => True
  | (s, rs) :: l => m_base_offset s = b /\ chained (b + zlen rs) l
  end.

Definition seg_exts : list bytes := [str ".log"; str ".index"; str ".sealed"].

(** A marker file that was written for the records [rs], or one that is not readable:
    a crash may have cut its write short. *)
Definition marker_ok (o : option bytes) (base : Z) (rs : list Record) : Prop :=
  exists c, o = Some c /\ (marker_at (Some c) = Some (marker_of base rs) \/ marker_at (Some c) = None).

(** The statistics of a sealed segment: those of its records, or none when they could
    not be read from the marker file. *)
Definition stats_ok (s : LogSegment) (rs : list Record) : Prop :=
  m_record_count s = zlen rs /\ m_max_timestamp_ms s = max_ts rs \/
  m_record_count s = 0 /\ m_max_timestamp_ms s = 0.

Section invariant.
Context {W : Win32}.

Record sealed_ok (d : disk) (dir : path) (s : LogSegment) (rs : list Record) : Prop := {
  so_view : seg_view d s rs;
  so_sealed : m_is_sealed s = true;
  so_nonempty : rs <> [];
  so_dir : m_partition_dir s = dir;
  so_stats : stats_ok s rs;
  so_marker : marker_ok (files d !! LogSegment_sealed_path s) (m_base_offset s) rs;
}.

Record active_ok (d : disk) (dir : path) (s : LogSegment) (rs : list Record) : Prop := {
  ao_view : seg_view d s rs;
  ao_totals : seg_totals s rs;
  ao_unsealed : m_is_sealed s = false;
  ao_dir : m_partition_dir s = dir;
  ao_marker : files d !! LogSegment_sealed_path s = None;
}.

(** The directory holds the files of the segments with the given base offsets. *)
Definition dir_ok (m : gmap path bytes) (dir : path) (bases : list Z) : Prop :=
  forall name, is_Some (m !! (dir ++ [name])) ->
    exists b ext, b ∈ bases /\ ext ∈ seg_exts /\ name = LogSegment_format_base_offset b ++ ext.

Record part_ok (d : disk) (p : Partition) (olds : segrecs) (a : LogSegment) (ra : list Record)
    : Prop := {
  po_segments : pt_segments p = olds.*1 ++ [a];
  po_olds : Forall (fun x => sealed_ok d (pt_partition_dir p) x.1 x.2) olds;
  po_active : active_ok d (pt_partition_dir p) a ra;
  po_chain : chained (Partition_earliest_offset p) (olds ++ [(a, ra)]);
  po_next : pt_next_offset p = m_base_offset a + zlen ra;
  po_dir : dir_ok (files d) (pt_partition_dir p) (m_base_offset <$> pt_segments p);
  po_config : 28 <= segment_max_bytes (pt_config p) <= LOG_LIMIT;
}.

End invariant.

(** All records of a partition, oldest first. *)
Definition part_log (olds : segrecs) (ra : list Record) : list Record := records_of olds ++ ra.

(** ** Chains *)

Lemma records_of_app l1 l2 : records_of (l1 ++ l2) = records_of l1 ++ records_of l2.
Proof. unfold records_of. by rewrite fmap_app, concat_app. Qed.

Lemma records_of_one s rs : records_of [(s, rs)] = rs.
Proof. unfold records_of. cbn. apply app_nil_r. Qed.

Lemma chained_app b l1 l2 :
  chained b (l1 ++ l2) <-> chained b l1 /\ chained (b + zlen (records_of l1)) l2.
Proof.
  revert b. induction l1 as [|[s rs] l1 IH]; intros b; cbn [app chained].
  - change (records_of []) with (@nil Record). change (zlen (@nil Record)) with 0.
    rewrite Z.add_0_r. tauto.
  - rewrite IH. change (records_of ((s, rs) :: l1)) with (rs ++ records_of l1).
    rewrite zlen_app, Z.add_assoc. tauto.
Qed.

(** A segment of the chain ends where the rest begins. *)
Lemma chained_base b l s rs :
  chained b l -> (s, rs) ∈ l ->
  b <= m_base_offset s /\ m_base_offset s + zlen rs <= b + zlen (records_of l).
Proof.
  revert b. induction l as [|[s0 rs0] l IH]; intros b Hc Hin; [by apply not_elem_of_nil in Hin|].
  cbn [chained] in Hc. destruct Hc as [Hb Hc].
  change (records_of ((s0, rs0) :: l)) with (rs0 ++ records_of l). rewrite zlen_app.
  pose proof (zlen_nonneg (records_of l)). pose proof (zlen_nonneg rs0).
  apply elem_of_cons in Hin as [E|Hin].
  - simplify_eq. lia.
  - specialize (IH _ Hc Hin). lia.
Qed.

Lemma chained_sorted b l :
  chained b l -> Forall (fun x => x.2 <> []) l ->
  StronglySorted (fun x y => m_base_offset x.1 < m_base_offset y.1) l.
Proof.
  revert b. induction l as [|[s rs] l IH]; intros b Hc Hne; [constructor|].
  cbn [chained] in Hc. destruct Hc as [Hb Hc]. apply list.Forall_cons in Hne as [Hrs Hne].
  constructor; [by eapply IH|]. apply list.Forall_forall. intros [s' rs'] Hin.
  pose proof (chained_base _ _ _ _ Hc Hin). cbn in *. pose proof (zlen_pos rs Hrs). lia.
Qed.

(** ** Framing *)

Definition seg_paths (s : LogSegment) : list path :=
  (fun ext => segment_path ext (m_base_offset s) (m_partition_dir s)) <$> seg_exts.

Section frame.
Context {W : Win32}.

Lemma seg_paths_log s : LogSegment_log_path s ∈ seg_paths s.
Proof. unfold seg_paths, seg_exts. cbn. set_solver. Qed.
Lemma seg_paths_index s : LogSegment_index_path s ∈ seg_paths s.
Proof. unfold seg_paths, seg_exts. cbn. set_solver. Qed.
Lemma seg_paths_sealed s : LogSegment_sealed_path s ∈ seg_paths s.
Proof. unfold seg_paths, seg_exts. cbn. set_solver. Qed.

Lemma seg_view_frame d d' s rs :
  (forall p, p ∈ seg_paths s -> files d' !! p = files d !! p) -> seg_view d s rs -> seg_view d' s rs.
Proof.
  intros E []. split; try done; rewrite E; auto using seg_paths_log, seg_paths_index.
Qed.

Lemma sealed_ok_frame d d' dir s rs :
  (forall p, p ∈ seg_paths s -> files d' !! p = files d !! p) ->
  sealed_ok d dir s rs -> sealed_ok d' dir s rs.
Proof.
  intros E []. split; try done.
  - by eapply seg_view_frame.
  - rewrite E; auto using seg_paths_sealed.
Qed.

Lemma seg_paths_ne s p ext b :
  p ∈ seg_paths s -> is_u64 (m_base_offset s) -> is_u64 b -> m_base_offset s <> b ->
  p <> segment_path ext b (m_partition_dir s).
Proof.
  intros Hp Hs Hb Hne ->. apply list_elem_of_fmap in Hp as (e & E & _).
  apply segment_path_inj in E; [|done..]. by destruct E.
Qed.

Lemma seg_view_u64 d s rs : seg_view d s rs -> is_u64 (m_base_offset s).
Proof. intros V. destruct (sv_base _ _ _ V). pose proof (zlen_nonneg rs). unfold is_u64. lia. Qed.

Lemma olds_before d p olds a ra s rs :
  part_ok d p olds a ra -> (s, rs) ∈ olds ->
  sealed_ok d (pt_partition_dir p) s rs /\ m_base_offset s + zlen rs <= m_base_offset a /\
  m_base_offset s < m_base_offset a.
Proof.
  intros P Hin. pose proof (po_olds _ _ _ _ _ P) as Ho. rewrite list.Forall_forall in Ho.
  pose proof (Ho _ Hin) as Hs. cbn in Hs. split; [done|].
  pose proof (po_chain _ _ _ _ _ P) as Hc. apply chained_app in Hc as [Hc1 [Hb _]].
  pose proof (chained_base _ _ _ _ Hc1 Hin). pose proof (zlen_pos rs (so_nonempty _ _ _ _ Hs)). lia.
Qed.

(** Changes to files of later base offsets leave the sealed segments alone. *)
Lemma olds_frame d d' p olds a ra (bases : list Z) :
  part_ok d p olds a ra -> Forall (fun b => is_u64 b /\ m_base_offset a <= b) bases ->
  (forall q, (forall b ext, b ∈ bases -> q <> segment_path ext b (pt_partition_dir p)) ->
     files d' !! q = files d !! q) ->
  Forall (fun x => sealed_ok d' (pt_partition_dir p) x.1 x.2) olds.
Proof.
  intros P Hb Hf. apply list.Forall_forall. intros [s rs] Hin.
  destruct (olds_before _ _ _ _ _ _ _ P Hin) as (Hs & _ & Hlt).
  eapply sealed_ok_frame; [|exact Hs]. intros q Hq. apply Hf. intros b ext Hbin.
  rewrite list.Forall_forall in Hb. destruct (Hb b Hbin) as [Hu Hle].
  cbn [fst snd] in *. rewrite <- (so_dir _ _ _ _ Hs).
  apply seg_paths_ne; [done|eapply seg_view_u64, Hs|done|lia].
Qed.

End frame.

(** ** Rolling to a new segment *)

Section append.
Context {W : Win32} {F : FailStop W}.

(** Nothing is stored for a base offset behind the active segment. *)
Lemma fresh_base d p olds a ra b ext :
  part_ok d p olds a ra -> is_u64 b -> m_base_offset a < b ->
  files d !! segment_path ext b (pt_partition_dir p) = None.
Proof.
  intros P Hb Hlt. apply eq_None_not_Some. intros Hs.
  destruct (po_dir _ _ _ _ _ P _ Hs) as (b' & ext' & Hin & _ & E).
  assert (segment_path ext b (pt_partition_dir p) = segment_path ext' b' (pt_partition_dir p)) as Ep
    by (unfold segment_path; by rewrite E).
  apply list_elem_of_fmap in Hin as (s & -> & Hin). rewrite (po_segments _ _ _ _ _ P) in Hin.
  apply elem_of_app in Hin as [Hin|Hin].
  - apply list_elem_of_fmap in Hin as ([s' rs'] & -> & Hin).
    destruct (olds_before _ _ _ _ _ _ _ P Hin) as (Hs' & _ & Hlt').
    apply segment_path_inj in Ep as [-> _]; [cbn in *; lia|done|].
    eapply seg_view_u64, Hs'.
  - apply list_elem_of_singleton in Hin as ->.
    apply segment_path_inj in Ep as [-> _]; [lia|done|]. eapply seg_view_u64, (po_active _ _ _ _ _ P).
Qed.

Lemma new_segment_ok d' base dir iv :
  0 <= base < 2 ^ 64 -> files d' !! segment_path (str ".log") base dir = Some [] ->
  files d' !! segment_path (str ".index") base dir = Some [] ->
  files d' !! segment_path (str ".sealed") base dir = None ->
  active_ok d' dir (opened_segment base dir iv [] [] (marker_at None)) [].
Proof.
  intros Hb Hl Hi Hs. split; [|by split|done|done|done].
  split; try done; [|apply index_ok_nil].
  change (zlen (@nil Record)) with 0. cbn [opened_segment m_base_offset]. lia.
Qed.

Lemma dir_ok_insert m dir bases c b ext :
  dir_ok m dir bases -> ext ∈ seg_exts -> b ∈ bases ->
  dir_ok (<[segment_path ext b dir := c]> m) dir bases.
Proof.
  intros Hd He Hb name Hn.
  destruct (decide (dir ++ [name] = segment_path ext b dir)) as [Eq|Hne].
  - exists b, ext. split_and!; [done|done|]. unfold segment_path in Eq.
    apply app_inv_head in Eq. by injection Eq.
  - rewrite lookup_insert_ne in Hn by done. by apply Hd.
Qed.

Lemma dir_ok_bases m dir bases bases' :
  (forall b, b ∈ bases -> b ∈ bases') -> dir_ok m dir bases -> dir_ok m dir bases'.
Proof. intros Hb Hd name Hn. destruct (Hd name Hn) as (b & e & ? & ? & ?). exists b, e. auto. Qed.

(** The first segment keeps its base offset. *)
Lemma earliest_same p p' (olds : segrecs) a a' l :
  pt_segments p = olds.*1 ++ [a] -> pt_segments p' = olds.*1 ++ a' :: l ->
  m_base_offset a' = m_base_offset a -> Partition_earliest_offset p' = Partition_earliest_offset p.
Proof.
  unfold Partition_earliest_offset. intros -> -> E. by destruct olds.
Qed.

Lemma seg_view_sealed d s rs b : seg_view d s rs -> seg_view d (seg_set_sealed b s) rs.
Proof. intros []. by split. Qed.

Lemma seg_view_data d d' s rs :
  files d' !! LogSegment_log_path s = files d !! LogSegment_log_path s ->
  files d' !! LogSegment_index_path s = files d !! LogSegment_index_path s ->
  seg_view d s rs -> seg_view d' s rs.
Proof. intros E1 E2 []. by split; rewrite ?E1, ?E2. Qed.

(** Writing the marker of a segment makes it a sealed one. *)
Lemma sealed_ok_marked d d' s rs :
  seg_view d s rs -> seg_totals s rs -> rs <> [] ->
  files d' !! LogSegment_log_path s = files d !! LogSegment_log_path s ->
  files d' !! LogSegment_index_path s = files d !! LogSegment_index_path s ->
  files d' !! LogSegment_sealed_path s = Some (SealedMarker_bytes (seg_marker (seg_set_sealed true s))) ->
  sealed_ok d' (m_partition_dir s) (seg_set_sealed true s) rs.
Proof.
  intros V T Hne E1 E2 E3. split; try done; [|left; split; apply T|].
  - apply seg_view_sealed. by eapply seg_view_data.
  - change (LogSegment_sealed_path (seg_set_sealed true s)) with (LogSegment_sealed_path s).
    rewrite E3. eexists. split; [done|]. left.
    rewrite <- (app_nil_r (SealedMarker_bytes _)), marker_at_bytes.
    + f_equal. by apply (seg_marker_of (seg_set_sealed true s)); [destruct T; split|].
    + eapply (seg_marker_wf (seg_set_sealed true s) rs); [by destruct T; split|done|apply V..].
Qed.

(** The volume after a roll and the partition it then carries. *)
Lemma rolled_ok d d' p p' olds a ra n :
  part_ok d p olds a ra -> ra <> [] ->
  files d' =
    <[segment_path (str ".sealed") (m_base_offset a) (pt_partition_dir p) :=
        SealedMarker_bytes (seg_marker (seg_set_sealed true a))]>
    (<[segment_path (str ".index") (pt_next_offset p) (pt_partition_dir p) := []]>
    (<[segment_path (str ".log") (pt_next_offset p) (pt_partition_dir p) := []]> (files d))) ->
  n = opened_segment (pt_next_offset p) (pt_partition_dir p)
        (index_interval_bytes (pt_config p)) [] [] (marker_at None) ->
  p' = pt_set_segments (olds.*1 ++ [seg_set_sealed true a; n]) p ->
  part_ok d' p' (olds ++ [(seg_set_sealed true a, ra)]) n [] /\
  Partition_earliest_offset p' = Partition_earliest_offset p.
Proof.
  intros P Hne Hf Hn ->. pose proof P as [Hseg Holds [V T Hun Hdir Hmk] Hch Hnext Hd Hcfg].
  destruct (sv_base _ _ _ V) as [Hb Hb']. pose proof (zlen_pos ra Hne).
  pose proof (seg_view_u64 _ _ _ V) as Hua. set (dir := pt_partition_dir p) in *.
  set (base := pt_next_offset p) in *. set (a' := seg_set_sealed true a) in *.
  assert (is_u64 base) as Hub by (unfold is_u64; lia).
  assert (m_base_offset a <> base) as Hab by (unfold base; lia).
  assert (Partition_earliest_offset (pt_set_segments (olds.*1 ++ [a'; n]) p) =
          Partition_earliest_offset p) as Hear by (by eapply (earliest_same _ _ olds a a')).
  split; [|exact Hear].
  assert (forall ext b, is_u64 b -> b <> base ->
    segment_path ext b dir <> segment_path (str ".sealed") (m_base_offset a) dir ->
    files d' !! segment_path ext b dir = files d !! segment_path ext b dir) as Hframe.
  { intros ext b Hbu Hbn Hs. rewrite Hf.
    rewrite !lookup_insert_ne; [done|..|done]; intros E; by apply segment_path_inj in E as [? _]. }
  split; cbn [pt_set_segments pt_segments pt_partition_dir pt_config pt_next_offset]; fold dir base.
  - rewrite fmap_app, <- app_assoc. done.
  - apply Forall_app. split.
    + eapply (olds_frame d d' p olds a ra [m_base_offset a; base]); [done| |].
      * apply list.Forall_forall. intros b Hbin. apply elem_of_cons in Hbin as [->|Hbin]; [split; [done|lia]|].
        apply list_elem_of_singleton in Hbin as ->. split; [done|unfold base; lia].
      * intros q Hq. fold dir in Hq. rewrite Hf.
        rewrite !lookup_insert_ne; [done|apply not_eq_sym, Hq; set_solver..].
    + apply Forall_singleton. cbn [fst snd]. rewrite <- Hdir.
      apply (sealed_ok_marked d); try done; unfold LogSegment_log_path, LogSegment_index_path,
        LogSegment_sealed_path; rewrite Hdir; [apply Hframe; try done; by apply segment_path_ext..|].
      rewrite Hf. apply lookup_insert_eq.
  - subst n. apply new_segment_ok; [unfold is_u64 in Hub; lia|rewrite Hf..].
    + rewrite lookup_insert_ne by (intros E; by apply segment_path_inj in E as [? _]).
      rewrite lookup_insert_ne by (by apply not_eq_sym, segment_path_ext).
      apply lookup_insert_eq.
    + rewrite lookup_insert_ne by (intros E; by apply segment_path_inj in E as [? _]).
      apply lookup_insert_eq.
    + rewrite lookup_insert_ne by (intros E; by apply segment_path_inj in E as [? _]).
      rewrite !lookup_insert_ne by (by apply segment_path_ext).
      eapply fresh_base; [done|done|unfold base; lia].
  - rewrite Hear. apply chained_app in Hch as [Hc1 [Hc2 _]]. apply chained_app. split.
    + apply chained_app. split; [done|]. done.
    + rewrite records_of_app, records_of_one, zlen_app. subst n. cbn. split; [|done].
      unfold base. lia.
  - subst n. cbn. change (zlen []) with 0. lia.
  - rewrite Hf, fmap_app. cbn [fmap list_fmap].
    assert (m_base_offset n = base) as -> by (by subst n).
    assert (dir_ok (files d) dir ((m_base_offset <$> olds.*1) ++ [m_base_offset a'; base])) as Hd0.
    { eapply dir_ok_bases; [|exact Hd]. intros b. rewrite Hseg, !fmap_app. cbn. set_solver. }
    repeat apply dir_ok_insert; try done; unfold seg_exts; rewrite ?elem_of_app; set_solver.
  - done.
Qed.

(** The files when the volume dies in a roll: nothing, the new log, both new files, or
    also a part of the marker of the old segment. *)
Definition roll_died (d' : disk) (d : disk) (p : Partition) (a : LogSegment) : Prop :=
  let log := segment_path (str ".log") (pt_next_offset p) (pt_partition_dir p) in
  let index := segment_path (str ".index") (pt_next_offset p) (pt_partition_dir p) in
  let sealed := segment_path (str ".sealed") (m_base_offset a) (pt_partition_dir p) in
  dead d' /\
  (files d' = files d \/ files d' = <[log := []]> (files d) \/
   files d' = <[index := []]> (<[log := []]> (files d)) \/
   exists n, 0 <= n <= sizeof_SealedMarker /\
     files d' = <[sealed := ztake n (SealedMarker_bytes (seg_marker (seg_set_sealed true a)))]>
       (<[index := []]> (<[log := []]> (files d)))).

Lemma wp_roll_fs d p olds a ra Q :
  part_ok d p olds a ra -> ra <> [] ->
  (forall d' p' a' n, part_ok d' p' (olds ++ [(a', ra)]) n [] ->
     pt_partition_dir p' = pt_partition_dir p -> pt_config p' = pt_config p ->
     pt_partition_id p' = pt_partition_id p ->
     Partition_earliest_offset p' = Partition_earliest_offset p ->
     Q (Status_OK, p') d') ->
  (forall st p' d', m_code st <> OK -> roll_died d' d p a -> Q (st, p') d') ->
  wp (Partition_roll_segment_unlocked p) Q d.
Proof.
  intros P Hne HQ Hfail. pose proof P as [Hseg Holds [V T Hun Hdir Hmk] Hch Hnext Hd Hcfg].
  destruct (sv_base _ _ _ V) as [Hb Hb']. pose proof (zlen_pos ra Hne).
  set (dir := pt_partition_dir p) in *. set (base := pt_next_offset p) in *.
  assert (is_u64 base) as Hub by (unfold is_u64; lia).
  assert (forall ext, files d !! segment_path ext base dir = None) as Hfresh
    by (intros ext; eapply fresh_base; [done|done|lia]).
  unfold Partition_roll_segment_unlocked. apply wp_bind.
  apply wp_open_fs; fold dir base; rewrite ?Hfresh; cbn [default]; [done|done| |].
  2:{ intros st s' d1 Hst Hdd Hd1. rewrite (proj2 (Status_ok_false st) Hst). apply wp_ret, Hfail; [done|].
      unfold roll_died. fold dir base. unfold opened in Hd1. rewrite Hfresh in Hd1. tauto. }
  intros d1 Hd1. change (negb (Status_ok Status_OK)) with false. cbv beta iota zeta.
  set (n := opened_segment _ _ _ _ _ _).
  pose proof (segment_path_ext _ _ base dir ext_log_index) as Hli.
  assert (files d1 = <[segment_path (str ".index") base dir := []]>
            (<[segment_path (str ".log") base dir := []]> (files d))) as Hd1'.
  { rewrite Hd1. unfold opened_files, opened at 2. rewrite Hfresh. unfold opened.
    by rewrite lookup_insert_ne, Hfresh. }
  apply wp_bind, wp_flush_directory. intros _ d2 Hd2 _.
  rewrite Hseg, list.last_snoc. apply wp_bind. unfold LogSegment_seal. apply wp_bind.
  apply wp_flush_segment. intros d3 Hd3. apply wp_ret.
  set (a' := seg_set_sealed true a).
  assert (files d3 = files d1) as Hd31 by congruence.
  assert (forall b ext, is_u64 b -> b <> base ->
    files d3 !! segment_path ext b dir = files d !! segment_path ext b dir) as Hold.
  { intros b ext Hbu Hbn. rewrite Hd31, Hd1'.
    rewrite !lookup_insert_ne; [done|intros E; by apply segment_path_inj in E as [? _]..]. }
  pose proof (seg_view_u64 _ _ _ V) as Hua.
  assert (m_base_offset a <> base) as Hab by (unfold base; lia).
  apply wp_bind, wp_write_marker_fs.
  { unfold LogSegment_sealed_path, a'. cbn [seg_set_sealed m_base_offset m_partition_dir].
    rewrite Hdir, Hold by done. rewrite <- Hdir. exact Hmk. }
  2:{ intros st d4 Hst Hdd Hd4. rewrite (proj2 (Status_ok_false st) Hst). apply wp_ret, Hfail; [done|].
      unfold roll_died, LogSegment_sealed_path, a' in *.
      cbn [seg_set_sealed m_base_offset m_partition_dir] in *. rewrite Hdir, Hd31, Hd1' in Hd4. tauto. }
  intros d4 Hd4. change (negb (Status_ok Status_OK)) with false. cbv beta iota.
  apply wp_bind, wp_flush_segment. intros d5 Hd5.
  apply wp_bind, wp_flush_directory. intros _ d6 Hd6 _. apply wp_ret.
  assert (files d6 = <[segment_path (str ".sealed") (m_base_offset a) dir :=
            SealedMarker_bytes (seg_marker a')]> (files d3)) as Hd6'.
  { rewrite Hd6, Hd5, Hd4. unfold LogSegment_sealed_path, a'.
    cbn [seg_set_sealed m_base_offset m_partition_dir]. by rewrite Hdir. }
  cbn [pt_set_segments pt_segments]. rewrite last_length. cbn [pred].
  rewrite <- app_assoc. cbn [app].
  rewrite insert_app_r_alt by (by rewrite length_fmap).
  rewrite length_fmap, Nat.sub_diag. cbn [insert list_insert].
  destruct (rolled_ok d d6 p (pt_set_segments (olds.*1 ++ [a'; n]) p) olds a ra n P Hne)
    as [P' Hear]; [by rewrite Hd6', Hd31, Hd1'|done|done|].
  by eapply HQ.
Qed.

(** ** Appending *)

(** The partition [p] represents the log that starts at offset [earliest] and holds
    the records [log]. *)
Definition part_is (d : disk) (p : Partition) (earliest : Z) (log : list Record) : Prop :=
  exists olds a ra, part_ok d p olds a ra /\ Partition_earliest_offset p = earliest /\
    part_log olds ra = log.

(** Members that never change. *)
Definition same_partition (p p' : Partition) : Prop :=
  pt_partition_id p' = pt_partition_id p /\ pt_partition_dir p' = pt_partition_dir p /\
  pt_config p' = pt_config p.

Lemma same_partition_trans p1 p2 p3 :
  same_partition p1 p2 -> same_partition p2 p3 -> same_partition p1 p3.
Proof. unfold same_partition. intuition congruence. Qed.

Lemma part_ok_next d p olds a ra :
  part_ok d p olds a ra ->
  pt_next_offset p = Partition_earliest_offset p + zlen (part_log olds ra) /\
  0 <= Partition_earliest_offset p /\ pt_next_offset p < 2 ^ 64.
Proof.
  intros P. pose proof (po_chain _ _ _ _ _ P) as Hc. apply chained_app in Hc as [Hc1 [Hc2 _]].
  pose proof (po_next _ _ _ _ _ P) as Hn. unfold part_log. rewrite zlen_app.
  destruct (sv_base _ _ _ (ao_view _ _ _ _ (po_active _ _ _ _ _ P))) as [Hb Hb'].
  split_and!; [lia| |lia].
  destruct olds as [|[s rs] olds].
  - change (records_of []) with (@nil Record) in *. change (zlen (@nil Record)) with 0 in *. lia.
  - cbn in Hc1. destruct Hc1 as [<- _]. pose proof (po_olds _ _ _ _ _ P) as Ho.
    apply list.Forall_cons in Ho as [Ho _]. apply (sv_base _ _ _ (so_view _ _ _ _ Ho)).
Qed.

Lemma part_is_next d p E L :
  part_is d p E L -> pt_next_offset p = E + zlen L /\ 0 <= E /\ pt_next_offset p < 2 ^ 64.
Proof. intros (olds & a & ra & P & <- & <-). by apply (part_ok_next d p olds a ra). Qed.

Lemma part_ok_active d p olds a ra :
  part_ok d p olds a ra -> Partition_active_segment_unlocked p = Some a.
Proof.
  intros P. unfold Partition_active_segment_unlocked. rewrite (po_segments _ _ _ _ _ P).
  apply list.last_snoc.
Qed.

(** The volume died while the partition, whose log was [L], appended the record [r]:
    in a roll, or in the write of the record or of its index entry. *)
Inductive append_died (d' : disk) (p : Partition) (E : Z) (L : list Record) (r : Record) : Prop :=
| died_rolling d p0 olds a ra :
    part_ok d p0 olds a ra -> same_partition p p0 -> Partition_earliest_offset p0 = E ->
    part_log olds ra = L -> ra <> [] -> roll_died d' d p0 a -> append_died d' p E L r
| died_writing d p0 olds a ra n idx :
    part_ok d p0 olds a ra -> same_partition p p0 -> Partition_earliest_offset p0 = E ->
    part_log olds ra = L -> dead d' -> append_pre a ra r -> 0 <= n <= record_size r -> is_u32 (zlen idx) ->
    files d' = <[LogSegment_index_path a := idx]>
      (<[LogSegment_log_path a := log_bytes ra ++ ztake n (record_bytes r)]> (files d)) ->
    append_died d' p E L r.

Lemma append_died_same d' p p' E L r : same_partition p p' -> append_died d' p' E L r -> append_died d' p E L r.
Proof.
  intros Hs [d p0 olds a ra P Hs0|d p0 olds a ra n idx P Hs0]; [eapply died_rolling|eapply died_writing];
    try done; by eapply same_partition_trans.
Qed.

Lemma wp_segment_for_fs d p E L r size Q :
  part_is d p E L -> 28 <= size <= MAX_RECORD_SIZE ->
  (forall d' p' olds a ra, part_ok d' p' olds a ra -> same_partition p p' ->
     Partition_earliest_offset p' = E -> part_log olds ra = L ->
     zlen (log_bytes ra) + size <= LOG_LIMIT -> Q (Status_OK, p') d') ->
  (forall st p' d', m_code st <> OK -> append_died d' p E L r -> Q (st, p') d') ->
  wp (Partition_segment_for p size) Q d.
Proof.
  intros (olds & a & ra & P & HE & HL) Hsz HQ Hfail. unfold Partition_segment_for.
  rewrite (part_ok_active _ _ _ _ _ P). apply wp_bind, wp_ret.
  change (negb (Status_ok Status_OK)) with false. cbv beta iota.
  rewrite (part_ok_active _ _ _ _ _ P).
  pose proof (ao_view _ _ _ _ (po_active _ _ _ _ _ P)) as V.
  rewrite (sv_size _ _ _ V). pose proof (sv_limit _ _ _ V). pose proof (zlen_nonneg (log_bytes ra)).
  pose proof (po_config _ _ _ _ _ P).
  rewrite u64_id by (unfold is_u64, LOG_LIMIT, MAX_RECORD_SIZE in *; lia).
  destruct (_ && _) eqn:Eb.
  - apply andb_true_iff in Eb as [Eb _]. apply Z.ltb_lt in Eb.
    assert (ra <> []) as Hne by (by intros ->).
    eapply wp_roll_fs; [exact P|done| |intros st p' d' Hst Hd; apply Hfail; [done|by eapply died_rolling]].
    intros d' p' a' n P' Hd Hc Hi He.
    eapply HQ; [exact P'|done|congruence| |].
    + unfold part_log in *. by rewrite records_of_app, records_of_one, app_nil_r.
    + change (log_bytes []) with (@nil byte). change (zlen (@nil byte)) with 0.
      unfold LOG_LIMIT, MAX_RECORD_SIZE in *. lia.
  - apply wp_ret. eapply HQ; [exact P|done|done|done|].
    apply andb_false_iff in Eb as [Eb|Eb]; zbool; unfold LOG_LIMIT, MAX_RECORD_SIZE in *; lia.
Qed.

Lemma part_ok_append d d' p olds a a' ra r :
  part_ok d p olds a ra -> seg_view d' a' (ra ++ [r]) -> seg_totals a' (ra ++ [r]) ->
  same_segment a a' -> m_is_sealed a' = false ->
  same_files_but [LogSegment_log_path a; LogSegment_index_path a] d d' ->
  pt_next_offset p + 1 < 2 ^ 64 ->
  let p' := pt_set_next (u64 (pt_next_offset p + 1)) (pt_set_active a' p) in
  part_ok d' p' olds a' (ra ++ [r]) /\
  Partition_earliest_offset p' = Partition_earliest_offset p /\ same_partition p p'.
Proof.
  intros P V' T' (Eb & Ed & Ei) Hs Hf Hlim p'.
  pose proof P as [Hseg Holds [V T Hun Hdir Hmk] Hch Hnext Hd Hcfg].
  assert (pt_segments p' = olds.*1 ++ [a']) as Hseg'.
  { unfold p', pt_set_active. cbn [pt_set_next pt_set_segments pt_segments]. rewrite Hseg, last_length.
    cbn [pred]. rewrite insert_app_r_alt, length_fmap, Nat.sub_diag by (by rewrite length_fmap). done. }
  assert (Partition_earliest_offset p' = Partition_earliest_offset p) as Hear
    by (by eapply (earliest_same _ _ olds a a')).
  split; [|done]. pose proof (zlen_nonneg ra).
  assert (forall p0, p0 <> LogSegment_log_path a -> p0 <> LogSegment_index_path a ->
            files d' !! p0 = files d !! p0) as Hframe by (intros; apply Hf; set_solver).
  split; try done.
  - eapply (olds_frame d d' p olds a ra [m_base_offset a]); [done| |].
    + apply Forall_singleton. split; [by eapply seg_view_u64|lia].
    + intros q Hq. apply Hframe; unfold LogSegment_log_path, LogSegment_index_path; rewrite Hdir;
        apply Hq; set_solver.
  - split; try done; [by rewrite Ed|].
    unfold LogSegment_sealed_path in *. rewrite Eb, Ed, Hframe; [done|..];
      apply not_eq_sym, segment_path_ext; done.
  - rewrite Hear. apply chained_app in Hch as [Hc1 [Hc2 _]]. apply chained_app.
    split; [done|]. cbn. by rewrite Eb.
  - unfold p'. cbn [pt_set_next pt_next_offset]. destruct (sv_base _ _ _ V).
    rewrite u64_id by (unfold is_u64; lia).
    rewrite Eb, zlen_app, Hnext. change (zlen [r]) with 1. lia.
  - rewrite Hseg', fmap_app. cbn [fmap list_fmap]. rewrite Eb.
    assert (dir_ok (files d) (pt_partition_dir p) ((m_base_offset <$> olds.*1) ++ [m_base_offset a]))
      as Hd0 by (rewrite Hseg, fmap_app in Hd; exact Hd).
    intros name Hn. destruct (decide (pt_partition_dir p ++ [name] = LogSegment_log_path a)) as [E|E1].
    { exists (m_base_offset a), (str ".log"). unfold LogSegment_log_path in E. rewrite Hdir in E.
      apply app_inv_head in E. injection E as ->. unfold seg_exts. set_solver. }
    destruct (decide (pt_partition_dir p ++ [name] = LogSegment_index_path a)) as [E|E2].
    { exists (m_base_offset a), (str ".index"). unfold LogSegment_index_path in E. rewrite Hdir in E.
      apply app_inv_head in E. injection E as ->. unfold seg_exts. set_solver. }
    apply Hd0. by rewrite <- Hframe.
Qed.

Lemma record_size_of off ts k v :
  zlen k + zlen v < 2 ^ 31 ->
  Partition_record_size k v = record_size (mkRecord off ts k v).
Proof.
  unfold Partition_record_size, record_size. cbn [key value].
  pose proof (zlen_nonneg k). pose proof (zlen_nonneg v). intros Hlt.
  rewrite !u32_id by (rewrite ?u32_id; unfold is_u32; lia). lia.
Qed.

Lemma wp_append_step_fs d p olds a ra k v ts sync Q :
  part_ok d p olds a ra -> is_i64 ts -> zlen k + zlen v < 2 ^ 31 ->
  Partition_record_size k v <= MAX_RECORD_SIZE ->
  zlen (log_bytes ra) + Partition_record_size k v <= LOG_LIMIT -> pt_next_offset p + 1 < 2 ^ 64 ->
  (forall a' d', 
     let p' := pt_set_next (u64 (pt_next_offset p + 1)) (pt_set_active a' p) in
     part_is d' p' (Partition_earliest_offset p)
       (part_log olds ra ++ [mkRecord (pt_next_offset p) ts k v]) ->
     same_partition p p' -> Q (Status_OK, a') d') ->
  (forall st a' d', m_code st <> OK ->
     append_died d' p (Partition_earliest_offset p) (part_log olds ra)
       (mkRecord (pt_next_offset p) ts k v) -> Q (st, a') d') ->
  wp (LogSegment_append_with_timestamp a (mkRecord (pt_next_offset p) ts k v) ts sync) Q d.
Proof.
  intros P Hts Hkv Hsz Hroom Hlim HQ Hfail. set (r := mkRecord _ _ _ _).
  rewrite (record_size_of (pt_next_offset p) ts) in Hsz, Hroom by done. fold r in Hsz, Hroom.
  pose proof (po_active _ _ _ _ _ P) as [V T Hun Hdir Hmk].
  assert (append_pre a ra r) as Hpre by (by split; [..|apply (po_next _ _ _ _ _ P)| |]).
  apply (wp_append_fs d a ra r sync); [done..| |].
  2:{ intros d' st a' n idx Hst Hdd Hn Hi Hf. apply Hfail; [done|]. by eapply died_writing. }
  - intros d' a' V' T' Hsame Hs Hf.
    destruct (part_ok_append d d' p olds a a' ra r P V' T' Hsame Hs Hf Hlim) as (P' & He & Hsp).
    eapply HQ; [|exact Hsp]. exists olds, a', (ra ++ [r]). split_and!; [done|done|].
    unfold part_log. by rewrite app_assoc.
Qed.

Lemma wp_partition_append_fs d p E L k v ts Q :
  part_is d p E L -> is_i64 ts -> zlen k + zlen v < 2 ^ 31 -> pt_next_offset p + 1 < 2 ^ 64 ->
  record_size (mkRecord 0 ts k v) <= MAX_RECORD_SIZE ->
  (forall d' p', part_is d' p' E (L ++ [mkRecord (pt_next_offset p) ts k v]) -> same_partition p p' ->
     Q (Ok (pt_next_offset p), p') d') ->
  (forall st p' d', append_died d' p E L (mkRecord (pt_next_offset p) ts k v) -> Q (Err st, p') d') ->
  wp (Partition_append_with_timestamp p k v ts) Q d.
Proof.
  intros P Hts Hkv Hlim Hsz HQ Hfail. rewrite <- (record_size_of 0 ts) in Hsz by done.
  unfold Partition_append_with_timestamp. rewrite (proj2 (Z.ltb_ge _ _)) by done. apply wp_bind.
  assert (28 <= Partition_record_size k v)
    by (rewrite (record_size_of 0 ts) by done; apply record_size_ge).
  eapply (wp_segment_for_fs _ _ _ _ (mkRecord (pt_next_offset p) ts k v)); [exact P|lia| |].
  2:{ intros st p' d' Hst Hd. rewrite (proj2 (Status_ok_false st) Hst). by apply wp_ret, Hfail. }
  intros d1 p1 olds a ra P1 Hsp HE HL Hroom.
  change (negb (Status_ok Status_OK)) with false. cbv beta iota.
  rewrite (part_ok_active _ _ _ _ _ P1). apply wp_bind.
  assert (pt_next_offset p1 = pt_next_offset p) as Hn.
  { destruct (part_is_next _ _ _ _ P) as [-> _]. destruct (part_ok_next _ _ _ _ _ P1) as [-> _].
    by rewrite HE, HL. }
  eapply wp_append_step_fs; [exact P1|done..|by rewrite Hn| |].
  2:{ intros st a' d2 Hst Hd. rewrite (proj2 (Status_ok_false st) Hst). apply wp_ret, Hfail.
      rewrite HE, HL, Hn in Hd. by eapply append_died_same. }
  intros a' d2 p2 P2 Hsp2. change (negb (Status_ok Status_OK)) with false. cbv beta iota.
  apply wp_ret. rewrite HE, HL in P2.
  change (pt_next_offset (pt_set_active a' p1)) with (pt_next_offset p1).
  rewrite <- Hn in HQ. apply HQ; [exact P2|]. eapply same_partition_trans; [exact Hsp|exact Hsp2].
Qed.

(** The records a batch adds. *)
Fixpoint batch_records (next now_ms : Z) (batch : list (bytes * bytes)) : list Record :=
  match batch with
  | [] => []
  | (k, v) :: batch => mkRecord next now_ms k v :: batch_records (next + 1) now_ms batch
  end.

Lemma zlen_batch_records now batch : forall next, zlen (batch_records next now batch) = zlen batch.
Proof.
  induction batch as [|[k v] batch IH]; intros next; cbn [batch_records]; [done|]. by rewrite !zlen_cons, IH.
Qed.

Definition batch_ok (batch : list (bytes * bytes)) : Prop :=
  Forall (fun '(k, v) => zlen k + zlen v < 2 ^ 31 /\
    record_size (mkRecord 0 0 k v) <= MAX_RECORD_SIZE) batch.

(** The volume died in one of the records of a batch. *)
Definition batch_died (d' : disk) (p : Partition) (E : Z) (L rs : list Record) : Prop :=
  exists pre r post, rs = pre ++ r :: post /\ append_died d' p E (L ++ pre) r.

Lemma batch_died_cons d' p E L r rs : batch_died d' p E (L ++ [r]) rs -> batch_died d' p E L (r :: rs).
Proof.
  intros (pre & r' & post & -> & Hd). exists (r :: pre), r', post. split; [done|].
  by rewrite <- app_assoc in Hd.
Qed.

Lemma wp_append_items_fs now batch : forall d p E L Q,
  part_is d p E L -> is_i64 now -> batch_ok batch -> pt_next_offset p + zlen batch < 2 ^ 64 ->
  (forall d' p', part_is d' p' E (L ++ batch_records (pt_next_offset p) now batch) ->
     same_partition p p' -> Q (Status_OK, p') d') ->
  (forall st p' d', m_code st <> OK ->
     batch_died d' p E L (batch_records (pt_next_offset p) now batch) -> Q (st, p') d') ->
  wp (Partition_append_items now p batch) Q d.
Proof.
  induction batch as [|[k v] batch IH]; intros d p E L Q P Hnow Hb Hlim HQ Hfail; cbn [Partition_append_items].
  - apply wp_ret, HQ; [|done]. cbn [batch_records]. by rewrite app_nil_r.
  - apply list.Forall_cons in Hb as [[Hkv Hsz] Hb]. rewrite zlen_cons in Hlim.
    pose proof (zlen_nonneg batch).
    rewrite <- (record_size_of 0 0) in Hsz by done.
    assert (28 <= Partition_record_size k v)
      by (rewrite (record_size_of 0 0) by done; apply record_size_ge).
    cbn [batch_records] in *. set (r := mkRecord (pt_next_offset p) now k v) in *.
    set (rs := batch_records _ _ _) in *.
    assert (forall d', append_died d' p E L r -> batch_died d' p E L (r :: rs)) as Hhead.
    { intros d' Hd. exists [], r, rs. by rewrite app_nil_r. }
    apply wp_bind. eapply (wp_segment_for_fs _ _ _ _ r); [exact P|lia| |].
    2:{ intros st p' d' Hst Hd. rewrite (proj2 (Status_ok_false st) Hst). apply wp_ret, Hfail; auto. }
    intros d1 p1 olds a ra P1 Hsp HE HL Hroom.
    change (negb (Status_ok Status_OK)) with false. cbv beta iota.
    rewrite (part_ok_active _ _ _ _ _ P1). apply wp_bind.
    assert (pt_next_offset p1 = pt_next_offset p) as Hn.
    { destruct (part_is_next _ _ _ _ P) as [-> _]. destruct (part_ok_next _ _ _ _ _ P1) as [-> _].
      by rewrite HE, HL. }
    unfold LogSegment_append. cbn [timestamp_ms].
    eapply wp_append_step_fs; [exact P1|done..|rewrite Hn; lia| |].
    2:{ intros st a' d2 Hst Hd. rewrite (proj2 (Status_ok_false st) Hst). apply wp_ret, Hfail; [done|].
        apply Hhead. rewrite HE, HL, Hn in Hd. by eapply append_died_same. }
    intros a' d2 p2 P2 Hsp2. change (negb (Status_ok Status_OK)) with false. cbv beta iota.
    rewrite HE, HL in P2. change (pt_next_offset (pt_set_active a' p1)) with (pt_next_offset p1).
    assert (pt_next_offset p2 = pt_next_offset p + 1) as Hn2.
    { destruct (part_is_next _ _ _ _ P) as [Hp _]. destruct (part_is_next _ _ _ _ P2) as [-> _].
      rewrite zlen_app. change (zlen [_]) with 1. lia. }
    assert (same_partition p p2) as Hs2 by (by eapply same_partition_trans).
    eapply IH; [exact P2|done|done|fold p2; rewrite Hn2; lia| |]; fold p2; rewrite Hn2, Hn; fold r.
    + intros d3 p3 P3 Hsp3. rewrite <- app_assoc in P3.
      apply HQ; [exact P3|by eapply same_partition_trans].
    + intros st p3 d3 Hst Hd. apply Hfail; [done|]. apply batch_died_cons.
      destruct Hd as (pre & r' & post & ? & Hd). exists pre, r', post. split; [done|].
      by eapply append_died_same.
Qed.

Lemma wp_flush_segments segs Q d :
  (forall d', files d' = files d -> Q tt d') -> wp (flush_segments segs) Q d.
Proof.
  revert d. induction segs as [|s segs IH]; intros d HQ; cbn; [by apply wp_ret, HQ|].
  apply wp_bind, wp_flush_segment. intros d1 Hd1. apply IH. intros d2 Hd2. apply HQ. congruence.
Qed.

Lemma part_is_files d d' p E L : files d' = files d -> part_is d p E L -> part_is d' p E L.
Proof.
  intros Hf (olds & a & ra & [] & He & Hl). exists olds, a, ra. split_and!; [|done|done].
  split; try done.
  - eapply Forall_impl; [|exact po_olds0]. intros x. apply sealed_ok_frame. intros q _. by rewrite Hf.
  - destruct po_active0. split; try done; [|by rewrite Hf]. by eapply seg_view_files.
  - by rewrite Hf.
Qed.

Lemma batch_find_none batch :
  batch_ok batch ->
  list_find (fun '(k, v) => MAX_RECORD_SIZE < Partition_record_size k v) batch = None.
Proof.
  intros Hb. apply list_find_None. eapply Forall_impl; [|exact Hb]. intros [k v] [Hkv Hsz].
  rewrite (record_size_of 0 0) by done. lia.
Qed.

Lemma wp_append_batch_fs now d p E L batch Q :
  part_is d p E L -> is_i64 now -> batch <> [] -> batch_ok batch ->
  pt_next_offset p + zlen batch < 2 ^ 64 ->
  (forall d' p', part_is d' p' E (L ++ batch_records (pt_next_offset p) now batch) ->
     same_partition p p' -> Q (Ok (pt_next_offset p), p') d') ->
  (forall st p' d', batch_died d' p E L (batch_records (pt_next_offset p) now batch) ->
     Q (Err st, p') d') ->
  wp (Partition_append_batch now p batch) Q d.
Proof.
  intros P Hnow Hne Hb Hlim HQ Hfail. unfold Partition_append_batch.
  rewrite bool_decide_eq_false_2 by done. rewrite batch_find_none by done.
  apply wp_bind. eapply wp_append_items_fs; [exact P|done..| |].
  2:{ intros st p' d' Hst Hd. rewrite (proj2 (Status_ok_false st) Hst). by apply wp_ret, Hfail. }
  intros d1 p1 P1 Hsp.
  change (negb (Status_ok Status_OK)) with false. cbv beta iota. apply wp_bind.
  destruct (sync_on_append _).
  - apply wp_flush_segments. intros d2 Hd2. apply wp_ret, HQ; [|done]. by eapply part_is_files.
  - apply wp_ret, wp_ret, HQ; done.
Qed.

End append.

Section reliable.
Context {W : Win32} {R : Reliable W}.

(** Nothing dies on a volume whose calls succeed. *)
Lemma append_died_never d' p E L r : ~ append_died d' p E L r.
Proof. intros []; [by destruct H4|done]. Qed.

Lemma wp_partition_append d p E L k v ts Q :
  part_is d p E L -> is_i64 ts -> zlen k + zlen v < 2 ^ 31 -> pt_next_offset p + 1 < 2 ^ 64 ->
  record_size (mkRecord 0 ts k v) <= MAX_RECORD_SIZE ->
  (forall d' p', part_is d' p' E (L ++ [mkRecord (pt_next_offset p) ts k v]) -> same_partition p p' ->
     Q (Ok (pt_next_offset p), p') d') ->
  wp (Partition_append_with_timestamp p k v ts) Q d.
Proof.
  intros P Hts Hkv Hlim Hsz HQ. eapply wp_partition_append_fs; [done..|exact HQ|].
  intros st p' d' Hd. by apply append_died_never in Hd.
Qed.

Lemma wp_append_batch now d p E L batch Q :
  part_is d p E L -> is_i64 now -> batch <> [] -> batch_ok batch ->
  pt_next_offset p + zlen batch < 2 ^ 64 ->
  (forall d' p', part_is d' p' E (L ++ batch_records (pt_next_offset p) now batch) ->
     same_partition p p' -> Q (Ok (pt_next_offset p), p') d') ->
  wp (Partition_append_batch now p batch) Q d.
Proof.
  intros P Hnow Hne Hb Hlim HQ. eapply wp_append_batch_fs; [done..|exact HQ|].
  intros st p' d' (pre & r & post & _ & Hd). by apply append_died_never in Hd.
Qed.

End reliable.
