(* ===== verification/PartitionRead.v ===== *)
(** * PartitionRead: reading and retention of a partition

    [read] is proved to return the records from the start offset on, cut where the
    limits on messages and bytes say; [scan_and_delete_segments] to remove whole
    segments from the front, never the active one. *)
From S2P Require Import Prelude StdString Status Crc32 RecordCodec FileHandle OffsetIndex LogSegment.
From S2P Require Import Partition.

(** The records a reader may return: up to and including the one with which a limit
    is reached; with it whether one was reached, and the totals. *)
Fixpoint take_limit (max_messages max_bytes b m : Z) (l : list Record)
    : list Record * bool * Z * Z :=
  match l with
  | [] => ([], false, b, m)
  | r :: l =>
      let b := b + record_size r in
      let m := m + 1 in
      if (max_messages <=? m) || (max_bytes <=? b) then ([r], true, b, m)
      else let '(out, stop, b, m) := take_limit max_messages max_bytes b m l in (r :: out, stop, b, m)
  end.

Lemma take_limit_app mm mb l1 : forall b m l2,
  take_limit mm mb b m (l1 ++ l2) =
  let '(out, stop, b', m') := take_limit mm mb b m l1 in
  if stop then (out, true, b', m') else
  let '(out2, stop2, b'', m'') := take_limit mm mb b' m' l2 in (out ++ out2, stop2, b'', m'').
Proof.
  induction l1 as [|r l1 IH]; intros b m l2; cbn [app take_limit].
  - by destruct (take_limit mm mb b m l2) as [[[? ?] ?] ?].
  - destruct (_ || _); [done|]. rewrite IH.
    destruct (take_limit mm mb _ _ l1) as [[[out []] ?] ?]; [done|].
    by destruct (take_limit mm mb _ _ l2) as [[[? ?] ?] ?].
Qed.

(** A reader that has not reached a limit is below both. *)
Lemma take_limit_below mm mb l : forall b m out b' m',
  take_limit mm mb b m l = (out, false, b', m') ->
  0 <= b -> 0 <= m -> b <= b' /\ m <= m' /\ (b' <= b `max` mb) /\ (m' <= m `max` mm).
Proof.
  induction l as [|r l IH]; intros b m out b' m' E Hb Hm; cbn [take_limit] in E.
  - simplify_eq. lia.
  - destruct (_ || _) eqn:Eb; [done|]. apply orb_false_iff in Eb as [E1 E2]. zbool.
    destruct (take_limit mm mb _ _ l) as [[[out' stop] b''] m''] eqn:El. simplify_eq.
    pose proof (record_size_ge r). specialize (IH _ _ _ _ _ El ltac:(lia) ltac:(lia)). lia.
Qed.

(** What is returned is a prefix; it is not empty when there is a record. *)
Lemma take_limit_prefix mm mb l : forall b m, (take_limit mm mb b m l).1.1.1 `prefix_of` l.
Proof.
  induction l as [|r l IH]; intros b m; cbn [take_limit]; [done|].
  destruct (_ || _); cbn [fst].
  - apply prefix_cons, prefix_nil.
  - specialize (IH (b + record_size r) (m + 1)).
    destruct (take_limit _ _ _ _ l) as [[[? ?] ?] ?]. by apply prefix_cons.
Qed.

Lemma take_limit_nonempty mm mb r l b m : (take_limit mm mb b m (r :: l)).1.1.1 <> [].
Proof.
  cbn [take_limit]. destruct (_ || _); [done|].
  by destruct (take_limit mm mb (b + record_size r) (m + 1) l) as [[[? ?] ?] ?].
Qed.

Section read.
Context {W : Win32} {R : Reliable W}.

Definition READ_LIMIT : Z := 2 ^ 63.

Lemma wp_read_loop d s rs start mm mb :
  seg_view d s rs -> mm <= READ_LIMIT -> mb <= READ_LIMIT ->
  let skip := Z.to_nat (start - m_base_offset s) in
  forall fuel i acc b m Q,
  (i <= length rs)%nat -> (length rs - i < fuel)%nat ->
  0 <= b <= READ_LIMIT -> 0 <= m <= READ_LIMIT ->
  (let '(out, stop, b', m') := take_limit mm mb b m (drop (i `max` skip) rs) in
   Q (if stop then inl (mkReadResult (acc ++ out) Status_OK) else inr (acc ++ out, b', m')) d) ->
  wp (Partition_read_loop fuel s start mm mb (rec_pos rs i) acc b m) Q d.
Proof.
  intros V Hmm Hmb skip. unfold READ_LIMIT in *. induction fuel as [|fuel IH]; [lia|].
  intros i acc b m Q Hi Hfuel Hb Hm HQ. cbn [Partition_read_loop].
  rewrite (sv_size _ _ _ V). destruct (decide (i = length rs)) as [->|Hne].
  - rewrite rec_pos_all by done. rewrite Z.ltb_irrefl. cbn [negb]. apply wp_ret.
    rewrite drop_ge in HQ by lia. cbn [take_limit] in HQ. by rewrite app_nil_r in HQ.
  - destruct (lookup_lt_is_Some_2 rs i) as [r Hr]; [lia|].
    pose proof (rec_pos_bound rs i r Hr). pose proof (record_size_ge r).
    rewrite (proj2 (Z.ltb_lt _ _)) by lia. cbn [negb]. apply wp_bind.
    eapply wp_read_record; [exact V|exact Hr|].
    change (negb (Status_ok Status_OK)) with false. cbv beta iota zeta.
    destruct (sv_recs _ _ _ V) as [Hw Ho]. specialize (Ho i r Hr).
    assert (Record_wf r) as Hwr by (by eapply list.Forall_lookup in Hw).
    pose proof (Record_wf_size r Hwr). unfold MAX_RECORD_SIZE in *.
    pose proof (sv_limit _ _ _ V). unfold LOG_LIMIT in *.
    assert (Partition_record_size (key r) (value r) = record_size r) as ->.
    { destruct r as [o t k v]. apply (record_size_of o t). unfold record_size in *. cbn in *. lia. }
    rewrite (u64_id (rec_pos rs i + _)) by (unfold is_u64; lia).
    rewrite <- (rec_pos_S rs i r) by done.
    destruct (Z.ltb_spec (offset r) start) as [Hlt|Hge].
    + apply IH; [lia|lia|done|done|].
      replace (S i `max` skip)%nat with (i `max` skip)%nat by (unfold skip; lia). done.
    + rewrite (u64_id (b + _)), (u64_id (m + 1)) by (unfold is_u64; lia).
      replace (i `max` skip)%nat with i in HQ by (unfold skip; lia).
      rewrite (drop_S rs r i) in HQ by done. cbn [take_limit] in HQ.
      destruct (_ || _) eqn:Eb; [by apply wp_ret|].
      apply orb_false_iff in Eb as [E1 E2]. zbool.
      apply IH; [lia|lia|lia|lia|].
      replace (S i `max` skip)%nat with (S i) by (unfold skip; lia).
      destruct (take_limit mm mb _ _ (drop (S i) rs)) as [[[out stop] b'] m'].
      by rewrite <- !app_assoc.
Qed.

(** Where the read of a segment starts. *)
Lemma read_start d s rs start :
  seg_view d s rs -> start - m_base_offset s <= zlen rs ->
  exists i, (i <= length rs)%nat /\ (i <= Z.to_nat (start - m_base_offset s))%nat /\
    LogSegment_lookup_file_position s start = rec_pos rs i.
Proof.
  intros V Hle. pose proof (sv_limit _ _ _ V) as Hlim. pose proof (zlen_log_bytes_ge rs).
  unfold LOG_LIMIT in Hlim. destruct (decide (rs = [])) as [->|Hne].
  - exists 0%nat. split_and!; [lia|lia|]. unfold LogSegment_lookup_file_position.
    destruct (sv_index _ _ _ V) as [He _ _]. destruct (m_index s) as [|e es].
    + by destruct (_ <=? _).
    + apply list.Forall_cons in He as [(i & Hi & _) _]. cbn in Hi. lia.
  - destruct (lookup_file_position_record d s rs start V Hne) as (i & Hi & E & Hi'); [lia|].
    exists i. split_and!; [lia| |done]. destruct i; [lia|]. specialize (Hi' ltac:(lia)). lia.
Qed.

Lemma wp_read_segments d start mm mb (l : segrecs) : forall acc b m Q,
  Forall (fun x => seg_view d x.1 x.2 /\ start - m_base_offset x.1 <= zlen x.2) l ->
  mm <= READ_LIMIT -> mb <= READ_LIMIT -> 0 <= b <= READ_LIMIT -> 0 <= m <= READ_LIMIT ->
  Q (mkReadResult (acc ++ (take_limit mm mb b m
       (concat ((fun x => drop (Z.to_nat (start - m_base_offset x.1)) x.2) <$> l))).1.1.1) Status_OK) d ->
  wp (Partition_read_segments l.*1 start mm mb acc b m) Q d.
Proof.
  induction l as [|[s rs] l IH]; intros acc b m Q Hl Hmm Hmb Hb Hm HQ;
    cbn [fmap list_fmap Partition_read_segments].
  - apply wp_ret. cbn in HQ. by rewrite app_nil_r in HQ.
  - apply list.Forall_cons in Hl as [[V Hle] Hl]. cbn [fst snd] in *. apply wp_bind.
    destruct (read_start d s rs start V Hle) as (i & Hi & Hskip & ->).
    cbn [fmap list_fmap concat fst snd] in HQ. rewrite take_limit_app in HQ.
    eapply (wp_read_loop d s rs); [done..|rewrite (sv_size _ _ _ V)|done|done|].
    { pose proof (zlen_log_bytes_ge rs). unfold zlen in *. lia. }
    replace (i `max` Z.to_nat (start - m_base_offset s))%nat
      with (Z.to_nat (start - m_base_offset s)) by lia.
    destruct (take_limit mm mb b m (drop _ rs)) as [[[out stop] b'] m'] eqn:Et.
    destruct stop; [by apply wp_ret|].
    destruct (take_limit_below _ _ _ _ _ _ _ _ Et) as (? & ? & ? & ?); [lia|lia|].
    apply IH; [done..|lia|lia|]. rewrite <- app_assoc.
    destruct (take_limit mm mb b' m' _) as [[[out2 stop2] b2] m2]. exact HQ.
Qed.

(** Skipping the records before the start offset segment by segment. *)
Lemma drop_chained start (l : segrecs) : forall b,
  chained b l ->
  concat ((fun x => drop (Z.to_nat (start - m_base_offset x.1)) x.2) <$> l) =
  drop (Z.to_nat (start - b)) (records_of l).
Proof.
  induction l as [|[s rs] l IH]; intros b Hc; [by destruct (Z.to_nat (start - b))|].
  cbn [chained] in Hc. destruct Hc as [<- Hc]. cbn [fmap list_fmap concat fst snd].
  change (records_of ((s, rs) :: l)) with (rs ++ records_of l).
  rewrite drop_app. f_equal. rewrite (IH _ Hc). f_equal. unfold zlen. lia.
Qed.

(** The segments a read visits hold all the records from the start offset on. *)
Lemma find_segment_spec start (l : segrecs) : forall b,
  chained b l -> l <> [] -> b <= start <= b + zlen (records_of l) ->
  exists pre l', l = pre ++ l' /\ Partition_find_segment l.*1 start = l'.*1 /\
    Forall (fun x => start - m_base_offset x.1 <= zlen x.2) l' /\
    drop (Z.to_nat (start - b)) (records_of l) =
    concat ((fun x => drop (Z.to_nat (start - m_base_offset x.1)) x.2) <$> l').
Proof.
  induction l as [|[s rs] l IH]; intros b Hc Hne Hst; [done|].
  pose proof Hc as [Hb Hc']. change (records_of ((s, rs) :: l)) with (rs ++ records_of l) in *.
  rewrite zlen_app in Hst. destruct l as [|[s2 rs2] l].
  - exists [], [(s, rs)]. split_and!; [done|done| |].
    + apply Forall_singleton. cbn [fst snd]. change (records_of []) with (@nil Record) in Hst.
      change (zlen (@nil Record)) with 0 in Hst. lia.
    + symmetry. apply (drop_chained start _ b Hc).
  - pose proof Hc' as [Hb2 _]. cbn [fmap list_fmap fst Partition_find_segment].
    destruct (Z.leb_spec (m_base_offset s2) start) as [Hle|Hgt].
    + destruct (IH _ Hc') as (pre & l' & El & E & Hl' & Hd); [done|lia|].
      exists ((s, rs) :: pre), l'. split_and!; [by rewrite El|exact E|done|].
      rewrite <- Hd. rewrite drop_app_ge by (unfold zlen in *; lia). f_equal. unfold zlen. lia.
    + exists [], ((s, rs) :: (s2, rs2) :: l). split_and!; [done|done| |].
      * constructor; [cbn; lia|]. apply list.Forall_forall. intros [s' rs'] Hin. cbn [fst snd].
        pose proof (chained_base _ _ _ _ Hc' Hin). pose proof (zlen_nonneg rs'). lia.
      * symmetry. apply (drop_chained start _ b Hc).
Qed.

Lemma part_ok_views d p olds a ra :
  part_ok d p olds a ra -> Forall (fun x => seg_view d x.1 x.2) (olds ++ [(a, ra)]).
Proof.
  intros P. apply Forall_app. split.
  - eapply Forall_impl; [|apply P]. intros x H. apply H.
  - apply Forall_singleton. apply P.
Qed.

Lemma records_of_part olds a ra : records_of (olds ++ [(a, ra)]) = part_log olds ra.
Proof. by rewrite records_of_app, records_of_one. Qed.

(** Records are numbered from the earliest offset on. *)
Lemma chained_offsets (l : segrecs) : forall b,
  chained b l -> Forall (fun x => recs_ok (m_base_offset x.1) x.2) l ->
  forall i r, records_of l !! i = Some r -> offset r = b + Z.of_nat i /\ Record_wf r.
Proof.
  induction l as [|[s rs] l IH]; intros b Hch Hok i r Hi; [done|]. destruct Hch as [Hb Hc].
  apply list.Forall_cons in Hok as [[Hwf Hoff] Hok]. cbn [fst snd] in *.
  change (records_of ((s, rs) :: l)) with (rs ++ records_of l) in Hi.
  apply lookup_app_Some in Hi as [Hi|[Hlen Hi]].
  - rewrite (Hoff i r Hi). split; [lia|]. eapply list.Forall_forall; [exact Hwf|by eapply list_elem_of_lookup_2].
  - destruct (IH _ Hc Hok _ _ Hi) as [-> Hr]. split; [unfold zlen; lia|done].
Qed.

Lemma part_is_offsets d p E L i r :
  part_is d p E L -> L !! i = Some r -> offset r = E + Z.of_nat i /\ Record_wf r.
Proof.
  intros (olds & a & ra & P & <- & <-) Hi. rewrite <- (records_of_part olds a ra) in Hi.
  eapply chained_offsets; [apply (po_chain _ _ _ _ _ P)| |exact Hi].
  eapply Forall_impl; [|apply (part_ok_views _ _ _ _ _ P)]. intros x V. apply (sv_recs _ _ _ V).
Qed.

Lemma wp_read d p E L start mm mb Q :
  part_is d p E L -> E <= start <= E + zlen L -> mm <= READ_LIMIT -> mb <= READ_LIMIT ->
  Q (mkReadResult (take_limit mm mb 0 0 (drop (Z.to_nat (start - E)) L)).1.1.1 Status_OK) d ->
  wp (Partition_read p start mm mb) Q d.
Proof.
  intros Hp Hst Hmm Hmb HQ. pose proof (part_is_next _ _ _ _ Hp) as (Hn & _ & _).
  destruct Hp as (olds & a & ra & P & HE & HL). unfold Partition_read. rewrite Hn.
  destruct (Z.eqb_spec start (E + zlen L)) as [->|Hne].
  - apply wp_ret. rewrite drop_ge in HQ by (unfold zlen; lia). exact HQ.
  - rewrite HE. rewrite (proj2 (Z.ltb_ge _ _)), (proj2 (Z.ltb_ge start E)) by lia. cbn [orb].
    pose proof (part_ok_views _ _ _ _ _ P) as HV.
    pose proof (po_chain _ _ _ _ _ P) as Hc. rewrite HE in Hc.
    destruct (find_segment_spec start (olds ++ [(a, ra)]) E Hc) as (pre & l' & El & Ef & Hl & Hd).
    { by destruct olds. }
    { rewrite records_of_part, HL. lia. }
    rewrite (po_segments _ _ _ _ _ P).
    replace (olds.*1 ++ [a]) with ((olds ++ [(a, ra)]).*1) by (by rewrite fmap_app).
    rewrite Ef. apply wp_read_segments; [|done|done|unfold READ_LIMIT; lia..|].
    + rewrite El in HV. apply Forall_app in HV as [_ HV]. by apply Forall_and.
    + cbn [app]. rewrite <- Hd, records_of_part, HL. exact HQ.
Qed.

End read.

(** ** Retention *)

Lemma by_age_lt now ms segs : (Partition_deletable_by_age now ms segs <= length segs - 1)%nat.
Proof.
  induction segs as [|s segs IH]; [done|]. destruct segs as [|s2 segs]; [done|].
  set (l := s2 :: segs) in *. change (length (s :: l)) with (S (length l)).
  assert (1 <= length l)%nat by (cbn; lia).
  change (Partition_deletable_by_age now ms (s :: l)) with
    (if (0 <? m_max_timestamp_ms s) && (i64 ms <? now - m_max_timestamp_ms s)
     then S (Partition_deletable_by_age now ms l) else 0%nat).
  destruct (_ && _); lia.
Qed.

Lemma by_size_lt rb segs : forall total,
  (Partition_deletable_by_size rb total segs <= length segs - 1)%nat.
Proof.
  induction segs as [|s segs IH]; intros total; [done|]. destruct segs as [|s2 segs]; [done|].
  set (l := s2 :: segs) in *. change (length (s :: l)) with (S (length l)).
  assert (1 <= length l)%nat by (cbn; lia).
  change (Partition_deletable_by_size rb total (s :: l)) with
    (if rb <? total then S (Partition_deletable_by_size rb (u64 (total - m_log_size_bytes s)) l)
     else 0%nat).
  destruct (_ <? _); [|lia]. specialize (IH (u64 (total - m_log_size_bytes s))). lia.
Qed.

Lemma deletable_count_lt p now ms rb :
  (Partition_deletable_count p now ms rb <= length (pt_segments p) - 1)%nat.
Proof.
  unfold Partition_deletable_count.
  pose proof (by_age_lt now ms (pt_segments p)).
  pose proof (by_size_lt rb (pt_segments p) (Partition_total_bytes p)).
  destruct (_ <? ms), (_ <? rb); case_bool_decide; lia.
Qed.

Section retention.
Context {W : Win32} {R : Reliable W}.

Lemma wp_remove_candidates segs Q : forall d,
  (forall d', (forall q, files d' !! q = if decide (Exists (fun s => q ∈ seg_paths s) segs)
                                         then None else files d !! q) -> Q tt d') ->
  wp (remove_candidates (Partition_candidate <$> segs)) Q d.
Proof.
  induction segs as [|s segs IH]; intros d HQ; cbn [fmap list_fmap remove_candidates].
  - apply wp_ret, HQ. intros q. rewrite decide_False; [done|]. intros Hex. inversion Hex.
  - apply wp_bind. eexists _, _; split; [done|]. apply wp_bind. eexists _, _; split; [done|].
    apply wp_bind. eexists _, _; split; [done|]. apply IH. intros d' Hd'. apply HQ. intros q.
    rewrite Hd', !fs_remove_complete. cbn [Partition_candidate dc_log_path dc_index_path dc_sealed_path].
    assert (q ∈ seg_paths s <-> q = LogSegment_log_path s \/ q = LogSegment_index_path s \/
              q = LogSegment_sealed_path s) as Hq
      by (unfold seg_paths, seg_exts; cbn; set_solver).
    destruct (decide (Exists (fun s => q ∈ seg_paths s) segs)).
    { rewrite decide_True; [done|]. by apply Exists_cons_tl. }
    destruct (decide (q ∈ seg_paths s)) as [Hin|Hnin].
    { rewrite decide_True by (by apply Exists_cons_hd).
      apply Hq in Hin as [-> | [-> | ->]].
      - destruct (decide (LogSegment_log_path s = LogSegment_sealed_path s)) as [->|];
          [by rewrite lookup_delete_eq|rewrite lookup_delete_ne by done].
        destruct (decide (LogSegment_log_path s = LogSegment_index_path s)) as [->|];
          [by rewrite lookup_delete_eq|rewrite lookup_delete_ne by done].
        by rewrite lookup_delete_eq.
      - destruct (decide (LogSegment_index_path s = LogSegment_sealed_path s)) as [->|];
          [by rewrite lookup_delete_eq|rewrite lookup_delete_ne by done].
        by rewrite lookup_delete_eq.
      - by rewrite lookup_delete_eq. }
    rewrite decide_False by (rewrite Exists_cons; tauto).
    rewrite !lookup_delete_ne; [done|intros <-; apply Hnin, Hq; tauto..].
Qed.

(** The sealed segments before and after a point of the sequence use different
    files. *)
Lemma removed_disjoint d p olds a ra k s1 q :
  part_ok d p olds a ra -> s1 ∈ drop k olds.*1 ++ [a] -> (k <= length olds)%nat ->
  q ∈ seg_paths s1 -> ~ Exists (fun s => q ∈ seg_paths s) (take k olds.*1).
Proof.
  intros P Hin Hk Hq Hex. apply list.Exists_exists in Hex as (s2 & Hin2 & Hq2).
  pose proof (po_chain _ _ _ _ _ P) as Hc.
  assert (forall s, s ∈ olds.*1 ++ [a] -> is_u64 (m_base_offset s) /\ m_partition_dir s = pt_partition_dir p)
    as Hwf.
  { intros s Hs. apply elem_of_app in Hs as [Hs|Hs].
    - apply list_elem_of_fmap in Hs as ([s' rs'] & -> & Hs).
      destruct (olds_before _ _ _ _ _ _ _ P Hs) as (Ho & _).
      split; [eapply seg_view_u64, Ho|apply Ho].
    - apply list_elem_of_singleton in Hs as ->. destruct (po_active _ _ _ _ _ P).
      split; [by eapply seg_view_u64|done]. }
  assert (m_base_offset s2 < m_base_offset s1) as Hlt.
  { rewrite <- (take_drop k olds), <- app_assoc in Hc. apply chained_app in Hc as [Hc1 Hc2].
    rewrite <- fmap_take in Hin2. apply list_elem_of_fmap in Hin2 as ([s2' rs2] & -> & Hin2).
    pose proof (chained_base _ _ _ _ Hc1 Hin2) as [_ H2]. cbn [fst].
    assert ((s2', rs2) ∈ olds) as Hol by (by eapply elem_of_take_in).
    destruct (olds_before _ _ _ _ _ _ _ P Hol) as (Ho & _ & _).
    pose proof (zlen_pos rs2 (so_nonempty _ _ _ _ Ho)).
    assert (exists rs1, (s1, rs1) ∈ drop k olds ++ [(a, ra)]) as [rs1 Hin1].
    { apply elem_of_app in Hin as [Hin|Hin].
      - rewrite <- fmap_drop in Hin. apply list_elem_of_fmap in Hin as ([s' rs'] & -> & Hin).
        exists rs'. apply elem_of_app. by left.
      - apply list_elem_of_singleton in Hin as ->. exists ra. apply elem_of_app. right.
        by apply list_elem_of_singleton. }
    pose proof (chained_base _ _ _ _ Hc2 Hin1). lia. }
  destruct (Hwf s1) as [Hu1 Hd1].
  { apply elem_of_app in Hin as [Hin|Hin]; apply elem_of_app; [left|by right].
    by eapply elem_of_drop_in. }
  destruct (Hwf s2) as [Hu2 Hd2].
  { apply elem_of_app. left. by eapply elem_of_take_in. }
  apply list_elem_of_fmap in Hq2 as (ext & E & _). revert E. rewrite Hd2, <- Hd1.
  by apply seg_paths_ne; [..|lia].
Qed.

Lemma part_ok_drop d d' p olds a ra k :
  part_ok d p olds a ra -> (k <= length olds)%nat ->
  (forall q, files d' !! q = if decide (Exists (fun s => q ∈ seg_paths s) (take k olds.*1))
                             then None else files d !! q) ->
  let p' := pt_set_segments (drop k (pt_segments p)) p in
  part_ok d' p' (drop k olds) a ra /\
  Partition_earliest_offset p' = Partition_earliest_offset p + zlen (records_of (take k olds)).
Proof.
  intros P Hk Hf p'. pose proof P as [Hseg Holds Hact Hch Hnext Hd Hcfg].
  assert (pt_segments p' = drop k olds.*1 ++ [a]) as Hseg'.
  { unfold p'. cbn [pt_set_segments pt_segments]. rewrite Hseg, drop_app_le; [done|].
    by rewrite length_fmap. }
  assert (forall s q, s ∈ drop k olds.*1 ++ [a] -> q ∈ seg_paths s -> files d' !! q = files d !! q)
    as Hsame.
  { intros s q Hs Hq. rewrite Hf, decide_False; [done|]. by eapply removed_disjoint. }
  pose proof Hch as Hch0. rewrite <- (take_drop k olds), <- app_assoc in Hch0.
  apply chained_app in Hch0 as [Hc1 Hc2].
  assert (Partition_earliest_offset p' =
          Partition_earliest_offset p + zlen (records_of (take k olds))) as He.
  { unfold Partition_earliest_offset at 1. rewrite Hseg'.
    destruct (drop k olds) as [|[s rs] l] eqn:Edr.
    - rewrite <- fmap_drop, Edr. cbn. cbn in Hc2. apply Hc2.
    - rewrite <- fmap_drop, Edr. cbn. cbn in Hc2. apply Hc2. }
  split; [|done]. split; try done.
  - by rewrite Hseg', fmap_drop.
  - apply list.Forall_forall. intros [s rs] Hin.
    assert ((s, rs) ∈ olds) as Hol by (by eapply elem_of_drop_in).
    destruct (olds_before _ _ _ _ _ _ _ P Hol) as (Ho & _).
    eapply sealed_ok_frame; [|exact Ho]. intros q Hq. eapply Hsame; [|exact Hq].
    apply elem_of_app. left. rewrite <- fmap_drop. by apply (list_elem_of_fmap_2 fst (drop k olds) (s, rs)).
  - destruct Hact as [V T Hs Hdir Hm].
    assert (a ∈ drop k olds.*1 ++ [a]) as Ha by (apply elem_of_app; right; by apply list_elem_of_singleton).
    split; try done.
    + eapply seg_view_frame; [|exact V]. intros q Hq. by eapply Hsame.
    + rewrite (Hsame a); [done|done|apply seg_paths_sealed].
  - by rewrite He.
  - intros name Hn. rewrite Hf in Hn. case_decide as Hex; [by destruct Hn|].
    destruct (Hd name Hn) as (b & ext & Hb & Hext & ->). exists b, ext. split_and!; [|done|done].
    apply list_elem_of_fmap in Hb as (s & -> & Hs). rewrite Hseg in Hs. rewrite Hseg'.
    rewrite <- (take_drop k olds.*1), <- app_assoc in Hs. apply elem_of_app in Hs as [Hs|Hs].
    + destruct Hex. apply list.Exists_exists. exists s. split; [done|].
      assert (m_partition_dir s = pt_partition_dir p) as Hsd.
      { apply elem_of_take_in in Hs as Hj. apply list_elem_of_fmap in Hj as ([s' rs'] & -> & Hj).
        destruct (olds_before _ _ _ _ _ _ _ P Hj) as (Ho & _). apply Ho. }
      unfold seg_paths. rewrite Hsd. apply list_elem_of_fmap. by exists ext.
    + by apply list_elem_of_fmap_2.
Qed.

Lemma wp_scan_and_delete now d p olds a ra ms rb Q :
  part_ok d p olds a ra ->
  let k := Partition_deletable_count p now ms rb in
  (forall d' out, 
     let p' := pt_set_segments (drop k (pt_segments p)) p in
     part_ok d' p' (drop k olds) a ra ->
     Partition_earliest_offset p' = Partition_earliest_offset p + zlen (records_of (take k olds)) ->
     (out = Some (Partition_candidate <$> take k (pt_segments p)) \/ k = 0%nat /\ out = None) ->
     Q (Status_OK, p', out) d') ->
  wp (Partition_scan_and_delete_segments now p ms rb false) Q d.
Proof.
  intros P k HQ. unfold Partition_scan_and_delete_segments. fold k.
  pose proof (deletable_count_lt p now ms rb) as Hk. fold k in Hk.
  pose proof (po_segments _ _ _ _ _ P) as Hseg. rewrite Hseg, length_app, length_fmap in Hk.
  cbn [length] in Hk.
  assert (k = 0%nat -> Q (Status_OK, p, None) d) as H0.
  { intros E. specialize (HQ d None). rewrite E in HQ. cbn [drop take fmap list_fmap] in HQ.
    destruct p as [i dir c n segs dg]. cbn in HQ. apply HQ; [done| |by right].
    change (records_of []) with (@nil Record). change (zlen (@nil Record)) with 0. by rewrite Z.add_0_r. }
  rewrite Hseg, zlen_app, zlen_fmap. change (zlen [a]) with 1.
  destruct (Z.leb_spec (zlen olds + 1) 1).
  { apply wp_ret, H0. unfold zlen in *. lia. }
  case_bool_decide as Hz; [by apply wp_ret, H0|]. apply wp_bind.
  assert (take k (olds.*1 ++ [a]) = take k olds.*1) as Htake
    by (rewrite take_app_le; [done|rewrite length_fmap; lia]).
  rewrite Htake. apply wp_remove_candidates. intros d1 Hd1.
  apply wp_bind, wp_flush_directory. intros _ d2 Hd2 _. apply wp_ret.
  destruct (part_ok_drop d d2 p olds a ra k P) as [P' He]; [lia|intros q; rewrite Hd2; apply Hd1|].
  rewrite <- Hseg. apply HQ; [done|done|]. left. by rewrite Hseg, Htake.
Qed.

End retention.
