(* ===== verification/PartitionRecovery.v ===== *)
(** * PartitionRecovery: restarting a partition from its files

    [stored d dir olds b ra tail] describes the files a broker leaves behind: the
    sealed segments with their index and marker files, and an active segment whose
    last write may have been cut short.  [open_and_recover] is proved to rebuild
    from them a partition that represents exactly the records whose writes were
    completed. *)
From S2P Require Import Prelude StdString Status Crc32 RecordCodec FileHandle OffsetIndex LogSegment.
From S2P Require Import Partition PartitionRead.

Definition paths_of (b : Z) (dir : path) : list path := (fun ext => segment_path ext b dir) <$> seg_exts.

Section stored.
Context {W : Win32}.

(** The files of a sealed segment; the marker may be missing when the broker died
    before writing it. *)
(** Without a marker the segment is scanned, and its index file may hold anything. *)
Definition stored_unmarked (d : disk) (dir : path) (b : Z) : Prop :=
  files d !! segment_path (str ".sealed") b dir = None /\
  is_u32 (zlen (default [] (files d !! segment_path (str ".index") b dir))).

(** With a marker, readable or not, the index file is used. *)
Definition stored_marked (d : disk) (dir : path) (b : Z) (rs : list Record) : Prop :=
  marker_ok (files d !! segment_path (str ".sealed") b dir) b rs /\
  exists es, files d !! segment_path (str ".index") b dir = Some (index_bytes es) /\ index_ok rs es.

Record stored_sealed (d : disk) (dir : path) (b : Z) (rs : list Record) : Prop := {
  ss_log : files d !! segment_path (str ".log") b dir = Some (log_bytes rs);
  ss_limit : zlen (log_bytes rs) <= LOG_LIMIT;
  ss_recs : recs_ok b rs;
  ss_base : 0 <= b /\ b + zlen rs < 2 ^ 64;
  ss_nonempty : rs <> [];
  ss_marker : stored_unmarked d dir b \/ stored_marked d dir b rs;
}.

(** The files of the active segment; the index file may be missing, and so may an
    empty log. *)
Record stored_active (d : disk) (dir : path) (b : Z) (rs : list Record) (tail : bytes) : Prop := {
  sa_log : default [] (files d !! segment_path (str ".log") b dir) = log_bytes rs ++ tail;
  sa_stop : scan_stops tail;
  sa_limit : zlen (log_bytes rs ++ tail) <= LOG_LIMIT;
  sa_recs : recs_ok b rs;
  sa_base : 0 <= b /\ b + zlen rs < 2 ^ 64;
  sa_index : is_u32 (zlen (default [] (files d !! segment_path (str ".index") b dir)));
  sa_marker : files d !! segment_path (str ".sealed") b dir = None;
}.

(** Base offsets follow one another. *)
Fixpoint bases_chained (e : Z) (l : list (Z * list Record)) : Prop :=
  match l with
  | [] => True
  | (b, rs) :: l => b = e /\ bases_chained (e + zlen rs) l
  end.

Record stored (d : disk) (dir : path) (e : Z) (olds : list (Z * list Record)) (b : Z)
    (ra : list Record) (tail : bytes) : Prop := {
  sd_olds : Forall (fun x => stored_sealed d dir x.1 x.2) olds;
  sd_active : stored_active d dir b ra tail;
  sd_chain : bases_chained e (olds ++ [(b, ra)]);
  sd_dir : dir_ok (files d) dir (olds.*1 ++ [b]);
  sd_log : is_Some (files d !! segment_path (str ".log") b dir);
}.

Lemma stored_sealed_files d d' dir b rs :
  files d' = files d -> stored_sealed d dir b rs -> stored_sealed d' dir b rs.
Proof. intros E []. split; unfold stored_unmarked, stored_marked in *; by rewrite ?E. Qed.

(** Only files of the segment with base offset [b] differ. *)
Definition frame_base (d d' : disk) (b : Z) (dir : path) : Prop :=
  forall q, q ∉ paths_of b dir -> files d' !! q = files d !! q.

Lemma paths_of_segment ext b dir : ext ∈ seg_exts -> segment_path ext b dir ∈ paths_of b dir.
Proof. intros He. apply list_elem_of_fmap. by exists ext. Qed.

Lemma frame_base_other d d' b b' dir ext :
  frame_base d d' b dir -> is_u64 b -> is_u64 b' -> b' <> b ->
  files d' !! segment_path ext b' dir = files d !! segment_path ext b' dir.
Proof.
  intros Hf Hb Hb' Hne. apply Hf. intros Hin. apply list_elem_of_fmap in Hin as (e & E & _).
  apply segment_path_inj in E as [-> _]; done.
Qed.

Lemma frame_base_trans d1 d2 d3 b dir :
  frame_base d1 d2 b dir -> frame_base d2 d3 b dir -> frame_base d1 d3 b dir.
Proof. intros H1 H2 q Hq. by rewrite H2, H1. Qed.

Lemma frame_base_files d d' b dir : files d' = files d -> frame_base d d' b dir.
Proof. intros E q _. by rewrite E. Qed.

Lemma frame_base_insert d d' b dir ext c :
  ext ∈ seg_exts -> files d' = <[segment_path ext b dir := c]> (files d) -> frame_base d d' b dir.
Proof.
  intros He E q Hq. rewrite E, lookup_insert_ne; [done|]. intros <-. by apply Hq, paths_of_segment.
Qed.

Lemma frame_base_dir d d' b dir bases :
  frame_base d d' b dir -> b ∈ bases -> dir_ok (files d) dir bases -> dir_ok (files d') dir bases.
Proof.
  intros Hf Hb Hd name Hn. destruct (decide (dir ++ [name] ∈ paths_of b dir)) as [Hin|Hnin].
  - apply list_elem_of_fmap in Hin as (ext & E & He). exists b, ext. split_and!; [done|done|].
    apply app_inv_head in E. by injection E.
  - apply Hd. by rewrite <- Hf.
Qed.

Lemma stored_sealed_frame d d' b b' dir rs :
  frame_base d d' b dir -> is_u64 b -> is_u64 b' -> b' <> b ->
  stored_sealed d dir b' rs -> stored_sealed d' dir b' rs.
Proof.
  intros Hf Hb Hb' Hne []. split; try done; unfold stored_unmarked, stored_marked in *;
    rewrite !(frame_base_other d d' b b'); done.
Qed.

Lemma stored_active_frame d d' b b' dir rs tail :
  frame_base d d' b dir -> is_u64 b -> is_u64 b' -> b' <> b ->
  stored_active d dir b' rs tail -> stored_active d' dir b' rs tail.
Proof.
  intros Hf Hb Hb' Hne []. split; try done; rewrite (frame_base_other d d' b b'); done.
Qed.

Lemma sealed_ok_frame_base d d' b dir s rs :
  frame_base d d' b dir -> is_u64 b -> m_base_offset s <> b ->
  sealed_ok d dir s rs -> sealed_ok d' dir s rs.
Proof.
  intros Hf Hb Hne Hs. eapply sealed_ok_frame; [|exact Hs]. intros q Hq.
  pose proof (seg_view_u64 _ _ _ (so_view _ _ _ _ Hs)) as Hu.
  apply list_elem_of_fmap in Hq as (ext & -> & _). rewrite (so_dir _ _ _ _ Hs).
  by eapply frame_base_other.
Qed.

Lemma bases_chained_ge e l b rs : bases_chained e l -> (b, rs) ∈ l -> e <= b.
Proof.
  revert e. induction l as [|[b0 rs0] l IH]; intros e Hc Hin; [by apply not_elem_of_nil in Hin|].
  cbn in Hc. destruct Hc as [-> Hc]. pose proof (zlen_nonneg rs0).
  apply elem_of_cons in Hin as [E|Hin]; [simplify_eq; lia|]. specialize (IH _ Hc Hin). lia.
Qed.

Lemma bases_chained_sorted l : forall e,
  bases_chained e l -> Forall (fun x => x.2 <> []) (removelast l) -> StronglySorted Z.lt l.*1.
Proof.
  induction l as [|[b rs] l IH]; intros e Hc Hne; [constructor|].
  cbn [bases_chained] in Hc. destruct Hc as [-> Hc]. cbn [fmap list_fmap fst].
  destruct l as [|x l]; [repeat constructor|].
  cbn [removelast] in Hne. apply list.Forall_cons in Hne as [Hrs Hne]. constructor.
  - by eapply IH.
  - apply list.Forall_forall. intros b' Hin. apply list_elem_of_fmap in Hin as ([b'' rs'] & -> & Hin).
    pose proof (bases_chained_ge _ _ _ _ Hc Hin). cbn in *. pose proof (zlen_pos rs Hrs). lia.
Qed.

Lemma sorted_lt_nodup (l : list Z) : StronglySorted Z.lt l -> NoDup l.
Proof.
  induction 1 as [|x l Hs IH Hx]; [constructor|]. constructor; [|done]. intros Hin.
  rewrite list.Forall_forall in Hx. specialize (Hx x Hin). lia.
Qed.

Lemma stored_bases d dir e olds b ra tail :
  stored d dir e olds b ra tail ->
  Forall is_u64 (olds.*1 ++ [b]) /\ StronglySorted Z.lt (olds.*1 ++ [b]) /\
  forall b', b' ∈ olds.*1 ++ [b] -> is_Some (files d !! segment_path (str ".log") b' dir).
Proof.
  intros [Ho Ha Hc Hd Hl]. rewrite list.Forall_forall in Ho. split_and!.
  - apply list.Forall_forall. intros b' Hin. apply elem_of_app in Hin as [Hin|Hin].
    + apply list_elem_of_fmap in Hin as ([b'' rs] & -> & Hin). specialize (Ho _ Hin).
      destruct (ss_base _ _ _ _ Ho). pose proof (zlen_nonneg rs). cbn in *. unfold is_u64. lia.
    + apply list_elem_of_singleton in Hin as ->. destruct (sa_base _ _ _ _ _ Ha).
      pose proof (zlen_nonneg ra). unfold is_u64. lia.
  - pose proof (bases_chained_sorted _ _ Hc) as Hs. rewrite fmap_app in Hs. apply Hs.
    rewrite removelast_last. apply list.Forall_forall. intros x Hin. apply (Ho x Hin).
  - intros b' Hin. apply elem_of_app in Hin as [Hin|Hin].
    + apply list_elem_of_fmap in Hin as ([b'' rs] & -> & Hin). specialize (Ho _ Hin).
      rewrite (ss_log _ _ _ _ Ho). by eexists.
    + apply list_elem_of_singleton in Hin as ->. done.
Qed.


(** Base offsets are distinct, and each is the offset after the records before it. *)
Lemma stored_distinct d dir e l1 b0 rs0 l2 b ra tail :
  stored d dir e (l1 ++ (b0, rs0) :: l2) b ra tail ->
  is_u64 b0 /\ is_u64 b /\ b <> b0 /\ forall b' rs', (b', rs') ∈ l1 ++ l2 -> is_u64 b' /\ b' <> b0.
Proof.
  intros Hst. destruct (stored_bases _ _ _ _ _ _ _ Hst) as (Hu & Hs & _). apply sorted_lt_nodup in Hs.
  rewrite list.Forall_forall in Hu. rewrite !fmap_app in *. cbn [fmap list_fmap fst] in *.
  assert (forall b' rs', (b', rs') ∈ l1 ++ l2 -> b' ∈ l1.*1 ++ l2.*1) as Hin.
  { intros b' rs' H. rewrite <- fmap_app. apply list_elem_of_fmap. by exists (b', rs'). }
  rewrite <- app_assoc in Hs. cbn [app] in Hs. apply list.NoDup_app in Hs as (_ & Hd & Hs).
  apply list.NoDup_cons in Hs as [Hn _]. split_and!.
  - apply Hu. set_solver.
  - apply Hu. set_solver.
  - intros ->. apply Hn. set_solver.
  - intros b' rs' H. apply Hin in H. split; [apply Hu; set_solver|]. intros ->. set_solver.
Qed.

Lemma bases_chained_app e l1 l2 :
  bases_chained e (l1 ++ l2) -> bases_chained (e + zlen (concat l1.*2)) l2.
Proof.
  revert e. induction l1 as [|[b rs] l1 IH]; intros e Hc; cbn in *.
  - change (zlen (@nil Record)) with 0. by rewrite Z.add_0_r.
  - destruct Hc as [_ Hc]. rewrite zlen_app, Z.add_assoc. by apply IH.
Qed.

Lemma bases_chained_snoc e l b rs b' :
  bases_chained e (l ++ [(b, rs)]) -> b' = b + zlen rs -> bases_chained e ((l ++ [(b, rs)]) ++ [(b', [])]).
Proof.
  revert e. induction l as [|[b0 rs0] l IH]; intros e Hc Hb; cbn in *.
  - destruct Hc as [-> _]. auto.
  - destruct Hc as [-> Hc]. split; [done|]. by apply IH.
Qed.

Lemma stored_chain d dir e olds b ra tail :
  stored d dir e olds b ra tail -> b = e + zlen (concat olds.*2).
Proof. intros Hst. pose proof (sd_chain _ _ _ _ _ _ _ Hst) as Hc. by apply bases_chained_app in Hc as [? _]. Qed.

Lemma stored_chain_at d dir e l1 b0 rs0 l2 b ra tail :
  stored d dir e (l1 ++ (b0, rs0) :: l2) b ra tail -> b0 = e + zlen (concat l1.*2).
Proof.
  intros Hst. pose proof (sd_chain _ _ _ _ _ _ _ Hst) as Hc. rewrite <- app_assoc in Hc.
  by apply bases_chained_app in Hc as [? _].
Qed.

(** Files of one segment change and still hold it. *)
Lemma stored_update_sealed d d' dir e l1 b0 rs0 l2 b ra tail :
  stored d dir e (l1 ++ (b0, rs0) :: l2) b ra tail -> frame_base d d' b0 dir ->
  stored_sealed d' dir b0 rs0 -> stored d' dir e (l1 ++ (b0, rs0) :: l2) b ra tail.
Proof.
  intros Hst Hf Hs. destruct (stored_distinct _ _ _ _ _ _ _ _ _ _ Hst) as (Hu0 & Hub & Hb & Hd).
  pose proof Hst as [Ho Ha Hc Hdir Hl]. split; [| |done| |].
  - rewrite list.Forall_forall in Ho |- *. intros [b' rs'] Hin. specialize (Ho _ Hin).
    destruct (decide ((b', rs') ∈ l1 ++ l2)) as [H|H].
    + destruct (Hd _ _ H). by eapply stored_sealed_frame.
    + assert ((b', rs') = (b0, rs0)) as [= -> ->] by set_solver. done.
  - by eapply stored_active_frame.
  - eapply frame_base_dir; [exact Hf| |exact Hdir]. rewrite fmap_app. set_solver.
  - by rewrite (frame_base_other d d' b0 b).
Qed.

Lemma stored_update_active d d' dir e olds b ra tail ra' tail' :
  stored d dir e olds b ra tail -> frame_base d d' b dir -> stored_active d' dir b ra' tail' ->
  is_Some (files d' !! segment_path (str ".log") b dir) ->
  stored d' dir e olds b ra' tail'.
Proof.
  intros Hst Hf Ha' Hl'. destruct (stored_bases _ _ _ _ _ _ _ Hst) as (Hu & Hs & _).
  rewrite list.Forall_forall in Hu. apply sorted_lt_nodup, list.NoDup_app in Hs as (_ & Hn & _).
  pose proof Hst as [Ho Ha Hc Hdir Hl]. split; [|done| | |done].
  - rewrite list.Forall_forall in Ho |- *. intros [b' rs'] Hin. specialize (Ho _ Hin).
    assert (b' ∈ olds.*1) as Hb' by (apply list_elem_of_fmap; by exists (b', rs')).
    eapply stored_sealed_frame; [exact Hf|apply Hu; set_solver|apply Hu; set_solver| |done].
    cbn [fst]. intros E. apply (Hn b'); [done|]. rewrite E. set_solver.
  - clear -Hc. revert e Hc. induction olds as [|[b0 rs0] l IH]; intros e; cbn; [tauto|].
    intros [-> Hc]. split; [done|]. by apply IH.
  - eapply frame_base_dir; [exact Hf| |exact Hdir]. set_solver.
Qed.

Lemma stored_active_opened d d' dir b ra tail :
  stored_active d dir b ra tail ->
  files d' = files d \/ files d' = opened OPEN_ALWAYS (segment_path (str ".log") b dir) (files d) ->
  stored_active d' dir b ra tail /\ frame_base d d' b dir /\
  (files d' = files d \/ is_Some (files d' !! segment_path (str ".log") b dir)).
Proof.
  intros [Hlog Hs Hlim Hr Hb Hi Hm] [E|E].
  - split_and!; [by split; rewrite ?E|by apply frame_base_files|by left].
  - pose proof (segment_path_ext _ _ b dir ext_log_index).
    pose proof (segment_path_ext _ _ b dir ext_log_sealed).
    split_and!.
    + split; rewrite ?E, ?opened_lookup; try done; [by rewrite decide_True|by rewrite decide_False..].
    + intros q Hq. rewrite E, opened_lookup, decide_False; [done|]. intros ->.
      apply Hq, paths_of_segment. unfold seg_exts. set_solver.
    + right. rewrite E, opened_lookup, decide_True by done. by eexists.
Qed.

(** ** Running and stored segments *)

Definition bases_of (l : segrecs) : list (Z * list Record) := (fun x => (m_base_offset x.1, x.2)) <$> l.

Lemma bases_of_fst l : (bases_of l).*1 = m_base_offset <$> l.*1.
Proof. unfold bases_of. by rewrite <- !list_fmap_compose. Qed.

Lemma bases_of_records l : concat (bases_of l).*2 = records_of l.
Proof. unfold bases_of, records_of. by rewrite <- !list_fmap_compose. Qed.

Lemma sealed_ok_stored d dir s rs : sealed_ok d dir s rs -> stored_sealed d dir (m_base_offset s) rs.
Proof.
  intros [Vs Hs Hne <- Hst Hmk]. pose proof Vs as [_ _ Hl Hi _ Hlim Hr Hb Hix].
  split; try done. right. split; [done|]. by exists (m_index s).
Qed.

Lemma sealed_others_frame d d' done b0 rs0 todo dir e b ra tail :
  stored d dir e (bases_of done ++ (b0, rs0) :: todo) b ra tail -> frame_base d d' b0 dir ->
  Forall (fun x => sealed_ok d dir x.1 x.2) done -> Forall (fun x => sealed_ok d' dir x.1 x.2) done.
Proof.
  intros Hst Hf Hd. destruct (stored_distinct _ _ _ _ _ _ _ _ _ _ Hst) as (Hu0 & _ & _ & Hne).
  rewrite list.Forall_forall in Hd |- *. intros [s rs] Hin. specialize (Hd _ Hin).
  eapply sealed_ok_frame_base; [exact Hf|done| |done]. cbn [fst].
  apply (Hne (m_base_offset s) rs), elem_of_app. left. apply list_elem_of_fmap. by exists (s, rs).
Qed.

(** The partition after its active segment has been recovered. *)
Lemma restarted_ok d d' p done e b ra s :
  pt_segments p = done.*1 -> Forall (fun x => sealed_ok d (pt_partition_dir p) x.1 x.2) done ->
  chained e done -> b = e + zlen (records_of done) -> is_u64 b ->
  dir_ok (files d) (pt_partition_dir p) ((m_base_offset <$> done.*1) ++ [b]) ->
  28 <= segment_max_bytes (pt_config p) <= LOG_LIMIT ->
  seg_view d' s ra -> seg_totals s ra -> m_is_sealed s = false ->
  m_base_offset s = b -> m_partition_dir s = pt_partition_dir p ->
  frame_base d d' b (pt_partition_dir p) ->
  files d' !! segment_path (str ".sealed") b (pt_partition_dir p) = None ->
  let p' := pt_set_segments (pt_segments p ++ [s]) (pt_set_next (b + zlen ra) p) in
  part_ok d' p' done s ra /\ Partition_earliest_offset p' = e.
Proof.
  intros Hseg Hdone Hch Hbe Hub Hdir Hcfg V T Hs Eb Ed Fr Hmk p'.
  assert (pt_segments p' = done.*1 ++ [s]) as Hseg' by (unfold p'; cbn; by rewrite Hseg).
  assert (Partition_earliest_offset p' = e) as He.
  { unfold Partition_earliest_offset. rewrite Hseg'.
    destruct done as [|[s0 rs0] l]; cbn in Hch |- *; [|by destruct Hch].
    change (zlen (records_of [])) with 0 in Hbe. lia. }
  split; [|done]. split; try done.
  - change (pt_partition_dir p') with (pt_partition_dir p).
    apply list.Forall_forall. intros [s' rs] Hin. rewrite list.Forall_forall in Hdone.
    specialize (Hdone _ Hin). cbn [fst snd] in *.
    eapply sealed_ok_frame_base; [exact Fr|done| |exact Hdone].
    pose proof (chained_base _ _ _ _ Hch Hin).
    pose proof (zlen_pos rs (so_nonempty _ _ _ _ Hdone)). lia.
  - split; try done. unfold LogSegment_sealed_path. by rewrite Eb, Ed.
  - rewrite He. apply chained_app. split; [done|]. cbn. split; [lia|done].
  - cbn. by rewrite Eb.
  - rewrite Hseg', fmap_app. cbn [fmap list_fmap]. rewrite Eb.
    eapply frame_base_dir; [exact Fr| |exact Hdir]. apply elem_of_app. right.
    by apply list_elem_of_singleton.
Qed.

End stored.

(** ** Opening one sealed segment *)

Section restart.
Context {W : Win32} {F : FailStop W}.

(** Opening a segment creates the files that are missing and changes no other. *)
Lemma opened_files_lookup d d' b dir :
  files d' = opened_files b dir (files d) ->
  frame_base d d' b dir /\
  files d' !! segment_path (str ".log") b dir =
    Some (default [] (files d !! segment_path (str ".log") b dir)) /\
  files d' !! segment_path (str ".index") b dir =
    Some (default [] (files d !! segment_path (str ".index") b dir)) /\
  files d' !! segment_path (str ".sealed") b dir = files d !! segment_path (str ".sealed") b dir.
Proof.
  intros E. pose proof (segment_path_ext _ _ b dir ext_log_index).
  pose proof (segment_path_ext _ _ b dir ext_log_sealed).
  pose proof (segment_path_ext _ _ b dir ext_index_sealed).
  unfold frame_base. rewrite E. unfold opened_files. split_and!.
  - intros q Hq. rewrite !opened_lookup.
    rewrite !decide_False; [done|intros ->; apply Hq, paths_of_segment; unfold seg_exts; set_solver..].
  - by rewrite !opened_lookup, decide_False, decide_True by done.
  - by rewrite !opened_lookup, decide_True, decide_False by done.
  - by rewrite !opened_lookup, !decide_False by done.
Qed.

Lemma opened_view d b dir iv rs es mk :
  files d !! segment_path (str ".log") b dir = Some (log_bytes rs) ->
  files d !! segment_path (str ".index") b dir = Some (index_bytes es) ->
  zlen (log_bytes rs) <= LOG_LIMIT -> recs_ok b rs -> 0 <= b /\ b + zlen rs < 2 ^ 64 ->
  index_ok rs es ->
  seg_view d (opened_segment b dir iv (log_bytes rs) (index_bytes es) mk) rs.
Proof.
  intros Hl Hi Hlim Hr Hb Hix. pose proof (index_ok_wf _ _ Hix Hlim) as Hwf.
  split; try done; cbn [opened_segment m_index]; by rewrite index_of_bytes_of.
Qed.

Lemma opened_torn d b dir iv rs tail idx mk :
  files d !! segment_path (str ".log") b dir = Some (log_bytes rs ++ tail) ->
  files d !! segment_path (str ".index") b dir = Some idx ->
  zlen (log_bytes rs ++ tail) <= LOG_LIMIT -> scan_stops tail -> recs_ok b rs ->
  0 <= b /\ b + zlen rs < 2 ^ 64 ->
  seg_torn d (opened_segment b dir iv (log_bytes rs ++ tail) idx mk) rs tail idx.
Proof. by split. Qed.

(** The same for a log without a tail. *)
Lemma opened_whole d b dir iv rs idx mk :
  files d !! segment_path (str ".log") b dir = Some (log_bytes rs) ->
  files d !! segment_path (str ".index") b dir = Some idx ->
  zlen (log_bytes rs) <= LOG_LIMIT -> recs_ok b rs -> 0 <= b /\ b + zlen rs < 2 ^ 64 ->
  seg_torn d (opened_segment b dir iv (log_bytes rs) idx mk) rs [] idx.
Proof. intros. split; rewrite ?app_nil_r; try done. apply scan_stops_nil. Qed.

Lemma same_files_frame d d' s b dir :
  same_files_but [LogSegment_log_path s; LogSegment_index_path s] d d' ->
  m_base_offset s = b -> m_partition_dir s = dir ->
  frame_base d d' b dir /\
  files d' !! segment_path (str ".sealed") b dir = files d !! segment_path (str ".sealed") b dir.
Proof.
  intros Hf <- <-. split.
  - intros q Hq. apply Hf. intros Hin. apply Hq. unfold paths_of, seg_exts, LogSegment_log_path,
      LogSegment_index_path in *. cbn. set_solver.
  - apply Hf. unfold LogSegment_log_path, LogSegment_index_path. intros Hin.
    apply elem_of_cons in Hin as [E|Hin]; [|apply list_elem_of_singleton in Hin as E];
      symmetry in E; by eapply segment_path_ext in E.
Qed.

(** The files of a segment after its scan was cut short. *)
Lemma scan_died_files d d' s rs tail idx b dir :
  scan_died d d' s rs tail idx -> m_base_offset s = b -> m_partition_dir s = dir ->
  frame_base d d' b dir /\
  files d' !! segment_path (str ".sealed") b dir = files d !! segment_path (str ".sealed") b dir /\
  exists tail' i, files d' !! segment_path (str ".log") b dir = Some (log_bytes rs ++ tail') /\
    (tail' = tail \/ tail' = []) /\ files d' !! segment_path (str ".index") b dir = Some i /\
    (is_u32 (zlen idx) -> is_u32 (zlen i)).
Proof.
  intros (_ & log & i & Hf & Hlog & Hi) <- <-.
  destruct (same_files_frame d d' s _ _ ltac:(intros q Hq; rewrite Hf, !lookup_insert_ne; set_solver)
              eq_refl eq_refl) as [Hfr Hs].
  split_and!; [done|done|].
  pose proof (segment_path_ext _ _ (m_base_offset s) (m_partition_dir s) ext_log_index).
  rewrite Hf. unfold LogSegment_log_path, LogSegment_index_path.
  rewrite lookup_insert_eq, lookup_insert_ne, lookup_insert_eq by done.
  destruct Hlog as [-> | ->]; [exists tail, i|exists [], i; rewrite app_nil_r]; auto 6.
Qed.

(** Once the volume is dead the loop ends at the next segment. *)
Lemma inert_recover_segments p bases : inert (Partition_recover_segments p bases) (fun _ => True).
Proof.
  destruct bases as [|b rest]; [by apply inert_ret|]. cbn [Partition_recover_segments].
  eapply inert_bind; [apply inert_segment_open|]. intros [st seg] Hst. cbn [fst] in Hst.
  rewrite (proj2 (Status_ok_false st) Hst). by apply inert_ret.
Qed.

(** A marker whose write may have been cut short. *)
Lemma marker_ok_torn s rs n :
  seg_totals s rs -> rs <> [] -> recs_ok (m_base_offset s) rs ->
  0 <= m_base_offset s /\ m_base_offset s + zlen rs < 2 ^ 64 -> 0 <= n <= sizeof_SealedMarker ->
  marker_ok (Some (ztake n (SealedMarker_bytes (seg_marker (seg_set_sealed true s)))))
    (m_base_offset s) rs.
Proof.
  intros T Hne Hr [Hb Hb'] Hn. set (s' := seg_set_sealed true s).
  assert (seg_totals s' rs) as T' by (by destruct T; split).
  pose proof (zlen_SealedMarker_bytes (seg_marker s')) as Hl. eexists. split; [done|].
  destruct (decide (n = sizeof_SealedMarker)) as [->|Hlt].
  - left. rewrite ztake_ge by lia. rewrite <- (app_nil_r (SealedMarker_bytes _)), marker_at_bytes.
    + f_equal. by apply (seg_marker_of s').
    + by apply (seg_marker_wf s' rs).
  - right. unfold marker_at. rewrite zlen_ztake by lia. by rewrite (proj2 (Z.leb_gt _ _)) by lia.
Qed.

(** The end of the recovery of a segment without marker: it is sealed and its marker is
    written.  When the volume dies in it, the segment has no marker yet or a part of it. *)
Lemma wp_seal_and_mark {A} d s rs b dir (k : LogSegment -> io A) Q :
  seg_view d s rs -> seg_totals s rs -> rs <> [] -> m_base_offset s = b -> m_partition_dir s = dir ->
  files d !! segment_path (str ".sealed") b dir = None -> (forall s, inert (k s) (fun _ => True)) ->
  (forall d' s', sealed_ok d' dir s' rs -> m_base_offset s' = b -> frame_base d d' b dir ->
     wp (k s') Q d') ->
  (forall r d', dead d' -> frame_base d d' b dir -> stored_sealed d' dir b rs -> Q r d') ->
  wp (seg ← LogSegment_seal s; _ ← LogSegment_write_sealed_marker seg; _ ← LogSegment_flush seg;
      _ ← FileHandle_flush_directory dir; k seg) Q d.
Proof.
  intros V T Hne Eb Ed Hmk Hk HQ Hfail.
  pose proof (segment_path_ext _ _ b dir ext_log_sealed) as Hls.
  pose proof (segment_path_ext _ _ b dir ext_index_sealed) as His.
  pose proof V as [_ _ Hl Hi _ Hlim Hr Hb Hix]. unfold LogSegment_log_path, LogSegment_index_path in Hl, Hi.
  apply wp_bind. unfold LogSegment_seal. apply wp_bind, wp_flush_segment. intros d3 Hd3.
  apply wp_ret. set (s3 := seg_set_sealed true s).
  assert (LogSegment_sealed_path s3 = segment_path (str ".sealed") b dir) as Hsp
    by (unfold LogSegment_sealed_path, s3; cbn; by rewrite Eb, Ed).
  rewrite Eb, Ed in *. apply wp_bind, wp_write_marker_fs; [by rewrite Hsp, Hd3|..].
  - intros d4 Hd4. rewrite Hsp, Hd3 in Hd4. apply wp_bind, wp_flush_segment. intros d5 Hd5.
    apply wp_bind, wp_flush_directory. intros _ d6 Hd6 _.
    assert (files d6 = <[segment_path (str ".sealed") b dir := SealedMarker_bytes (seg_marker s3)]> (files d))
      as E by congruence.
    apply HQ; [|done|eapply frame_base_insert; [|exact E]; unfold seg_exts; set_solver].
    rewrite <- Ed. apply (sealed_ok_marked d); try done; unfold LogSegment_log_path, LogSegment_index_path,
      LogSegment_sealed_path; rewrite Eb, Ed, E; [by rewrite lookup_insert_ne..|apply lookup_insert_eq].
  - intros st d4 _ Hdd Hd4. rewrite Hsp, Hd3 in Hd4.
    eapply inert_wp with (D := fun _ => True); [|exact Hdd|].
    { eapply inert_bind; [apply inert_flush_segment|]. intros _ _.
      eapply inert_bind; [apply inert_flush_directory|]. intros _ _. apply Hk. }
    intros r d5 Hdd5 Hd5 _. destruct Hd4 as [Hd4|(n & Hn & Hd4)]; rewrite Hd4 in Hd5.
    + apply Hfail; [done|by apply frame_base_files|]. split; try done; [by rewrite Hd5|].
      left. split; rewrite Hd5; [done|]. rewrite Hi. by eapply index_file_size.
    + apply Hfail; [done|eapply frame_base_insert; [|exact Hd5]; unfold seg_exts; set_solver|].
      split; try done; [by rewrite Hd5, lookup_insert_ne|]. right. unfold stored_marked.
      rewrite Hd5, lookup_insert_eq, lookup_insert_ne by done.
      split; [|by exists (m_index s)]. rewrite <- Eb. apply marker_ok_torn; by rewrite ?Eb.
Qed.

(** A segment whose marker was not written yet is recovered, sealed and marked; when the
    volume dies, it can be recovered again. *)
Lemma wp_restart_unmarked d p b rs b2 rest Q :
  stored_sealed d (pt_partition_dir p) b rs -> stored_unmarked d (pt_partition_dir p) b ->
  (forall d' s, sealed_ok d' (pt_partition_dir p) s rs -> m_base_offset s = b ->
     frame_base d d' b (pt_partition_dir p) ->
     wp (Partition_recover_segments (pt_set_segments (pt_segments p ++ [s]) p) (b2 :: rest)) Q d') ->
  (forall r d', dead d' -> frame_base d d' b (pt_partition_dir p) ->
     stored_sealed d' (pt_partition_dir p) b rs -> Q r d') ->
  wp (Partition_recover_segments p (b :: b2 :: rest)) Q d.
Proof.
  intros Hst [Hmk Hidx] HQ Hfail. pose proof Hst as [Hlog Hlim Hrecs Hb Hne _].
  set (dir := pt_partition_dir p) in *. cbn [Partition_recover_segments]. fold dir.
  change (match b2 :: rest with [] => ?x | _ :: _ => ?y end) with y.
  apply wp_bind. apply wp_open_fs; rewrite ?Hlog; cbn [default]; [done|done| |].
  2:{ intros st s' d1 Hs Hdd Hd1. rewrite (proj2 (Status_ok_false st) Hs). apply wp_ret.
      assert (files d1 = files d) as E by (destruct Hd1 as [->| ->]; [done|unfold opened; by rewrite Hlog]).
      apply Hfail; [done|by apply frame_base_files|]. by eapply stored_sealed_files. }
  intros d1 Hd1. destruct (opened_files_lookup _ _ _ _ Hd1) as (F1 & Hl1 & Hi1 & Hm1).
  rewrite Hlog in Hl1. rewrite Hmk in Hm1. cbn [default] in Hl1.
  set (idx := default [] (files d !! segment_path (str ".index") b dir)) in *. rewrite Hmk.
  change (negb (Status_ok Status_OK)) with false. cbv beta iota.
  set (s1 := opened_segment _ _ _ _ _ _). apply wp_bind.
  eexists _, d1. split; [done|]. change (LogSegment_sealed_path s1) with (segment_path (str ".sealed") b dir).
  assert (fs_exists (segment_path (str ".sealed") b dir) d1 = false) as ->.
  { apply not_true_is_false. rewrite fs_exists_stop, Hm1. by intros [? ?]. }
  cbn [negb]. apply wp_bind.
  assert (forall s, inert (Partition_recover_segments (pt_set_segments (pt_segments p ++ [s]) p)
    (b2 :: rest)) (fun _ => True)) as Hin by (intros; apply inert_recover_segments).
  eapply (wp_recover_fs _ s1 rs [] idx); [by apply opened_whole|..];
    [intros d2 s2 V2 T2 (Eb & Ed & _) Es2 Hf2|intros d2 s2 nx Hdied];
    change (negb (Status_ok Status_OK)) with false; cbv beta iota.
  - destruct (same_files_frame d1 d2 s1 b dir Hf2 eq_refl eq_refl) as [F2 Hs2].
    pose proof (frame_base_trans _ _ _ _ _ F1 F2) as F12.
    eapply (wp_seal_and_mark d2 s2 rs b dir
      (fun seg => Partition_recover_segments (pt_set_segments (pt_segments p ++ [seg]) p) (b2 :: rest)));
      try done; [by rewrite Hs2|..].
    + intros d3 s3 Hok Hb3 F3. apply HQ; [done|done|by eapply frame_base_trans].
    + intros r d3 Hdd F3 Hs3. apply Hfail; [done|by eapply frame_base_trans|done].
  - destruct (scan_died_files _ _ _ _ _ _ b dir Hdied eq_refl eq_refl)
      as (F2 & Hm2 & tl & i & Hl2 & Htl & Hi2 & Hsz).
    assert (tl = []) as -> by tauto. rewrite app_nil_r in Hl2. rewrite Hm1 in Hm2.
    eapply inert_wp with (D := fun _ => True); [|apply Hdied|].
    { eapply inert_bind; [apply inert_seal|]. intros s3 _.
      eapply inert_bind; [apply inert_write_marker|]. intros _ _.
      eapply inert_bind; [apply inert_flush_segment|]. intros _ _.
      eapply inert_bind; [apply inert_flush_directory|]. intros _ _. apply (Hin s3). }
    intros r d3 Hdd Hd3 _. apply Hfail; [done| |].
    + eapply frame_base_trans; [exact F1|]. by eapply frame_base_trans, frame_base_files.
    + split; rewrite ?Hd3; try done. left. split; rewrite Hd3; [done|]. rewrite Hi2. by apply Hsz.
Qed.

(** What the opened segment makes of a marker. *)
Lemma opened_sealed d b dir iv rs es c mk s :
  mk = marker_at (Some c) -> mk = Some (marker_of b rs) \/ mk = None ->
  s = opened_segment b dir iv (log_bytes rs) (index_bytes es) mk ->
  seg_view d s rs -> files d !! segment_path (str ".sealed") b dir = Some c -> rs <> [] ->
  sealed_ok d dir (seg_set_sealed true s) rs.
Proof.
  intros Hc Hmk -> V Hs Hne. split; try done; [by apply seg_view_sealed| |].
  - destruct Hmk as [-> | ->]; [by left|by right].
  - exists c. split; [done|]. by rewrite <- Hc.
Qed.

(** The configured scan of a segment with its marker; the quick one changes nothing. *)
Lemma wp_restart_marked d p b rs b2 rest Q :
  stored_sealed d (pt_partition_dir p) b rs -> stored_marked d (pt_partition_dir p) b rs ->
  (forall d' s dg, sealed_ok d' (pt_partition_dir p) s rs -> m_base_offset s = b ->
     frame_base d d' b (pt_partition_dir p) ->
     wp (Partition_recover_segments
           (pt_set_segments (pt_segments p ++ [s]) (Partition_set_degraded dg p)) (b2 :: rest)) Q d') ->
  (forall r d', dead d' -> frame_base d d' b (pt_partition_dir p) ->
     (startup_scan (pt_config p) <> str "full" -> stored_sealed d' (pt_partition_dir p) b rs) -> Q r d') ->
  wp (Partition_recover_segments p (b :: b2 :: rest)) Q d.
Proof.
  intros Hst [(c & Hmk & Hmc) (es & Hidx & Hix)] HQ Hfail. pose proof Hst as [Hlog Hlim Hrecs Hb Hne _].
  set (dir := pt_partition_dir p) in *. cbn [Partition_recover_segments]. fold dir.
  change (match b2 :: rest with [] => ?x | _ :: _ => ?y end) with y.
  apply wp_bind. apply wp_open_fs; rewrite ?Hlog, ?Hidx; cbn [default];
    [done|by eapply index_file_size| |].
  2:{ intros st s' d1 Hs Hdd Hd1. rewrite (proj2 (Status_ok_false st) Hs). apply wp_ret.
      assert (files d1 = files d) as E by (destruct Hd1 as [->| ->]; [done|unfold opened; by rewrite Hlog]).
      apply Hfail; [done|by apply frame_base_files|]. intros _. by eapply stored_sealed_files. }
  intros d1 Hd1. destruct (opened_files_lookup _ _ _ _ Hd1) as (F1 & Hl1 & Hi1 & Hm1).
  rewrite Hlog in Hl1. rewrite Hidx in Hi1. rewrite Hmk in Hm1. cbn [default] in Hl1, Hi1. rewrite Hmk.
  change (negb (Status_ok Status_OK)) with false. cbv beta iota.
  set (mk := marker_at (Some c)) in *.
  set (s1 := opened_segment _ _ _ _ _ _). apply wp_bind.
  eexists _, d1. split; [done|]. change (LogSegment_sealed_path s1) with (segment_path (str ".sealed") b dir).
  assert (p = Partition_set_degraded (pt_is_degraded p) p) as Hp by (by destruct p).
  assert (fs_exists (segment_path (str ".sealed") b dir) d1 = true) as ->.
  { rewrite fs_exists_stop, Hm1. by eexists. }
  cbn [negb]. assert (seg_view d1 s1 rs) as V1 by (by apply opened_view).
  case_bool_decide as Hfull; apply wp_bind.
  - eapply (wp_verify_full_fs _ s1 rs [] (index_bytes es)); [by apply opened_whole|..].
    2:{ intros d2 s2 rep Hdied. eapply inert_wp with (D := fun _ => True); [|apply Hdied|].
        { eapply inert_bind; [apply inert_seal|]. intros s3 _.
          apply (inert_recover_segments _ (b2 :: rest)). }
        destruct (scan_died_files _ _ _ _ _ _ b dir Hdied eq_refl eq_refl) as (F2 & _).
        intros r d3 Hdd Hd3 _. apply Hfail; [done| |done].
        eapply frame_base_trans; [exact F1|]. by eapply frame_base_trans, frame_base_files. }
    intros d2 s2 rep V2 T2 (Eb & Ed & _) Es2 Hf2.
    destruct (same_files_frame d1 d2 s1 b dir Hf2 eq_refl eq_refl) as [F2 Hs2].
    apply wp_bind. unfold LogSegment_seal. apply wp_bind, wp_flush_segment. intros d3 Hd3. apply wp_ret.
    assert (sealed_ok d3 dir (seg_set_sealed true s2) rs) as Hs3.
    { split; try done; [by apply seg_view_sealed; eapply seg_view_files|left; split; apply T2|].
      unfold LogSegment_sealed_path. cbn [seg_set_sealed m_base_offset m_partition_dir].
      change (m_base_offset s2 = b) in Eb. change (m_partition_dir s2 = dir) in Ed.
      rewrite Eb, Ed. exists c. split; [|done]. rewrite Hd3, Hs2. exact Hm1. }
    assert (frame_base d d3 b dir) as F3.
    { eapply frame_base_trans; [exact F1|]. by eapply frame_base_trans, frame_base_files. }
    destruct (_ <? _); [|rewrite Hp; cbn [Partition_set_degraded pt_segments]]; by apply HQ.
  - eapply wp_verify_quick; [exact V1| |].
    { pose proof (zlen_log_bytes_ge rs). unfold LOG_LIMIT in Hlim.
      unfold s1. cbn [opened_segment m_last_offset m_base_offset]. destruct Hmc as [-> | ->]; cbn; lia. }
    cbn [negb]. apply wp_bind. unfold LogSegment_seal. apply wp_bind, wp_flush_segment.
    intros d3 Hd3. apply wp_ret. rewrite Hp. cbn [Partition_set_degraded pt_segments].
    apply HQ; [|done|by eapply frame_base_trans, frame_base_files].
    eapply (opened_sealed d3 b dir _ rs es c mk s1); try done; [by eapply seg_view_files|by rewrite Hd3].
Qed.

Lemma wp_restart_sealed d p b rs b2 rest Q :
  stored_sealed d (pt_partition_dir p) b rs ->
  (forall d' s dg, sealed_ok d' (pt_partition_dir p) s rs -> m_base_offset s = b ->
     frame_base d d' b (pt_partition_dir p) ->
     wp (Partition_recover_segments
           (pt_set_segments (pt_segments p ++ [s]) (Partition_set_degraded dg p)) (b2 :: rest)) Q d') ->
  (forall r d', dead d' -> frame_base d d' b (pt_partition_dir p) ->
     (startup_scan (pt_config p) <> str "full" -> stored_sealed d' (pt_partition_dir p) b rs) -> Q r d') ->
  wp (Partition_recover_segments p (b :: b2 :: rest)) Q d.
Proof.
  intros Hs HQ Hfail. destruct (ss_marker _ _ _ _ Hs) as [Hm|Hm]; [|by eapply wp_restart_marked].
  eapply wp_restart_unmarked; [done|done| |by auto].
  intros d' s Hok Hb Hf. specialize (HQ d' s (pt_is_degraded p) Hok Hb Hf). by destruct p.
Qed.

(** ** The active segment *)

(** The active segment is recovered; when the volume dies in it, its files are still
    those of an active segment with the same records. *)
Lemma wp_restart_active d p done e b ra tail Q :
  pt_segments p = done.*1 -> Forall (fun x => sealed_ok d (pt_partition_dir p) x.1 x.2) done ->
  chained e done -> b = e + zlen (records_of done) ->
  stored_active d (pt_partition_dir p) b ra tail ->
  dir_ok (files d) (pt_partition_dir p) ((m_base_offset <$> done.*1) ++ [b]) ->
  28 <= segment_max_bytes (pt_config p) <= LOG_LIMIT ->
  (forall d' p' a, part_ok d' p' done a ra -> same_partition p p' ->
     Partition_earliest_offset p' = e -> Q (Status_OK, p') d') ->
  (forall r d' tail', dead d' -> frame_base d d' b (pt_partition_dir p) ->
     stored_active d' (pt_partition_dir p) b ra tail' ->
     files d' = files d \/ is_Some (files d' !! segment_path (str ".log") b (pt_partition_dir p)) ->
     Q r d') ->
  wp (Partition_recover_segments p [b]) Q d.
Proof.
  intros Hseg Hdone Hch Hbe Hact Hdir Hcfg HQ Hfail. pose proof Hact as [Hlog Hstop Hlim Hrecs Hb Hidx Hmk].
  set (dir := pt_partition_dir p) in *. pose proof (zlen_nonneg ra).
  assert (is_u64 b) as Hub by (unfold is_u64; lia).
  cbn [Partition_recover_segments]. fold dir. apply wp_bind.
  apply wp_open_fs; rewrite ?Hlog; cbn [default]; [done|done| |].
  2:{ intros st s' d1 Hs Hdd Hd1. rewrite (proj2 (Status_ok_false st) Hs). apply wp_ret.
      destruct (stored_active_opened _ _ _ _ _ _ Hact Hd1) as (Ha1 & F1 & Hl1). by eapply Hfail. }
  intros d1 Hd1. destruct (opened_files_lookup _ _ _ _ Hd1) as (F1 & Hl1 & Hi1 & Hm1).
  rewrite Hlog in Hl1. rewrite Hmk in Hm1 |- *.
  set (idx := default [] (files d !! segment_path (str ".index") b dir)) in *.
  change (negb (Status_ok Status_OK)) with false. cbv beta iota. apply wp_bind.
  set (s1 := opened_segment _ _ _ _ _ _).
  eapply (wp_recover_fs d1 s1 ra tail idx); [by apply opened_torn|..];
    [intros d2 s2 V2 T2 (Eb & Ed & _) Es2 Hf2|intros d2 s2 nx Hdied];
    change (negb (Status_ok Status_OK)) with false; cbv beta iota zeta.
  - destruct (same_files_frame d1 d2 s1 b dir Hf2 eq_refl eq_refl) as [F2 Hs2]. apply wp_ret.
    change (m_base_offset s2 = b) in Eb. change (m_partition_dir s2 = dir) in Ed.
    pose proof (frame_base_trans _ _ _ _ _ F1 F2) as Fr. cbn [pt_set_next pt_segments].
    destruct (restarted_ok d d2 p done e b ra s2) as [P He]; try done; [fold dir; by rewrite Hs2|].
    by apply (HQ d2 _ s2).
  - apply wp_ret. destruct (scan_died_files _ _ _ _ _ _ b dir Hdied eq_refl eq_refl)
      as (F2 & Hm2 & tl & i & Hl2 & Htl & Hi2 & Hsz).
    apply (Hfail _ _ tl); [apply Hdied|by eapply frame_base_trans| |right; by rewrite Hl2].
    assert (zlen (log_bytes ra) <= zlen (log_bytes ra ++ tail))
      by (rewrite zlen_app; pose proof (zlen_nonneg tail); lia).
    split; rewrite ?Hl2, ?Hi2, ?Hm2; try done; [..|by apply Hsz].
    + destruct Htl as [-> | ->]; [done|apply scan_stops_nil].
    + destruct Htl as [-> | ->]; [done|rewrite app_nil_r; lia].
Qed.

(** ** The loop over the segments *)

Lemma wp_restart_loop todo : forall d p done e b ra tail Q,
  pt_segments p = done.*1 -> Forall (fun x => sealed_ok d (pt_partition_dir p) x.1 x.2) done ->
  chained e done -> stored d (pt_partition_dir p) e (bases_of done ++ todo) b ra tail ->
  28 <= segment_max_bytes (pt_config p) <= LOG_LIMIT ->
  (forall d' p' olds a, part_ok d' p' olds a ra -> same_partition p p' ->
     Partition_earliest_offset p' = e -> records_of olds = records_of done ++ concat todo.*2 ->
     Q (Status_OK, p') d') ->
  (forall r d' tail', dead d' ->
     (startup_scan (pt_config p) <> str "full" ->
      stored d' (pt_partition_dir p) e (bases_of done ++ todo) b ra tail') -> Q r d') ->
  wp (Partition_recover_segments p (todo.*1 ++ [b])) Q d.
Proof.
  induction todo as [|[b0 rs0] todo IH]; intros d p done e b ra tail Q Hseg Hdone Hch Hst Hcfg HQ Hfail.
  - cbn [fmap list_fmap app] in *. rewrite app_nil_r in *.
    pose proof (stored_chain _ _ _ _ _ _ _ Hst) as Hb. rewrite bases_of_records in Hb.
    eapply wp_restart_active; try done; [apply Hst| | ..].
    + pose proof (sd_dir _ _ _ _ _ _ _ Hst) as Hd. by rewrite bases_of_fst in Hd.
    + intros d' p' a P Hsp He. by eapply HQ.
    + intros r d' tail' Hdd Hfr Ha Hlog. apply (Hfail r d' tail'); [done|]. intros _.
      eapply stored_update_active; [exact Hst|done|done|].
      destruct Hlog as [E|?]; [rewrite E; apply Hst|done].
  - cbn [fmap list_fmap app fst snd] in *.
    pose proof (sd_olds _ _ _ _ _ _ _ Hst) as Hs0. apply Forall_app in Hs0 as [_ Hs0].
    apply list.Forall_cons in Hs0 as [Hs0 _]. cbn [fst snd] in Hs0.
    destruct (todo.*1 ++ [b]) as [|b2 rest] eqn:Erest; [by destruct (todo.*1)|].
    apply (wp_restart_sealed d p b0 rs0 b2 rest); [done|..].
    2:{ intros r d' Hdd Hfr Hs. apply (Hfail r d' tail); [done|]. intros Hq.
        eapply stored_update_sealed; [exact Hst|done|by apply Hs]. }
    intros d1 s dg Hok Hbs Hfr. rewrite <- Erest. set (p1 := pt_set_segments _ _).
    assert (bases_of (done ++ [(s, rs0)]) ++ todo = bases_of done ++ (b0, rs0) :: todo) as Hbo
      by (unfold bases_of; rewrite fmap_app, <- app_assoc; cbn; by rewrite Hbs).
    assert (stored d1 (pt_partition_dir p) e (bases_of done ++ (b0, rs0) :: todo) b ra tail) as Hst1.
    { eapply stored_update_sealed; [exact Hst|done|]. rewrite <- Hbs. by apply sealed_ok_stored. }
    apply (IH d1 p1 (done ++ [(s, rs0)]) e b ra tail); rewrite ?Hbo; try done.
    + cbn. by rewrite Hseg, fmap_app.
    + apply Forall_app. split; [|by apply Forall_singleton].
      by eapply (sealed_others_frame d d1 done b0 rs0 todo).
    + apply chained_app. split; [done|]. cbn. split; [|done]. rewrite Hbs.
      by eapply stored_chain_at in Hst; rewrite bases_of_records in Hst.
    + intros d' p' olds a P Hsp He Hrec. eapply HQ; try done.
      by rewrite Hrec, records_of_app, records_of_one, <- app_assoc.
Qed.

(** ** The base offsets in the directory *)

Lemma split_extension_app stem e :
  Byte.x2e ∉ e -> stem <> [] -> split_extension (stem ++ Byte.x2e :: e) = (stem, Byte.x2e :: e).
Proof.
  intros He Hs. unfold split_extension.
  assert (list_find (fun c => c = Byte.x2e) (rev (stem ++ Byte.x2e :: e)) = Some (length e, Byte.x2e)) as ->.
  { apply list_find_Some. rewrite rev_app_distr. cbn [rev]. rewrite <- app_assoc.
    split_and!; [|done|].
    - rewrite lookup_app_r by (rewrite length_rev; lia). by rewrite length_rev, Nat.sub_diag.
    - intros j y Hj Hlt ->. rewrite lookup_app_l in Hj by (rewrite length_rev; lia).
      apply He. apply list_elem_of_lookup_2 in Hj. apply list_elem_of_In, in_rev in Hj.
      by apply list_elem_of_In. }
  assert (1 <= length stem)%nat by (destruct stem; [done|cbn; lia]).
  rewrite length_app. cbn [length].
  replace (length stem + S (length e) - 1 - length e)%nat with (length stem) by lia.
  rewrite bool_decide_eq_false_2 by lia. by rewrite take_app_length, drop_app_length.
Qed.

Lemma log_base_offset_format b ext :
  is_u64 b -> ext ∈ seg_exts ->
  log_base_offset (LogSegment_format_base_offset b ++ ext) =
  if bool_decide (ext = str ".log") then Some b else None.
Proof.
  intros Hb He. destruct (format_base_offset_spec b Hb) as (Hd & Hl & Hs).
  assert (exists e, ext = Byte.x2e :: e /\ Byte.x2e ∉ e) as (e & -> & Hne).
  { unfold seg_exts in He. repeat (apply elem_of_cons in He as [->|He]);
      [exists (str "log")|exists (str "index")|exists (str "sealed")|by apply not_elem_of_nil in He];
      (split; [done|]); refine (bool_decide_eq_false_1 (Byte.x2e ∈ _) _); by vm_compute. }
  unfold log_base_offset. rewrite split_extension_app; [|done|by destruct (LogSegment_format_base_offset b)].
  case_bool_decide; [|done]. by rewrite Hs.
Qed.

Lemma directory_bases dir (bases : list Z) m names :
  dir_ok m dir bases -> Forall is_u64 bases ->
  (forall b, b ∈ bases -> is_Some (m !! segment_path (str ".log") b dir)) ->
  (forall name, name ∈ names <-> is_Some (m !! (dir ++ [name]))) -> NoDup names -> NoDup bases ->
  omap log_base_offset names ≡ₚ bases.
Proof.
  intros Hd Hu Hlog Hn Hnd Hndb. rewrite list.Forall_forall in Hu.
  assert (forall name b, name ∈ names -> log_base_offset name = Some b ->
    b ∈ bases /\ name = LogSegment_format_base_offset b ++ str ".log") as Hinv.
  { intros name b Hin Hb. apply Hn in Hin. destruct (Hd name Hin) as (b' & ext & Hb' & He & ->).
    rewrite log_base_offset_format in Hb by auto. case_bool_decide; simplify_eq. done. }
  apply NoDup_Permutation; [|done|].
  - apply omap_nodup; [|done]. intros x y b Hx Hy Ex Ey.
    destruct (Hinv x b Hx Ex) as [_ ->]. by destruct (Hinv y b Hy Ey) as [_ ->].
  - intros b. rewrite list_elem_of_omap. split.
    + intros (name & Hin & E). by apply (Hinv name b).
    + intros Hb. exists (LogSegment_format_base_offset b ++ str ".log"). split.
      * apply Hn. by apply Hlog.
      * rewrite log_base_offset_format; [|auto|unfold seg_exts; set_solver].
        by rewrite bool_decide_eq_true_2.
Qed.

Lemma merge_sort_of (l l' : list Z) : l ≡ₚ l' -> StronglySorted Z.lt l' -> merge_sort Z.le l = l'.
Proof.
  intros Hp Hs. eapply (StronglySorted_unique Z.le).
  - apply (StronglySorted_merge_sort Z.le).
  - rewrite <- (list_fmap_id l'). eapply StronglySorted_fmap; [|exact Hs]. cbn. lia.
  - by rewrite merge_sort_Permutation.
Qed.

(** ** Restarting *)

Lemma stored_files d d' dir e olds b ra tail :
  files d' = files d -> stored d dir e olds b ra tail -> stored d' dir e olds b ra tail.
Proof.
  intros E [Ho [] Hc Hd Hl]. split; [|by split; rewrite ?E|done|by rewrite E|by rewrite E].
  eapply Forall_impl; [|exact Ho]. intros x. by apply stored_sealed_files.
Qed.

(** The last statement of [open_and_recover] has nothing to correct. *)
Lemma part_ok_next_fixed d p olds a ra :
  part_ok d p olds a ra ->
  match list.last (pt_segments p) with
  | Some s => if pt_next_offset p <? m_base_offset s then pt_set_next (m_base_offset s) p else p
  | None => p
  end = p.
Proof.
  intros P. rewrite (po_segments _ _ _ _ _ P), list.last_snoc, (po_next _ _ _ _ _ P).
  pose proof (zlen_nonneg ra). rewrite (proj2 (Z.ltb_ge _ _)) by lia. done.
Qed.

(** Restarting: the partition represents the stored records, or the volume dies and (with
    the quick scan) the same records are still stored. *)
Lemma wp_restart_fs d p e olds b ra tail Q :
  stored d (pt_partition_dir p) e olds b ra tail ->
  28 <= segment_max_bytes (pt_config p) <= LOG_LIMIT ->
  (forall d' p', part_is d' p' e (concat olds.*2 ++ ra) -> same_partition p p' ->
     Q (Status_OK, p') d') ->
  (forall r d' tail', dead d' ->
     (startup_scan (pt_config p) <> str "full" -> stored d' (pt_partition_dir p) e olds b ra tail') ->
     Q r d') ->
  wp (Partition_open_and_recover p) Q d.
Proof.
  intros Hst Hcfg HQ Hfail. unfold Partition_open_and_recover.
  apply wp_bind, wp_create_directories_ok. intros d1 Hd1 _.
  apply (stored_files d d1) in Hst; [|done]. destruct (stored_bases _ _ _ _ _ _ _ Hst) as (Hu & Hs & Hl).
  apply wp_bind. eexists _, d1. split; [done|].
  assert (merge_sort Z.le (omap log_base_offset (fs_directory (pt_partition_dir p) d1)) =
          olds.*1 ++ [b]) as ->.
  { apply merge_sort_of; [|done].
    eapply (directory_bases (pt_partition_dir p) _ (files d1)); [apply Hst|done|done| | |].
    - intros name. apply fs_directory_spec.
    - apply fs_directory_nodup.
    - by apply sorted_lt_nodup. }
  cbv zeta.
  assert (match olds.*1 ++ [b] with [] => [0] | _ => olds.*1 ++ [b] end = olds.*1 ++ [b]) as Em
    by (by destruct (olds.*1)).
  rewrite Em. apply wp_bind.
  apply (wp_restart_loop olds d1 (pt_set_segments [] p) [] e b ra tail); try done.
  - intros d2 p2 olds2 a P Hsp He Hr. change (negb (Status_ok Status_OK)) with false.
    cbv beta iota. apply wp_ret. rewrite (part_ok_next_fixed _ _ _ _ _ P). apply HQ; [|done].
    exists olds2, a, ra. split_and!; [done|done|]. unfold part_log. by rewrite Hr.
  - intros [st p2] d2 tail2 Hdd H. destruct (negb (Status_ok st)); by apply wp_ret, (Hfail _ _ tail2).
Qed.

(** A directory without files is that of a new partition. *)
Lemma wp_start_fs d p Q :
  dir_ok (files d) (pt_partition_dir p) [] ->
  28 <= segment_max_bytes (pt_config p) <= LOG_LIMIT ->
  (forall d' p', part_is d' p' 0 [] -> same_partition p p' -> Q (Status_OK, p') d') ->
  (forall r d' tail', dead d' ->
     files d' = files d \/ stored d' (pt_partition_dir p) 0 [] 0 [] tail' -> Q r d') ->
  wp (Partition_open_and_recover p) Q d.
Proof.
  intros Hdir Hcfg HQ Hfail. unfold Partition_open_and_recover.
  apply wp_bind, wp_create_directories_ok. intros d1 Hd1 _. rewrite <- Hd1 in Hdir, Hfail.
  assert (forall name, files d1 !! (pt_partition_dir p ++ [name]) = None) as Hnone.
  { intros name. destruct (files d1 !! _) eqn:E; [|done].
    destruct (Hdir name) as (b & _ & Hb & _); [by eexists|]. by apply not_elem_of_nil in Hb. }
  apply wp_bind. eexists _, d1. split; [done|].
  assert (fs_directory (pt_partition_dir p) d1 = []) as ->.
  { destruct (fs_directory (pt_partition_dir p) d1) as [|name l] eqn:E; [done|].
    assert (name ∈ fs_directory (pt_partition_dir p) d1) as Hin by (rewrite E; set_solver).
    apply fs_directory_spec in Hin. rewrite Hnone in Hin. by destruct Hin. }
  cbv zeta. apply wp_bind.
  assert (dir_ok (files d1) (pt_partition_dir p) [0]) as Hdir0
    by (intros name Hn; rewrite Hnone in Hn; by destruct Hn).
  apply (wp_restart_active d1 (pt_set_segments [] p) [] 0 0 [] []); try done.
  - split; unfold segment_path; cbn [pt_partition_dir pt_set_segments]; rewrite ?Hnone; try done.
    apply scan_stops_nil.
  - intros d2 p2 a P Hsp He. change (negb (Status_ok Status_OK)) with false.
    cbv beta iota. apply wp_ret. rewrite (part_ok_next_fixed _ _ _ _ _ P). apply HQ; [|done].
    by exists [], a, [].
  - intros [st p2] d2 tail2 Hdd Hfr Ha Hl.
    assert (Q (st, p2) d2 /\ forall p2, Q (Status_OK, p2) d2) as [H1 H2].
    { assert (forall r, Q r d2); [|done]. intros r. apply (Hfail r d2 tail2); [done|].
      destruct Hl as [E|Hl]; [by left|]. right. split; try done.
      by eapply frame_base_dir; [exact Hfr|apply list_elem_of_singleton|]. }
    destruct (negb (Status_ok st)); by apply wp_ret.
Qed.

(** What a running partition has on disk is what a restart needs. *)
Lemma part_ok_stored d p olds a ra :
  part_ok d p olds a ra ->
  stored d (pt_partition_dir p) (Partition_earliest_offset p) (bases_of olds) (m_base_offset a) ra [].
Proof.
  intros P. pose proof P as [Hseg Holds [V T Hun Hdir Hmk] Hch Hnext Hd Hcfg]. split.
  - apply Forall_fmap. eapply Forall_impl; [|exact Holds]. intros [s rs]. apply sealed_ok_stored.
  - pose proof V as []. rewrite <- Hdir. split; rewrite ?app_nil_r; try done.
    + unfold LogSegment_log_path in sv_log. by rewrite sv_log.
    + apply scan_stops_nil.
    + unfold LogSegment_index_path in sv_idx. rewrite sv_idx. cbn [default]. by eapply index_file_size.
  - clear -Hch. revert Hch. generalize (Partition_earliest_offset p).
    induction olds as [|[s rs] l IH]; intros e; cbn; [tauto|]. intros [Hb Hc]. split; [done|].
    by apply IH.
  - rewrite bases_of_fst. by rewrite Hseg, fmap_app in Hd.
  - rewrite <- Hdir. eexists. apply (sv_log _ _ _ V).
Qed.

End restart.

(** The files in a directory hold a log: what is needed to start a partition there. *)
Definition stored_log {W : Win32} (d : disk) (dir : path) (E : Z) (L : list Record) : Prop :=
  dir_ok (files d) dir [] /\ E = 0 /\ L = [] \/
  exists olds b ra tail, stored d dir E olds b ra tail /\ L = concat olds.*2 ++ ra.

Lemma stored_frame {W : Win32} d d' dir e olds b ra tail :
  (forall name, files d' !! (dir ++ [name]) = files d !! (dir ++ [name])) ->
  stored d dir e olds b ra tail -> stored d' dir e olds b ra tail.
Proof.
  intros Hf [Ho [] Hc Hd Hl]. unfold segment_path in *. split; try done.
  - eapply Forall_impl; [|exact Ho]. intros x []. split; try done;
      unfold stored_unmarked, stored_marked, segment_path in *; by rewrite ?Hf.
  - unfold segment_path in *. by split; unfold segment_path; rewrite ?Hf.
  - intros name. rewrite Hf. apply Hd.
  - unfold segment_path. by rewrite Hf.
Qed.

Lemma stored_log_frame {W : Win32} d d' dir E L :
  (forall name, files d' !! (dir ++ [name]) = files d !! (dir ++ [name])) ->
  stored_log d dir E L -> stored_log d' dir E L.
Proof.
  intros Hf [(Hd & HE & HL)|(olds & b & ra & tail & Hs & HL)].
  - left. split; [|done]. intros name. rewrite Hf. apply Hd.
  - right. exists olds, b, ra, tail. split; [|done]. by eapply stored_frame.
Qed.

(** Opening a partition on a directory that holds a log. *)
Lemma wp_open_partition_fs {W : Win32} {F : FailStop W} d p E L Q :
  stored_log d (pt_partition_dir p) E L -> 28 <= segment_max_bytes (pt_config p) <= LOG_LIMIT ->
  (forall d' p', part_is d' p' E L -> same_partition p p' -> Q (Status_OK, p') d') ->
  (forall r d', dead d' ->
     (startup_scan (pt_config p) <> str "full" -> stored_log d' (pt_partition_dir p) E L) -> Q r d') ->
  wp (Partition_open_and_recover p) Q d.
Proof.
  intros [(Hd & -> & ->)|(olds & b & ra & tail & Hs & ->)] Hcfg HQ Hfail.
  - eapply wp_start_fs; [done..|]. intros r d' tail' Hdd [E|H]; apply Hfail; try done; intros _.
    + left. by rewrite E.
    + right. by exists [], 0, [], tail'.
  - eapply wp_restart_fs; [done..|]. intros r d' tail' Hdd H. apply Hfail; [done|]. intros Hq.
    right. exists olds, b, ra, tail'. split; [by apply H|done].
Qed.

Lemma wp_open_partition {W : Win32} {R : Reliable W} d p E L Q :
  stored_log d (pt_partition_dir p) E L -> 28 <= segment_max_bytes (pt_config p) <= LOG_LIMIT ->
  (forall d' p', part_is d' p' E L -> same_partition p p' -> Q (Status_OK, p') d') ->
  wp (Partition_open_and_recover p) Q d.
Proof. intros Hs Hcfg HQ. by eapply wp_open_partition_fs. Qed.

Lemma part_is_stored {W : Win32} d p E L :
  part_is d p E L -> stored_log d (pt_partition_dir p) E L.
Proof.
  intros (olds & a & ra & P & <- & <-). right. do 4 eexists. split; [by apply part_ok_stored|].
  unfold part_log. by rewrite bases_of_records.
Qed.
