(* ===== verification/PartitionProps.v ===== *)
(** * PartitionProps: what a partition promises

    The properties of the operations of Partition.cpp on the abstraction
    [part_is d p E L] (the partition [p] on the volume [d] holds the records [L],
    the first of which has offset [E]), each with an instance on a concrete
    volume. *)
From S2P Require Import Prelude StdString Status Crc32 RecordCodec FileHandle OffsetIndex LogSegment.
From S2P Require Import Partition PartitionRead PartitionRecovery.

(** ** A concrete partition *)

Definition demo_config : StorageConfig :=
  mkStorageConfig (str "data") 100 64 true DEFAULT_RETENTION_MS 0 60000 (str "quick").

Definition demo_partition : Partition :=
  mkPartition 0 demo_dir demo_config 7 [demo_segment] false.

Lemma demo_dir_ok : dir_ok demo_disk demo_dir [5].
Proof.
  unfold demo_disk. apply dir_ok_insert; [|unfold seg_exts; set_solver|set_solver].
  apply dir_ok_insert; [|unfold seg_exts; set_solver|set_solver].
  intros name Hn. rewrite lookup_empty in Hn. by destruct Hn.
Qed.

Lemma demo_part_ok :
  part_ok (W := memory_disk) demo_disk demo_partition [] demo_segment demo_records.
Proof.
  split; try done.
  - split; [apply demo_view|apply demo_totals|done..].
  - apply demo_dir_ok.
Qed.

Lemma demo_part_is : part_is (W := memory_disk) demo_disk demo_partition 5 demo_records.
Proof. exists [], demo_segment, demo_records. split_and!; [apply demo_part_ok|done|done]. Qed.

(** The same after a roll: a sealed and an empty active segment. *)
Definition demo_active : LogSegment := opened_segment 7 demo_dir 64 [] [] None.
Definition demo_disk2 : @disk memory_disk :=
  <[segment_path (str ".sealed") 5 demo_dir :=
      SealedMarker_bytes (seg_marker (seg_set_sealed true demo_segment))]>
  (<[segment_path (str ".index") 7 demo_dir := []]>
  (<[segment_path (str ".log") 7 demo_dir := []]> demo_disk)).
Definition demo_partition2 : Partition :=
  mkPartition 0 demo_dir demo_config 7 [seg_set_sealed true demo_segment; demo_active] false.

Lemma demo_part_ok2 :
  part_ok (W := memory_disk) demo_disk2 demo_partition2
    [(seg_set_sealed true demo_segment, demo_records)] demo_active [].
Proof.
  apply (rolled_ok (W := memory_disk) demo_disk demo_disk2 demo_partition demo_partition2 [] demo_segment
           demo_records demo_active); [apply demo_part_ok|done..].
Qed.

(** ** Appending *)

(** C14: appending to a partition extends its log by one record.  On a volume whose
    calls succeed, an append that fits the record size limit returns the next
    offset, and the partition then holds the old records followed by the new one,
    which carries that offset; a segment that is full is sealed and replaced on the
    way, and the log does not show it. *)
Theorem partition_append_correct {W : Win32} {R : Reliable W} d p E L k v ts :
  part_is d p E L -> is_i64 ts -> record_size (mkRecord 0 ts k v) <= MAX_RECORD_SIZE ->
  pt_next_offset p + 1 < 2 ^ 64 ->
  wp (Partition_append_with_timestamp p k v ts)
    (fun '(res, p') d' =>
       res = Ok (E + zlen L) /\ part_is d' p' E (L ++ [mkRecord (E + zlen L) ts k v]) /\
       same_partition p p') d.
Proof.
  intros P Hts Hsz Hlim. destruct (part_is_next _ _ _ _ P) as [Hn _].
  eapply wp_partition_append; [exact P|done| |done|done|].
  - unfold record_size, MAX_RECORD_SIZE in Hsz. cbn in Hsz. lia.
  - rewrite Hn. done.
Qed.

Example partition_append_correct_witness :
  wp (W := memory_disk) (Partition_append_with_timestamp demo_partition (str "k") (str "third") 1001)
    (fun '(res, p') d' =>
       res = Ok (5 + zlen demo_records) /\
       part_is d' p' 5 (demo_records ++ [mkRecord (5 + zlen demo_records) 1001 (str "k") (str "third")]) /\
       same_partition demo_partition p') demo_disk.
Proof.
  apply (partition_append_correct (W := memory_disk)).
  - apply demo_part_is.
  - by vm_compute.
  - by vm_compute.
  - by vm_compute.
Defined.

(** A batch is appended as a whole.  On a volume whose calls succeed, a batch of
    records that fit the size limit returns the offset of the first, and the
    partition then holds the old records followed by those of the batch in order,
    with consecutive offsets and the given time. *)
Theorem partition_batch_correct {W : Win32} {R : Reliable W} now d p E L batch :
  part_is d p E L -> is_i64 now -> batch <> [] -> batch_ok batch ->
  pt_next_offset p + zlen batch < 2 ^ 64 ->
  wp (Partition_append_batch now p batch)
    (fun '(res, p') d' =>
       res = Ok (E + zlen L) /\ part_is d' p' E (L ++ batch_records (E + zlen L) now batch) /\
       same_partition p p') d.
Proof.
  intros P Hts Hne Hb Hlim. destruct (part_is_next _ _ _ _ P) as [Hn _].
  eapply wp_append_batch; [exact P|done..|]. rewrite Hn. done.
Qed.

Example partition_batch_correct_witness :
  let batch := [(str "a", str "1"); ([], str "2")] in
  wp (W := memory_disk) (Partition_append_batch 1005 demo_partition batch)
    (fun '(res, p') d' =>
       res = Ok (5 + zlen demo_records) /\
       part_is d' p' 5 (demo_records ++ batch_records (5 + zlen demo_records) 1005 batch) /\
       same_partition demo_partition p') demo_disk.
Proof.
  apply (partition_batch_correct (W := memory_disk)).
  - apply demo_part_is.
  - by vm_compute.
  - done.
  - repeat constructor; by vm_compute.
  - by vm_compute.
Defined.

(** A batch with one record over the size limit is refused before anything is
    written: on every volume the result is a [RecordTooLarge] error, and partition
    and volume are as before. *)
Theorem partition_batch_refused {W : Win32} now p d pre k v post :
  let batch := pre ++ (k, v) :: post in
  MAX_RECORD_SIZE < Partition_record_size k v ->
  Forall (fun '(k, v) => Partition_record_size k v <= MAX_RECORD_SIZE) pre ->
  Partition_append_batch now p batch d =
  Some ((Err (record_too_large (Partition_record_size k v)), p), d).
Proof.
  intros batch Hbig Hpre. unfold Partition_append_batch, batch.
  rewrite bool_decide_eq_false_2 by (by destruct pre).
  assert (list_find (fun '(k, v) => MAX_RECORD_SIZE < Partition_record_size k v)
            (pre ++ (k, v) :: post) = Some (length pre, (k, v))) as ->; [|done].
  apply list_find_Some. split_and!; [by rewrite list_lookup_middle|done|].
  intros j [k' v'] Hj Hlt Hgt. rewrite lookup_app_l in Hj by done.
  eapply list.Forall_lookup in Hpre; [|exact Hj]. cbn in Hpre. lia.
Qed.

Example partition_batch_refused_witness :
  let big := replicate (Z.to_nat MAX_RECORD_SIZE) Byte.x61 in
  Partition_append_batch (W := memory_disk) 1005 demo_partition [(str "a", str "1"); ([], big)] demo_disk =
  Some ((Err (record_too_large (Partition_record_size [] big)), demo_partition), demo_disk).
Proof.
  apply (partition_batch_refused (W := memory_disk) 1005 demo_partition demo_disk
           [(str "a", str "1")] [] (replicate (Z.to_nat MAX_RECORD_SIZE) Byte.x61) []).
  - by vm_compute.
  - repeat constructor. by vm_compute.
Defined.

(** ** Reading *)

Lemma wp_read_refused {W : Win32} {R : Reliable W} d p E L start mm mb :
  part_is d p E L -> ~ E <= start <= E + zlen L ->
  wp (Partition_read p start mm mb)
    (fun res d' => d' = d /\ rr_records res = [] /\ m_code (rr_status res) = OffsetOutOfRange) d.
Proof.
  intros P Hr. destruct (part_is_next _ _ _ _ P) as [Hn _]. destruct P as (olds & a & ra & P & HE & HL).
  pose proof (zlen_nonneg L). unfold Partition_read. rewrite Hn, HE. rewrite (proj2 (Z.eqb_neq _ _)) by lia.
  replace ((E + zlen L <? start) || (start <? E)) with true; [by apply wp_ret|].
  symmetry. apply orb_true_iff. rewrite !Z.ltb_lt. lia.
Qed.

(** C13: reading returns exactly the requested part of the log.  From a start offset
    between the earliest and the next offset, [read] reports success and returns the
    records from that offset on, in order and without gaps, up to and including the
    one with which the message or the byte limit is reached; partition and volume
    are unchanged.  At the next offset it returns nothing, outside the range an
    [OffsetOutOfRange] error. *)
Theorem partition_read_correct {W : Win32} {R : Reliable W} d p E L start mm mb :
  part_is d p E L -> mm <= READ_LIMIT -> mb <= READ_LIMIT ->
  wp (Partition_read p start mm mb)
    (fun res d' => d' = d /\
       if bool_decide (E <= start <= E + zlen L)
       then res = mkReadResult
                    (take_limit mm mb 0 0 (drop (Z.to_nat (start - E)) L)).1.1.1 Status_OK
       else rr_records res = [] /\ m_code (rr_status res) = OffsetOutOfRange) d.
Proof.
  intros P Hmm Hmb. case_bool_decide as Hr.
  - by eapply wp_read.
  - by apply (wp_read_refused d p E L).
Qed.

Example partition_read_correct_witness :
  wp (W := memory_disk) (Partition_read demo_partition 6 1000 100)
    (fun res d' => d' = demo_disk /\
       if bool_decide (5 <= 6 <= 5 + zlen demo_records)
       then res = mkReadResult
                    (take_limit 1000 100 0 0 (drop (Z.to_nat (6 - 5)) demo_records)).1.1.1 Status_OK
       else rr_records res = [] /\ m_code (rr_status res) = OffsetOutOfRange) demo_disk.
Proof.
  apply (partition_read_correct (W := memory_disk)).
  - apply demo_part_is.
  - by vm_compute.
  - by vm_compute.
Defined.

(** ** Crashes *)

(** C2: a crash loses nothing that was completed.  Take the files of a running
    partition, and let the write of one more record have been cut short (or its bytes
    be damaged): restarting on these files succeeds, with the quick and with the full
    startup scan, and the partition represents exactly the log it had before that
    write, with the same earliest offset. *)
Theorem partition_crash_recovery {W : Win32} {R : Reliable W} d p olds a ra d' tail p0 :
  part_ok d p olds a ra ->
  files d' = <[LogSegment_log_path a := log_bytes ra ++ tail]> (files d) ->
  scan_stops tail -> zlen (log_bytes ra ++ tail) <= LOG_LIMIT ->
  pt_partition_dir p0 = pt_partition_dir p -> pt_config p0 = pt_config p ->
  wp (Partition_open_and_recover p0)
    (fun '(st, p') d'' => st = Status_OK /\
       part_is d'' p' (Partition_earliest_offset p) (part_log olds ra) /\ same_partition p0 p') d'.
Proof.
  intros P Hf Hst Hlim Hdir Hcfg. pose proof (part_ok_stored _ _ _ _ _ P) as Hsd.
  pose proof (po_active _ _ _ _ _ P) as [V _ _ Had _].
  unfold LogSegment_log_path in Hf. rewrite Had in Hf.
  eapply (wp_restart_fs d' p0 _ _ (m_base_offset a) ra tail); rewrite ?Hdir, ?Hcfg;
    [|apply (po_config _ _ _ _ _ P)| |done].
  - eapply stored_update_active; [exact Hsd| | |].
    + eapply frame_base_insert; [|exact Hf]. unfold seg_exts; set_solver.
    + pose proof (segment_path_ext _ _ (m_base_offset a) (pt_partition_dir p) ext_log_index).
      pose proof (segment_path_ext _ _ (m_base_offset a) (pt_partition_dir p) ext_log_sealed).
      pose proof (sd_active _ _ _ _ _ _ _ Hsd) as [].
      split; try done; rewrite Hf; [by rewrite lookup_insert_eq|by rewrite lookup_insert_ne..].
    + rewrite Hf, lookup_insert_eq. by eexists.
  - intros d'' p' Hp Hsp. rewrite bases_of_records in Hp. split_and!; [done|exact Hp|done].
Qed.

Example partition_crash_recovery_witness :
  let tail := take 30 (record_bytes demo_next) in
  let d' := <[LogSegment_log_path demo_segment := log_bytes demo_records ++ tail]> demo_disk in
  wp (W := memory_disk) (Partition_open_and_recover (Partition_new 0 demo_dir demo_config))
    (fun '(st, p') d'' => st = Status_OK /\
       part_is d'' p' (Partition_earliest_offset demo_partition) (part_log [] demo_records) /\
       same_partition (Partition_new 0 demo_dir demo_config) p') d'.
Proof.
  apply (partition_crash_recovery (W := memory_disk) demo_disk demo_partition [] demo_segment
           demo_records _ (take 30 (record_bytes demo_next))).
  - apply demo_part_ok.
  - reflexivity.
  - apply (torn_record_stops demo_next _ (drop 30 (record_bytes demo_next))).
    + by vm_compute.
    + by rewrite take_drop.
    + by vm_compute.
  - by vm_compute.
  - reflexivity.
  - reflexivity.
Defined.

(** ** Retention *)

Lemma max_ts_ge rs r : r ∈ rs -> timestamp_ms r <= max_ts rs.
Proof.
  induction rs as [|x rs IH] using rev_ind; intros Hin; [by apply not_elem_of_nil in Hin|].
  rewrite max_ts_snoc. destruct (Z.ltb_spec (max_ts rs) (timestamp_ms x));
    (apply elem_of_app in Hin as [Hin|Hin]; [specialize (IH Hin)|apply list_elem_of_singleton in Hin as ->]);
    lia.
Qed.

Lemma by_age_cons now ms s s2 segs :
  Partition_deletable_by_age now ms (s :: s2 :: segs) =
  if (0 <? m_max_timestamp_ms s) && (i64 ms <? now - m_max_timestamp_ms s)
  then S (Partition_deletable_by_age now ms (s2 :: segs)) else 0%nat.
Proof. done. Qed.

Lemma by_age_expired now ms segs s :
  s ∈ take (Partition_deletable_by_age now ms segs) segs ->
  0 < m_max_timestamp_ms s /\ i64 ms < now - m_max_timestamp_ms s.
Proof.
  induction segs as [|s0 segs IH]; [intros Hin; by apply not_elem_of_nil in Hin|].
  destruct segs as [|s2 segs]; [intros Hin; by apply not_elem_of_nil in Hin|].
  rewrite by_age_cons. destruct (_ && _) eqn:E.
  - rewrite firstn_cons. intros Hin. apply elem_of_cons in Hin as [->|Hin]; [zbool; lia|by apply IH].
  - intros Hin. by apply not_elem_of_nil in Hin.
Qed.

Lemma wp_retention_prefix {W : Win32} {R : Reliable W} now d p E L ms rb :
  part_is d p E L ->
  wp (Partition_scan_and_delete_segments now p ms rb false)
    (fun '(st, p', _) d' => st = Status_OK /\
       Partition_active_segment_unlocked p' = Partition_active_segment_unlocked p /\
       pt_next_offset p' = pt_next_offset p /\
       exists n, part_is d' p' (E + Z.of_nat n) (drop n L)) d.
Proof.
  intros (olds & a & ra & P & HE & HL). eapply wp_scan_and_delete; [exact P|].
  intros d' out p' P' He _. split_and!; [done| |done|].
  - by rewrite (part_ok_active _ _ _ _ _ P), (part_ok_active _ _ _ _ _ P').
  - set (k := Partition_deletable_count p now ms rb) in *.
    exists (length (records_of (take k olds))), (drop k olds), a, ra.
    split_and!; [done|by rewrite He, HE|]. rewrite <- HL. unfold part_log.
    rewrite <- (take_drop k olds) at 3. rewrite records_of_app, <- app_assoc.
    by rewrite drop_app_length.
Qed.

(** *** Which segments go *)















(** Age retention keeps young records.  With a retention time below 2^63 and no
    size limit, every record a scan removes is older than the retention time. *)
Theorem retention_age_safe {W : Win32} {R : Reliable W} now d p olds a ra ms :
  part_ok d p olds a ra -> 0 < ms < 2 ^ 63 ->
  wp (Partition_scan_and_delete_segments now p ms 0 false)
    (fun '(st, p', _) d' => exists k, part_ok d' p' (drop k olds) a ra /\
       forall r, r ∈ records_of (take k olds) -> ms < now - timestamp_ms r) d.
Proof.
  intros P Hms. eapply wp_scan_and_delete; [exact P|]. intros d' out p' P' _ _.
  exists (Partition_deletable_count p now ms 0). split; [done|]. intros r Hr.
  assert (Partition_deletable_count p now ms 0 = Partition_deletable_by_age now ms (pt_segments p)) as Hk.
  { unfold Partition_deletable_count. rewrite (proj2 (Z.ltb_lt _ _)) by lia. cbn zeta.
    change (0 <? 0) with false. cbv iota. rewrite Nat.max_0_r.
    pose proof (by_age_lt now ms (pt_segments p)). pose proof (po_segments _ _ _ _ _ P) as Hs.
    rewrite Hs in *. rewrite length_app in *. cbn [length] in *.
    by rewrite bool_decide_eq_false_2 by lia. }
  apply list_elem_of_In, in_concat in Hr as (rs & Hrs & Hr). apply list_elem_of_In in Hrs, Hr.
  apply list_elem_of_fmap in Hrs as ([s rs'] & -> & Hin). cbn [snd] in Hr.
  assert ((s, rs') ∈ olds) as Hol by (by eapply elem_of_take_in).
  destruct (olds_before _ _ _ _ _ _ _ P Hol) as (Hso & _).
  pose proof (by_age_expired now ms (pt_segments p) s) as Hexp. rewrite <- Hk in Hexp.
  rewrite (i64_small ms) in Hexp by lia. pose proof (max_ts_ge _ _ Hr).
  enough (0 < m_max_timestamp_ms s /\ ms < now - m_max_timestamp_ms s)
    by (destruct (so_stats _ _ _ _ Hso) as [[_ ?]|[_ ?]]; lia). apply Hexp.
  rewrite (po_segments _ _ _ _ _ P). pose proof (deletable_count_lt p now ms 0) as Hlt.
  rewrite (po_segments _ _ _ _ _ P), length_app, length_fmap in Hlt. cbn [length] in Hlt.
  rewrite take_app_le by (rewrite length_fmap; lia). rewrite <- fmap_take.
  by apply (list_elem_of_fmap_2 fst _ (s, rs')).
Qed.

Example retention_age_safe_witness :
  wp (W := memory_disk) (Partition_scan_and_delete_segments 2000 demo_partition2 100 0 false)
    (fun '(st, p', _) d' => exists k,
       part_ok d' p' (drop k [(seg_set_sealed true demo_segment, demo_records)]) demo_active [] /\
       forall r, r ∈ records_of (take k [(seg_set_sealed true demo_segment, demo_records)]) ->
         100 < 2000 - timestamp_ms r) demo_disk2.
Proof.
  apply (retention_age_safe (W := memory_disk)).
  - apply demo_part_ok2.
  - lia.
Defined.

(** A retention time of 2^63 ms or more is taken for a negative one: every sealed
    segment with a timestamp in (0, now] is expired at once, however new it is. *)
Theorem retention_time_overflow now ms segs :
  2 ^ 63 <= ms < 2 ^ 64 -> Forall (fun s => 0 < m_max_timestamp_ms s <= now) segs ->
  Partition_deletable_by_age now ms segs = (length segs - 1)%nat.
Proof.
  intros Hms. assert (i64 ms < 0) as Hneg.
  { unfold i64. rewrite u64_id by (unfold is_u64; lia). rewrite (proj2 (Z.ltb_ge _ _)) by lia. lia. }
  induction segs as [|s segs IH]; intros Hall; [done|].
  destruct segs as [|s2 segs]; [done|]. apply list.Forall_cons in Hall as [Hs Hall].
  rewrite by_age_cons. specialize (IH Hall). rewrite (proj2 (Z.ltb_lt _ _)) by lia.
  rewrite (proj2 (Z.ltb_lt _ _)) by lia. cbn [andb length] in *. lia.
Qed.

Example retention_time_overflow_witness :
  Partition_deletable_by_age 1003 (2 ^ 64 - 1) [demo_segment; demo_segment] = 1%nat.
Proof.
  apply (retention_time_overflow 1003 (2 ^ 64 - 1) [demo_segment; demo_segment]).
  - lia.
  - repeat constructor; cbn; lia.
Defined.
