(* ===== verification/PartitionCrash.v ===== *)
(** * PartitionCrash: a crash at any point of an append or of a restart

    The operations of Partition.v and PartitionRecovery.v are run on the volume of a
    process that dies after an arbitrary number of calls ([CrashDisk.crash_after]).
    Whatever the point, the files that remain hold the log before the operation, or
    that log and the first of the records that were being appended; a restart that is
    itself cut short leaves the same log; and the restart that is not represents it. *)
From S2P Require Import Prelude StdString Status Crc32 RecordCodec FileHandle CrashDisk OffsetIndex LogSegment.
From S2P Require Import Partition PartitionRead PartitionRecovery PartitionProps.

(** ** The files are what counts *)

Section transfer.
Context {W1 W2 : Win32} (d1 : @disk W1) (d2 : @disk W2).
Hypothesis same : files d2 = files d1.

Lemma seg_view_transfer s rs : seg_view d1 s rs -> seg_view d2 s rs.
Proof. intros []. by split; rewrite ?same. Qed.

Lemma sealed_ok_transfer dir s rs : sealed_ok d1 dir s rs -> sealed_ok d2 dir s rs.
Proof. intros []. split; try done; [by apply seg_view_transfer|by rewrite same]. Qed.

Lemma part_ok_transfer p olds a ra : part_ok d1 p olds a ra -> part_ok d2 p olds a ra.
Proof.
  intros [? Ho [] ? ? Hd ?]. split; try done; [| |by rewrite same].
  - eapply Forall_impl; [|exact Ho]. intros x. apply sealed_ok_transfer.
  - split; try done; [by apply seg_view_transfer|by rewrite same].
Qed.

Lemma part_is_transfer p E L : part_is d1 p E L -> part_is d2 p E L.
Proof. intros (olds & a & ra & P & HE & HL). exists olds, a, ra. by split; [apply part_ok_transfer|]. Qed.

Lemma stored_log_transfer dir E L : stored_log d1 dir E L -> stored_log d2 dir E L.
Proof.
  intros [(Hd & HE & HL)|(olds & b & ra & tail & [Ho [] Hc Hd Hl] & HL)].
  - left. by rewrite same.
  - right. exists olds, b, ra, tail. split; [|done]. split; rewrite ?same; try done.
    + eapply Forall_impl; [|exact Ho]. intros x []. split; try done; rewrite ?same; try done.
      unfold stored_unmarked, stored_marked in *. by rewrite same.
    + by split; rewrite ?same.
Qed.

End transfer.

(** ** What a dead append leaves behind *)

Section died.
Context {W : Win32} {F : FailStop W}.

(** The files after a roll that may lack its last steps hold the same log, in one
    segment more. *)
Lemma rolled_stored d d' p olds a ra :
  part_ok d p olds a ra -> ra <> [] ->
  (forall q, q ∉ paths_of (pt_next_offset p) (pt_partition_dir p) ->
     q <> LogSegment_sealed_path a -> files d' !! q = files d !! q) ->
  files d' !! segment_path (str ".log") (pt_next_offset p) (pt_partition_dir p) = Some [] ->
  default [] (files d' !! segment_path (str ".index") (pt_next_offset p) (pt_partition_dir p)) = [] ->
  files d' !! segment_path (str ".sealed") (pt_next_offset p) (pt_partition_dir p) = None ->
  files d' !! LogSegment_sealed_path a = None \/
    marker_ok (files d' !! LogSegment_sealed_path a) (m_base_offset a) ra ->
  stored d' (pt_partition_dir p) (Partition_earliest_offset p)
    (bases_of olds ++ [(m_base_offset a, ra)]) (pt_next_offset p) [] [].
Proof.
  intros P Hne Hf Hl Hi Hs Hm. pose proof (part_ok_stored _ _ _ _ _ P) as Hst.
  pose proof P as [Hseg _ [V T Hun Had Hmk] _ Hnext Hdir _]. pose proof Hst as [Ho Ha Hc Hd _].
  pose proof (sv_base _ _ _ V) as [Hb Hb']. pose proof (zlen_pos ra Hne).
  set (dir := pt_partition_dir p) in *. set (next := pt_next_offset p) in *.
  assert (is_u64 next /\ is_u64 (m_base_offset a)) as [Hun' Hua] by (unfold is_u64, next; lia).
  unfold LogSegment_sealed_path in *. rewrite Had in *.
  assert (forall ext b, is_u64 b -> b <> next ->
    segment_path ext b dir <> segment_path (str ".sealed") (m_base_offset a) dir ->
    files d' !! segment_path ext b dir = files d !! segment_path ext b dir) as Hsame.
  { intros ext b Hbu Hbn Hb2. apply Hf; [|done]. intros Hin.
    apply list_elem_of_fmap in Hin as (e & E & _). by apply segment_path_inj in E as [? _]. }
  assert (files d' !! segment_path (str ".log") (m_base_offset a) dir = Some (log_bytes ra)) as Hla.
  { rewrite Hsame; [|done|unfold next; lia|by apply segment_path_ext].
    pose proof (sv_log _ _ _ V) as H'. unfold LogSegment_log_path in H'. by rewrite Had in H'. }
  assert (files d' !! segment_path (str ".index") (m_base_offset a) dir = Some (index_bytes (m_index a))) as Hia.
  { rewrite Hsame; [|done|unfold next; lia|by apply segment_path_ext].
    pose proof (sv_idx _ _ _ V) as H'. unfold LogSegment_index_path in H'. by rewrite Had in H'. }
  split.
  - apply Forall_app. split; [|apply Forall_singleton].
    + rewrite list.Forall_forall in Ho |- *. intros [b rs] Hin. specialize (Ho _ Hin).
      apply list_elem_of_fmap in Hin as ([s rs'] & E & Hin). injection E as -> ->.
      destruct (olds_before _ _ _ _ _ _ _ P Hin) as (Hso & _ & Hlt). cbn [fst snd] in *.
      pose proof (seg_view_u64 _ _ _ (so_view _ _ _ _ Hso)) as Hus.
      assert (forall ext, files d' !! segment_path ext (m_base_offset s) dir =
        files d !! segment_path ext (m_base_offset s) dir) as Hs'.
      { intros ext. apply Hsame; [done|unfold next; lia|]. intros E'.
        apply segment_path_inj in E' as [? _]; [lia|done|done]. }
      destruct Ho. split; try done; unfold stored_unmarked, stored_marked in *; by rewrite ?Hs'.
    + cbn [fst snd]. split; try done; [apply V|apply V|].
      destruct Hm as [Hm|Hm]; [left|right]; (split; [done|]); rewrite ?Hia.
      * eapply index_file_size; apply V.
      * exists (m_index a). split; [done|apply V].
  - split; try done; rewrite ?Hl, ?Hi; try done; [apply scan_stops_nil|].
    change (zlen (@nil Record)) with 0. unfold is_u64 in *. lia.
  - by apply bases_chained_snoc.
  - intros name Hn. destruct (decide (dir ++ [name] ∈ paths_of next dir)) as [Hin|Hnin].
    { apply list_elem_of_fmap in Hin as (ext & E & He). exists next, ext.
      apply app_inv_head in E. injection E as ->. split_and!; [set_solver|done|done]. }
    destruct (decide (dir ++ [name] = segment_path (str ".sealed") (m_base_offset a) dir)) as [E|Hns].
    { exists (m_base_offset a), (str ".sealed"). apply app_inv_head in E. injection E as ->.
      rewrite fmap_app. unfold seg_exts. split_and!; set_solver. }
    rewrite Hf in Hn by done. destruct (Hd name Hn) as (b & ext & Hb0 & He & ->).
    exists b, ext. split_and!; [|done|done]. rewrite fmap_app. cbn. set_solver.
  - rewrite Hl. by eexists.
Qed.

Lemma roll_died_stored d d' p olds a ra :
  part_ok d p olds a ra -> ra <> [] -> roll_died d' d p a ->
  stored_log d' (pt_partition_dir p) (Partition_earliest_offset p) (part_log olds ra).
Proof.
  intros P Hne [_ Hd]. pose proof P as [_ _ [V T _ Had Hmk] _ Hnext _ _].
  pose proof (sv_base _ _ _ V) as Hb. pose proof (zlen_pos ra Hne).
  pose proof (seg_view_u64 _ _ _ V) as Hua.
  set (dir := pt_partition_dir p) in *. set (next := pt_next_offset p) in *.
  assert (is_u64 next) as Hun by (unfold is_u64, next; lia).
  assert (m_base_offset a < next) as Hlt by (unfold next; lia).
  pose proof (fun ext => fresh_base d p olds a ra next ext P Hun Hlt) as Hfresh. fold dir in Hfresh.
  pose proof (segment_path_ext _ _ next dir ext_log_index).
  pose proof (segment_path_ext _ _ next dir ext_log_sealed).
  pose proof (segment_path_ext _ _ next dir ext_index_sealed).
  assert (forall ext, segment_path ext next dir <> segment_path (str ".sealed") (m_base_offset a) dir) as Hna.
  { intros ext E. apply segment_path_inj in E as [E _]; [lia|done|done]. }
  assert (forall m : gmap path bytes, (forall q, q ∉ paths_of next dir -> m !! q = files d !! q) ->
    m !! segment_path (str ".sealed") (m_base_offset a) dir = None) as Hsa.
  { intros m Hm. rewrite Hm; [by rewrite <- Had|]. intros Hin.
    apply list_elem_of_fmap in Hin as (ext & E & _). by apply (Hna ext). }
  assert (forall q, q ∉ paths_of next dir -> segment_path (str ".log") next dir <> q /\
    segment_path (str ".index") next dir <> q) as Hq.
  { intros q Hq. split; intros <-; apply Hq, paths_of_segment; unfold seg_exts; set_solver. }
  destruct Hd as [E|Hd].
  { eapply stored_log_frame; [|by apply part_is_stored; exists olds, a, ra]. intros. by rewrite E. }
  right. exists (bases_of olds ++ [(m_base_offset a, ra)]), next, [], []. split.
  2:{ rewrite fmap_app, concat_app, bases_of_records. cbn. by rewrite !app_nil_r. }
  unfold LogSegment_sealed_path in *. rewrite Had in *.
  destruct Hd as [E|[E|(n & Hn & E)]]; (eapply rolled_stored; [done|done|..]; fold dir next);
    unfold LogSegment_sealed_path; rewrite ?Had, ?E.
  all: try (intros q Hq1 Hq2; destruct (Hq q Hq1); by rewrite ?lookup_insert_ne by congruence).
  all: try (left; apply Hsa; intros q Hq1; destruct (Hq q Hq1); by rewrite ?lookup_insert_ne by congruence).
  all: rewrite ?lookup_insert_eq, ?lookup_insert_ne, ?lookup_insert_eq, ?Hfresh by (done || by apply not_eq_sym).
  all: try done.
  right. apply marker_ok_torn; try done; apply V.
Qed.

(** The record is in the log or it is not. *)
Lemma append_died_stored d' p E L r :
  append_died d' p E L r ->
  stored_log d' (pt_partition_dir p) E L \/ stored_log d' (pt_partition_dir p) E (L ++ [r]).
Proof.
  intros [d p0 olds a ra P (_ & Hdir & _) <- <- Hne Hd|d p0 olds a ra n idx P (_ & Hdir & _) <- <- _ Hpre Hn Hi Hf].
  { left. rewrite <- Hdir. by eapply roll_died_stored. }
  pose proof (part_ok_stored _ _ _ _ _ P) as Hst. pose proof (po_active _ _ _ _ _ P) as [V T _ Had Hmk].
  unfold LogSegment_log_path, LogSegment_index_path, LogSegment_sealed_path in *. rewrite Had, Hdir in *.
  set (dir := pt_partition_dir p) in *. set (b := m_base_offset a) in *.
  pose proof (segment_path_ext _ _ b dir ext_log_index). pose proof (segment_path_ext _ _ b dir ext_log_sealed).
  pose proof (segment_path_ext _ _ b dir ext_index_sealed).
  pose proof (sv_base _ _ _ V) as [Hb Hb']. pose proof (append_pre_wf a ra r Hb Hpre) as Hwf.
  pose proof (zlen_record_bytes r) as Hlr. destruct Hpre as [_ Hsz Hoff Hnx Hlim].
  assert (frame_base d d' b dir) as Hfr.
  { intros q Hq. rewrite Hf, !lookup_insert_ne; [done|intros <-; apply Hq, paths_of_segment;
      unfold seg_exts; set_solver..]. }
  assert (files d' !! segment_path (str ".log") b dir = Some (log_bytes ra ++ ztake n (record_bytes r))) as Hl
    by (by rewrite Hf, lookup_insert_ne, lookup_insert_eq).
  assert (files d' !! segment_path (str ".index") b dir = Some idx) as Hi' by (by rewrite Hf, lookup_insert_eq).
  assert (files d' !! segment_path (str ".sealed") b dir = None) as Hm' by (by rewrite Hf, !lookup_insert_ne).
  assert (zlen (ztake n (record_bytes r)) <= record_size r) by (rewrite zlen_ztake by lia; lia).
  unfold part_log. rewrite <- bases_of_records.
  destruct (decide (n = record_size r)) as [->|Hlt]; [right|left]; right; do 4 eexists.
  - split; [|by rewrite <- app_assoc]. rewrite ztake_ge, <- (log_bytes_one r), <- log_bytes_app in Hl by lia.
    eapply (stored_update_active _ _ _ _ _ _ _ _ (ra ++ [r]) []); [exact Hst|done| |by rewrite Hl].
    split; rewrite ?Hl, ?Hi', ?app_nil_r; try done; [apply scan_stops_nil|..].
    + rewrite log_bytes_app, log_bytes_one, zlen_app. lia.
    + apply recs_ok_app. split; [apply V|]. by apply recs_ok_one.
    + rewrite zlen_app. change (zlen [r]) with 1. fold b in Hoff. lia.
  - split; [|done].
    eapply (stored_update_active _ _ _ _ _ _ _ _ ra (ztake n (record_bytes r))); [exact Hst|done| |by rewrite Hl].
    split; rewrite ?Hl, ?Hi'; try done; [| |apply V].
    + eapply (torn_record_stops r _ (zdrop n (record_bytes r))); [done|by rewrite ztake_zdrop|].
      intros E. apply (f_equal zlen) in E. rewrite zlen_zdrop in E by lia. change (zlen []) with 0 in E. lia.
    + rewrite zlen_app. lia.
Qed.

(** Some of the records of a batch, the first ones, are in the log. *)
Lemma batch_died_stored d' p E L rs :
  batch_died d' p E L rs -> exists k, stored_log d' (pt_partition_dir p) E (L ++ take k rs).
Proof.
  intros (pre & r & post & -> & Hd). apply append_died_stored in Hd as [Hd|Hd].
  - exists (length pre). by rewrite take_app_length.
  - exists (S (length pre)). by rewrite take_app_ge, Nat.sub_succ_l, Nat.sub_diag, firstn_cons, take_0, app_assoc by lia.
Qed.

End died.

(** ** Restarts that are cut short *)

(** The volume after restarts of the partition of which each dies: after [n] calls, with
    [torn] bytes of the write that follows. *)
Fixpoint crash_restarts {W : Win32} (p : Partition) (crashes : list (nat * Z)) (d : @disk W)
    : option (@disk W) :=
  match crashes with
  | [] => Some d
  | (n, torn) :: crashes =>
      match @Partition_open_and_recover (dying W) p (crash_after n torn d) with
      | Some (_, d') => crash_restarts p crashes (volume d')
      | None => None
      end
  end.

(** The log can be read again: after any number of restarts that die, and then one that
    does not. *)
Definition log_survives {W : Win32} (d : @disk W) (p : Partition) (crashes : list (nat * Z))
    (E : Z) (L : list Record) : Prop :=
  exists d', crash_restarts p crashes d = Some d' /\
    wp (Partition_open_and_recover p)
      (fun '(st, p') d'' => st = Status_OK /\ part_is d'' p' E L /\ same_partition p p') d'.

Section crash.
Context {W : Win32} {R : Reliable W}.

(** With the full scan only the last restart is considered. *)
Definition restarts_ok (p : Partition) (crashes : list (nat * Z)) : Prop :=
  crashes = [] \/ startup_scan (pt_config p) <> str "full".

Lemma stored_survives crashes : forall d p E L,
  stored_log d (pt_partition_dir p) E L -> 28 <= segment_max_bytes (pt_config p) <= LOG_LIMIT ->
  restarts_ok p crashes -> log_survives d p crashes E L.
Proof.
  induction crashes as [|[n torn] crashes IH]; intros d p E L Hst Hcfg Hok; unfold log_survives.
  { exists d. split; [done|]. eapply wp_open_partition; [done..|]. auto. }
  destruct Hok as [|Hq]; [done|]. cbn [crash_restarts].
  assert (wp (W := dying W) (Partition_open_and_recover p)
    (fun _ d' => stored_log (volume d') (pt_partition_dir p) E L) (crash_after n torn d)) as (r & d' & Er & Hs).
  { eapply (wp_open_partition_fs (W := dying W)); [|done|..].
    - by eapply (stored_log_transfer d (crash_after n torn d)).
    - intros d' p' P (_ & Hd & _). apply part_is_stored in P. rewrite Hd in P.
      by eapply (stored_log_transfer d' (volume d')).
    - intros r d' _ Hs. by eapply (stored_log_transfer d' (volume d')), Hs. }
  rewrite Er. apply IH; [done|done|by right].
Qed.

Lemma part_ok_config (d : @disk W) p E L : part_is d p E L -> 28 <= segment_max_bytes (pt_config p) <= LOG_LIMIT.
Proof. intros (olds & a & ra & P & _). apply P. Qed.

End crash.

(** What a crash in a batch leaves: the files hold the log and the first records of the
    batch; all of them when the append had reported success. *)
Lemma wp_batch_crash {W : Win32} {R : Reliable W} now (d : @disk W) p E L batch n torn :
  part_is d p E L -> is_i64 now -> batch <> [] -> batch_ok batch ->
  pt_next_offset p + zlen batch < 2 ^ 64 ->
  let rs := batch_records (pt_next_offset p) now batch in
  wp (W := dying W) (Partition_append_batch now p batch)
    (fun '(res, _) d1 => exists k, stored_log (volume d1) (pt_partition_dir p) E (L ++ take k rs) /\
       forall o, res = Ok o -> o = pt_next_offset p /\ (length rs <= k)%nat) (crash_after n torn d).
Proof.
  intros P Hnow Hne Hb Hlim rs.
  eapply (wp_append_batch_fs (W := dying W)); [by eapply (part_is_transfer d (crash_after n torn d))|done..| |].
  - intros d1 p1 P1 (_ & Hd1 & _). exists (length rs). fold rs in P1. rewrite take_ge by lia.
    split; [|by intros o [= <-]]. apply part_is_stored in P1. rewrite Hd1 in P1.
    by eapply (stored_log_transfer d1 (volume d1)).
  - intros st p1 d1 Hd. apply batch_died_stored in Hd as [k Hk]. exists k. split; [|done].
    by eapply (stored_log_transfer d1 (volume d1)).
Qed.

(** C1: a crash never costs a record that was written before.  Let the process die at any
    point of appending a batch to a partition that represents the log L: after any number
    of calls of the operating system, and in the middle of a write.  Restart it, let the
    restarts die as well, at any points and any number of times; the first restart that
    is not cut short succeeds and the partition represents L and the first k records of
    the batch, for some k, with the same earliest offset; and if the append had already
    reported success, all records of the batch. *)
Theorem batch_crash_safe {W : Win32} {R : Reliable W} now (d : @disk W) p E L batch n torn p0 crashes :
  part_is d p E L -> is_i64 now -> batch <> [] -> batch_ok batch ->
  pt_next_offset p + zlen batch < 2 ^ 64 ->
  pt_partition_dir p0 = pt_partition_dir p -> pt_config p0 = pt_config p -> restarts_ok p0 crashes ->
  let rs := batch_records (pt_next_offset p) now batch in
  wp (W := dying W) (Partition_append_batch now p batch)
    (fun '(res, _) d1 => exists k, log_survives (volume d1) p0 crashes E (L ++ take k rs) /\
       forall o, res = Ok o -> o = pt_next_offset p /\ (length rs <= k)%nat) (crash_after n torn d).
Proof.
  intros P Hnow Hne Hb Hlim Hdir Hcfg Hok rs. pose proof (part_ok_config _ _ _ _ P) as Hc.
  rewrite <- Hcfg in Hc. eapply wp_mono; [by apply wp_batch_crash|].
  intros [res p1] d1 (k & Hs & Hr). exists k. split; [|done]. rewrite <- Hdir in Hs. by apply stored_survives.
Qed.

(** The same for one record: after a crash at any point of an append, and after any
    number of restarts that crash, the log is the old one or the old one with the record;
    it has the record when the append had reported its offset. *)
Theorem append_crash_safe {W : Win32} {R : Reliable W} (d : @disk W) p E L k v ts n torn p0 crashes :
  part_is d p E L -> is_i64 ts -> zlen k + zlen v < 2 ^ 31 -> pt_next_offset p + 1 < 2 ^ 64 ->
  record_size (mkRecord 0 ts k v) <= MAX_RECORD_SIZE ->
  pt_partition_dir p0 = pt_partition_dir p -> pt_config p0 = pt_config p -> restarts_ok p0 crashes ->
  let r := mkRecord (pt_next_offset p) ts k v in
  wp (W := dying W) (Partition_append_with_timestamp p k v ts)
    (fun '(res, _) d1 =>
       log_survives (volume d1) p0 crashes E (L ++ [r]) \/
       log_survives (volume d1) p0 crashes E L /\ forall o, res <> Ok o) (crash_after n torn d).
Proof.
  intros P Hts Hkv Hlim Hsz Hdir Hcfg Hok r. pose proof (part_ok_config _ _ _ _ P) as Hc.
  rewrite <- Hcfg in Hc.
  assert (forall (d1 : @disk (dying W)) L1, stored_log d1 (pt_partition_dir p) E L1 ->
    log_survives (volume d1) p0 crashes E L1) as Hs.
  { intros d1 L1 H. rewrite <- Hdir in H. apply stored_survives; [|done|done].
    by eapply (stored_log_transfer d1 (volume d1)). }
  eapply (wp_partition_append_fs (W := dying W));
    [by eapply (part_is_transfer d (crash_after n torn d))|done..| |].
  - intros d1 p1 P1 (_ & Hd1 & _). left. apply part_is_stored in P1. rewrite Hd1 in P1. by apply Hs.
  - intros st p1 d1 Hd. apply append_died_stored in Hd as [Hd|Hd]; apply Hs in Hd; [right|left]; done.
Qed.

(** ** Concrete crashes *)

Definition demo_fresh : Partition := Partition_new 0 demo_dir demo_config.
Definition demo_batch : list (bytes * bytes) := [(str "k", str "third"); (str "l", str "fourth")].

(** The append of the batch rolls the segment; with three more calls the process dies in
    the write of the marker, and the first restart dies in its first call. *)
Example batch_crash_safe_witness :
  wp (W := dying memory_disk) (Partition_append_batch 1001 demo_partition demo_batch)
    (fun '(res, _) d1 => exists k, log_survives (volume d1) demo_fresh [(0%nat, 0)] 5
         (demo_records ++ take k (batch_records 7 1001 demo_batch)) /\
       forall o, res = Ok o -> o = 7 /\ (2 <= k)%nat)
    (crash_after 3 10 demo_disk).
Proof.
  apply (batch_crash_safe (W := memory_disk) 1001 demo_disk demo_partition 5 demo_records demo_batch 3 10
           demo_fresh [(0%nat, 0)]).
  - apply demo_part_is.
  - done.
  - done.
  - repeat constructor; by vm_compute.
  - done.
  - done.
  - done.
  - right. by vm_compute.
Defined.

Example append_crash_safe_witness :
  wp (W := dying memory_disk) (Partition_append_with_timestamp demo_partition2 (str "k") (str "third") 1001)
    (fun '(res, _) d1 =>
       log_survives (volume d1) demo_fresh [] 5 (demo_records ++ [demo_next]) \/
       log_survives (volume d1) demo_fresh [] 5 demo_records /\ forall o, res <> Ok o)
    (crash_after 0 30 demo_disk2).
Proof.
  apply (append_crash_safe (W := memory_disk) demo_disk2 demo_partition2 5 demo_records (str "k") (str "third")
           1001 0 30 demo_fresh []).
  - exists [(seg_set_sealed true demo_segment, demo_records)], demo_active, [].
    split_and!; [apply demo_part_ok2|done|done].
  - done.
  - by vm_compute.
  - done.
  - by vm_compute.
  - done.
  - done.
  - by left.
Defined.

(** The partition after a crash in an append to [demo_partition] and a restart. *)
Definition demo_crash (n : nat) (torn : Z) : option (Status * Partition) :=
  match @Partition_append_with_timestamp (dying memory_disk) demo_partition (str "k") (str "third") 1001
          (crash_after n torn demo_disk) with
  | Some (_, d1) =>
      match @Partition_open_and_recover memory_disk demo_fresh (volume d1) with
      | Some (r, _) => Some r
      | None => None
      end
  | None => None
  end.

(** A marker cut short ends age retention.  A process that dies in the write of a
    .sealed file leaves a part of it; the restart with the quick scan finds the file,
    does not recover the segment (as it does when the file is missing) and reads no
    timestamp from it.  The segment is never old enough for retention, whatever the time
    and the limit, and neither is any segment behind it; with the whole marker, or with
    none, the segment is deleted once it is old enough. *)
Theorem torn_marker_ends_retention :
  (exists p, demo_crash 3 10 = Some (Status_OK, p) /\ length (pt_segments p) = 2%nat /\
     forall now ms, Partition_deletable_by_age now ms (pt_segments p) = 0%nat) /\
  (exists p, demo_crash 2 0 = Some (Status_OK, p) /\
     Partition_deletable_by_age (10 ^ 12) 1 (pt_segments p) = 1%nat) /\
  (exists p, demo_crash 4 0 = Some (Status_OK, p) /\
     Partition_deletable_by_age (10 ^ 12) 1 (pt_segments p) = 1%nat).
Proof.
  split_and!; eexists; (split; [vm_compute; reflexivity|]); [|by vm_compute..].
  split; [done|]. intros now ms. reflexivity.
Qed.
