(* ===== verification/PartitionFrame.v ===== *)
(** * PartitionFrame: a partition only touches the files of its own directory

    [local dir m Q] is a partial-correctness triple for the [io] monad: whatever the
    calls of the operating system answer, [m] changes no file outside [dir] and its
    result satisfies [Q].  It holds of every operation of a partition whose segments
    have their handles in its directory ([part_in]), with no assumption on success,
    and it combines with the total-correctness specifications ([wp_local]). *)
From S2P Require Import Prelude StdString Status RecordCodec FileHandle OffsetIndex LogSegment Partition.

Create HintDb foot.

(** Files directly in a directory. *)
Definition within (dir q : path) : Prop := exists name, q = dir ++ [name].

Definition outside (dir : path) (m m' : gmap path bytes) : Prop :=
  forall q, ~ within dir q -> m' !! q = m !! q.

Definition handle_in (dir : path) (h : FileHandle) : Prop :=
  match h with Some p => within dir p | None => True end.

Record seg_in (dir : path) (s : LogSegment) : Prop := {
  si_dir : m_partition_dir s = dir;
  si_log : handle_in dir (m_log_file s);
  si_index : handle_in dir (m_index_file s);
}.

Record part_in (dir : path) (p : Partition) : Prop := {
  pi_dir : pt_partition_dir p = dir;
  pi_segments : Forall (seg_in dir) (pt_segments p);
}.

Lemma outside_refl dir m : outside dir m m.
Proof. done. Qed.

Lemma outside_trans dir m1 m2 m3 : outside dir m1 m2 -> outside dir m2 m3 -> outside dir m1 m3.
Proof. intros H1 H2 q Hq. by rewrite H2, H1. Qed.

Lemma within_segment dir s ext : m_partition_dir s = dir -> within dir (segment_path ext (m_base_offset s) (m_partition_dir s)).
Proof. intros <-. by eexists. Qed.

Section local.
Context {W : Win32}.

Definition local {A} (dir : path) (m : io A) (Q : A -> Prop) : Prop :=
  forall d a d', m d = Some (a, d') -> outside dir (files d) (files d') /\ Q a.

Lemma wp_local {A} dir (m : io A) Q R d :
  wp m Q d -> local dir m R ->
  wp m (fun a d' => Q a d' /\ R a /\ outside dir (files d) (files d')) d.
Proof.
  intros (a & d' & Hm & HQ) Hl. exists a, d'. destruct (Hl _ _ _ Hm). done.
Qed.

Context (dir : path).

Lemma local_ret {A} (a : A) (Q : A -> Prop) : Q a -> local dir (mret a) Q.
Proof. intros HQ d a' d' [= <- <-]. by split. Qed.

Lemma local_bind {A B} (m : io A) (k : A -> io B) (P : A -> Prop) Q :
  local dir m P -> (forall a, P a -> local dir (k a) Q) -> local dir (m ≫= k) Q.
Proof.
  intros Hm Hk d b d'. unfold mbind, io_bind. destruct (m d) as [[a d1]|] eqn:E; [|done]. intros E'.
  destruct (Hm _ _ _ E) as [H1 HP]. destruct (Hk _ HP _ _ _ E') as [H2 HQ].
  split; [by eapply outside_trans|done].
Qed.

Lemma local_mono {A} (m : io A) (P Q : A -> Prop) : local dir m P -> (forall a, P a -> Q a) -> local dir m Q.
Proof. intros Hm H d a d' E. destruct (Hm _ _ _ E). auto. Qed.

Lemma local_opt {A} (o : option A) : local dir (io_opt o) (fun _ => True).
Proof. intros d a d'. unfold io_opt. destruct o; [|done]. by intros [= <- <-]. Qed.

Lemma local_get {A} (f : disk -> A) : local dir (io_get f) (fun _ => True).
Proof. intros d a d' [= <- <-]. done. Qed.

Lemma local_flush h : local dir (FileHandle_flush h) (fun _ => True).
Proof.
  intros d a d'. destruct h; cbn; [|by intros [= <- <-]]. intros [= <- <-].
  by rewrite FlushFileBuffers_files.
Qed.

Lemma local_flush_directory q : local dir (FileHandle_flush_directory q) (fun _ => True).
Proof.
  intros d a d'. unfold FileHandle_flush_directory, io_set.
  destruct (CreateFileW_directory q true d), (CreateFileW_directory q false d); cbn;
    intros [= <- <-]; by rewrite ?FlushFileBuffers_files.
Qed.

Lemma local_create_directories q : local dir (create_directories q) (fun _ => True).
Proof.
  intros d a d'. unfold create_directories. destruct (fs_create_directories q d) eqn:E; [|done].
  intros [= <- <-]. by rewrite (fs_create_directories_files _ _ _ E).
Qed.

Lemma local_write h buf : handle_in dir h -> local dir (FileHandle_write h buf) (fun _ => True).
Proof.
  intros Hh d a d'. destruct h as [p|]; cbn; [|by intros [= <- <-]]. unfold io_set.
  destruct (WriteFile p buf d) as [[ok n] d1] eqn:E. intros [= <- <-].
  apply WriteFile_files in E as [_ Hf]. split; [|done]. intros q Hq. rewrite Hf.
  apply lookup_alter_ne. intros ->. done.
Qed.

Lemma local_truncate h n : handle_in dir h -> local dir (FileHandle_truncate h n) (fun _ => True).
Proof.
  intros Hh d a d'. destruct h as [p|]; cbn; [|by intros [= <- <-]]. unfold io_set.
  destruct (negb _); [by intros [= <- <-]|]. destruct (SetEndOfFile p n d) as [ok d1] eqn:E. intros [= <- <-].
  split; [|done]. intros q Hq. eapply SetEndOfFile_other; [exact E|]. intros ->. done.
Qed.

Lemma local_read_at h off n : local dir (FileHandle_read_at h off n) (fun _ => True).
Proof. destruct h; [apply local_get|by apply local_ret]. Qed.

Lemma local_get_size h : local dir (FileHandle_get_size h) (fun _ => True).
Proof. destruct h; [apply local_get|by apply local_ret]. Qed.

Lemma local_create p disp :
  within dir p -> local dir (io_set (fun d =>
    let '(ok, d') := CreateFileW p disp d in (if ok then Some p else None, d'))) (handle_in dir).
Proof.
  intros Hp d a d'. unfold io_set. destruct (CreateFileW p disp d) as [ok d1] eqn:E. intros [= <- <-].
  apply CreateFileW_files in E as [Hf _]. split; [|by destruct ok].
  intros q Hq. rewrite Hf. destruct ok; [|done]. unfold opened. destruct disp, (files d !! p); try done.
  apply lookup_insert_ne. by intros ->.
Qed.

Lemma local_open_read_write p b : within dir p -> local dir (FileHandle_open_read_write p b) (handle_in dir).
Proof. apply local_create. Qed.

Lemma local_open_read_only p : within dir p -> local dir (FileHandle_open_read_only p) (handle_in dir).
Proof. apply local_create. Qed.

Lemma local_remove p : within dir p -> local dir (io_run (fs_remove p)) (fun _ => True).
Proof.
  intros Hp d a d' [= <- <-]. split; [|done]. intros q Hq.
  destruct (fs_remove_files p d) as [-> | ->]; [|done]. apply lookup_delete_ne. by intros ->.
Qed.

End local.

#[export] Hint Resolve local_opt local_get local_flush local_flush_directory local_create_directories
  local_write local_truncate local_read_at local_get_size local_open_read_write local_open_read_only
  local_remove : foot.
#[export] Hint Extern 4 (within _ _) => (apply within_segment) : foot.

(** One step through a program: results are taken apart, and the cases of a
    condition are considered. *)
Ltac local_pairs :=
  repeat match goal with
  | x : _ * _ |- _ => destruct x
  | H : _ /\ _ |- _ => destruct H
  end; cbn beta iota in *.
Ltac local_step :=
  cbn beta zeta;
  lazymatch goal with
  | |- local _ (mret _) _ => apply local_ret
  | |- local _ (mbind _ _) _ =>
      eapply local_bind; [solve [eauto with foot] | let x := fresh "x" in intros x ?; local_pairs]
  | |- local _ (if ?b then _ else _) _ => destruct b eqn:?
  | |- local _ (match ?x with _ => _ end) _ => destruct x eqn:?
  | |- local _ io_fail _ => let E := fresh in intros ? ? ? E; discriminate E
  end.
Ltac seg_in_tac :=
  repeat match goal with H : seg_in _ _ |- _ => destruct H end;
  lazymatch goal with |- seg_in _ _ => split; cbn in *; (done || eauto with foot) end.
Ltac local_tac := repeat local_step; try done; try (solve [eauto 7 with foot]); try seg_in_tac.

#[export] Hint Resolve si_dir si_log si_index : foot.

(** ** Segments *)

Section setters.
Context (dir : path) (s : LogSegment).

Lemma in_set_index i : seg_in dir s -> seg_in dir (seg_set_index i s).
Proof. intros. seg_in_tac. Qed.
Lemma in_set_size n : seg_in dir s -> seg_in dir (seg_set_size n s).
Proof. intros. seg_in_tac. Qed.
Lemma in_set_since n : seg_in dir s -> seg_in dir (seg_set_since n s).
Proof. intros. seg_in_tac. Qed.
Lemma in_set_sealed b : seg_in dir s -> seg_in dir (seg_set_sealed b s).
Proof. intros. seg_in_tac. Qed.
Lemma in_set_totals a b c e : seg_in dir s -> seg_in dir (seg_set_totals a b c e s).
Proof. intros. seg_in_tac. Qed.
Lemma in_set_files h1 h2 : seg_in dir s -> handle_in dir h1 -> handle_in dir h2 -> seg_in dir (seg_set_files h1 h2 s).
Proof. intros. seg_in_tac. Qed.
Lemma in_account pos since buf r : seg_in dir s -> seg_in dir (LogSegment_account s pos since buf r).1.
Proof. intros. unfold LogSegment_account. destruct (_ || _); cbn [fst]; seg_in_tac. Qed.
End setters.

(** Whatever was assigned to a segment, it is still in its directory. *)
Ltac peel :=
  repeat lazymatch goal with
  | |- seg_in _ (seg_set_index _ _) => apply in_set_index
  | |- seg_in _ (seg_set_size _ _) => apply in_set_size
  | |- seg_in _ (seg_set_since _ _) => apply in_set_since
  | |- seg_in _ (seg_set_sealed _ _) => apply in_set_sealed
  | |- seg_in _ (seg_set_totals _ _ _ _ _) => apply in_set_totals
  | |- seg_in _ (seg_set_files _ _ _) => apply in_set_files
  | |- seg_in _ (LogSegment_account _ _ _ _ _).1 => apply in_account
  | |- handle_in _ (m_log_file _) => apply si_log
  | |- handle_in _ (m_index_file _) => apply si_index
  | |- _ => assumption
  end.
#[export] Hint Extern 1 (seg_in _ _) => (solve [peel]) : foot.

Lemma in_new b dir iv : seg_in dir (LogSegment_new b dir iv).
Proof. done. Qed.
#[export] Hint Resolve in_new : foot.

Lemma in_account_fst s pos since buf r s' since' :
  LogSegment_account s pos since buf r = (s', since') -> (LogSegment_account s pos since buf r).1 = s'.
Proof. by intros ->. Qed.

Section segment.
Context {W : Win32} (dir : path).

Lemma local_load h : local dir (OffsetIndex_load_from_file h) (fun _ => True).
Proof. unfold OffsetIndex_load_from_file. local_tac. Qed.

Lemma local_append_to_file i h a b :
  handle_in dir h -> local dir (OffsetIndex_append_to_file i h a b) (fun _ => True).
Proof. intros. unfold OffsetIndex_append_to_file. local_tac. Qed.

Lemma local_rewrite i h : handle_in dir h -> local dir (OffsetIndex_rewrite_file i h) (fun _ => True).
Proof. intros. unfold OffsetIndex_rewrite_file. local_tac. Qed.

Lemma local_has_marker s : local dir (LogSegment_has_sealed_marker s) (fun _ => True).
Proof. apply local_get. Qed.

#[local] Hint Resolve local_load local_append_to_file local_rewrite local_has_marker : foot.

Lemma local_read_marker s : seg_in dir s -> local dir (LogSegment_read_sealed_marker s) (fun _ => True).
Proof. intros. unfold LogSegment_read_sealed_marker, LogSegment_sealed_path. local_tac. Qed.

Lemma local_write_marker s : seg_in dir s -> local dir (LogSegment_write_sealed_marker s) (fun _ => True).
Proof. intros. unfold LogSegment_write_sealed_marker, LogSegment_sealed_path. local_tac. Qed.

#[local] Hint Resolve local_read_marker local_write_marker : foot.

Lemma local_segment_open s : seg_in dir s -> local dir (LogSegment_open s) (fun r => seg_in dir r.2).
Proof.
  intros. unfold LogSegment_open, LogSegment_log_path, LogSegment_index_path. local_tac.
Qed.

Lemma local_segment_flush s : local dir (LogSegment_flush s) (fun _ => True).
Proof. unfold LogSegment_flush. local_tac. Qed.

Lemma local_sync_flush (sync : bool) s :
  local dir (if sync then LogSegment_flush s else mret tt) (fun _ => True).
Proof. destruct sync; [apply local_segment_flush|by apply local_ret]. Qed.

#[local] Hint Resolve local_segment_flush local_sync_flush : foot.

Lemma local_seal s : seg_in dir s -> local dir (LogSegment_seal s) (seg_in dir).
Proof. intros. unfold LogSegment_seal. local_tac. Qed.

Lemma local_segment_append s r ts sync :
  seg_in dir s -> local dir (LogSegment_append_with_timestamp s r ts sync) (fun x => seg_in dir x.2).
Proof.
  intros. unfold LogSegment_append_with_timestamp. local_tac.
Qed.

Lemma local_read_record s pos r : local dir (LogSegment_read_record_at s pos r) (fun _ => True).
Proof. unfold LogSegment_read_record_at. local_tac. Qed.

#[local] Hint Resolve local_read_record : foot.

Lemma local_verify_quick s : local dir (LogSegment_verify_quick s) (fun _ => True).
Proof. unfold LogSegment_verify_quick. local_tac. Qed.

Lemma local_finish_scan s pos since : seg_in dir s -> local dir (LogSegment_finish_scan s pos since) (seg_in dir).
Proof.
  intros. unfold LogSegment_finish_scan. eapply (local_bind _ _ _ (seg_in dir)); [|intros; local_tac].
  local_tac.
Qed.

Lemma local_recover_loop fuel : forall s pos since next, seg_in dir s ->
  local dir (LogSegment_recover_loop fuel s pos since next) (fun r => seg_in dir r.1.1.1).
Proof.
  induction fuel as [|fuel IH]; intros s pos since next Hs; cbn [LogSegment_recover_loop];
    repeat local_step; try done.
  apply IH. rewrite <- (in_account_fst _ _ _ _ _ _ _ Heqp). peel.
Qed.

Lemma local_verify_loop fuel : forall s pos since rep, seg_in dir s ->
  local dir (LogSegment_verify_loop fuel s pos since rep) (fun r => seg_in dir r.1.1.1).
Proof.
  induction fuel as [|fuel IH]; intros s pos since rep Hs; cbn [LogSegment_verify_loop];
    repeat local_step; try done.
  apply IH. rewrite <- (in_account_fst _ _ _ _ _ _ _ Heqp). peel.
Qed.

#[local] Hint Resolve local_finish_scan local_recover_loop local_verify_loop : foot.

Lemma local_recover s : seg_in dir s ->
  local dir (LogSegment_recover_and_rebuild_index s) (fun r => seg_in dir r.1.2).
Proof. intros. unfold LogSegment_recover_and_rebuild_index. local_tac. Qed.

Lemma local_verify_full s rep : seg_in dir s ->
  local dir (LogSegment_verify_and_rebuild_full s rep) (fun r => seg_in dir r.1.2).
Proof. intros. unfold LogSegment_verify_and_rebuild_full. local_tac. Qed.
End segment.

#[export] Hint Resolve local_segment_open local_has_marker local_recover local_seal local_write_marker
  local_segment_flush local_verify_full local_verify_quick local_segment_append local_read_record : foot.

(** ** Partitions *)

Section partition.
Context {W : Win32} (dir : path).

Lemma part_in_next n p : part_in dir p -> part_in dir (pt_set_next n p).
Proof. by intros []. Qed.
Lemma part_in_degraded b p : part_in dir p -> part_in dir (Partition_set_degraded b p).
Proof. by intros []. Qed.
Lemma part_in_segments l p : part_in dir p -> Forall (seg_in dir) l -> part_in dir (pt_set_segments l p).
Proof. by intros []. Qed.
Lemma part_in_push s p : part_in dir p -> seg_in dir s -> part_in dir (pt_set_segments (pt_segments p ++ [s]) p).
Proof.
  intros Hp Hs. apply part_in_segments; [done|]. apply Forall_app_2; [apply Hp|by apply list.Forall_singleton].
Qed.
Lemma part_in_active s p : part_in dir p -> seg_in dir s -> part_in dir (pt_set_active s p).
Proof. intros Hp Hs. apply part_in_segments; [done|]. apply Forall_insert; [apply Hp|done]. Qed.
Lemma part_in_last p s : part_in dir p -> Partition_active_segment_unlocked p = Some s -> seg_in dir s.
Proof.
  intros [_ Hp] Hl. rewrite list.Forall_forall in Hp. apply Hp. by apply list.last_Some_elem_of.
Qed.

#[local] Hint Resolve part_in_next part_in_degraded part_in_push part_in_active part_in_last : foot.
#[local] Hint Extern 1 (part_in _ (if _ then _ else _)) => case_match : foot.

Lemma local_recover_segments bases : forall p, part_in dir p ->
  local dir (Partition_recover_segments p bases) (fun r => part_in dir r.2).
Proof.
  induction bases as [|b bases IH]; intros p Hp; cbn [Partition_recover_segments]; [by apply local_ret|].
  pose proof (pi_dir _ _ Hp) as Hd. rewrite Hd.
  repeat local_step; try (solve [eauto with foot]); apply IH; eauto 6 with foot.
Qed.

Lemma local_partition_open p : part_in dir p ->
  local dir (Partition_open_and_recover p) (fun r => part_in dir r.2).
Proof.
  intros Hp. unfold Partition_open_and_recover.
  repeat local_step. eapply local_bind; [apply local_recover_segments; by apply part_in_segments|].
  intros [st q] Hq. repeat local_step; try done. cbn [snd]. repeat case_match; eauto with foot.
Qed.

Lemma local_roll p : part_in dir p ->
  local dir (Partition_roll_segment_unlocked p) (fun r => part_in dir r.2).
Proof.
  intros Hp. unfold Partition_roll_segment_unlocked. pose proof (pi_dir _ _ Hp) as Hd. rewrite Hd.
  assert (forall x i s, seg_in dir x -> seg_in dir s ->
    part_in dir (pt_set_segments (<[i := s]> (pt_segments (pt_set_segments (pt_segments p ++ [x]) p)))
                   (pt_set_segments (pt_segments p ++ [x]) p))) as Hins.
  { intros x i s Hx Hs. pose proof (part_in_push x p Hp Hx) as Hq. apply part_in_segments; [done|].
    apply Forall_insert; [apply Hq|done]. }
  assert (forall s, list.last (pt_segments p) = Some s -> seg_in dir s) as Hl
    by (intros; by eapply part_in_last).
  repeat local_step; try (solve [eauto with foot]).
Qed.

#[local] Hint Resolve local_roll : foot.

Lemma local_segment_for p n : part_in dir p ->
  local dir (Partition_segment_for p n) (fun r => part_in dir r.2).
Proof.
  intros Hp. unfold Partition_segment_for.
  eapply (local_bind _ _ _ (fun r => part_in dir r.2)); [|intros [st q] Hq]; repeat local_step;
    try done; eauto with foot.
Qed.

#[local] Hint Resolve local_segment_for : foot.

Lemma local_partition_append p k v ts : part_in dir p ->
  local dir (Partition_append_with_timestamp p k v ts) (fun r => part_in dir r.2).
Proof. intros Hp. unfold Partition_append_with_timestamp. repeat local_step; eauto 6 with foot. Qed.

Lemma local_append_items now batch : forall p, part_in dir p ->
  local dir (Partition_append_items now p batch) (fun r => part_in dir r.2).
Proof.
  induction batch as [|[k v] batch IH]; intros p Hp; cbn [Partition_append_items]; [by apply local_ret|].
  unfold LogSegment_append. repeat local_step; try (solve [eauto 6 with foot]).
Qed.

Lemma local_flush_segments segs : local dir (flush_segments segs) (fun _ => True).
Proof. induction segs; cbn [flush_segments]; repeat local_step; done. Qed.

Lemma local_partition_flush p : local dir (Partition_flush p) (fun _ => True).
Proof. apply local_flush_segments. Qed.

#[local] Hint Resolve local_append_items local_partition_flush : foot.

Lemma local_append_batch now p batch : part_in dir p ->
  local dir (Partition_append_batch now p batch) (fun r => part_in dir r.2).
Proof.
  intros Hp. unfold Partition_append_batch. repeat local_step; try done.
  eapply (local_bind _ _ _ (fun _ => True)); [destruct (sync_on_append _)|intros]; repeat local_step;
    eauto with foot.
Qed.

Lemma local_scan_and_delete now p ms rb dry : part_in dir p ->
  local dir (Partition_scan_and_delete_segments now p ms rb dry) (fun r => part_in dir r.1.2).
Proof.
  intros Hp. unfold Partition_scan_and_delete_segments. repeat local_step; try done.
  assert (Forall (seg_in dir) (pt_segments p)) as Hs by apply Hp.
  set (k := Partition_deletable_count p now ms rb) in *.
  assert (local dir (remove_candidates (Partition_candidate <$> take k (pt_segments p))) (fun _ => True)) as Hr.
  { assert (Forall (seg_in dir) (take k (pt_segments p))) as Ht by (by apply Forall_take).
    induction Ht as [|s segs Hss _ IH]; cbn; repeat local_step; done. }
  repeat local_step. cbn. apply part_in_segments; [done|by apply Forall_drop].
Qed.

(** The invariant puts every segment into the directory. *)
Lemma part_ok_in d p olds a ra : part_ok d p olds a ra -> part_in (pt_partition_dir p) p.
Proof.
  intros P. split; [done|]. rewrite (po_segments _ _ _ _ _ P).
  assert (forall s rs, seg_view d s rs -> m_partition_dir s = pt_partition_dir p -> seg_in (pt_partition_dir p) s)
    as Hv.
  { intros s rs V Hd. split; [done|rewrite (sv_log_file _ _ _ V)|rewrite (sv_index_file _ _ _ V)];
      rewrite <- Hd; by eexists. }
  apply Forall_app_2; [|apply list.Forall_singleton].
  - apply list.Forall_fmap, list.Forall_forall. intros [s rs] Hin. cbn.
    destruct (olds_before _ _ _ _ _ _ _ P Hin) as ([V ? ? Hd] & _). by eapply Hv.
  - destruct (po_active _ _ _ _ _ P). by eapply Hv.
Qed.

Lemma part_is_in d p E L : part_is d p E L -> part_in (pt_partition_dir p) p.
Proof. intros (olds & a & ra & P & _). by eapply part_ok_in. Qed.

(** What a partition represents depends on the files of its directory only. *)
Lemma part_is_frame d d' p E L :
  (forall q, within (pt_partition_dir p) q -> files d' !! q = files d !! q) ->
  part_is d p E L -> part_is d' p E L.
Proof.
  intros Hf (olds & a & ra & P & HE & HL). exists olds, a, ra. split_and!; [|done..].
  assert (forall s ext, m_partition_dir s = pt_partition_dir p ->
    files d' !! segment_path ext (m_base_offset s) (m_partition_dir s) =
    files d !! segment_path ext (m_base_offset s) (m_partition_dir s)) as Hs
    by (intros s ext Hd; apply Hf; rewrite Hd; by eexists).
  assert (forall s rs, m_partition_dir s = pt_partition_dir p -> seg_view d s rs -> seg_view d' s rs) as Hv.
  { intros s rs Hd V. eapply seg_view_data; [by apply Hs..|exact V]. }
  destruct P. split; try done.
  - eapply Forall_impl; [|exact po_olds]. intros [s rs] []. cbn in *. split; try done; [by apply Hv|].
    unfold LogSegment_sealed_path in *. by rewrite Hs.
  - destruct po_active. split; try done; [by apply Hv|]. unfold LogSegment_sealed_path in *. by rewrite Hs.
  - intros name Hn. apply po_dir. rewrite <- (Hf (pt_partition_dir p ++ [name])) by (by eexists). done.
Qed.

Lemma within_disjoint dir1 dir2 q : dir1 <> dir2 -> within dir1 q -> ~ within dir2 q.
Proof. intros Hne [n ->] [n' E]. by apply app_inj_2 in E as [-> _]. Qed.

End partition.

(** A partition never touches a file outside its own directory.  Whatever the
    operating system answers to its calls, opening and recovering, appending (one
    record or a batch), flushing and retention leave every other file of the volume
    as it is, and the partition keeps working in its directory. *)
Theorem partition_footprint {W : Win32} p d :
  let dir := pt_partition_dir p in
  part_in dir p ->
  (forall st p' d', Partition_open_and_recover p d = Some ((st, p'), d') ->
     outside dir (files d) (files d') /\ part_in dir p') /\
  (forall k v ts res p' d', Partition_append_with_timestamp p k v ts d = Some ((res, p'), d') ->
     outside dir (files d) (files d') /\ part_in dir p') /\
  (forall now batch res p' d', Partition_append_batch now p batch d = Some ((res, p'), d') ->
     outside dir (files d) (files d') /\ part_in dir p') /\
  (forall d', Partition_flush p d = Some (tt, d') -> outside dir (files d) (files d')) /\
  (forall now ms rb dry st p' out d',
     Partition_scan_and_delete_segments now p ms rb dry d = Some ((st, p', out), d') ->
     outside dir (files d) (files d') /\ part_in dir p').
Proof.
  intros dir Hp. split_and!; intros.
  - by eapply (local_partition_open dir p Hp) in H.
  - by eapply (local_partition_append dir p) in H.
  - by eapply (local_append_batch dir) in H.
  - by eapply (local_partition_flush dir) in H as [? _].
  - by eapply (local_scan_and_delete dir) in H.
Qed.

Example partition_footprint_witness :
  let p := Partition_new 0 [str "data"; str "t"; str "0"] default_StorageConfig in
  let dir := pt_partition_dir p in
  let d : @disk memory_disk := {[ [str "data"; str "t"; str "topic.meta"] := str "x" ]} in
  (forall st p' d', Partition_open_and_recover p d = Some ((st, p'), d') ->
     outside dir (files d) (files d') /\ part_in dir p') /\
  (forall k v ts res p' d', Partition_append_with_timestamp p k v ts d = Some ((res, p'), d') ->
     outside dir (files d) (files d') /\ part_in dir p') /\
  (forall now batch res p' d', Partition_append_batch now p batch d = Some ((res, p'), d') ->
     outside dir (files d) (files d') /\ part_in dir p') /\
  (forall d', Partition_flush p d = Some (tt, d') -> outside dir (files d) (files d')) /\
  (forall now ms rb dry st p' out d',
     Partition_scan_and_delete_segments now p ms rb dry d = Some ((st, p', out), d') ->
     outside dir (files d) (files d') /\ part_in dir p').
Proof.
  apply (partition_footprint (W := memory_disk)
           (Partition_new 0 [str "data"; str "t"; str "0"] default_StorageConfig)).
  split; [done|constructor].
Defined.
