(* ===== verification/Partitioner.v ===== *)
(** * Partitioner: the choice of a partition for a record (src/Partitioner.cpp)

    [Partitioner] is the interface of include/streamforge/Partitioner.hpp: a state
    and the operation [partition], which always names an existing partition.  Its
    instances are the round-robin and the key-hash partitioner; the atomic counter
    of the former is the state, and its increment wraps at 32 bits. *)
From S2P Require Import Prelude.

(** The abstract class, with the promise its clients index their arrays with. *)
Class Partitioner (P : Type) := {
  partition : P -> bytes -> Z -> Z * P;
  partition_range p key n : 0 < n -> 0 <= (partition p key n).1 < n;
  partition_none p key : partition p key 0 = (0, p);
}.

Record RoundRobinPartitioner := mkRoundRobinPartitioner {
  m_counter : Z;                (* std::atomic<uint32_t> *)
}.

Definition RoundRobinPartitioner_partition (p : RoundRobinPartitioner) (key : bytes) (num_partitions : Z)
    : Z * RoundRobinPartitioner :=
  if num_partitions =? 0 then (0, p)
  else (m_counter p mod num_partitions, mkRoundRobinPartitioner (u32 (m_counter p + 1))).

Record KeyHashPartitioner := mkKeyHashPartitioner {
  m_fallback_rr : RoundRobinPartitioner;
}.

Definition KeyHashPartitioner_fnv1a_32 (data : bytes) : Z :=
  foldl (fun hash b => u32 (Z.lxor hash (byte_to_Z b) * 16777619)) 2166136261 data.

Definition KeyHashPartitioner_partition (p : KeyHashPartitioner) (key : bytes) (num_partitions : Z)
    : Z * KeyHashPartitioner :=
  if num_partitions =? 0 then (0, p)
  else match key with
  | [] =>
      let '(r, rr) := RoundRobinPartitioner_partition (m_fallback_rr p) key num_partitions in
      (r, mkKeyHashPartitioner rr)
  | _ => (KeyHashPartitioner_fnv1a_32 key mod num_partitions, p)
  end.

#[global, refine] Instance RoundRobin_Partitioner : Partitioner RoundRobinPartitioner := {|
  partition := RoundRobinPartitioner_partition;
|}.
Proof.
  - intros p key n Hn. unfold RoundRobinPartitioner_partition. rewrite (proj2 (Z.eqb_neq _ _)) by lia.
    apply Z.mod_pos_bound, Hn.
  - done.
Defined.

#[global, refine] Instance KeyHash_Partitioner : Partitioner KeyHashPartitioner := {|
  partition := KeyHashPartitioner_partition;
|}.
Proof.
  - intros p key n Hn. unfold KeyHashPartitioner_partition. rewrite (proj2 (Z.eqb_neq _ _)) by lia.
    destruct key as [|b key].
    + pose proof (partition_range (m_fallback_rr p) [] n Hn) as Hr. cbn [partition RoundRobin_Partitioner] in Hr.
      by destruct (RoundRobinPartitioner_partition (m_fallback_rr p) [] n).
    + apply Z.mod_pos_bound, Hn.
  - done.
Defined.

(** Successive calls. *)
Fixpoint partition_calls {P} `{!Partitioner P} (p : P) (keys : list bytes) (n : Z) : list Z * P :=
  match keys with
  | [] => ([], p)
  | key :: keys =>
      let '(r, p) := partition p key n in
      let '(rs, p) := partition_calls p keys n in (r :: rs, p)
  end.

(** ** Round robin *)

Lemma rr_calls keys n : forall c, 0 < n -> 0 <= c -> c + zlen keys <= 2 ^ 32 ->
  (partition_calls (mkRoundRobinPartitioner c) keys n).1 = (fun i => i mod n) <$> seqZ c (zlen keys).
Proof.
  induction keys as [|k keys IH]; intros c Hn Hc Hk; [done|].
  rewrite zlen_cons in *. pose proof (zlen_nonneg keys).
  rewrite seqZ_cons by lia. cbn [partition_calls partition RoundRobin_Partitioner fmap list_fmap].
  unfold RoundRobinPartitioner_partition at 1. rewrite (proj2 (Z.eqb_neq _ _)) by lia. cbn [m_counter].
  destruct (decide (keys = [])) as [->|Hne]; [done|].
  assert (0 < zlen keys) by (destruct keys; [done|unfold zlen; cbn; lia]).
  rewrite u32_id by (unfold is_u32; lia). specialize (IH (c + 1) Hn ltac:(lia) ltac:(lia)).
  destruct (partition_calls _ keys n) as [rs p'] eqn:E. cbn [fst] in *. rewrite IH.
  replace (Z.pred (1 + zlen keys)) with (zlen keys) by lia. by replace (Z.succ c) with (c + 1) by lia.
Qed.

Lemma mod_window_perm c n : 0 < n -> (fun i => i mod n) <$> seqZ c n ≡ₚ seqZ 0 n.
Proof.
  intros Hn. symmetry. apply submseteq_length_Permutation.
  - apply NoDup_submseteq; [apply NoDup_seqZ|]. intros x Hx. apply elem_of_seqZ in Hx.
    apply list_elem_of_fmap. exists (c + (x - c) mod n). split.
    + rewrite Zplus_mod_idemp_r. replace (c + (x - c)) with x by lia. symmetry. apply Z.mod_small. lia.
    + apply elem_of_seqZ. pose proof (Z.mod_pos_bound (x - c) n Hn). lia.
  - rewrite length_fmap, !length_seqZ. done.
Qed.

(** ** Properties *)

(** Round robin is fair.  Any [n] successive choices among [n] partitions (with
    whatever keys, and as long as the 32-bit counter does not wrap in between) name
    every partition exactly once. *)
Theorem round_robin_fair c keys n :
  0 < n -> zlen keys = n -> 0 <= c -> c + n <= 2 ^ 32 ->
  (partition_calls (mkRoundRobinPartitioner c) keys n).1 ≡ₚ seqZ 0 n.
Proof. intros Hn Hk Hc Hw. rewrite rr_calls by lia. rewrite Hk. by apply mod_window_perm. Qed.

Example round_robin_fair_witness :
  (partition_calls (mkRoundRobinPartitioner 5) [str "a"; []; str "a"] 3).1 ≡ₚ seqZ 0 3.
Proof. apply (round_robin_fair 5); [lia|reflexivity|lia|lia]. Defined.

(** A key stays in its partition.  Whatever calls happened before and in
    between, the key-hash partitioner sends a non-empty key to one and the same
    existing partition, and it leaves the fallback counter alone. *)
Theorem key_partition_stable p keys key n :
  key <> [] -> 0 < n ->
  let '(_, p') := partition_calls p keys n in
  (partition p' key n).1 = (partition p key n).1 /\ 0 <= (partition p key n).1 < n /\
  (partition (P := KeyHashPartitioner) p key n).2 = p.
Proof.
  intros Hk Hn. destruct (partition_calls p keys n) as [rs p'].
  pose proof (partition_range p key n Hn). cbn [partition KeyHash_Partitioner] in *.
  unfold KeyHashPartitioner_partition in *. rewrite (proj2 (Z.eqb_neq n 0)) in * by lia.
  by destruct key as [|b key].
Qed.

Example key_partition_stable_witness :
  let p := mkKeyHashPartitioner (mkRoundRobinPartitioner 7) in
  let '(_, p') := partition_calls p [str "x"; []; str "yy"] 4 in
  (partition p' (str "user-1") 4).1 = (partition p (str "user-1") 4).1 /\
  0 <= (partition p (str "user-1") 4).1 < 4 /\
  (partition (P := KeyHashPartitioner) p (str "user-1") 4).2 = p.
Proof.
  apply (key_partition_stable (mkKeyHashPartitioner (mkRoundRobinPartitioner 7)) [str "x"; []; str "yy"]).
  - done.
  - lia.
Defined.

(** The FNV-1a test vector of the empty string and of "a". *)
Example fnv1a_vectors :
  KeyHashPartitioner_fnv1a_32 [] = 0x811c9dc5 /\ KeyHashPartitioner_fnv1a_32 (str "a") = 0xe40c292c /\
  KeyHashPartitioner_fnv1a_32 (str "foobar") = 0xbf9cf968.
Proof. by vm_compute. Qed.
