(* ===== verification/Assignor.v ===== *)
(** * Assignor: dealing the partitions of a group to its members (src/Assignor.cpp)

    The two strategies build a map from member to assignment; both are folds of
    [assign_push], the [push_back] on the entry of a member.  [Assignor] is what the
    group coordinator relies on: every member has an entry, and together the entries
    hold every partition exactly as often as the subscription does. *)
From S2P Require Import Prelude StdString.

Record TopicPartition := mkTopicPartition {
  tp_topic : bytes;
  tp_partition : Z;             (* uint16_t *)
}.

#[global] Instance TopicPartition_eq_dec : EqDecision TopicPartition.
Proof. solve_decision. Defined.

Definition TopicPartition_ltb (a b : TopicPartition) : bool :=
  if negb (bytes_eqb (tp_topic a) (tp_topic b)) then string_ltb (tp_topic a) (tp_topic b)
  else tp_partition a <? tp_partition b.

Inductive AssignorStrategy := Range | RoundRobin.

#[global] Instance AssignorStrategy_eq_dec : EqDecision AssignorStrategy.
Proof. solve_decision. Defined.

Abbreviation assignments := (gmap bytes (list TopicPartition)).

(** [result[member].push_back(tp)] *)
Definition assign_push (result : assignments) (member : bytes) (tp : TopicPartition) : assignments :=
  <[member := default [] (result !! member) ++ [tp]]> result.

(** [for (m : sorted_members) result[m] = {};] *)
Definition assign_init (sorted_members : list bytes) : assignments :=
  foldl (fun result m => <[m := []]> result) ∅ sorted_members.

Definition RangeAssignor_assign (sorted_members : list bytes) (topic_partitions : list (bytes * Z))
    : assignments :=
  let result := assign_init sorted_members in
  if bool_decide (sorted_members = []) then result else
  let num_members := zlen sorted_members in
  foldl (fun result '(topic, num_parts) =>
    let base := num_parts / num_members in
    let extra := num_parts mod num_members in
    foldl (fun result '(i, member) =>
      let count := base + (if i <? extra then 1 else 0) in
      let start := i * base + Z.min i extra in
      foldl (fun result p => assign_push result member (mkTopicPartition topic (u16 (start + p))))
        result (seqZ 0 count))
      result (zip (seqZ 0 num_members) sorted_members))
    result topic_partitions.

(** The order [std::sort] sorts by: [a] may stand before [b]. *)
Definition TopicPartition_le (a b : TopicPartition) : Prop := TopicPartition_ltb b a = false.

#[global] Instance TopicPartition_le_dec : RelDecision TopicPartition_le.
Proof. intros a b. unfold TopicPartition_le. apply _. Defined.

(** All the (topic, partition) pairs of a subscription. *)
Definition all_partitions (topic_partitions : list (bytes * Z)) : list TopicPartition :=
  concat ((fun '(topic, num_parts) => mkTopicPartition topic <$> seqZ 0 num_parts) <$> topic_partitions).

Definition RoundRobinAssignor_assign (sorted_members : list bytes) (topic_partitions : list (bytes * Z))
    : assignments :=
  let result := assign_init sorted_members in
  if bool_decide (sorted_members = []) then result else
  let all_tp := merge_sort TopicPartition_le (all_partitions topic_partitions) in
  let num_members := zlen sorted_members in
  foldl (fun result '(i, tp) =>
    match sorted_members !! Z.to_nat (i mod num_members) with
    | Some member => assign_push result member tp
    | None => result
    end) result (zip (seqZ 0 (zlen all_tp)) all_tp).

(** ** What is promised *)

(** Everything an assignment hands out. *)
Definition assigned (r : assignments) : list TopicPartition := concat (map_to_list r).*2.

Class Assignor (assign : list bytes -> list (bytes * Z) -> assignments) : Prop := {
  assign_members ms tps m : is_Some (assign ms tps !! m) <-> m ∈ ms;
  assign_exact ms tps :
    ms <> [] -> Forall (fun tp => is_u16 tp.2) tps -> assigned (assign ms tps) ≡ₚ all_partitions tps;
}.

(** ** Dealing *)

(** The common shape of both: the pairs (member, partition) in the order in which
    they are pushed. *)
Definition deal (r : assignments) (l : list (bytes * TopicPartition)) : assignments :=
  foldl (fun r '(m, tp) => assign_push r m tp) r l.

Lemma deal_app r l1 l2 : deal r (l1 ++ l2) = deal (deal r l1) l2.
Proof. apply foldl_app. Qed.

Lemma foldl_deal {A} (f : A -> list (bytes * TopicPartition)) (g : assignments -> A -> assignments) l :
  (forall r a, g r a = deal r (f a)) -> forall r, foldl g r l = deal r (concat (f <$> l)).
Proof.
  intros Hg. induction l as [|a l IH]; intros r; [done|]. cbn [foldl fmap list_fmap concat].
  by rewrite deal_app, <- Hg.
Qed.

Lemma assign_init_lookup ms m : assign_init ms !! m = if bool_decide (m ∈ ms) then Some [] else None.
Proof.
  unfold assign_init. induction ms as [|x ms IH] using rev_ind.
  - rewrite bool_decide_eq_false_2 by apply not_elem_of_nil. apply lookup_empty.
  - rewrite foldl_app. cbn [foldl]. destruct (decide (x = m)) as [->|Hne].
    + rewrite lookup_insert_eq. by rewrite bool_decide_eq_true_2 by set_solver.
    + rewrite lookup_insert_ne, IH by done.
      destruct (decide (m ∈ ms)); [by rewrite !bool_decide_eq_true_2 by set_solver|].
      by rewrite !bool_decide_eq_false_2 by set_solver.
Qed.

Lemma deal_lookup l : forall r m lm, r !! m = Some lm ->
  deal r l !! m = Some (lm ++ (filter (fun x => x.1 = m) l).*2).
Proof.
  induction l as [|[x tp] l IH]; intros r m lm Hm; [by rewrite app_nil_r|]. cbn [deal foldl].
  fold (deal (assign_push r x tp) l). unfold assign_push. destruct (decide (x = m)) as [->|Hne].
  - rewrite filter_cons_True by done. rewrite Hm. cbn [default].
    erewrite IH by apply lookup_insert_eq. by rewrite <- app_assoc.
  - rewrite filter_cons_False by done. apply IH. by rewrite lookup_insert_ne.
Qed.

Lemma deal_members (ms : list bytes) l : Forall (fun x => x.1 ∈ ms) l ->
  forall r, (forall m, is_Some (r !! m) <-> m ∈ ms) -> forall m, is_Some (deal r l !! m) <-> m ∈ ms.
Proof.
  induction 1 as [|[x tp] l Hx _ IH]; intros r Hr; [done|]. apply IH. intros m. unfold assign_push.
  destruct (decide (x = m)) as [<-|Hne]; [|by rewrite lookup_insert_ne].
  rewrite lookup_insert_eq. naive_solver.
Qed.

Lemma assigned_push r m tp : assigned (assign_push r m tp) ≡ₚ tp :: assigned r.
Proof.
  unfold assigned, assign_push. destruct (r !! m) as [l|] eqn:E; cbn [default].
  - rewrite <- insert_delete_eq, map_to_list_insert by apply lookup_delete_eq.
    assert (r = <[m := l]> (delete m r)) as Er by (by rewrite insert_delete_id).
    rewrite Er at 2. rewrite map_to_list_insert by apply lookup_delete_eq. cbn [fmap list_fmap snd concat].
    rewrite <- app_assoc. cbn [app]. symmetry. apply Permutation_middle.
  - by rewrite map_to_list_insert.
Qed.

Lemma assigned_deal l : forall r, assigned (deal r l) ≡ₚ l.*2 ++ assigned r.
Proof.
  induction l as [|[m tp] l IH]; intros r; [done|]. cbn [deal foldl fmap list_fmap snd].
  fold (deal (assign_push r m tp) l). rewrite IH, assigned_push. symmetry. apply Permutation_middle.
Qed.

Lemma assigned_empty (r : assignments) : (forall m l, r !! m = Some l -> l = []) -> assigned r = [].
Proof.
  intros Hr. unfold assigned.
  assert (forall x, x ∈ map_to_list r -> x.2 = []) as H.
  { intros [m l] Hin. apply elem_of_map_to_list in Hin. by eapply Hr. }
  induction (map_to_list r) as [|x xs IH]; [done|]. cbn. rewrite (H x) by set_solver.
  apply IH. set_solver.
Qed.

Lemma assigned_init ms : assigned (assign_init ms) = [].
Proof.
  apply assigned_empty. intros m l. rewrite assign_init_lookup. case_bool_decide; naive_solver.
Qed.

Lemma init_members ms m : is_Some (assign_init ms !! m) <-> m ∈ ms.
Proof. rewrite assign_init_lookup. case_bool_decide; naive_solver. Qed.

(** ** Range *)

Definition range_count (num_parts n i : Z) : Z := num_parts / n + (if i <? num_parts mod n then 1 else 0).
Definition range_start (num_parts n i : Z) : Z := i * (num_parts / n) + Z.min i (num_parts mod n).

(** The block of consecutive partitions of a topic that the [i]-th of [n] members gets. *)
Definition range_block (n i : Z) (tp : bytes * Z) : list TopicPartition :=
  mkTopicPartition tp.1 <$> seqZ (range_start tp.2 n i) (range_count tp.2 n i).

Definition range_deals (ms : list bytes) (tps : list (bytes * Z)) : list (bytes * TopicPartition) :=
  concat ((fun tp => concat ((fun im => (fun t => (im.2, t)) <$> range_block (zlen ms) im.1 tp)
                               <$> zip (seqZ 0 (zlen ms)) ms)) <$> tps).

Lemma range_next np n i : range_start np n (i + 1) = range_start np n i + range_count np n i.
Proof.
  unfold range_start, range_count. destruct (Z.ltb_spec i (np mod n)); lia.
Qed.

Lemma range_start_end np n : 0 < n -> 0 <= np -> range_start np n n = np.
Proof.
  intros Hn Hp. unfold range_start. pose proof (Z.mod_pos_bound np n Hn). rewrite Z.min_r by lia.
  pose proof (Z.div_mod np n). lia.
Qed.

Lemma range_count_nonneg np n i : 0 < n -> 0 <= np -> 0 <= range_count np n i.
Proof.
  intros Hn Hp. unfold range_count. pose proof (Z.div_pos np n Hp Hn). destruct (_ <? _); lia.
Qed.

Lemma range_start_mono np n i j : 0 < n -> 0 <= np -> i <= j -> range_start np n i <= range_start np n j.
Proof.
  intros Hn Hp Hij. unfold range_start. pose proof (Z.div_pos np n Hp Hn). nia.
Qed.

Lemma range_start_nonneg np n i : 0 < n -> 0 <= np -> 0 <= i -> 0 <= range_start np n i.
Proof.
  intros Hn Hp Hi. unfold range_start. pose proof (Z.div_pos np n Hp Hn).
  pose proof (Z.mod_pos_bound np n Hn). nia.
Qed.

Lemma seqZ_shift a n (f : Z -> TopicPartition) : (fun p => f (a + p)) <$> seqZ 0 n = f <$> seqZ a n.
Proof.
  replace (seqZ a n) with (Z.add a <$> seqZ 0 n) by (by rewrite fmap_add_seqZ, Z.add_0_r).
  by rewrite <- list_fmap_compose.
Qed.

Lemma range_block_u16 n i tp : 0 < n -> 0 <= i < n -> is_u16 tp.2 ->
  (fun p => mkTopicPartition tp.1 (u16 (range_start tp.2 n i + p))) <$> seqZ 0 (range_count tp.2 n i) =
  range_block n i tp.
Proof.
  intros Hn Hi [Hp Hp']. rewrite (seqZ_shift _ _ (fun p => mkTopicPartition tp.1 (u16 p))).
  unfold range_block. apply list_fmap_ext. intros j x Hx. apply lookup_seqZ in Hx as [-> Hj].
  pose proof (range_start_nonneg tp.2 n i Hn Hp ltac:(lia)).
  pose proof (range_next tp.2 n i). pose proof (range_start_mono tp.2 n (i + 1) n Hn Hp ltac:(lia)).
  rewrite (range_start_end _ _ Hn Hp) in *. rewrite u16_id; [done|]. unfold is_u16. lia.
Qed.

Lemma foldl_push m l : forall r, foldl (fun r t => assign_push r m t) r l = deal r ((fun t => (m, t)) <$> l).
Proof. induction l as [|t l IH]; intros r; [done|]. apply IH. Qed.

Lemma foldl_ext_in {A B} (f g : A -> B -> A) l :
  (forall a b, b ∈ l -> f a b = g a b) -> forall a, foldl f a l = foldl g a l.
Proof.
  induction l as [|b l IH]; intros H a; [done|]. cbn. rewrite H by set_solver. apply IH. set_solver.
Qed.

Lemma range_deal ms tps : ms <> [] -> Forall (fun tp => is_u16 tp.2) tps ->
  RangeAssignor_assign ms tps = deal (assign_init ms) (range_deals ms tps).
Proof.
  intros Hne Hu. unfold RangeAssignor_assign. rewrite bool_decide_eq_false_2 by done. cbn zeta.
  assert (0 < zlen ms) as Hn by (destruct ms; [done|unfold zlen; cbn; lia]).
  unfold range_deals. rewrite <- (foldl_deal _ (fun r tp => deal r (concat ((fun im => (fun t => (im.2, t)) <$>
    range_block (zlen ms) im.1 tp) <$> zip (seqZ 0 (zlen ms)) ms)))) by done.
  apply foldl_ext_in. intros r [t np] Htp.
  rewrite <- (foldl_deal _ (fun r im => deal r ((fun t => (im.2, t)) <$> range_block (zlen ms) im.1 (t, np))))
    by done.
  apply foldl_ext_in. intros r' [i m] Him. apply elem_of_zip_l in Him. apply elem_of_seqZ in Him.
  rewrite list.Forall_forall in Hu. specialize (Hu _ Htp). cbn [fst snd] in *.
  rewrite <- (range_block_u16 (zlen ms) i (t, np)) by (done || lia). cbn [fst snd].
  rewrite <- foldl_push. by rewrite foldl_fmap.
Qed.

(** The blocks of a topic follow each other from partition 0 to the last. *)
Lemma range_blocks_concat n (ms : list bytes) tp i :
  0 < n -> 0 <= tp.2 -> 0 <= i -> i + zlen ms = n ->
  concat ((fun im => range_block n im.1 tp) <$> zip (seqZ i (zlen ms)) ms) =
  mkTopicPartition tp.1 <$> seqZ (range_start tp.2 n i) (tp.2 - range_start tp.2 n i).
Proof.
  intros Hn Hp. revert i. induction ms as [|m ms IH]; intros i Hi Hl.
  - change (zlen []) with 0 in *. rewrite Z.add_0_r in Hl. subst i. rewrite (range_start_end _ _ Hn Hp).
    by rewrite Z.sub_diag.
  - rewrite zlen_cons in *. pose proof (zlen_nonneg ms). rewrite seqZ_cons by lia.
    replace (Z.pred (1 + zlen ms)) with (zlen ms) by lia. cbn [zip zip_with fmap list_fmap concat fst].
    fold (zip (seqZ (Z.succ i) (zlen ms)) ms). rewrite IH by lia. unfold range_block. rewrite <- fmap_app.
    f_equal. replace (Z.succ i) with (i + 1) by lia. pose proof (range_count_nonneg tp.2 n i Hn Hp).
    pose proof (range_next tp.2 n i) as Hnx. pose proof (range_start_mono tp.2 n (i + 1) n Hn Hp ltac:(lia)) as Hm.
    rewrite (range_start_end _ _ Hn Hp) in Hm. rewrite Hnx in *.
    rewrite <- seqZ_app by lia. f_equal. lia.
Qed.

Lemma snd_pair {A B} (m : A) (l : list B) : ((fun t => (m, t)) <$> l).*2 = l.
Proof. rewrite <- list_fmap_compose. apply list_fmap_id. Qed.

Lemma range_deals_snd ms tps : ms <> [] -> Forall (fun tp => is_u16 tp.2) tps ->
  (range_deals ms tps).*2 = all_partitions tps.
Proof.
  intros Hne Hu. assert (0 < zlen ms) as Hn by (destruct ms; [done|unfold zlen; cbn; lia]).
  unfold range_deals, all_partitions. induction Hu as [|[t np] tps [Hp _] _ IH]; [done|].
  cbn [fmap list_fmap concat]. rewrite fmap_app. f_equal; [|exact IH]. cbn [fst snd] in *.
  pose proof (range_blocks_concat (zlen ms) ms (t, np) 0 Hn Hp ltac:(lia) ltac:(lia)) as H.
  replace (range_start (t, np).2 (zlen ms) 0) with 0 in H
    by (unfold range_start; pose proof (Z.mod_pos_bound np (zlen ms) Hn); cbn; lia).
  cbn [fst snd] in H. rewrite Z.sub_0_r in H. rewrite <- H.
  etransitivity; [apply concat_map|]. f_equal. etransitivity; [symmetry; apply (list_fmap_compose)|]. apply list_fmap_ext. intros i im _. apply snd_pair.
Qed.

Lemma range_deals_members ms tps : Forall (fun x => x.1 ∈ ms) (range_deals ms tps).
Proof.
  apply list.Forall_forall. intros [m t] Hin. unfold range_deals in Hin.
  apply list_elem_of_In, in_concat in Hin as (l & Hl & Hin). apply list_elem_of_In in Hl, Hin.
  apply list_elem_of_fmap in Hl as (tp & -> & _).
  apply list_elem_of_In, in_concat in Hin as (l & Hl & Hin). apply list_elem_of_In in Hl, Hin.
  apply list_elem_of_fmap in Hl as ([i m'] & -> & Hz). apply list_elem_of_fmap in Hin as (t' & E & _).
  injection E as -> ->. by apply elem_of_zip_r in Hz.
Qed.

#[global] Instance Range_Assignor : Assignor RangeAssignor_assign.
Proof.
  split.
  - intros ms tps m. destruct (decide (ms = [])) as [->|Hne]; [apply init_members|].
    unfold RangeAssignor_assign. rewrite bool_decide_eq_false_2 by done. cbn zeta.
    revert m. generalize (init_members ms). generalize (assign_init ms). induction tps as [|[t np] tps IH].
    + done.
    + intros r Hr. cbn [foldl]. apply IH. clear IH. generalize (np / zlen ms), (np mod zlen ms). intros b e.
      assert (forall x, x ∈ zip (seqZ 0 (zlen ms)) ms -> x.2 ∈ ms) as Hz
        by (intros [i m] Hi; by apply elem_of_zip_r in Hi).
      revert r Hr. induction (zip (seqZ 0 (zlen ms)) ms) as [|[i m] l IH]; intros r Hr; [done|].
      cbn [foldl]. apply IH; [set_solver|].
      rewrite <- (foldl_fmap (fun r t => assign_push r m t)), foldl_push.
      apply deal_members; [|done]. apply list.Forall_forall. intros [m' t'] Hin.
      apply list_elem_of_fmap in Hin as (? & E & _). injection E as -> ->. apply (Hz (i, m)). set_solver.
  - intros ms tps Hne Hu. rewrite range_deal by done. rewrite assigned_deal, assigned_init, app_nil_r.
    by rewrite range_deals_snd.
Qed.

(** ** Round robin *)

Definition rr_deals (ms : list bytes) (l : list TopicPartition) : list (bytes * TopicPartition) :=
  (fun '(i, tp) => (default [] (ms !! Z.to_nat (i mod zlen ms)), tp)) <$> zip (seqZ 0 (zlen l)) l.

Lemma rr_member (ms : list bytes) i : ms <> [] ->
  exists m, ms !! Z.to_nat (i mod zlen ms) = Some m /\ m ∈ ms.
Proof.
  intros Hne. assert (0 < zlen ms) as Hn by (destruct ms; [done|unfold zlen; cbn; lia]).
  pose proof (Z.mod_pos_bound i (zlen ms) Hn).
  destruct (lookup_lt_is_Some_2 ms (Z.to_nat (i mod zlen ms))) as [m Hm]; [unfold zlen in *; lia|].
  exists m. split; [done|by eapply list_elem_of_lookup_2].
Qed.

Lemma rr_deal ms tps : ms <> [] ->
  RoundRobinAssignor_assign ms tps =
  deal (assign_init ms) (rr_deals ms (merge_sort TopicPartition_le (all_partitions tps))).
Proof.
  intros Hne. unfold RoundRobinAssignor_assign. rewrite bool_decide_eq_false_2 by done. cbn zeta.
  set (l := merge_sort _ _). unfold rr_deals, deal. rewrite foldl_fmap.
  apply foldl_ext_in. intros r [i tp] _. destruct (rr_member ms i Hne) as (m & Hm & _). by rewrite Hm.
Qed.

Lemma rr_deals_snd ms l : (rr_deals ms l).*2 = l.
Proof.
  unfold rr_deals. rewrite <- list_fmap_compose. etransitivity; [|apply (snd_zip (seqZ 0 (zlen l)))].
  - apply list_fmap_ext. by intros ? [? ?] _.
  - rewrite length_seqZ. unfold zlen. lia.
Qed.

Lemma rr_deals_members ms l : ms <> [] -> Forall (fun x => x.1 ∈ ms) (rr_deals ms l).
Proof.
  intros Hne. apply list.Forall_forall. intros [m t] Hin. apply list_elem_of_fmap in Hin as ([i tp] & E & _).
  injection E as -> ->. destruct (rr_member ms i Hne) as (m & Hm & Hin). by rewrite Hm.
Qed.

#[global] Instance RoundRobin_Assignor : Assignor RoundRobinAssignor_assign.
Proof.
  split.
  - intros ms tps m. destruct (decide (ms = [])) as [->|Hne]; [apply init_members|].
    rewrite rr_deal by done. apply deal_members; [by apply rr_deals_members|apply init_members].
  - intros ms tps Hne _. rewrite rr_deal by done. rewrite assigned_deal, assigned_init, app_nil_r, rr_deals_snd.
    apply merge_sort_Permutation.
Qed.

Lemma zip_snoc (l : list TopicPartition) x :
  zip (seqZ 0 (zlen (l ++ [x]))) (l ++ [x]) = zip (seqZ 0 (zlen l)) l ++ [(zlen l, x)].
Proof.
  rewrite zlen_app. change (zlen [x]) with 1. pose proof (zlen_nonneg l). rewrite seqZ_app by lia.
  change (seqZ (0 + zlen l) 1) with [0 + zlen l].
  rewrite zip_with_app by (rewrite length_seqZ; unfold zlen; lia). done.
Qed.

Lemma div_step q n i : 0 < n -> 0 <= q -> 0 <= i < n ->
  (q + 1 + n - 1 - i) / n = (q + n - 1 - i) / n + (if q mod n =? i then 1 else 0).
Proof.
  intros Hn Hq Hi. pose proof (Z.div_mod q n ltac:(lia)) as Hd. pose proof (Z.mod_pos_bound q n Hn).
  set (a := q / n) in *. set (b := q mod n) in *.
  destruct (Z.eqb_spec b i) as [Hb|Hne].
  - rewrite <- (Z.div_unique (q + 1 + n - 1 - i) n (a + 1) 0) by lia.
    rewrite <- (Z.div_unique (q + n - 1 - i) n a (n - 1)) by lia. done.
  - destruct (Z.lt_ge_cases i b).
    + rewrite <- (Z.div_unique (q + 1 + n - 1 - i) n (a + 1) (b - i)) by lia.
      rewrite <- (Z.div_unique (q + n - 1 - i) n (a + 1) (b - 1 - i)) by lia. lia.
    + rewrite <- (Z.div_unique (q + 1 + n - 1 - i) n a (b + n - i)) by lia.
      rewrite <- (Z.div_unique (q + n - 1 - i) n a (b + n - 1 - i)) by lia. lia.
Qed.

(** How many of the dealt partitions the [i]-th member gets. *)
Lemma rr_count ms l i m : NoDup ms -> ms !! i = Some m ->
  zlen (filter (fun x => x.1 = m) (rr_deals ms l)) = (zlen l + zlen ms - 1 - Z.of_nat i) / zlen ms.
Proof.
  intros Hnd Hi. assert (ms <> []) as Hne by (by intros ->).
  pose proof (lookup_lt_Some _ _ _ Hi) as Hlt. assert (0 < zlen ms) as Hn by (unfold zlen; lia).
  induction l as [|x l IH] using rev_ind.
  - change (zlen []) with 0. cbn. symmetry. apply Z.div_small. unfold zlen in *. lia.
  - unfold rr_deals in *. rewrite zip_snoc, fmap_app, list.filter_app, !zlen_app, IH. cbn [fmap list_fmap].
    rewrite filter_cons, filter_nil. cbn [fst]. change (zlen [x]) with 1.
    rewrite div_step by (unfold zlen in *; lia). f_equal.
    destruct (rr_member ms (zlen l) Hne) as (m' & Hm' & _). rewrite Hm'. cbn [default].
    pose proof (Z.mod_pos_bound (zlen l) (zlen ms) Hn).
    destruct (Z.eqb_spec (zlen l mod zlen ms) (Z.of_nat i)) as [E|E].
    + rewrite E, Nat2Z.id, Hi in Hm'. injection Hm' as ->. by rewrite decide_True.
    + rewrite decide_False; [done|]. intros Hm. unfold default, id in Hm. subst m'. apply E.
      pose proof (NoDup_lookup _ _ _ _ Hnd Hm' Hi). lia.
Qed.

(** The part of the deal of one topic that concerns the [i]-th member. *)
Definition topic_deals (n k : Z) (ms : list bytes) (tp : bytes * Z) : list (bytes * TopicPartition) :=
  concat ((fun im => (fun t => (im.2, t)) <$> range_block n im.1 tp) <$> zip (seqZ k (zlen ms)) ms).

Lemma topic_deals_other n k ms tp m : m ∉ ms -> filter (fun x => x.1 = m) (topic_deals n k ms tp) = [].
Proof.
  intros Hl. apply filter_none, list.Forall_forall. intros [m' t'] Hin Hm. cbn in Hm. subst m'.
  apply list_elem_of_In, in_concat in Hin as (l' & Hl' & Hin). apply list_elem_of_In in Hl', Hin.
  apply list_elem_of_fmap in Hl' as ([k' m'] & -> & Hz). apply list_elem_of_fmap in Hin as (t & E & _).
  injection E as -> ->. apply Hl. by apply elem_of_zip_r in Hz.
Qed.

Lemma topic_deals_member n ms tp i m : forall k, NoDup ms -> ms !! i = Some m ->
  (filter (fun x => x.1 = m) (topic_deals n k ms tp)).*2 = range_block n (k + Z.of_nat i) tp.
Proof.
  revert i. induction ms as [|x ms IH]; intros i k Hnd Hi; [done|].
  apply list.NoDup_cons in Hnd as [Hx Hnd]. unfold topic_deals. pose proof (zlen_nonneg ms).
  rewrite zlen_cons, seqZ_cons by lia. replace (Z.pred (1 + zlen ms)) with (zlen ms) by lia.
  cbn [zip zip_with fmap list_fmap concat fst snd]. rewrite list.filter_app, fmap_app.
  fold (zip (seqZ (Z.succ k) (zlen ms)) ms). fold (topic_deals n (Z.succ k) ms tp).
  destruct i as [|i]; cbn [lookup list_lookup] in Hi.
  - injection Hi as ->. rewrite topic_deals_other by done. rewrite app_nil_r, Z.add_0_r.
    rewrite filter_all by (apply list.Forall_forall; intros [? ?] Hy; apply list_elem_of_fmap in Hy; naive_solver).
    apply snd_pair.
  - rewrite (IH i) by done. rewrite filter_none; [cbn; f_equal; lia|].
    apply list.Forall_forall. intros [? ?] Hy. apply list_elem_of_fmap in Hy as (? & [= -> ->] & _). cbn. intros ->.
    by eapply Hx, list_elem_of_lookup_2.
Qed.

(** ** Properties *)

(** Range assignment is contiguous and even.  Of every topic the [i]-th of [n]
    members gets one block of consecutive partitions, the blocks of the members
    follow each other, and the sizes of any two differ by at most one. *)
Theorem range_assignment_blocks ms tps i j m :
  NoDup ms -> Forall (fun tp => is_u16 tp.2) tps -> ms !! i = Some m ->
  RangeAssignor_assign ms tps !! m = Some (concat (range_block (zlen ms) (Z.of_nat i) <$> tps)) /\
  Forall (fun tp => Z.abs (zlen (range_block (zlen ms) (Z.of_nat i) tp) -
                           zlen (range_block (zlen ms) (Z.of_nat j) tp)) <= 1) tps.
Proof.
  intros Hnd Hu Hi. assert (ms <> []) as Hne by (by intros ->).
  pose proof (lookup_lt_Some _ _ _ Hi) as Hlt. assert (0 < zlen ms) as Hn by (unfold zlen; lia). split.
  - rewrite range_deal by done. erewrite deal_lookup;
      [|rewrite assign_init_lookup, bool_decide_eq_true_2; [done|by eapply list_elem_of_lookup_2]].
    cbn [app]. f_equal. clear Hu. induction tps as [|tp tps IH]; [done|].
    unfold range_deals. cbn [fmap list_fmap concat]. rewrite list.filter_app, fmap_app. f_equal; [|exact IH].
    by apply (topic_deals_member (zlen ms) ms tp i m 0).
  - apply list.Forall_forall. intros tp Htp. rewrite list.Forall_forall in Hu. destruct (Hu _ Htp).
    unfold range_block. rewrite !zlen_fmap. unfold zlen at 1 4. rewrite !length_seqZ.
    rewrite !Z2Nat.id by (by apply range_count_nonneg). unfold range_count.
    do 2 destruct (_ <? _); lia.
Qed.

Example range_assignment_blocks_witness :
  let ms := [str "a"; str "b"; str "c"] in
  let tps := [(str "orders", 8); (str "users", 2)] in
  RangeAssignor_assign ms tps !! str "b" =
    Some (concat (range_block (zlen ms) (Z.of_nat 1) <$> tps)) /\
  Forall (fun tp => Z.abs (zlen (range_block (zlen ms) (Z.of_nat 1) tp) -
                           zlen (range_block (zlen ms) (Z.of_nat 2) tp)) <= 1) tps.
Proof.
  apply (range_assignment_blocks [str "a"; str "b"; str "c"] [(str "orders", 8); (str "users", 2)] 1 2).
  - by apply (bool_decide_unpack _).
  - repeat constructor; by vm_compute.
  - reflexivity.
Defined.

(** Round robin assignment is even over all topics: the numbers of partitions of
    any two members differ by at most one. *)
Theorem round_robin_assignment_balanced ms tps m1 m2 :
  NoDup ms -> m1 ∈ ms -> m2 ∈ ms ->
  exists l1 l2, RoundRobinAssignor_assign ms tps !! m1 = Some l1 /\
    RoundRobinAssignor_assign ms tps !! m2 = Some l2 /\ Z.abs (zlen l1 - zlen l2) <= 1.
Proof.
  intros Hnd H1 H2. apply list_elem_of_lookup in H1 as [i Hi], H2 as [j Hj].
  assert (ms <> []) as Hne by (by intros ->). rewrite rr_deal by done. set (l := merge_sort _ _).
  pose proof (lookup_lt_Some _ _ _ Hi). pose proof (lookup_lt_Some _ _ _ Hj).
  assert (0 < zlen ms) as Hn by (unfold zlen; lia).
  assert (forall k m, ms !! k = Some m -> deal (assign_init ms) (rr_deals ms l) !! m =
    Some (filter (fun x => x.1 = m) (rr_deals ms l)).*2) as Hd.
  { intros k m Hk. rewrite (deal_lookup _ _ m []); [done|].
    by rewrite assign_init_lookup, bool_decide_eq_true_2 by (by eapply list_elem_of_lookup_2). }
  do 2 eexists. split_and!; [by eapply Hd|by eapply Hd|]. rewrite !zlen_fmap.
  rewrite (rr_count ms l i m1), (rr_count ms l j m2) by done.
  pose proof (zlen_nonneg l). set (q := zlen l) in *. set (n := zlen ms) in *.
  assert (forall k, 0 <= k < n -> q / n <= (q + n - 1 - k) / n <= q / n + 1) as Hb.
  { intros k Hk. pose proof (Z.div_le_mono q (q + n - 1 - k) n Hn ltac:(lia)).
    pose proof (Z.div_le_mono (q + n - 1 - k) (q + 1 * n) n Hn ltac:(lia)) as Hu.
    rewrite Z.div_add in Hu by lia. lia. }
  pose proof (Hb (Z.of_nat i)) as Hbi. pose proof (Hb (Z.of_nat j)) as Hbj.
  unfold n, zlen in Hbi, Hbj. specialize (Hbi ltac:(lia)). specialize (Hbj ltac:(lia)).
  unfold n, zlen. lia.
Qed.

Example round_robin_assignment_balanced_witness :
  let ms := [str "a"; str "b"; str "c"] in
  let tps := [(str "users", 2); (str "orders", 5)] in
  exists l1 l2, RoundRobinAssignor_assign ms tps !! str "a" = Some l1 /\
    RoundRobinAssignor_assign ms tps !! str "c" = Some l2 /\ Z.abs (zlen l1 - zlen l2) <= 1.
Proof.
  apply (round_robin_assignment_balanced [str "a"; str "b"; str "c"] [(str "users", 2); (str "orders", 5)]).
  - by apply (bool_decide_unpack _).
  - apply (bool_decide_unpack _). by vm_compute.
  - apply (bool_decide_unpack _). by vm_compute.
Defined.

(** ** For the coordinator *)

(** A partition of a subscription without repeated topics belongs to one member. *)
Lemma all_partitions_nodup tps : NoDup tps.*1 -> NoDup (all_partitions tps).
Proof.
  induction tps as [|[t n] tps IH]; intros Hnd; [constructor|].
  apply list.NoDup_cons in Hnd as [Ht Hnd]. unfold all_partitions. cbn [fmap list_fmap concat].
  apply list.NoDup_app. split_and!; [|intros x Hx Hy|by apply IH].
  - apply NoDup_fmap_2; [by intros ? ? [=]|apply NoDup_seqZ].
  - apply list_elem_of_fmap in Hx as (p & -> & _).
    apply list_elem_of_In, in_concat in Hy as (l & Hl & Hy). apply list_elem_of_In in Hl, Hy.
    apply list_elem_of_fmap in Hl as ([t' n'] & -> & Hin). apply list_elem_of_fmap in Hy as (p' & [= -> ->] & _).
    apply Ht. by apply (list_elem_of_fmap_2 fst _ (t', n')).
Qed.

Lemma elem_of_all_partitions tps tp :
  tp ∈ all_partitions tps <-> exists n, (tp_topic tp, n) ∈ tps /\ 0 <= tp_partition tp < n.
Proof.
  unfold all_partitions. rewrite list_elem_of_In, in_concat. split.
  - intros (l & Hl & Hin). apply list_elem_of_In in Hl, Hin.
    apply list_elem_of_fmap in Hl as ([t n] & -> & Htp). apply list_elem_of_fmap in Hin as (p & -> & Hp).
    apply elem_of_seqZ in Hp. exists n. cbn. split; [done|lia].
  - intros (n & Hin & Hp). exists (mkTopicPartition (tp_topic tp) <$> seqZ 0 n).
    rewrite <- !list_elem_of_In. split.
    + apply list_elem_of_fmap. by exists (tp_topic tp, n).
    + apply list_elem_of_fmap. exists (tp_partition tp). split; [by destruct tp|]. apply elem_of_seqZ. lia.
Qed.

(** The order [std::sort] uses is total and antisymmetric: the sorted permutation is
    unique, whatever algorithm computes it. *)
Lemma topic_sort_unique l l' :
  l' ≡ₚ l -> Sorted TopicPartition_le l' -> l' = merge_sort TopicPartition_le l.
Proof.
  assert (forall a b, TopicPartition_le a b <->
    if bool_decide (tp_topic a = tp_topic b) then tp_partition a <= tp_partition b
    else string_leb (tp_topic a) (tp_topic b) = true) as Hle.
  { intros a b. unfold TopicPartition_le, TopicPartition_ltb, bytes_eqb, string_leb.
    repeat case_bool_decide; try congruence; cbn [negb]; [apply Z.ltb_ge|by rewrite negb_true_iff]. }
  assert (Total TopicPartition_le).
  { intros a b. rewrite !Hle. repeat case_bool_decide; try congruence; [lia|apply string_le_total]. }
  assert (AntiSymm (=) TopicPartition_le).
  { intros [t p] [t' p']. rewrite !Hle. cbn. repeat case_bool_decide; try congruence.
    - intros. f_equal; [done|lia].
    - intros Ha Hb. exfalso. by apply H0, string_le_antisym. }
  assert (Transitive TopicPartition_le).
  { intros a b c. rewrite !Hle. repeat case_bool_decide; try congruence; try (intros; lia).
    - intros Ha Hb. exfalso. apply H1. apply string_le_antisym; congruence.
    - apply string_le_trans. }
  intros Hp Hs. apply (Sorted_unique TopicPartition_le); [done| |].
  - by apply Sorted_merge_sort.
  - by rewrite merge_sort_Permutation.
Qed.
