(* ===== verification/Topic.v ===== *)
(** * Topic: a named set of partitions (src/Topic.cpp)

    The state is the record [Topic].  The partitions are shared objects in the
    program; here a topic owns their state, and whoever holds a pointer to one names
    it by topic and number.  [topic_is d t Ls] says that the partitions of [t] hold
    the logs [Ls], each with its earliest offset, in directories of their own. *)
From S2P Require Import Prelude StdString Status RecordCodec ProtocolMessages FileHandle OffsetIndex LogSegment Partition.
From S2P Require Import PartitionRead PartitionRecovery PartitionFrame PartitionProps Partitioner.

Record Topic := mkTopic {
  tc_name : bytes;
  tc_topic_dir : path;
  tc_config : StorageConfig;
  tc_retention_ms : Z;          (* uint64_t *)
  tc_retention_bytes : Z;       (* uint64_t *)
  tc_key_partitioner : KeyHashPartitioner;
  tc_rr_partitioner : RoundRobinPartitioner;
  tc_partitions : list Partition;
}.

(** Assignments to the members. *)
Definition tc_set_partitions (l : list Partition) (t : Topic) : Topic :=
  mkTopic (tc_name t) (tc_topic_dir t) (tc_config t) (tc_retention_ms t) (tc_retention_bytes t)
    (tc_key_partitioner t) (tc_rr_partitioner t) l.
Definition tc_set_key (k : KeyHashPartitioner) (t : Topic) : Topic :=
  mkTopic (tc_name t) (tc_topic_dir t) (tc_config t) (tc_retention_ms t) (tc_retention_bytes t)
    k (tc_rr_partitioner t) (tc_partitions t).
Definition tc_set_rr (r : RoundRobinPartitioner) (t : Topic) : Topic :=
  mkTopic (tc_name t) (tc_topic_dir t) (tc_config t) (tc_retention_ms t) (tc_retention_bytes t)
    (tc_key_partitioner t) r (tc_partitions t).

(** The constructor: partition [i] lives in the subdirectory [i]. *)
Definition Topic_new (name : bytes) (num_partitions : Z) (topic_dir : path) (config : StorageConfig)
    (retention_ms retention_bytes : Z) : Topic :=
  mkTopic name topic_dir config retention_ms retention_bytes
    (mkKeyHashPartitioner (mkRoundRobinPartitioner 0)) (mkRoundRobinPartitioner 0)
    ((fun i => Partition_new i (topic_dir ++ [std_to_string i]) config) <$> seqZ 0 num_partitions).

Definition Topic_num_partitions (t : Topic) : Z := u32 (zlen (tc_partitions t)).

Definition Topic_get_partition (t : Topic) (partition_id : Z) : option Partition :=
  if zlen (tc_partitions t) <=? partition_id then None else tc_partitions t !! Z.to_nat partition_id.

Definition Topic_is_degraded (t : Topic) : bool := existsb pt_is_degraded (tc_partitions t).

Definition invalid_partition (partition_id : Z) : Status :=
  mkStatus InvalidArgument (str "Invalid partition ID: " ++ std_to_string partition_id).

Section Topic.
Context {W : Win32}.

(** The loop of [open_and_recover]: the partitions before a failing one stay
    recovered. *)
Fixpoint recover_partitions (l : list Partition) : io (Status * list Partition) :=
  match l with
  | [] => mret (Status_OK, [])
  | p :: l =>
      '(st, p) ← Partition_open_and_recover p;
      if negb (Status_ok st) then mret (st, p :: l) else
      '(st, l) ← recover_partitions l;
      mret (st, p :: l)
  end.

Definition Topic_open_and_recover (t : Topic) : io (Status * Topic) :=
  _ ← create_directories (tc_topic_dir t);
  '(st, l) ← recover_partitions (tc_partitions t);
  mret (st, tc_set_partitions l t).

(** An operation on [m_partitions[id]]; no result when there is no such partition. *)
Definition on_partition {A} (t : Topic) (id : Z) (f : Partition -> io (A * Partition)) : io (A * Topic) :=
  p ← io_opt (tc_partitions t !! Z.to_nat id);
  '(a, p) ← f p;
  mret (a, tc_set_partitions (<[Z.to_nat id := p]> (tc_partitions t)) t).

Definition Topic_append_to (now_ms : Z) (t : Topic) (partition_id : Z) (k v : bytes)
    : io (Result Z * Topic) :=
  if zlen (tc_partitions t) <=? partition_id then mret (Err (invalid_partition partition_id), t)
  else on_partition t partition_id (fun p => Partition_append now_ms p k v).

Definition Topic_append (now_ms : Z) (t : Topic) (k v : bytes) : io (Result Z * Topic) :=
  let '(part_id, kp) := KeyHashPartitioner_partition (tc_key_partitioner t) k (Topic_num_partitions t) in
  Topic_append_to now_ms (tc_set_key kp t) part_id k v.

Definition Topic_append_with_timestamp (t : Topic) (partition_id : Z) (k v : bytes) (ts : Z)
    : io (Result Z * Topic) :=
  if zlen (tc_partitions t) <=? partition_id then mret (Err (invalid_partition partition_id), t)
  else on_partition t partition_id (fun p => Partition_append_with_timestamp p k v ts).

(** The partition of a batch: the one asked for, or that of the first record. *)
Definition Topic_choose_partition (t : Topic) (partition : Z) (first_key : bytes) : Z * Topic :=
  if partition =? -1 then
    match first_key with
    | _ :: _ =>
        let '(p, kp) := KeyHashPartitioner_partition (tc_key_partitioner t) first_key
                          (Topic_num_partitions t) in (p, tc_set_key kp t)
    | [] =>
        let '(p, rr) := RoundRobinPartitioner_partition (tc_rr_partitioner t) first_key
                          (Topic_num_partitions t) in (p, tc_set_rr rr t)
    end
  else (u32 partition, t).

(** The result and the reference parameter [out_chosen_partition]. *)
Definition Topic_produce_batch (now_ms : Z) (t : Topic) (partition : Z)
    (records : list ProduceRecordPayload) (out_chosen_partition : Z) : io (Result Z * Z * Topic) :=
  match records with
  | [] => mret (Err (mkStatus InvalidArgument (str "Cannot produce empty record batch")),
                out_chosen_partition, t)
  | first :: _ =>
      if (partition <? -1) || (i32 (zlen (tc_partitions t)) <=? partition) then
        mret (Err (mkStatus InvalidArgument (str "Invalid partition ID " ++
                std_to_string partition)), out_chosen_partition, t)
      else
      let '(chosen_p, t) := Topic_choose_partition t partition (prp_key first) in
      let batch := (fun r => (prp_key r, prp_value r)) <$> records in
      '(res, t) ← on_partition t chosen_p (fun p => Partition_append_batch now_ms p batch);
      mret (res, chosen_p, t)
  end.

Fixpoint flush_partitions (l : list Partition) : io unit :=
  match l with
  | [] => mret tt
  | p :: l => _ ← Partition_flush p; flush_partitions l
  end.

Definition Topic_flush (t : Topic) : io unit := flush_partitions (tc_partitions t).

End Topic.

(** ** What a topic holds *)

(** Partition [i] lives in the subdirectory [i]. *)
Definition parts_at (dir : path) (k : nat) (l : list Partition) : Prop :=
  forall i p, l !! i = Some p -> pt_partition_dir p = dir ++ [std_to_string (Z.of_nat (k + i))].

Section spec.
Context {W : Win32}.

Record topic_is (d : disk) (t : Topic) (Ls : list (Z * list Record)) : Prop := {
  ti_dirs : parts_at (tc_topic_dir t) 0 (tc_partitions t);
  ti_logs : Forall2 (fun p EL => part_is d p EL.1 EL.2) (tc_partitions t) Ls;
  ti_count : 0 < zlen (tc_partitions t) < 2 ^ 31;
}.

(** Members that operations on the records leave alone. *)
Definition same_topic (t t' : Topic) : Prop :=
  tc_name t' = tc_name t /\ tc_topic_dir t' = tc_topic_dir t /\ tc_config t' = tc_config t /\
  tc_retention_ms t' = tc_retention_ms t /\ tc_retention_bytes t' = tc_retention_bytes t /\
  length (tc_partitions t') = length (tc_partitions t).

Lemma part_dirs_distinct dir i j : i <> j ->
  dir ++ [std_to_string (Z.of_nat i)] <> dir ++ [std_to_string (Z.of_nat j)].
Proof.
  intros Hne E. apply app_inj_1 in E as [_ E]; [|done]. injection E as E.
  apply to_string_inj in E; lia.
Qed.

(** Only partition [i] changed: the others still hold what they held. *)
Lemma others_frame d d' dir k (l : list Partition) Ls i :
  outside (dir ++ [std_to_string (Z.of_nat (k + i))]) (files d) (files d') -> parts_at dir k l ->
  Forall2 (fun p EL => part_is d p EL.1 EL.2) l Ls ->
  forall j p EL, j <> i -> l !! j = Some p -> Ls !! j = Some EL -> part_is d' p EL.1 EL.2.
Proof.
  intros Ho Hat HF j p EL Hj Hp HEL. eapply part_is_frame; [|exact (Forall2_lookup_lr _ _ _ j p EL HF Hp HEL)].
  intros q Hq. apply Ho. eapply within_disjoint; [|exact Hq]. rewrite (Hat _ _ Hp).
  apply part_dirs_distinct. lia.
Qed.

Lemma topic_update d d' t t' Ls i p' EL :
  topic_is d t Ls -> (i < length Ls)%nat -> same_topic t t' ->
  tc_partitions t' = <[i := p']> (tc_partitions t) ->
  pt_partition_dir p' = tc_topic_dir t ++ [std_to_string (Z.of_nat i)] ->
  outside (pt_partition_dir p') (files d) (files d') -> part_is d' p' EL.1 EL.2 ->
  topic_is d' t' (<[i := EL]> Ls).
Proof.
  intros [Hat HF Hc] Hi (_ & Hd & _ & _ & _ & Hlen) Et Hp' Hout Hpart.
  pose proof (Forall2_length HF) as Hl. split.
  - rewrite Hd, Et. intros j p Hj. destruct (decide (j = i)) as [->|Hne].
    + rewrite list_lookup_insert_eq in Hj by lia. by injection Hj as <-.
    + rewrite list_lookup_insert_ne in Hj by done. by apply Hat.
  - rewrite Et. apply Forall2_same_length_lookup. split; [by rewrite !length_insert|].
    intros j p x Hj Hx. destruct (decide (j = i)) as [->|Hne].
    + rewrite list_lookup_insert_eq in Hj by lia. rewrite list_lookup_insert_eq in Hx by done.
      by simplify_eq.
    + rewrite list_lookup_insert_ne in Hj by done. rewrite list_lookup_insert_ne in Hx by done. rewrite Hp' in Hout.
      by eapply (others_frame d d' _ 0).
  - unfold zlen in *. by rewrite Hlen.
Qed.

Lemma same_choice t partition key :
  let t' := (Topic_choose_partition t partition key).2 in same_topic t t' /\ tc_partitions t' = tc_partitions t.
Proof.
  cbn zeta. unfold Topic_choose_partition. destruct (partition =? -1); [|done].
  destruct key; [destruct (RoundRobinPartitioner_partition _ _ _)|destruct (KeyHashPartitioner_partition _ _ _)];
    done.
Qed.

Lemma num_partitions_small t : 0 < zlen (tc_partitions t) < 2 ^ 31 ->
  Topic_num_partitions t = zlen (tc_partitions t) /\ i32 (zlen (tc_partitions t)) = zlen (tc_partitions t).
Proof.
  intros H. unfold Topic_num_partitions. split; [apply u32_id; unfold is_u32; lia|].
  rewrite <- (i32_u32 (zlen (tc_partitions t))) at 2 by (unfold is_i32; lia).
  by rewrite u32_id by (unfold is_u32; lia).
Qed.

(** The chosen partition exists. *)
Lemma choice_range t partition key :
  0 < zlen (tc_partitions t) < 2 ^ 31 -> -1 <= partition < zlen (tc_partitions t) ->
  let c := (Topic_choose_partition t partition key).1 in
  0 <= c < zlen (tc_partitions t) /\ (partition <> -1 -> c = partition) /\
  (partition = -1 -> key <> [] -> c = KeyHashPartitioner_fnv1a_32 key mod zlen (tc_partitions t)).
Proof.
  intros Hc Hp. cbn zeta. unfold Topic_choose_partition. destruct (num_partitions_small t Hc) as [Hn _].
  destruct (Z.eqb_spec partition (-1)) as [->|Hne]; cbn [fst].
  - destruct key as [|b key].
    + pose proof (partition_range (tc_rr_partitioner t) [] _ (proj1 Hc)) as Hr.
      cbn [Partitioner.partition RoundRobin_Partitioner] in Hr. rewrite Hn.
      destruct (RoundRobinPartitioner_partition _ _ _). naive_solver.
    + unfold KeyHashPartitioner_partition. rewrite Hn, (proj2 (Z.eqb_neq _ _)) by lia. cbn [fst].
      pose proof (Z.mod_pos_bound (KeyHashPartitioner_fnv1a_32 (b :: key)) _ (proj1 Hc)). naive_solver.
  - rewrite u32_id by (unfold is_u32; lia). split_and!; [lia|lia|done|done].
Qed.

End spec.

Section produce.
Context {W : Win32} {R : Reliable W}.

(** An operation on one partition, in terms of the logs of all. *)
Lemma wp_on_partition {A} d t t0 Ls i p E L (f : Partition -> io (A * Partition)) Q L' E' :
  topic_is d t Ls -> same_topic t t0 -> tc_partitions t0 = tc_partitions t ->
  tc_partitions t !! i = Some p -> Ls !! i = Some (E, L) ->
  (forall p, part_in (pt_partition_dir p) p -> local (pt_partition_dir p) (f p) (fun r => part_in (pt_partition_dir p) r.2)) ->
  wp (f p) (fun '(a, p') d' => part_is d' p' E' L' /\ same_partition p p' /\ 
              forall t', same_topic t t' -> topic_is d' t' (<[i := (E', L')]> Ls) ->
                tc_partitions t' = <[i := p']> (tc_partitions t) ->
                outside (pt_partition_dir p') (files d) (files d') -> Q (a, t') d') d ->
  wp (on_partition t0 (Z.of_nat i) f) Q d.
Proof.
  intros Ht Hst Ept Hp HL Hloc Hwp. unfold on_partition. rewrite Nat2Z.id, Ept. apply wp_bind.
  eapply wp_opt; [exact Hp|]. apply wp_bind.
  assert (part_is d p E L) as Hpi by exact (Forall2_lookup_lr _ _ _ i p (E, L) (ti_logs _ _ _ Ht) Hp HL).
  pose proof (part_is_in _ _ _ _ Hpi) as Hin.
  eapply wp_mono; [eapply wp_local; [exact Hwp|apply Hloc, Hin]|].
  intros [a p'] d' ((Hp' & (_ & Hdir & _) & HQ) & _ & Hout). apply wp_ret.
  assert (length (<[i := p']> (tc_partitions t)) = length (tc_partitions t)) as Hlen by apply length_insert.
  assert (same_topic t (tc_set_partitions (<[i := p']> (tc_partitions t)) t0)) as Hs
    by (destruct Hst as (?&?&?&?&?&?); by repeat split).
  apply HQ; [exact Hs| |cbn; by rewrite ?Ept|by rewrite Hdir].
  eapply (topic_update d d' t _ Ls i p' (E', L')); [done|by eapply lookup_lt_Some|exact Hs|done| | |done].
  - rewrite Hdir. by apply (ti_dirs _ _ _ Ht).
  - by rewrite Hdir.
Qed.

End produce.

Section recover.
Context {W : Win32} {R : Reliable W}.

(** Starting the partitions one after the other: the ones already running are not
    touched by the next. *)
Lemma wp_recover_partitions dir l : forall k d Ls Q,
  parts_at dir k l -> Forall (fun p => 28 <= segment_max_bytes (pt_config p) <= LOG_LIMIT) l ->
  Forall (fun p => pt_segments p = []) l ->
  Forall2 (fun p EL => stored_log d (pt_partition_dir p) EL.1 EL.2) l Ls ->
  (forall l' d', Forall2 (fun p EL => part_is d' p EL.1 EL.2) l' Ls -> parts_at dir k l' ->
     Forall2 same_partition l l' ->
     (forall q, (forall i, (k <= i < k + length l)%nat -> ~ within (dir ++ [std_to_string (Z.of_nat i)]) q) ->
        files d' !! q = files d !! q) ->
     Q (Status_OK, l') d') ->
  wp (recover_partitions l) Q d.
Proof.
  induction l as [|p l IH]; intros k d Ls Q Hat Hcfg Hnew HF HQ; cbn [recover_partitions].
  - apply Forall2_nil_inv_l in HF as ->. by apply wp_ret, HQ.
  - apply Forall2_cons_inv_l in HF as ([E L] & Ls' & HEL & HF & ->). cbn [fst snd] in HEL.
    apply list.Forall_cons in Hcfg as [Hc Hcfg]. apply list.Forall_cons in Hnew as [Hn Hnew].
    pose proof (Hat 0%nat p eq_refl) as Hd0. rewrite Nat.add_0_r in Hd0.
    assert (part_in (pt_partition_dir p) p) as Hin by (split; [done|by rewrite Hn]).
    assert (parts_at dir (S k) l) as Hat' by (intros i q Hi; rewrite (Hat (S i) q Hi); do 3 f_equal; lia).
    apply wp_bind. eapply wp_mono.
    { eapply wp_local; [|by apply local_partition_open].
      eapply (wp_open_partition d p E L (fun '(st, p') d' => st = Status_OK /\ part_is d' p' E L /\
        same_partition p p')); done. }
    intros [st p'] d1 ((-> & Hp' & Hsp) & _ & Hout). cbn [negb]. change (negb (Status_ok Status_OK)) with false.
    cbv beta iota. apply wp_bind. apply (IH (S k) d1 Ls'); try done.
    + apply Forall2_same_length_lookup in HF as [Hlen HF]. apply Forall2_same_length_lookup. split; [done|].
      intros i q EL Hq HEL'. eapply stored_log_frame; [|by eapply HF]. intros name. apply Hout.
      rewrite Hd0. eapply within_disjoint; [|by eexists]. rewrite (Hat' _ _ Hq).
      apply part_dirs_distinct. lia.
    + intros l' d2 Hl' Hat2 Hsame Hout2. apply wp_ret. destruct Hsp as (Hid & Hdp & Hcp). apply HQ.
      * constructor; [|done]. eapply part_is_frame; [|exact Hp']. intros q Hq. apply Hout2.
        intros i Hi. rewrite Hdp, Hd0 in Hq. eapply within_disjoint; [|exact Hq].
        apply part_dirs_distinct. lia.
      * intros [|i] q Hq; cbn in Hq; [injection Hq as <-; by rewrite Hdp, Nat.add_0_r|].
        rewrite (Hat2 _ _ Hq). do 3 f_equal. lia.
      * by constructor.
      * intros q Hq. rewrite Hout2, Hout; [done| |].
        -- rewrite Hd0. apply Hq. cbn. lia.
        -- intros i Hi. apply Hq. cbn. lia.
Qed.

End recover.

Lemma wp_produce {W : Win32} {R : Reliable W} now d t Ls partition records out :
  topic_is d t Ls -> is_i64 now -> -1 <= partition < zlen (tc_partitions t) ->
  let batch := (fun r => (prp_key r, prp_value r)) <$> records in
  records <> [] -> batch_ok batch ->
  Forall (fun EL => EL.1 + zlen EL.2 + zlen batch < 2 ^ 64) Ls ->
  wp (Topic_produce_batch now t partition records out)
    (fun '(res, chosen, t') d' =>
       (partition <> -1 -> chosen = partition) /\
       (partition = -1 -> forall r, head records = Some r -> prp_key r <> [] ->
          chosen = KeyHashPartitioner_fnv1a_32 (prp_key r) mod zlen (tc_partitions t)) /\
       same_topic t t' /\
       exists E L, Ls !! Z.to_nat chosen = Some (E, L) /\ res = Ok (E + zlen L) /\
         topic_is d' t' (<[Z.to_nat chosen := (E, L ++ batch_records (E + zlen L) now batch)]> Ls) /\
         0 <= chosen < zlen (tc_partitions t) /\ exists p', tc_partitions t' = <[Z.to_nat chosen := p']> (tc_partitions t) /\
           outside (pt_partition_dir p') (files d) (files d')) d.
Proof.
  intros Ht Hnow Hp batch Hne Hb Hlim. unfold Topic_produce_batch.
  destruct records as [|first rest]; [done|]. fold batch. pose proof (ti_count _ _ _ Ht) as Hc.
  destruct (num_partitions_small t Hc) as [_ ->].
  replace ((partition <? -1) || (zlen (tc_partitions t) <=? partition)) with false
    by (symmetry; apply orb_false_iff; rewrite Z.ltb_ge, Z.leb_gt; lia).
  pose proof (choice_range t partition (prp_key first) Hc Hp) as Hch.
  pose proof (same_choice t partition (prp_key first)) as [Hst Hpt].
  destruct (Topic_choose_partition t partition (prp_key first)) as [c t0]. cbn [fst snd] in *.
  destruct Hch as (Hcr & Hc1 & Hc2). pose proof (Forall2_length (ti_logs _ _ _ Ht)) as Hlen.
  destruct (lookup_lt_is_Some_2 (tc_partitions t) (Z.to_nat c)) as [p Hpc]; [unfold zlen in *; lia|].
  destruct (lookup_lt_is_Some_2 Ls (Z.to_nat c)) as [[E L] HL]; [unfold zlen in *; lia|].
  rewrite <- (Z2Nat.id c) by lia. apply wp_bind.
  pose proof (Forall2_lookup_lr _ _ _ _ _ _ (ti_logs _ _ _ Ht) Hpc HL) as Hpi. cbn [fst snd] in Hpi.
  destruct (part_is_next _ _ _ _ Hpi) as [Hnx _].
  rewrite list.Forall_forall in Hlim. pose proof (Hlim _ (list_elem_of_lookup_2 _ _ _ HL)) as Hl. cbn [fst snd] in Hl.
  eapply (wp_on_partition d t t0 Ls (Z.to_nat c) p E L); [done..| |].
  - intros q Hq. by apply local_append_batch.
  - eapply wp_append_batch; [exact Hpi|done|done|done|lia|]. intros d' p' Hp' Hsp. rewrite Hnx in *.
    split_and!; [done|done|]. intros t' Ht' Hti Hpt' Hout. apply wp_ret. rewrite Z2Nat.id by lia. split_and!; try done.
    + intros -> r [= <-] Hk. by apply Hc2.
    + exists E, L. split_and!; try done; try lia. by exists p'.
Qed.

Lemma wp_topic_open {W : Win32} {R : Reliable W} d name n dir config ms rb Ls :
  0 < n < 2 ^ 31 -> 28 <= segment_max_bytes config <= LOG_LIMIT -> zlen Ls = n ->
  (forall i EL, Ls !! i = Some EL -> stored_log d (dir ++ [std_to_string (Z.of_nat i)]) EL.1 EL.2) ->
  wp (Topic_open_and_recover (Topic_new name n dir config ms rb))
    (fun '(st, t') d' => st = Status_OK /\ topic_is d' t' Ls /\
       same_topic (Topic_new name n dir config ms rb) t' /\
       forall q, (forall i, 0 <= i < n -> ~ within (dir ++ [std_to_string i]) q) ->
         files d' !! q = files d !! q) d.
Proof.
  intros Hn Hcfg Hl Hst. unfold Topic_open_and_recover. apply wp_bind, wp_create_directories_ok.
  intros d1 Hd1 _. apply wp_bind. cbn [tc_partitions Topic_new].
  set (l := (fun i => Partition_new i (dir ++ [std_to_string i]) config) <$> seqZ 0 n).
  assert (length l = Z.to_nat n) as Hlen by (unfold l; by rewrite length_fmap, length_seqZ).
  assert (forall i p, l !! i = Some p ->
    p = Partition_new (Z.of_nat i) (dir ++ [std_to_string (Z.of_nat i)]) config) as Hlk.
  { intros i p Hi. unfold l in Hi. rewrite list_lookup_fmap in Hi.
    destruct (seqZ 0 n !! i) as [z|] eqn:E; [|done]. apply lookup_seqZ in E as [-> _]. by injection Hi as <-. }
  apply (wp_recover_partitions dir l 0 d1 Ls).
  - intros i p Hi. by rewrite (Hlk i p Hi).
  - apply list.Forall_lookup. intros i p Hi. by rewrite (Hlk i p Hi).
  - apply list.Forall_lookup. intros i p Hi. by rewrite (Hlk i p Hi).
  - apply Forall2_same_length_lookup. split; [unfold zlen in Hl; lia|]. intros i p EL Hi HEL.
    rewrite (Hlk i p Hi). eapply stored_log_frame; [|by apply Hst]. intros nm. by rewrite Hd1.
  - intros l' d' HF Hat Hsame Hout. apply wp_ret. pose proof (Forall2_length Hsame) as Hl'. split_and!; [done| | |].
    + split; cbn; [done|done|]. unfold zlen. lia.
    + repeat split; cbn. fold l. congruence.
    + intros q Hq. rewrite Hout, Hd1; [done|]. intros i Hi. apply Hq. lia.
Qed.

(** ** Properties *)

(** Producing to a topic appends the batch to one existing partition and to no
    other.  The partition is the one the client asked for; with -1 it is chosen by
    the server, by the hash of the key of the first record when that is not empty.
    The base offset returned is the next offset of that partition, whose log grows
    by exactly the batch, while the logs of all other partitions stay as they are. *)
Theorem topic_produce_correct {W : Win32} {R : Reliable W} now d t Ls partition records out :
  topic_is d t Ls -> is_i64 now -> -1 <= partition < zlen (tc_partitions t) ->
  let batch := (fun r => (prp_key r, prp_value r)) <$> records in
  records <> [] -> batch_ok batch ->
  Forall (fun EL => EL.1 + zlen EL.2 + zlen batch < 2 ^ 64) Ls ->
  wp (Topic_produce_batch now t partition records out)
    (fun '(res, chosen, t') d' =>
       (partition <> -1 -> chosen = partition) /\
       (partition = -1 -> forall r, head records = Some r -> prp_key r <> [] ->
          chosen = KeyHashPartitioner_fnv1a_32 (prp_key r) mod zlen (tc_partitions t)) /\
       same_topic t t' /\
       exists E L, Ls !! Z.to_nat chosen = Some (E, L) /\ res = Ok (E + zlen L) /\
         topic_is d' t' (<[Z.to_nat chosen := (E, L ++ batch_records (E + zlen L) now batch)]> Ls)) d.
Proof.
  intros Ht Hnow Hp batch Hne Hb Hlim. eapply wp_mono; [by eapply wp_produce|].
  intros [[res chosen] t'] d' (H1 & H2 & H3 & E & L & H4 & H5 & H6 & _). split_and!; [done..|]. by exists E, L.
Qed.

(** A topic with the partition of [demo_part_is] and an empty second one. *)
Definition demo_topic_dir : path := removelast demo_dir.
Definition demo_dir1 : path := demo_topic_dir ++ [std_to_string 1].
Definition demo_empty_segment : LogSegment := opened_segment 0 demo_dir1 64 [] [] None.
Definition demo_topic_disk : @disk memory_disk :=
  <[segment_path (str ".index") 0 demo_dir1 := []]> (<[segment_path (str ".log") 0 demo_dir1 := []]> demo_disk).
Definition demo_topic : Topic :=
  mkTopic (str "orders") demo_topic_dir demo_config 1000 0
    (mkKeyHashPartitioner (mkRoundRobinPartitioner 0)) (mkRoundRobinPartitioner 0)
    [demo_partition; mkPartition 1 demo_dir1 demo_config 0 [demo_empty_segment] false].
Definition demo_logs : list (Z * list Record) := [(5, demo_records); (0, [])].

Lemma other_dir (dir dir' : path) a b : dir <> dir' -> dir ++ [a] <> dir' ++ [b].
Proof. intros Hne E. by apply app_inj_2 in E as [-> _]. Qed.

Lemma demo_dirs : demo_dir <> demo_dir1.
Proof. apply (bool_decide_unpack _). by vm_compute. Qed.

Lemma demo_part_is1 :
  part_is (W := memory_disk) demo_topic_disk (mkPartition 1 demo_dir1 demo_config 0 [demo_empty_segment] false)
    0 [].
Proof.
  exists [], demo_empty_segment, []. split_and!; [|done|done]. split; try done.
  - split; [|done..]. split; try done; try (by vm_compute).
    change (m_index demo_empty_segment) with (@nil IndexEntry). split; [by apply list.Forall_nil|constructor|done].
  - cbn [pt_partition_dir pt_segments fmap list_fmap]. change (m_base_offset demo_empty_segment) with 0.
    unfold demo_topic_disk. cbn [files memory_disk].
    do 2 (apply dir_ok_insert; [|unfold seg_exts; set_solver|set_solver]).
    intros name [c Hn]. exfalso. revert Hn. unfold demo_disk, segment_path.
    rewrite !lookup_insert_ne, lookup_empty; [done|apply other_dir, demo_dirs..].
Qed.

Lemma demo_disk_frame (m : gmap path bytes) name :
  <[segment_path (str ".index") 0 demo_dir1 := []]> (<[segment_path (str ".log") 0 demo_dir1 := []]> m)
    !! (demo_dir ++ [name]) = m !! (demo_dir ++ [name]).
Proof. rewrite !lookup_insert_ne; [done|apply not_eq_sym, other_dir, demo_dirs..]. Qed.

Lemma demo_topic_is : topic_is (W := memory_disk) demo_topic_disk demo_topic demo_logs.
Proof.
  split.
  - intros [|[|i]] p; cbn [lookup list_lookup tc_partitions demo_topic]; intros [= <-]; by vm_compute.
  - constructor; [|constructor; [apply demo_part_is1|constructor]].
    eapply (part_is_frame (W := memory_disk) demo_disk); [|apply demo_part_is].
    intros q [name ->]. change (pt_partition_dir demo_partition) with demo_dir.
    apply demo_disk_frame.
  - by vm_compute.
Qed.

Example topic_produce_correct_witness :
  let records := [mkProduceRecordPayload (str "k") (str "v1"); mkProduceRecordPayload [] (str "v2")] in
  let batch := (fun r => (prp_key r, prp_value r)) <$> records in
  wp (W := memory_disk) (Topic_produce_batch 1005 demo_topic (-1) records 0)
    (fun '(res, chosen, t') d' =>
       (-1 <> -1 -> chosen = -1) /\
       (-1 = -1 -> forall r, head records = Some r -> prp_key r <> [] ->
          chosen = KeyHashPartitioner_fnv1a_32 (prp_key r) mod zlen (tc_partitions demo_topic)) /\
       same_topic demo_topic t' /\
       exists E L, demo_logs !! Z.to_nat chosen = Some (E, L) /\ res = Ok (E + zlen L) /\
         topic_is d' t' (<[Z.to_nat chosen := (E, L ++ batch_records (E + zlen L) 1005 batch)]> demo_logs))
    demo_topic_disk.
Proof.
  apply (topic_produce_correct (W := memory_disk)).
  - apply demo_topic_is.
  - by vm_compute.
  - by vm_compute.
  - done.
  - repeat constructor; by vm_compute.
  - repeat constructor; by vm_compute.
Defined.

(** A topic restarts with what its partitions stored.  A new topic object over
    directories that hold the logs [Ls] (as a running topic leaves them, or with the
    last write of any partition cut short, or still empty) recovers every partition
    to exactly its log, and touches no file outside the partition directories. *)
Theorem topic_restart_correct {W : Win32} {R : Reliable W} d name n dir config ms rb Ls :
  0 < n < 2 ^ 31 -> 28 <= segment_max_bytes config <= LOG_LIMIT -> zlen Ls = n ->
  (forall i EL, Ls !! i = Some EL -> stored_log d (dir ++ [std_to_string (Z.of_nat i)]) EL.1 EL.2) ->
  wp (Topic_open_and_recover (Topic_new name n dir config ms rb))
    (fun '(st, t') d' => st = Status_OK /\ topic_is d' t' Ls /\
       same_topic (Topic_new name n dir config ms rb) t' /\
       forall q, (forall i, 0 <= i < n -> ~ within (dir ++ [std_to_string i]) q) ->
         files d' !! q = files d !! q) d.
Proof. apply wp_topic_open. Qed.

Example topic_restart_correct_witness :
  wp (W := memory_disk) (Topic_open_and_recover (Topic_new (str "orders") 2 demo_topic_dir demo_config 1000 0))
    (fun '(st, t') d' => st = Status_OK /\ topic_is d' t' demo_logs /\
       same_topic (Topic_new (str "orders") 2 demo_topic_dir demo_config 1000 0) t' /\
       forall q, (forall i, 0 <= i < 2 -> ~ within (demo_topic_dir ++ [std_to_string i]) q) ->
         files d' !! q = files (Win32 := memory_disk) demo_topic_disk !! q) demo_topic_disk.
Proof.
  apply (topic_restart_correct (W := memory_disk)).
  - lia.
  - by vm_compute.
  - reflexivity.
  - intros i EL Hi. pose proof demo_topic_is as Ht. destruct (Forall2_lookup_r _ _ _ i EL (ti_logs _ _ _ Ht) Hi)
      as (p & Hp & Hpi). change demo_topic_dir with (tc_topic_dir demo_topic).
    replace i with (0 + i)%nat by done. rewrite <- (ti_dirs _ _ _ Ht i p Hp).
    by apply (part_is_stored (W := memory_disk)).
Defined.

(** A request for a partition that does not exist, or an empty batch, is refused
    with [InvalidArgument] on every volume, and neither topic nor volume change. *)
Theorem topic_produce_refused {W : Win32} now d t partition records out :
  0 < zlen (tc_partitions t) < 2 ^ 31 ->
  records = [] \/ partition < -1 \/ zlen (tc_partitions t) <= partition ->
  exists msg, Topic_produce_batch now t partition records out d =
    Some (Err (mkStatus InvalidArgument msg), out, t, d).
Proof.
  intros Hc H. unfold Topic_produce_batch. destruct records as [|r rs]; [by eexists|].
  destruct (num_partitions_small t Hc) as [_ ->].
  replace ((partition <? -1) || (zlen (tc_partitions t) <=? partition)) with true; [by eexists|].
  symmetry. apply orb_true_iff. rewrite Z.ltb_lt, Z.leb_le. destruct H as [|[|]]; [done|lia|lia].
Qed.

Example topic_produce_refused_witness :
  exists msg, Topic_produce_batch (W := memory_disk) 1005 demo_topic 2
      [mkProduceRecordPayload (str "k") (str "v1")] 0 demo_topic_disk =
    Some (Err (mkStatus InvalidArgument msg), 0, demo_topic, demo_topic_disk).
Proof.
  apply (topic_produce_refused (W := memory_disk)).
  - by vm_compute.
  - right. right. by vm_compute.
Defined.
