(* ===== verification/TopicManager.v ===== *)
(** * TopicManager: the topics of a broker and their metadata files (src/TopicManager.cpp)

    The state is the configuration and the map of topics.  A shared pointer to a
    topic is its name in this map.  The text streams and the directory walk that
    only this component uses are the class [Fstream]; its laws are what the C++
    library documents, and say nothing about success. *)
From S2P Require Import Prelude StdString Status RecordCodec ProtocolMessages FileHandle OffsetIndex LogSegment.
From S2P Require Import Partition PartitionRecovery PartitionFrame PartitionProps Partitioner Topic.

(** ** Text streams and directories *)

Definition plain_text (s : bytes) : Prop :=
  Forall (fun c => 32 <= ch c < 127 \/ c = Byte.x0a) s.

Class Fstream (W : Win32) := {
  (** Translation of line ends when a text stream is written and read. *)
  text_out : bytes -> bytes;
  text_in : bytes -> bytes;
  (** [std::ofstream ofs(p); ofs << text; ofs.flush()]: whether it opened; and the
      volume after the writes, of which the program does not check the success. *)
  ofstream_write : path -> bytes -> disk -> bool * disk;
  (** The characters read until the end, [None] when the stream does not open. *)
  ifstream_read : path -> disk -> option bytes;
  (** [std::filesystem::exists] of a directory. *)
  fs_exists_directory : path -> disk -> bool;
  (** The entries of a [directory_iterator] with [is_directory()]. *)
  fs_subdirectories : path -> disk -> list bytes;

  text_in_out s : plain_text s -> text_in (text_out s) = s;
  ofstream_files p text d ok d' :
    ofstream_write p text d = (ok, d') ->
    if ok then exists n, files d' = <[p := text_out (ztake n text)]> (files d) else files d' = files d;
  ifstream_data p d text :
    ifstream_read p d = Some text -> exists c, files d !! p = Some c /\ text = text_in c;
  fs_subdirectories_nodup dir d : NoDup (fs_subdirectories dir d);
}.

(** The streams open and the writes succeed; a directory with a file below it is
    there and is visited. *)
Class ReliableStreams (W : Win32) (F : Fstream W) : Prop := {
  ofstream_complete p text d :
    exists d', ofstream_write p text d = (true, d') /\ files d' = <[p := text_out text]> (files d);
  ifstream_complete p d : is_Some (files d !! p) -> is_Some (ifstream_read p d);
  fs_exists_directory_complete dir q d :
    is_Some (files d !! (dir ++ q)) -> q <> [] -> fs_exists_directory dir d = true;
  fs_subdirectories_complete dir name q d :
    is_Some (files d !! (dir ++ name :: q)) -> q <> [] -> name ∈ fs_subdirectories dir d;
}.

(** ** The component *)

Record TopicManager := mkTopicManager {
  tm_config : StorageConfig;
  tm_topics : gmap bytes Topic;
}.

Definition reserved_names : list bytes :=
  str <$> ["CON"; "PRN"; "AUX"; "NUL"; "COM1"; "COM2"; "COM3"; "COM4"; "COM5"; "COM6"; "COM7"; "COM8";
           "COM9"; "LPT1"; "LPT2"; "LPT3"; "LPT4"; "LPT5"; "LPT6"; "LPT7"; "LPT8"; "LPT9"]%string.

Definition topic_char (c : byte) : bool :=
  isalnum c || bool_decide (c = Byte.x2e) || bool_decide (c = Byte.x5f) || bool_decide (c = Byte.x2d).

(** [None] when the name is valid, otherwise [out_error]. *)
Definition TopicManager_validate_topic_name (name : bytes) : option bytes :=
  if bool_decide (name = []) then Some (str "Topic name cannot be empty") else
  if 249 <? zlen name then Some (str "Topic name exceeds maximum length of 249 characters") else
  match list_find (fun c => topic_char c = false) name with
  | Some (_, c) => Some (str "Topic name contains invalid character: '" ++ [c] ++ str "'")
  | None =>
      if bool_decide (name = str ".") || bool_decide (name = str "..")
      then Some (str "Topic name cannot be '.' or '..'") else
      if bool_decide (head name = Some Byte.x2e) || bool_decide (list.last name = Some Byte.x2e)
      then Some (str "Topic name cannot start or end with '.'") else
      if bool_decide ((toupper <$> name) ∈ reserved_names)
      then Some (str "Topic name '" ++ name ++ str "' is a Windows reserved device name") else None
  end.

(** [std::filesystem::path(m_config.data_dir)], one component whatever it contains. *)
Definition data_path (c : StorageConfig) : path := [data_dir c].

Definition meta_path (topic_dir : path) : path := topic_dir ++ [str "topic.meta"].

(** The text of the metadata file. *)
Definition topic_metadata (now_ms : Z) (t : Topic) : bytes :=
  str "partitions=" ++ std_to_string (Topic_num_partitions t) ++ [Byte.x0a] ++
  str "created_ms=" ++ std_to_string now_ms ++ [Byte.x0a] ++
  str "retention_ms=" ++ std_to_string (tc_retention_ms t) ++ [Byte.x0a] ++
  str "retention_bytes=" ++ std_to_string (tc_retention_bytes t) ++ [Byte.x0a].

(** One line of the file, on the three reference parameters. *)
Definition metadata_line (acc : Z * Z * Z) (line : bytes) : Z * Z * Z :=
  let '(partitions, retention_ms, retention_bytes) := acc in
  match string_find Byte.x3d 0 line with
  | None => acc
  | Some pos =>
      let key := take pos line in
      let val := drop (pos + 1) line in
      if bool_decide (key = str "partitions") then
        match std_stoul val with
        | Some (v, _) => (u32 v, retention_ms, retention_bytes)
        | None => acc
        end
      else if bool_decide (key = str "retention_ms") then
        match std_stoull val with
        | Some (v, _) => (partitions, v, retention_bytes)
        | None => acc
        end
      else if bool_decide (key = str "retention_bytes") then
        match std_stoull val with
        | Some (v, _) => (partitions, retention_ms, v)
        | None => acc
        end
      else acc
  end.

Definition parse_metadata (c : StorageConfig) (text : bytes) : Z * Z * Z :=
  foldl metadata_line (0, default_retention_ms c, default_retention_bytes c) (getlines [] text).

Definition TopicManager_get_topic (tm : TopicManager) (name : bytes) : option Topic := tm_topics tm !! name.

Definition TopicManager_list_topics (tm : TopicManager) : list (bytes * Topic) := map_to_list (tm_topics tm).

(** Assignment through a pointer to a topic. *)
Definition tm_set_topic (name : bytes) (t : Topic) (tm : TopicManager) : TopicManager :=
  mkTopicManager (tm_config tm) (<[name := t]> (tm_topics tm)).

Section TopicManager.
Context {W : Win32} {F : Fstream W}.

Definition TopicManager_save_topic_metadata (now_ms : Z) (t : Topic) : io Status :=
  let p := meta_path (tc_topic_dir t) in
  ok ← io_set (ofstream_write p (topic_metadata now_ms t));
  if negb ok then
    mret (mkStatus IoError (str "Failed to write topic metadata file: " ++ path_string p)) else
  _ ← FileHandle_flush_directory (tc_topic_dir t);
  mret Status_OK.

(** The status and the three reference parameters, untouched when the file is missing. *)
Definition TopicManager_load_topic_metadata (tm : TopicManager) (topic_dir : path) (out : Z * Z * Z)
    : io (Status * (Z * Z * Z)) :=
  let p := meta_path topic_dir in
  text ← io_get (ifstream_read p);
  match text with
  | None => mret (mkStatus NotFound (str "Topic metadata file missing: " ++ path_string p), out)
  | Some text =>
      let out := parse_metadata (tm_config tm) text in
      if out.1.1 =? 0 then
        mret (mkStatus Corrupt (str "Invalid partitions count in metadata file: " ++ path_string p), out)
      else mret (Status_OK, out)
  end.

(** The loop of [open_and_recover_all] over the subdirectories. *)
Fixpoint recover_topics (tm : TopicManager) (names : list bytes) : io (Status * TopicManager) :=
  match names with
  | [] => mret (Status_OK, tm)
  | name :: names =>
      match TopicManager_validate_topic_name name with
      | Some _ => recover_topics tm names
      | None =>
          let dir := data_path (tm_config tm) ++ [name] in
          '(st, (partitions, retention_ms, retention_bytes)) ← TopicManager_load_topic_metadata tm dir
            (0, default_retention_ms (tm_config tm), default_retention_bytes (tm_config tm));
          if negb (Status_ok st) then recover_topics tm names else
          '(st, t) ← Topic_open_and_recover
            (Topic_new name partitions dir (tm_config tm) retention_ms retention_bytes);
          if negb (Status_ok st) then mret (st, tm) else
          recover_topics (tm_set_topic name t tm) names
      end
  end.

Definition TopicManager_open_and_recover_all (tm : TopicManager) : io (Status * TopicManager) :=
  let tm := mkTopicManager (tm_config tm) ∅ in
  let base_path := data_path (tm_config tm) in
  exists_ ← io_get (fs_exists_directory base_path);
  if negb exists_ then
    _ ← create_directories base_path;
    _ ← FileHandle_flush_directory base_path;
    mret (Status_OK, tm)
  else
  names ← io_get (fs_subdirectories base_path);
  recover_topics tm names.

(** The result is the name of the topic, by which the pointer is known. *)
Definition TopicManager_create_topic (now_ms : Z) (tm : TopicManager) (name : bytes)
    (partitions retention_ms retention_bytes : Z) : io (Result bytes * TopicManager) :=
  match TopicManager_validate_topic_name name with
  | Some err => mret (Err (mkStatus InvalidArgument err), tm)
  | None =>
  if (partitions <? 1) || (64 <? partitions) then
    mret (Err (mkStatus InvalidArgument (str "Partitions count must be between 1 and 64")), tm) else
  if bool_decide (is_Some (tm_topics tm !! name)) then
    mret (Err (mkStatus AlreadyExists (str "Topic '" ++ name ++ str "' already exists")), tm) else
  let retention_ms := if retention_ms =? 0 then default_retention_ms (tm_config tm) else retention_ms in
  let retention_bytes :=
    if (retention_bytes =? 0) && (0 <? default_retention_bytes (tm_config tm))
    then default_retention_bytes (tm_config tm) else retention_bytes in
  let topic_dir := data_path (tm_config tm) ++ [name] in
  has_meta ← io_get (fs_exists (meta_path topic_dir));
  if (has_meta : bool) then
    mret (Err (mkStatus AlreadyExists (str "Topic metadata already exists on disk for '" ++ name ++ str "'")), tm)
  else
  '(st, t) ← Topic_open_and_recover
    (Topic_new name partitions topic_dir (tm_config tm) retention_ms retention_bytes);
  if negb (Status_ok st) then mret (Err st, tm) else
  st ← TopicManager_save_topic_metadata now_ms t;
  if negb (Status_ok st) then mret (Err st, tm) else
  _ ← FileHandle_flush_directory topic_dir;
  _ ← FileHandle_flush_directory (data_path (tm_config tm));
  mret (Ok name, tm_set_topic name t tm)
  end.

End TopicManager.

(** ** Metadata *)

Lemma metadata_field acc key n rest :
  Byte.x0a ∉ key -> Byte.x3d ∉ key ->
  foldl metadata_line acc (getlines [] ((key ++ [Byte.x3d]) ++ std_to_string n ++ [Byte.x0a] ++ rest)) =
  foldl metadata_line (metadata_line acc (key ++ Byte.x3d :: std_to_string n)) (getlines [] rest).
Proof.
  intros Hnl Heq. rewrite <- app_assoc. cbn [app].
  replace (key ++ Byte.x3d :: std_to_string n ++ Byte.x0a :: rest)
    with ((key ++ Byte.x3d :: std_to_string n) ++ Byte.x0a :: rest) by (by rewrite <- app_assoc).
  rewrite getlines_line; [done|]. intros Hin. apply elem_of_app in Hin as [Hin|Hin]; [done|].
  apply elem_of_cons in Hin as [Hin|Hin]; [done|]. by eapply to_string_no in Hin.
Qed.

Lemma metadata_line_field acc key n :
  Byte.x3d ∉ key ->
  metadata_line acc (key ++ Byte.x3d :: std_to_string n) =
  let '(partitions, retention_ms, retention_bytes) := acc in
  if bool_decide (key = str "partitions") then
    match std_stoul (std_to_string n) with Some (v, _) => (u32 v, retention_ms, retention_bytes) | None => acc end
  else if bool_decide (key = str "retention_ms") then
    match std_stoull (std_to_string n) with Some (v, _) => (partitions, v, retention_bytes) | None => acc end
  else if bool_decide (key = str "retention_bytes") then
    match std_stoull (std_to_string n) with Some (v, _) => (partitions, retention_ms, v) | None => acc end
  else acc.
Proof.
  intros Heq. unfold metadata_line. rewrite string_find_first by done. rewrite take_app_length.
  rewrite Nat.add_1_r. replace (drop (S (length key)) (key ++ Byte.x3d :: std_to_string n))
    with (std_to_string n); [done|].
  replace (key ++ Byte.x3d :: std_to_string n) with ((key ++ [Byte.x3d]) ++ std_to_string n)
    by (by rewrite <- app_assoc). rewrite drop_app_ge by (rewrite length_app; cbn; lia).
  replace (S (length key) - length (key ++ [Byte.x3d]))%nat with 0%nat by (rewrite length_app; cbn; lia).
  by rewrite drop_0.
Qed.

Ltac key_free := apply (bool_decide_unpack _); by vm_compute.

Lemma parse_topic_metadata c now t :
  is_u32 (Topic_num_partitions t) -> is_u64 (tc_retention_ms t) -> is_u64 (tc_retention_bytes t) ->
  parse_metadata c (topic_metadata now t) =
  (Topic_num_partitions t, tc_retention_ms t, tc_retention_bytes t).
Proof.
  intros Hn Hm Hb. unfold parse_metadata, topic_metadata.
  change (str "partitions=") with (str "partitions" ++ [Byte.x3d]).
  change (str "created_ms=") with (str "created_ms" ++ [Byte.x3d]).
  change (str "retention_ms=") with (str "retention_ms" ++ [Byte.x3d]).
  change (str "retention_bytes=") with (str "retention_bytes" ++ [Byte.x3d]).
  rewrite !metadata_field by key_free.
  rewrite <- (app_nil_r [Byte.x0a]) at 1. rewrite metadata_field by key_free. cbn [getlines foldl].
  rewrite !metadata_line_field by key_free.
  change (bool_decide (str "created_ms" = str "partitions")) with false.
  change (bool_decide (str "created_ms" = str "retention_ms")) with false.
  change (bool_decide (str "created_ms" = str "retention_bytes")) with false.
  change (bool_decide (str "retention_ms" = str "partitions")) with false.
  change (bool_decide (str "retention_bytes" = str "partitions")) with false.
  change (bool_decide (str "retention_bytes" = str "retention_ms")) with false.
  rewrite !(bool_decide_eq_true_2 (_ = _)) by done. cbv iota beta zeta.
  rewrite stoul_to_string by done. cbv iota beta. rewrite !stoull_to_string by done. cbv iota beta.
  by rewrite u32_id.
Qed.

Lemma plain_number n : plain_text (std_to_string n).
Proof.
  apply list.Forall_forall. intros c Hc. left. destruct (isdigit c) eqn:E.
  - unfold isdigit in E. zbool. lia.
  - destruct (decide (c = Byte.x2d)) as [->|Hne]; [by vm_compute|]. by apply to_string_no in Hc.
Qed.

Lemma plain_metadata now t : plain_text (topic_metadata now t).
Proof.
  assert (forall s, forallb (fun c => (32 <=? ch c) && (ch c <? 127) || bool_decide (c = Byte.x0a)) s = true ->
            plain_text s) as Hs.
  { intros s Hs. apply list.Forall_forall. intros c Hc. apply list_elem_of_In in Hc.
    eapply forallb_forall in Hs; [|exact Hc]. apply orb_true_iff in Hs as [Hs|Hs]; [left; zbool; lia|].
    right. by apply bool_decide_eq_true in Hs. }
  unfold topic_metadata, plain_text.
  repeat (apply Forall_app_2; [first [apply plain_number | by apply Hs]|]). by apply Hs.
Qed.

(** ** What the manager holds *)

Section spec.
Context {W : Win32} {F : Fstream W}.

Lemma topic_is_frame d d' t Ls :
  (forall i name, 0 <= i < zlen (tc_partitions t) ->
     files d' !! ((tc_topic_dir t ++ [std_to_string i]) ++ [name]) =
     files d !! ((tc_topic_dir t ++ [std_to_string i]) ++ [name])) ->
  topic_is d t Ls -> topic_is d' t Ls.
Proof.
  intros Hf [Hat HF Hc]. split; [done| |done]. apply Forall2_same_length_lookup in HF as [Hl HF].
  apply Forall2_same_length_lookup. split; [done|]. intros i p EL Hp HEL.
  eapply part_is_frame; [|by eapply HF]. intros q [name ->]. rewrite (Hat i p Hp). apply Hf.
  apply lookup_lt_Some in Hp. unfold zlen. lia.
Qed.

(** A topic as the manager keeps it: under its name, with the broker's
    configuration, and with its metadata on disk. *)
Record topic_entry (d : disk) (c : StorageConfig) (name : bytes) (t : Topic)
    (Ls : list (Z * list Record)) : Prop := {
  te_is : topic_is d t Ls;
  te_name : tc_name t = name;
  te_valid : TopicManager_validate_topic_name name = None;
  te_dir : tc_topic_dir t = data_path c ++ [name];
  te_config : tc_config t = c;
  te_retention : is_u64 (tc_retention_ms t) /\ is_u64 (tc_retention_bytes t);
  te_meta : exists now, files d !! meta_path (data_path c ++ [name]) = Some (text_out (topic_metadata now t));
}.

(** The topics and the logs of their partitions. *)
Record tm_holds (d : disk) (tm : TopicManager) (logs : gmap bytes (list (Z * list Record))) : Prop := {
  tmi_topics : map_relation (fun name t Ls => topic_entry d (tm_config tm) name t Ls)
                 (fun _ _ => False) (fun _ _ => False) (tm_topics tm) logs;
  tmi_config : 28 <= segment_max_bytes (tm_config tm) <= LOG_LIMIT /\ StorageConfig_wf (tm_config tm);
}.

(** These are all the topics the data directory has. *)
Record tm_is (d : disk) (tm : TopicManager) (logs : gmap bytes (list (Z * list Record))) : Prop := {
  tmi_holds : tm_holds d tm logs;
  tmi_meta : forall name, is_Some (files d !! meta_path (data_path (tm_config tm) ++ [name])) ->
    is_Some (logs !! name);
}.

Lemma tm_is_lookup d tm logs name t :
  tm_holds d tm logs -> tm_topics tm !! name = Some t ->
  exists Ls, logs !! name = Some Ls /\ topic_entry d (tm_config tm) name t Ls.
Proof.
  intros [H _] Ht. specialize (H name). rewrite Ht in H. unfold option_relation in H.
  destruct (logs !! name) as [Ls|]; [by eauto|done].
Qed.

Lemma tm_is_logs d tm logs name Ls :
  tm_holds d tm logs -> logs !! name = Some Ls ->
  exists t, tm_topics tm !! name = Some t /\ topic_entry d (tm_config tm) name t Ls.
Proof.
  intros [H _] Ht. specialize (H name). rewrite Ht in H. unfold option_relation in H.
  destruct (tm_topics tm !! name) as [t|]; [by eauto|done].
Qed.

(** Files of other topics do not matter to a topic. *)
Definition only_topic (c : StorageConfig) (name : bytes) (m m' : gmap path bytes) : Prop :=
  forall q, ~ (exists r, q = data_path c ++ name :: r) -> m' !! q = m !! q.

Lemma topic_entry_frame d d' c name name' t Ls :
  only_topic c name' (files d) (files d') -> name <> name' ->
  topic_entry d c name t Ls -> topic_entry d' c name t Ls.
Proof.
  intros Ho Hne []. split; try done.
  - eapply topic_is_frame; [|done]. intros i nm _. apply Ho. intros [r E]. rewrite te_dir0 in E.
    unfold data_path in E. by injection E as E _.
  - destruct te_meta0 as [now Hm]. exists now. rewrite Ho; [done|]. intros [r E].
    unfold meta_path, data_path in E. by injection E as E _.
Qed.

End spec.

Section proofs.
Context {W : Win32} {R : Reliable W} {F : Fstream W} {RF : ReliableStreams W F}.

(** Starting the topic in the directory [name], from what its partitions stored. *)
Lemma wp_start_topic d c name n ms rb Ls Q :
  0 < n < 2 ^ 31 -> 28 <= segment_max_bytes c <= LOG_LIMIT -> zlen Ls = n ->
  (forall i EL, Ls !! i = Some EL ->
     stored_log d ((data_path c ++ [name]) ++ [std_to_string (Z.of_nat i)]) EL.1 EL.2) ->
  (forall t d', topic_is d' t Ls -> same_topic (Topic_new name n (data_path c ++ [name]) c ms rb) t ->
     only_topic c name (files d) (files d') ->
     (forall nm, files d' !! ((data_path c ++ [name]) ++ [nm]) = files d !! ((data_path c ++ [name]) ++ [nm])) ->
     Q (Status_OK, t) d') ->
  wp (Topic_open_and_recover (Topic_new name n (data_path c ++ [name]) c ms rb)) Q d.
Proof.
  intros Hn Hc Hl Hst HQ. eapply wp_mono; [by apply wp_topic_open|].
  intros [st t] d' (-> & Ht & Hs & Hout). apply HQ; [done|done| |].
  - intros q Hq. apply Hout. intros i _ [nm ->]. apply Hq. exists [std_to_string i; nm].
    by rewrite <- !app_assoc.
  - intros nm. apply Hout. intros i _ [nm' E]. apply (f_equal length) in E. rewrite !length_app in E.
    cbn in E. lia.
Qed.

Lemma wp_save_metadata now t Q d :
  (forall d', files d' = <[meta_path (tc_topic_dir t) := text_out (topic_metadata now t)]> (files d) ->
     Q Status_OK d') ->
  wp (TopicManager_save_topic_metadata now t) Q d.
Proof.
  intros HQ. unfold TopicManager_save_topic_metadata. apply wp_bind.
  destruct (ofstream_complete (meta_path (tc_topic_dir t)) (topic_metadata now t) d) as (d1 & E & Hf).
  exists true, d1. split; [unfold io_set; by rewrite E|]. cbn [negb]. apply wp_bind, wp_flush_directory.
  intros _ d2 Hd2 _. apply wp_ret, HQ. by rewrite Hd2.
Qed.

Lemma wp_load_metadata tm dir out t now Q d :
  files d !! meta_path dir = Some (text_out (topic_metadata now t)) ->
  0 < Topic_num_partitions t < 2 ^ 32 -> is_u64 (tc_retention_ms t) -> is_u64 (tc_retention_bytes t) ->
  Q (Status_OK, (Topic_num_partitions t, tc_retention_ms t, tc_retention_bytes t)) d ->
  wp (TopicManager_load_topic_metadata tm dir out) Q d.
Proof.
  intros Hm Hn Hr Hb HQ. unfold TopicManager_load_topic_metadata. apply wp_bind.
  destruct (ifstream_complete (meta_path dir) d) as [text Ht]; [by rewrite Hm|].
  eexists _, d. split; [done|]. rewrite Ht. apply ifstream_data in Ht as (c & Hc & ->).
  rewrite Hm in Hc. injection Hc as <-. rewrite text_in_out by apply plain_metadata.
  rewrite parse_topic_metadata by (done || unfold is_u32; lia). cbn [fst].
  rewrite (proj2 (Z.eqb_neq _ _)) by lia. by apply wp_ret.
Qed.

(** The other topics are those of before; the new or restarted one is described by
    its own entry. *)
Lemma tm_holds_insert d d' tm logs name t Ls :
  tm_holds d tm logs -> only_topic (tm_config tm) name (files d) (files d') ->
  topic_entry d' (tm_config tm) name t Ls ->
  tm_holds d' (tm_set_topic name t tm) (<[name := Ls]> logs).
Proof.
  intros Htm Ho He. split; cbn [tm_config tm_set_topic tm_topics]; [|apply (tmi_config _ _ _ Htm)].
  intros nm. destruct (decide (nm = name)) as [->|Hne]; [by rewrite !lookup_insert_eq|].
  rewrite !lookup_insert_ne by done. pose proof (tmi_topics _ _ _ Htm nm) as H.
  unfold option_relation in *. destruct (tm_topics tm !! nm), (logs !! nm); try done.
  by eapply topic_entry_frame.
Qed.

Lemma tm_is_insert d d' tm logs name t Ls :
  tm_is d tm logs -> only_topic (tm_config tm) name (files d) (files d') ->
  topic_entry d' (tm_config tm) name t Ls ->
  tm_is d' (tm_set_topic name t tm) (<[name := Ls]> logs).
Proof.
  intros [Htm Hm] Ho He. split; [by eapply tm_holds_insert|]. cbn [tm_config tm_set_topic].
  intros nm Hs. destruct (decide (nm = name)) as [->|Hne]; [by rewrite lookup_insert_eq|].
  rewrite lookup_insert_ne by done. apply Hm. rewrite <- Ho; [done|].
  intros [r E]. unfold meta_path, data_path in E. by injection E as E _.
Qed.

Lemma new_partitions_count name n dir c ms rb t :
  0 < n < 2 ^ 31 -> same_topic (Topic_new name n dir c ms rb) t -> Topic_num_partitions t = n.
Proof.
  intros Hn (_ & _ & _ & _ & _ & Hl). unfold Topic_num_partitions, zlen. rewrite Hl. cbn.
  rewrite length_fmap, length_seqZ, Z2Nat.id by lia. apply u32_id. unfold is_u32. lia.
Qed.

Definition effective_ms (c : StorageConfig) (ms : Z) : Z := if ms =? 0 then default_retention_ms c else ms.
Definition effective_bytes (c : StorageConfig) (rb : Z) : Z :=
  if (rb =? 0) && (0 <? default_retention_bytes c) then default_retention_bytes c else rb.

Lemma wp_create_topic now d tm logs name n ms rb Ls Q :
  tm_is d tm logs -> TopicManager_validate_topic_name name = None -> 1 <= n <= 64 ->
  logs !! name = None -> is_u64 ms -> is_u64 rb -> zlen Ls = n ->
  (forall i EL, Ls !! i = Some EL ->
     stored_log d ((data_path (tm_config tm) ++ [name]) ++ [std_to_string (Z.of_nat i)]) EL.1 EL.2) ->
  (forall d' t, tm_is d' (tm_set_topic name t tm) (<[name := Ls]> logs) ->
     tc_retention_ms t = effective_ms (tm_config tm) ms ->
     tc_retention_bytes t = effective_bytes (tm_config tm) rb ->
     Q (Ok name, tm_set_topic name t tm) d') ->
  wp (TopicManager_create_topic now tm name n ms rb) Q d.
Proof.
  intros Htm Hv Hn Hlog Hms Hrb HLs Hst HQ. unfold TopicManager_create_topic. rewrite Hv.
  replace ((n <? 1) || (64 <? n)) with false by (symmetry; apply orb_false_iff; rewrite !Z.ltb_ge; lia).
  rewrite bool_decide_eq_false_2.
  2:{ intros [t Ht]. destruct (tm_is_lookup _ _ _ _ _ (tmi_holds _ _ _ Htm) Ht) as (? & ? & _). congruence. }
  set (c := tm_config tm) in *. cbv zeta. fold (effective_ms c ms) (effective_bytes c rb). apply wp_bind.
  eexists _, d. split; [done|].
  destruct (fs_exists (meta_path (data_path c ++ [name])) d) eqn:Ex.
  { apply fs_exists_spec, (tmi_meta _ _ _ Htm) in Ex. rewrite Hlog in Ex. by destruct Ex. }
  destruct (tmi_config _ _ _ (tmi_holds _ _ _ Htm)) as [Hseg (_ & _ & Hwm & Hwb & _)]. fold c in Hseg, Hwm, Hwb.
  apply wp_bind. apply (wp_start_topic d c name n (effective_ms c ms) (effective_bytes c rb) Ls); try done; [lia|].
  intros t d1 Ht Hs Ho Hdir. change (negb (Status_ok Status_OK)) with false. cbv beta iota.
  pose proof Hs as (Hnm & Hd & Hcf & Hr1 & Hr2 & Hl). cbn in Hnm, Hd, Hcf, Hr1, Hr2.
  apply wp_bind, wp_save_metadata. intros d2 Hd2. change (negb (Status_ok Status_OK)) with false. cbv beta iota.
  apply wp_bind, wp_flush_directory. intros _ d3 Hd3 _. apply wp_bind, wp_flush_directory. intros _ d4 Hd4 _.
  apply wp_ret, HQ; [|done|done]. rewrite <- Hd3, <- Hd4, Hd in Hd2.
  eapply (tm_is_insert d); [done| |].
  - intros q Hq. rewrite Hd2, lookup_insert_ne; [by apply Ho|]. intros <-. apply Hq.
    exists [str "topic.meta"]. done.
  - split; try done.
    + eapply topic_is_frame; [|exact Ht]. intros i nm _. rewrite Hd2, lookup_insert_ne; [done|].
      intros E. apply (f_equal length) in E. unfold meta_path in E. rewrite Hd, !length_app in E. cbn in E. lia.
    + rewrite Hr1, Hr2. unfold effective_ms, effective_bytes. split; by case_match.
    + exists now. fold c. rewrite Hd2. apply lookup_insert_eq.
Qed.

(** What a topic leaves on disk: its metadata, and the logs of its partitions. *)
Record topic_files (d : disk) (c : StorageConfig) (name : bytes) (t : Topic)
    (Ls : list (Z * list Record)) : Prop := {
  tf_valid : TopicManager_validate_topic_name name = None;
  tf_retention : is_u64 (tc_retention_ms t) /\ is_u64 (tc_retention_bytes t);
  tf_count : 0 < zlen (tc_partitions t) < 2 ^ 31;
  tf_logs : zlen Ls = zlen (tc_partitions t);
  tf_meta : exists now, files d !! meta_path (data_path c ++ [name]) = Some (text_out (topic_metadata now t));
  tf_stored : forall i EL, Ls !! i = Some EL ->
    stored_log d ((data_path c ++ [name]) ++ [std_to_string (Z.of_nat i)]) EL.1 EL.2;
}.

(** The files of every topic of [logs], and no other metadata. *)
Record broker_files (d : disk) (c : StorageConfig) (logs : gmap bytes (list (Z * list Record))) : Prop := {
  bf_topics : forall name Ls, logs !! name = Some Ls -> exists t, topic_files d c name t Ls;
  bf_meta : forall name, is_Some (files d !! meta_path (data_path c ++ [name])) -> is_Some (logs !! name);
}.

Lemma topic_files_frame d d' c name name' t Ls :
  only_topic c name' (files d) (files d') -> name <> name' ->
  topic_files d c name t Ls -> topic_files d' c name t Ls.
Proof.
  intros Ho Hne []. split; try done.
  - destruct tf_meta0 as [now Hm]. exists now. rewrite Ho; [done|]. intros [r E].
    unfold meta_path, data_path in E. by injection E as E _.
  - intros i EL Hi. eapply stored_log_frame; [|by apply tf_stored0]. intros f. apply Ho.
    intros [r E]. unfold data_path in E. by injection E as E _.
Qed.

(** A running topic has on disk what a restart needs. *)
Lemma topic_entry_files d c name t Ls : topic_entry d c name t Ls -> topic_files d c name t Ls.
Proof.
  intros []. pose proof (ti_logs _ _ _ te_is0) as HF. split; try done; [apply te_is0| |].
  - unfold zlen. by rewrite (Forall2_length HF).
  - intros i EL Hi. destruct (Forall2_lookup_r _ _ _ i EL HF Hi) as (p & Hp & Hpi).
    rewrite <- te_dir0. pose proof (ti_dirs _ _ _ te_is0 i p Hp) as Hd. cbn [Nat.add] in Hd. rewrite <- Hd.
    by apply part_is_stored.
Qed.

Lemma tm_is_files d tm logs : tm_is d tm logs -> broker_files d (tm_config tm) logs.
Proof.
  intros Htm. split; [|apply Htm]. intros name Ls HL.
  destruct (tm_is_logs _ _ _ _ _ (tmi_holds _ _ _ Htm) HL) as (t & _ & He). exists t. by apply topic_entry_files.
Qed.

(** Starting topics does not touch the metadata. *)
Definition same_metadata_files (c : StorageConfig) (m m' : gmap path bytes) : Prop :=
  forall name, m' !! meta_path (data_path c ++ [name]) = m !! meta_path (data_path c ++ [name]).

(** Only files of the topics of [logs] differ. *)
Definition only_topics (c : StorageConfig) (logs : gmap bytes (list (Z * list Record))) (m m' : gmap path bytes) : Prop :=
  forall q, (forall name, is_Some (logs !! name) -> ~ exists r, q = data_path c ++ name :: r) -> m' !! q = m !! q.

Lemma only_topics_step c name todo m m1 m' : is_Some (todo !! name) ->
  only_topic c name m m1 -> only_topics c (delete name todo) m1 m' -> only_topics c todo m m'.
Proof.
  intros Hn H1 H2 q Hq. rewrite H2, H1; [done|by apply Hq|]. intros nm Hs. apply Hq.
  destruct Hs as [Ls HL]. apply lookup_delete_Some in HL as [_ HL]. by eexists.
Qed.

Lemma same_metadata_started c name m m' :
  only_topic c name m m' -> (forall nm, m' !! ((data_path c ++ [name]) ++ [nm]) = m !! ((data_path c ++ [name]) ++ [nm])) ->
  same_metadata_files c m m'.
Proof.
  intros Ho Hdir nm. destruct (decide (nm = name)) as [->|Hne]; [apply Hdir|]. apply Ho. intros [r E].
  unfold meta_path, data_path in E. by injection E as E _.
Qed.

(** Starting one topic from its files. *)
Lemma wp_restart_topic d tm c name t0 Ls rest Q :
  tm_config tm = c -> 28 <= segment_max_bytes c <= LOG_LIMIT -> topic_files d c name t0 Ls ->
  (forall t d', topic_entry d' c name t Ls -> only_topic c name (files d) (files d') ->
     same_metadata_files c (files d) (files d') ->
     wp (recover_topics (tm_set_topic name t tm) rest) Q d') ->
  wp (recover_topics tm (name :: rest)) Q d.
Proof.
  intros Hc Hseg [Hv [Hu1 Hu2] Hn HLs (now & Hnow) Hst] HQ. cbn [recover_topics]. rewrite Hc, Hv.
  destruct (num_partitions_small t0 Hn) as [Hnp _]. apply wp_bind.
  apply (wp_load_metadata _ _ _ t0 now); [done|lia|done|done|].
  change (negb (Status_ok Status_OK)) with false. cbv beta iota. apply wp_bind. rewrite Hnp.
  apply (wp_start_topic d c name _ _ _ Ls); [done..|].
  intros t d1 Ht Hs Ho Hdir. change (negb (Status_ok Status_OK)) with false. cbv beta iota.
  pose proof Hs as (Hnm & Hd & Hcf & Hr1 & Hr2 & Hl). cbn in Hnm, Hd, Hcf, Hr1, Hr2.
  apply HQ; [|done|by eapply same_metadata_started]. split; try done; [by rewrite Hr1, Hr2|]. exists now.
  unfold meta_path. rewrite Hdir.
  unfold meta_path in Hnow. rewrite Hnow. do 2 f_equal. unfold topic_metadata.
  by rewrite (new_partitions_count _ _ _ _ _ _ _ Hn Hs), Hnp, Hr1, Hr2.
Qed.

(** A directory without metadata is passed over. *)
Lemma wp_skip_topic d tm name rest Q :
  files d !! meta_path (data_path (tm_config tm) ++ [name]) = None ->
  wp (recover_topics tm rest) Q d -> wp (recover_topics tm (name :: rest)) Q d.
Proof.
  intros Hm Hnext. cbn [recover_topics]. destruct (TopicManager_validate_topic_name name); [done|].
  apply wp_bind. unfold TopicManager_load_topic_metadata. apply wp_bind. eexists _, d. split; [done|].
  destruct (ifstream_read _ d) as [text|] eqn:Ei; [|by apply wp_ret].
  apply ifstream_data in Ei as (? & Ei & _). congruence.
Qed.

(** The loop of [open_and_recover_all]: the topics of [todo] are on disk, those of
    [logs] run already. *)
Lemma wp_recover_topics names : forall d tm logs todo Q,
  tm_holds d tm logs -> NoDup names ->
  (forall name, name ∈ names -> logs !! name = None) ->
  (forall name Ls, todo !! name = Some Ls -> name ∈ names) ->
  (forall name Ls, todo !! name = Some Ls -> exists t, topic_files d (tm_config tm) name t Ls) ->
  (forall name, name ∈ names -> todo !! name = None ->
     files d !! meta_path (data_path (tm_config tm) ++ [name]) = None) ->
  (forall d' tm', tm_holds d' tm' (logs ∪ todo) -> tm_config tm' = tm_config tm ->
     same_metadata_files (tm_config tm) (files d) (files d') -> only_topics (tm_config tm) todo (files d) (files d') ->
     Q (Status_OK, tm') d') ->
  wp (recover_topics tm names) Q d.
Proof.
  induction names as [|name names IH]; intros d tm logs todo Q Htm Hnd Hfresh Hin Hfiles Hno HQ.
  - assert (todo = ∅) as ->.
    { apply map_empty. intros nm. destruct (todo !! nm) eqn:E; [|done]. apply Hin in E. by apply not_elem_of_nil in E. }
    apply wp_ret, HQ; [by rewrite map_union_empty|done|done|done].
  - apply list.NoDup_cons in Hnd as [Hnin Hnd]. destruct (todo !! name) as [Ls|] eqn:El.
    + destruct (Hfiles name Ls El) as [t0 Hf0].
      apply (wp_restart_topic d tm (tm_config tm) name t0 Ls); [done|apply Htm|done|]. intros t d1 He Ho Hsm.
      assert (forall nm, nm ∈ names -> nm <> name) as Hne by (intros nm Hnm ->; done).
      apply (IH d1 _ (<[name := Ls]> logs) (delete name todo)); try done.
      * by eapply tm_holds_insert.
      * intros nm Hnm. rewrite lookup_insert_ne by (apply not_eq_sym; auto). apply Hfresh. set_solver.
      * intros nm Ls' H. apply lookup_delete_Some in H as [Hn H]. apply Hin in H. set_solver.
      * intros nm Ls' H. apply lookup_delete_Some in H as [Hn H]. destruct (Hfiles nm Ls' H) as [t' Hf].
        exists t'. by eapply topic_files_frame.
      * intros nm Hnm H. rewrite lookup_delete_ne in H by (apply not_eq_sym; auto). rewrite Ho.
        -- apply Hno; [set_solver|done].
        -- intros [r E]. unfold meta_path, data_path in E. injection E as E _. by apply (Hne nm).
      * intros d' tm' H' Hc' Hsm' Hot. apply HQ; [|done|intros nm; by rewrite Hsm', Hsm|by eapply only_topics_step].
        replace (logs ∪ todo) with (<[name := Ls]> logs ∪ delete name todo); [done|].
        rewrite <- insert_union_l, insert_union_r by (apply Hfresh; set_solver). f_equal.
        by apply insert_delete_id.
    + apply wp_skip_topic; [apply Hno; [set_solver|done]|].
      apply (IH d tm logs todo); try done.
      * intros nm Hnm. apply Hfresh. set_solver.
      * intros nm Ls H. pose proof (Hin nm Ls H) as Hi. apply elem_of_cons in Hi as [->|]; [congruence|done].
      * intros nm Hnm. apply Hno. set_solver.
Qed.

(** Starting the broker on the files of a set of topics. *)
Lemma wp_recover_all d tm logs Q :
  broker_files d (tm_config tm) logs ->
  28 <= segment_max_bytes (tm_config tm) <= LOG_LIMIT /\ StorageConfig_wf (tm_config tm) ->
  (forall d' tm', tm_is d' tm' logs -> tm_config tm' = tm_config tm ->
     only_topics (tm_config tm) logs (files d) (files d') -> Q (Status_OK, tm') d') ->
  wp (TopicManager_open_and_recover_all tm) Q d.
Proof.
  intros [Hf Hm] Hc HQ. unfold TopicManager_open_and_recover_all. set (c := tm_config tm) in *.
  cbv zeta. cbn [tm_config]. fold c.
  assert (forall name Ls, logs !! name = Some Ls ->
            is_Some (files d !! (data_path c ++ name :: [str "topic.meta"]))) as Hmeta.
  { intros name Ls HL. destruct (Hf name Ls HL) as [t Ht]. destruct (tf_meta _ _ _ _ _ Ht) as [now Hn].
    unfold meta_path in Hn. rewrite <- app_assoc in Hn. by eexists. }
  apply wp_bind. eexists _, d. split; [done|].
  destruct (fs_exists_directory (data_path c) d) eqn:Hex; cbn [negb].
  2: { assert (logs = ∅) as ->.
       { apply map_empty. intros name. destruct (logs !! name) as [Ls|] eqn:HL; [|done].
         by rewrite (fs_exists_directory_complete (data_path c) (name :: [str "topic.meta"])) in Hex by (done || by eapply Hmeta). }
       apply wp_bind, wp_create_directories_ok. intros d1 Hd1 _. apply wp_bind, wp_flush_directory. intros _ d2 Hd2 _.
       apply wp_ret, HQ; [|done|intros q _; by rewrite Hd2, Hd1].
       split; [split; [|done]; intros nm; cbn; by rewrite !lookup_empty|].
       intros nm. cbn [tm_config]. rewrite Hd2, Hd1. apply Hm. }
  apply wp_bind. eexists _, d. split; [done|].
  apply (wp_recover_topics _ d _ ∅ logs); cbn [tm_config]; try done.
  - apply fs_subdirectories_nodup.
  - intros name Ls HL. eapply fs_subdirectories_complete; [by eapply Hmeta|done].
  - intros name _ Hnone. destruct (files d !! meta_path (data_path c ++ [name])) eqn:E; [|done].
    destruct (Hm name) as [? Hs]; [by eexists|]. congruence.
  - intros d' tm' H Hc' Hsm Hot. rewrite map_empty_union in H. cbn [tm_config] in Hc', Hsm.
    apply HQ; [|done|done]. split; [done|]. intros name. rewrite Hc', Hsm. apply Hm.
Qed.

End proofs.

(** ** Updates of one partition *)

Section update.
Context {W : Win32} {F : Fstream W}.

Lemma same_metadata now t t' : same_topic t t' -> topic_metadata now t' = topic_metadata now t.
Proof.
  intros (_ & _ & _ & H1 & H2 & Hl). unfold topic_metadata, Topic_num_partitions, zlen. by rewrite H1, H2, Hl.
Qed.

(** A partition of a topic changed, and only in its own directory. *)
Lemma topic_entry_update d d' c name t t' Ls i p' EL :
  topic_entry d c name t Ls -> (i < length Ls)%nat -> same_topic t t' ->
  tc_partitions t' = <[i := p']> (tc_partitions t) ->
  pt_partition_dir p' = tc_topic_dir t ++ [std_to_string (Z.of_nat i)] ->
  outside (pt_partition_dir p') (files d) (files d') -> part_is d' p' EL.1 EL.2 ->
  topic_entry d' c name t' (<[i := EL]> Ls) /\ only_topic c name (files d) (files d').
Proof.
  intros [] Hi Hst Hp' Hdir Hout Hpi. pose proof Hst as (Hn & Hd & Hc & Hr1 & Hr2 & Hl). split.
  - split; [by eapply topic_update|congruence|done|congruence|congruence|by rewrite Hr1, Hr2|].
    destruct te_meta0 as [now Hm]. exists now. rewrite (same_metadata now t t' Hst). rewrite Hout; [done|].
    rewrite Hdir, te_dir0. intros [nm E]. apply (f_equal length) in E. unfold meta_path in E.
    rewrite !length_app in E. cbn in E. lia.
  - intros q Hq. apply Hout. rewrite Hdir, te_dir0. intros [nm ->]. apply Hq.
    exists [std_to_string (Z.of_nat i); nm]. by rewrite <- !app_assoc.
Qed.

Lemma tm_is_update d d' tm logs name t t' Ls i p' EL :
  tm_is d tm logs -> tm_topics tm !! name = Some t -> logs !! name = Some Ls ->
  (i < length Ls)%nat -> same_topic t t' -> tc_partitions t' = <[i := p']> (tc_partitions t) ->
  pt_partition_dir p' = tc_topic_dir t ++ [std_to_string (Z.of_nat i)] ->
  outside (pt_partition_dir p') (files d) (files d') -> part_is d' p' EL.1 EL.2 ->
  tm_is d' (tm_set_topic name t' tm) (<[name := <[i := EL]> Ls]> logs).
Proof.
  intros Htm Ht HL Hi Hst Hp' Hdir Hout Hpi.
  destruct (tm_is_lookup _ _ _ _ _ (tmi_holds _ _ _ Htm) Ht) as (Ls' & HL' & He). rewrite HL in HL'. injection HL' as <-.
  destruct (topic_entry_update d d' _ name t t' Ls i p' EL He) as [He' Ho]; [done..|].
  by eapply tm_is_insert.
Qed.

End update.

(** ** A concrete volume *)

Fixpoint crlf_out (s : bytes) : bytes :=
  match s with
  | [] => []
  | c :: s => if bool_decide (c = Byte.x0a) then Byte.x0d :: Byte.x0a :: crlf_out s else c :: crlf_out s
  end.

Fixpoint crlf_in (s : bytes) : bytes :=
  match s with
  | [] => []
  | c :: s' =>
      match s' with
      | c' :: _ => if bool_decide (c = Byte.x0d) && bool_decide (c' = Byte.x0a) then crlf_in s' else c :: crlf_in s'
      | [] => [c]
      end
  end.

Lemma crlf_in_cons c s : c <> Byte.x0d -> crlf_in (c :: s) = c :: crlf_in s.
Proof. intros Hc. cbn. destruct s; [done|]. by rewrite bool_decide_eq_false_2. Qed.

Lemma crlf_in_out s : plain_text s -> crlf_in (crlf_out s) = s.
Proof.
  induction 1 as [|c s Hc _ IH]; [done|]. cbn [crlf_out].
  destruct (decide (c = Byte.x0a)) as [->|Hne].
  - rewrite bool_decide_eq_true_2 by done.
    change (crlf_in (Byte.x0a :: crlf_out s) = Byte.x0a :: s). rewrite crlf_in_cons by done. by rewrite IH.
  - rewrite bool_decide_eq_false_2 by done. rewrite crlf_in_cons; [by rewrite IH|].
    intros ->. destruct Hc as [Hc|Hc]; [|done]. vm_compute in Hc. naive_solver.
Qed.

(** The first component below a directory of the files deeper down. *)
Definition below (dir : path) (q : path) : option bytes :=
  match drop (length dir) q with
  | name :: _ :: _ => if bool_decide (take (length dir) q = dir) then Some name else None
  | _ => None
  end.

Definition memory_subdirectories (dir : path) (m : gmap path bytes) : list bytes :=
  remove_dups (omap (fun x => below dir x.1) (map_to_list m)).

Definition memory_ofstream (p : path) (text : bytes) (m : gmap path bytes) : bool * gmap path bytes :=
  (true, <[p := crlf_out text]> m).
Definition memory_ifstream (p : path) (m : gmap path bytes) : option bytes := crlf_in <$> m !! p.
Definition memory_exists_directory (dir : path) (m : gmap path bytes) : bool :=
  bool_decide (memory_subdirectories dir m <> []) || bool_decide (memory_directory dir m <> []).

#[global, refine] Instance memory_fstream : Fstream memory_disk := {|
  text_out := crlf_out;
  text_in := crlf_in;
  ofstream_write := memory_ofstream;
  ifstream_read := memory_ifstream;
  fs_exists_directory := memory_exists_directory;
  fs_subdirectories := memory_subdirectories;
|}.
Proof.
  - apply crlf_in_out.
  - intros p text d ok d' [= <- <-]. exists (zlen text). by rewrite ztake_ge.
  - intros p d text E. unfold memory_ifstream in E. cbn in *. destruct (d !! p) as [c|]; [|done]. injection E as <-. by exists c.
  - intros dir d. apply NoDup_remove_dups.
Defined.

#[global] Instance memory_streams : ReliableStreams memory_disk memory_fstream.
Proof.
  assert (forall dir name q (m : gmap path bytes), is_Some (m !! (dir ++ name :: q)) -> q <> [] ->
            name ∈ memory_subdirectories dir m) as Hsub.
  { intros dir name q m [c Hc] Hq. unfold memory_subdirectories. apply elem_of_remove_dups, list_elem_of_omap.
    exists (dir ++ name :: q, c). split; [by apply elem_of_map_to_list|]. unfold below. cbn [fst].
    rewrite drop_app_length, take_app_length, bool_decide_eq_true_2 by done. by destruct q. }
  constructor; cbn.
  - intros p text d. by eexists.
  - intros p d [c Hc]. unfold memory_ifstream. rewrite Hc. by eexists.
  - intros dir q d Hd Hq. unfold memory_exists_directory. apply orb_true_iff. destruct q as [|name q]; [done|]. destruct q as [|x q].
    + right. apply bool_decide_eq_true. intros E. apply memory_directory_spec in Hd. rewrite E in Hd.
      by apply not_elem_of_nil in Hd.
    + left. apply bool_decide_eq_true. intros E. eapply Hsub in Hd; [|done]. rewrite E in Hd.
      by apply not_elem_of_nil in Hd.
  - intros dir name q d Hd Hq. by eapply Hsub.
Qed.

(** A broker without topics, on an empty volume. *)
Definition demo_manager : TopicManager := mkTopicManager demo_config ∅.

Lemma demo_manager_is : tm_is (W := memory_disk) (∅ : gmap path bytes) demo_manager ∅.
Proof.
  split; [split|].
  - intros nm. cbn. by rewrite !lookup_empty.
  - split; [by vm_compute|]. repeat split; by vm_compute.
  - intros nm Hs. cbn in Hs. by destruct Hs.
Qed.

(** ** Properties *)

Lemma fresh_stored {W : Win32} d (dir : path) :
  (forall name, files d !! (dir ++ [name]) = None) -> stored_log d dir 0 [].
Proof. intros H. left. split; [|done]. intros name Hn. rewrite H in Hn. by destruct Hn. Qed.

(** Creating a topic adds exactly that topic.  For a valid new name, 1 to 64
    partitions and a directory without files, [create_topic] succeeds; the manager
    then holds the old topics with their logs unchanged and the new one with empty
    partitions, the given retention or the configured default, and its metadata on
    disk. *)
Theorem create_topic_correct {W : Win32} {R : Reliable W} {F : Fstream W} {RF : ReliableStreams W F}
    now d tm logs name n ms rb :
  tm_is d tm logs -> TopicManager_validate_topic_name name = None -> 1 <= n <= 64 ->
  logs !! name = None -> is_u64 ms -> is_u64 rb ->
  (forall r, files d !! (data_path (tm_config tm) ++ name :: r) = None) ->
  wp (TopicManager_create_topic now tm name n ms rb)
    (fun '(res, tm') d' => res = Ok name /\
       tm_is d' tm' (<[name := replicate (Z.to_nat n) (0, [])]> logs) /\
       exists t, TopicManager_get_topic tm' name = Some t /\
         tc_retention_ms t = effective_ms (tm_config tm) ms /\
         tc_retention_bytes t = effective_bytes (tm_config tm) rb) d.
Proof.
  intros Htm Hv Hn Hl Hms Hrb Hfresh.
  eapply (wp_create_topic now d tm logs name n ms rb (replicate (Z.to_nat n) (0, []))); try done.
  - unfold zlen. rewrite length_replicate. lia.
  - intros i EL Hi. apply lookup_replicate in Hi as [-> _]. apply fresh_stored. intros nm.
    rewrite <- !app_assoc. apply Hfresh.
  - intros d' t Htm' H1 H2. split_and!; [done|done|]. exists t. split_and!; [|done|done].
    apply lookup_insert_eq.
Qed.

Example create_topic_correct_witness :
  wp (W := memory_disk) (TopicManager_create_topic 1000 demo_manager (str "orders") 3 0 4096)
    (fun '(res, tm') d' => res = Ok (str "orders") /\
       tm_is d' tm' (<[str "orders" := replicate (Z.to_nat 3) (0, [])]> ∅) /\
       exists t, TopicManager_get_topic tm' (str "orders") = Some t /\
         tc_retention_ms t = effective_ms (tm_config demo_manager) 0 /\
         tc_retention_bytes t = effective_bytes (tm_config demo_manager) 4096) (∅ : gmap path bytes).
Proof.
  apply (create_topic_correct (W := memory_disk)).
  - apply demo_manager_is.
  - by vm_compute.
  - lia.
  - reflexivity.
  - by vm_compute.
  - by vm_compute.
  - intros r. reflexivity.
Defined.

(** The broker restarts with all its topics.  On a data directory that holds the
    files of a set of topics (each with its metadata and the logs of its partitions,
    the last write to any of which may have been cut short; there may be none, and no
    directory), [open_and_recover_all] succeeds and the manager holds exactly those
    topics, each with the stored number of partitions, retention and logs. *)
Theorem broker_restart_correct {W : Win32} {R : Reliable W} {F : Fstream W} {RF : ReliableStreams W F}
    d tm logs :
  broker_files d (tm_config tm) logs ->
  28 <= segment_max_bytes (tm_config tm) <= LOG_LIMIT /\ StorageConfig_wf (tm_config tm) ->
  wp (TopicManager_open_and_recover_all tm)
    (fun '(st, tm') d' => st = Status_OK /\ tm_is d' tm' logs /\ tm_config tm' = tm_config tm) d.
Proof. intros Hf Hc. eapply wp_recover_all; [done|done|]. by intros d' tm' Htm Hcf _. Qed.

(** The files are those [create_topic] leaves on an empty volume. *)
Example broker_restart_correct_witness :
  exists d, broker_files (W := memory_disk) d demo_config {[ str "orders" := replicate 3 (0, []) ]} /\
    wp (W := memory_disk) (TopicManager_open_and_recover_all demo_manager)
      (fun '(st, tm') d' => st = Status_OK /\ tm_is d' tm' {[ str "orders" := replicate 3 (0, []) ]} /\
         tm_config tm' = tm_config demo_manager) d.
Proof.
  destruct (wp_create_topic (W := memory_disk) 1000 ∅ demo_manager ∅ (str "orders") 3 0 4096
    (replicate 3 (0, [])) (fun '(_, tm') d' => tm_config tm' = demo_config /\
       tm_is d' tm' {[ str "orders" := replicate 3 (0, []) ]})) as ([res tm'] & d & _ & Hc & Htm).
  - apply demo_manager_is.
  - by vm_compute.
  - lia.
  - reflexivity.
  - by vm_compute.
  - by vm_compute.
  - reflexivity.
  - intros i EL Hi. apply lookup_replicate in Hi as [-> _]. by apply (fresh_stored (W := memory_disk)).
  - intros d' t Htm _ _. by split.
  - apply tm_is_files in Htm. rewrite Hc in Htm. exists d. split; [done|].
    apply (broker_restart_correct (W := memory_disk)); [done|].
    split; [by vm_compute|]. repeat split; by vm_compute.
Defined.

(** The metadata file is read back as it was written: number of partitions and
    both retention limits, whatever the defaults are. *)
Theorem topic_metadata_roundtrip c now t :
  is_u32 (Topic_num_partitions t) -> is_u64 (tc_retention_ms t) -> is_u64 (tc_retention_bytes t) ->
  parse_metadata c (topic_metadata now t) =
  (Topic_num_partitions t, tc_retention_ms t, tc_retention_bytes t).
Proof. apply parse_topic_metadata. Qed.

Example topic_metadata_roundtrip_witness :
  parse_metadata default_StorageConfig (topic_metadata 1700000000000 demo_topic) = (2, 1000, 0).
Proof.
  apply (topic_metadata_roundtrip default_StorageConfig 1700000000000 demo_topic); by vm_compute.
Defined.

(** [create_topic] refuses an invalid name, a partition count outside 1 to 64, an
    existing topic and a name whose metadata is on disk, each with its error and
    before anything is written: manager and volume stay as they are. *)
Theorem create_topic_refused {W : Win32} {F : Fstream W} now d tm name n ms rb :
  is_Some (TopicManager_validate_topic_name name) \/ n < 1 \/ 64 < n \/
  is_Some (TopicManager_get_topic tm name) \/
  fs_exists (meta_path (data_path (tm_config tm) ++ [name])) d = true ->
  exists st, TopicManager_create_topic now tm name n ms rb d = Some (Err st, tm, d) /\
    (m_code st = InvalidArgument \/ m_code st = AlreadyExists).
Proof.
  intros H. unfold TopicManager_create_topic.
  destruct (TopicManager_validate_topic_name name) as [err|]; [by eauto|].
  destruct ((n <? 1) || (64 <? n)) eqn:En; [by eauto|].
  apply orb_false_iff in En. rewrite !Z.ltb_ge in En. unfold TopicManager_get_topic in H.
  case_bool_decide as Ht; [by eauto|].
  destruct H as [[? H]|[H|[H|[H|H]]]]; [done|lia|lia|done|].
  unfold mbind, io_bind, io_get. cbv zeta. rewrite H. by eauto.
Qed.

Example create_topic_refused_witness :
  exists st, TopicManager_create_topic (W := memory_disk) 1000 demo_manager (str "com1") 3 0 0 ∅ =
    Some (Err st, demo_manager, ∅) /\ (m_code st = InvalidArgument \/ m_code st = AlreadyExists).
Proof.
  apply (create_topic_refused (W := memory_disk)). left. vm_compute. by eexists.
Defined.

(** A valid name is a single path component: it cannot leave the data directory, nor
    hide or end with a dot, nor name a device. *)
Theorem valid_topic_name name :
  TopicManager_validate_topic_name name = None ->
  0 < zlen name <= 249 /\ Forall (fun c => topic_char c = true) name /\ head name <> Some Byte.x2e /\
  list.last name <> Some Byte.x2e /\ (toupper <$> name) ∉ reserved_names.
Proof.
  unfold TopicManager_validate_topic_name. case_bool_decide as H1; [done|].
  destruct (Z.ltb_spec 249 (zlen name)); [done|].
  destruct (list_find _ name) as [[? ?]|] eqn:E; [done|]. apply list_find_None in E.
  destruct (_ || _); [done|]. destruct (bool_decide (head _ = _) || _) eqn:Ed; [done|].
  apply orb_false_iff in Ed as [Ed1 Ed2]. apply bool_decide_eq_false in Ed1, Ed2.
  case_bool_decide; [done|]. intros _. pose proof (zlen_pos name H1). split_and!; try done; [lia|].
  eapply Forall_impl; [|exact E]. cbn. intros c. by destruct (topic_char c).
Qed.
