(* ===== verification/OffsetStore.v ===== *)
(** * OffsetStore: the committed offsets of the consumer groups (src/OffsetStore.cpp)

    The offsets live in a log, partition 0 of the internal topic, and in a cache.
    The store points to that partition; here it names it in the topic manager, whose
    state is passed along.  [replay] is the meaning of the log: the map that its
    records, read in order, leave behind.  The invariant [store_is] says that the cache
    is the replay of the log, and recovery is shown to establish it. *)
From S2P Require Import Prelude StdString Status RecordCodec FrameCodec ProtocolMessages FileHandle OffsetIndex.
From S2P Require Import LogSegment Partition PartitionRead PartitionRecovery PartitionFrame PartitionProps.
From S2P Require Import Partitioner Topic TopicManager.

Record OffsetCommitItem := mkOffsetCommitItem {
  oci_topic : bytes;
  oci_partition : Z;            (* uint16_t *)
  oci_offset : Z;               (* uint64_t *)
  oci_timestamp_ms : Z;         (* int64_t *)
}.

Record OffsetEntry := mkOffsetEntry {
  oe_offset : Z;                (* int64_t *)
  oe_timestamp_ms : Z;          (* int64_t *)
}.

(** The pointer to the partition: topic and number. *)
Record OffsetStore := mkOffsetStore {
  os_offsets_partition : option (bytes * Z);
  os_cache : gmap bytes OffsetEntry;
}.

Definition INTERNAL_OFFSETS_TOPIC : bytes := str "__consumer_offsets".

Definition OffsetStore_make_key (group_id topic : bytes) (partition : Z) : bytes :=
  group_id ++ str "|" ++ topic ++ str "|" ++ std_to_string partition.

(** The three reference parameters, or [None] for false. *)
Definition OffsetStore_parse_key (key_str : bytes) : option (bytes * bytes * Z) :=
  match string_find Byte.x7c 0 key_str with
  | None => None
  | Some first_pipe =>
      match string_find Byte.x7c (first_pipe + 1) key_str with
      | None => None
      | Some second_pipe =>
          let out_group := take first_pipe key_str in
          let out_topic := take (second_pipe - (first_pipe + 1)) (drop (first_pipe + 1) key_str) in
          let part_str := drop (second_pipe + 1) key_str in
          if bool_decide (out_group = []) || bool_decide (out_topic = []) || bool_decide (part_str = [])
          then None else
          match std_stoul part_str with
          | Some (p, idx) =>
              if negb (bool_decide (idx = length part_str)) || (0xFFFF <? p) then None
              else Some (out_group, out_topic, u16 p)
          | None => None
          end
      end
  end.

Definition OffsetStore_get (os : OffsetStore) (group_id topic : bytes) (partition : Z) : Z :=
  match os_cache os !! OffsetStore_make_key group_id topic partition with
  | Some e => oe_offset e
  | None => -1
  end.

Definition OffsetStore_loaded_keys_count (os : OffsetStore) : Z := Z.of_nat (size (os_cache os)).

(** The partition the pointer leads to. *)
Definition os_partition (tm : TopicManager) (ptr : bytes * Z) : option Partition :=
  t ← TopicManager_get_topic tm ptr.1; tc_partitions t !! Z.to_nat ptr.2.

Definition corrupt_at (what : bytes) (offset : Z) : Status :=
  mkStatus Corrupt (what ++ INTERNAL_OFFSETS_TOPIC ++ str " at offset " ++ std_to_string offset).

Section OffsetStore.
Context {N : Winsock}.

(** The key and value of a committed item. *)
Definition commit_value (offset timestamp_ms : Z) : bytes :=
  let ts_u := u64 timestamp_ms in
  FrameCodec_write_u32 (u32 (Z.shiftr offset 32)) ++ FrameCodec_write_u32 (u32 (Z.land offset 0xFFFFFFFF)) ++
  FrameCodec_write_u32 (u32 (Z.shiftr ts_u 32)) ++ FrameCodec_write_u32 (u32 (Z.land ts_u 0xFFFFFFFF)).

Definition commit_record (group_id : bytes) (item : OffsetCommitItem) : bytes * bytes :=
  (OffsetStore_make_key group_id (oci_topic item) (oci_partition item),
   commit_value (oci_offset item) (oci_timestamp_ms item)).

(** The entry a 16-byte value stands for. *)
Definition entry_of_value (v : bytes) : OffsetEntry :=
  let off_high := FrameCodec_read_u32 v in
  let off_low := FrameCodec_read_u32 (drop 4 v) in
  let offset_val := Z.lor (u64 (Z.shiftl off_high 32)) off_low in
  let ts_high := FrameCodec_read_u32 (drop 8 v) in
  let ts_low := FrameCodec_read_u32 (drop 12 v) in
  mkOffsetEntry (i64 offset_val) (i64 (Z.lor (u64 (Z.shiftl ts_high 32)) ts_low)).

(** The [for] loop of [open_and_recover] over the records of one read. *)
Fixpoint load_records (cache : gmap bytes OffsetEntry) (curr_offset : Z) (records : list Record)
    : Status * gmap bytes OffsetEntry * Z :=
  match records with
  | [] => (Status_OK, cache, curr_offset)
  | rec :: records =>
      match OffsetStore_parse_key (key rec) with
      | None => (corrupt_at (str "Corrupt key in ") (offset rec), cache, curr_offset)
      | Some _ =>
          if negb (zlen (value rec) =? 16) then
            (corrupt_at (str "Corrupt value size (" ++ std_to_string (zlen (value rec)) ++ str " != 16) in ")
               (offset rec), cache, curr_offset)
          else load_records (<[key rec := entry_of_value (value rec)]> cache) (u64 (offset rec + 1)) records
      end
  end.

Context {W : Win32} {F : Fstream W}.

(** The [while] loop: every round that does not end it advances by at least one
    offset. *)
Fixpoint load_offsets (fuel : nat) (p : Partition) (high_watermark curr_offset : Z)
    (cache : gmap bytes OffsetEntry) : io (Status * gmap bytes OffsetEntry) :=
  match fuel with
  | O => io_fail
  | S fuel =>
      if negb (curr_offset <? high_watermark) then mret (Status_OK, cache) else
      res ← Partition_read p curr_offset 1000 (1024 * 1024);
      if negb (Status_ok (rr_status res)) then
        mret (mkStatus Corrupt (str "Failed to read " ++ INTERNAL_OFFSETS_TOPIC ++ str " at offset " ++
                std_to_string curr_offset ++ str ": " ++ m_msg (rr_status res)), cache) else
      match rr_records res with
      | [] => mret (Status_OK, cache)
      | records =>
          let '(st, cache, curr_offset) := load_records cache curr_offset records in
          if negb (Status_ok st) then mret (st, cache)
          else load_offsets fuel p high_watermark curr_offset cache
      end
  end.

Definition OffsetStore_open_and_recover (now_ms : Z) (tm : TopicManager) (os : OffsetStore)
    : io (Status * OffsetStore * TopicManager) :=
  let os := mkOffsetStore (os_offsets_partition os) ∅ in
  '(st, tm) ← (match TopicManager_get_topic tm INTERNAL_OFFSETS_TOPIC with
               | Some _ => mret (Status_OK, tm)
               | None =>
                   '(res, tm) ← TopicManager_create_topic now_ms tm INTERNAL_OFFSETS_TOPIC 1 0 0;
                   match res with
                   | Ok _ => mret (Status_OK, tm)
                   | Err st => mret (mkStatus IoError (str "Failed to create " ++ INTERNAL_OFFSETS_TOPIC ++
                                       str ": " ++ m_msg st), tm)
                   end
               end);
  if negb (Status_ok st) then mret (st, os, tm) else
  match t ← TopicManager_get_topic tm INTERNAL_OFFSETS_TOPIC; Topic_get_partition t 0 with
  | None => mret (mkStatus IoError (str "Failed to access partition 0 of " ++ INTERNAL_OFFSETS_TOPIC),
                  mkOffsetStore None (os_cache os), tm)
  | Some p =>
      '(st, cache) ← load_offsets (S (Z.to_nat (pt_next_offset p))) p (pt_next_offset p)
                       (Partition_earliest_offset p) (os_cache os);
      mret (st, mkOffsetStore (Some (INTERNAL_OFFSETS_TOPIC, 0)) cache, tm)
  end.

(** Assignment through the pointer to the partition. *)
Definition os_set_partition (ptr : bytes * Z) (p : Partition) (tm : TopicManager) : TopicManager :=
  match TopicManager_get_topic tm ptr.1 with
  | Some t => tm_set_topic ptr.1 (tc_set_partitions (<[Z.to_nat ptr.2 := p]> (tc_partitions t)) t) tm
  | None => tm
  end.

Definition OffsetStore_commit (now_ms : Z) (tm : TopicManager) (os : OffsetStore) (group_id : bytes)
    (items : list OffsetCommitItem) : io (Status * OffsetStore * TopicManager) :=
  if bool_decide (items = []) then mret (Status_OK, os, tm) else
  match os_offsets_partition os with
  | None => mret (mkStatus IoError (str "OffsetStore partition not initialized"), os, tm)
  | Some ptr =>
      p ← io_opt (os_partition tm ptr);
      '(res, p) ← Partition_append_batch now_ms p (commit_record group_id <$> items);
      let tm := os_set_partition ptr p tm in
      match res with
      | Err st => mret (st, os, tm)
      | Ok _ =>
          _ ← Partition_flush p;
          let cache := foldl (fun cache item =>
            <[OffsetStore_make_key group_id (oci_topic item) (oci_partition item) :=
                mkOffsetEntry (i64 (oci_offset item)) (oci_timestamp_ms item)]> cache) (os_cache os) items in
          mret (Status_OK, mkOffsetStore (os_offsets_partition os) cache, tm)
      end
  end.

End OffsetStore.

(** ** The meaning of the log *)

Section replay.
Context {N : Winsock}.

(** A record that recovery accepts. *)
Definition commit_ok (r : Record) : bool :=
  bool_decide (is_Some (OffsetStore_parse_key (key r))) && (zlen (value r) =? 16).

Fixpoint replay (cache : gmap bytes OffsetEntry) (L : list Record) : option (gmap bytes OffsetEntry) :=
  match L with
  | [] => Some cache
  | r :: L => if commit_ok r then replay (<[key r := entry_of_value (value r)]> cache) L else None
  end.

Lemma replay_app L1 : forall cache L2, replay cache (L1 ++ L2) = (c ← replay cache L1; replay c L2).
Proof. induction L1 as [|r L1 IH]; intros cache L2; cbn; [done|]. by destruct (commit_ok r). Qed.

Lemma load_records_replay L : forall cache cur,
  (forall i r, L !! i = Some r -> offset r = cur + Z.of_nat i) -> 0 <= cur -> cur + zlen L < 2 ^ 64 ->
  match replay cache L with
  | Some c => load_records cache cur L = (Status_OK, c, cur + zlen L)
  | None => m_code (load_records cache cur L).1.1 = Corrupt
  end.
Proof.
  induction L as [|r L IH]; intros cache cur Hoff Hc Hl; cbn [replay load_records].
  - by rewrite Z.add_0_r.
  - rewrite zlen_cons in Hl. pose proof (zlen_nonneg L). pose proof (Hoff 0%nat r eq_refl) as Hr.
    unfold commit_ok. destruct (OffsetStore_parse_key (key r)) as [k|]; [|done].
    rewrite bool_decide_eq_true_2 by (by eexists). cbn [andb]. destruct (zlen (value r) =? 16); [|done].
    cbn [negb]. rewrite Hr, Z.add_0_r, u64_id by (unfold is_u64; lia).
    specialize (IH (<[key r := entry_of_value (value r)]> cache) (cur + 1)).
    rewrite zlen_cons, Z.add_assoc. apply IH; [|lia|lia].
    intros i x Hi. rewrite (Hoff (S i) x Hi). lia.
Qed.

End replay.

Section recover.
Context {N : Winsock} {W : Win32} {R : Reliable W}.

(** Reading the log in portions is replaying it. *)
Lemma wp_load_offsets d p E L : part_is d p E L -> forall fuel i cache Q,
  (i <= length L)%nat -> (length L - i < fuel)%nat ->
  match replay cache (drop i L) with
  | Some c => Q (Status_OK, c) d
  | None => forall st c, m_code st = Corrupt -> Q (st, c) d
  end ->
  wp (load_offsets fuel p (pt_next_offset p) (E + Z.of_nat i) cache) Q d.
Proof.
  intros P. destruct (part_is_next _ _ _ _ P) as (Hn & HE & Hlt). rewrite Hn in *.
  induction fuel as [|fuel IH]; intros i cache Q Hi Hf HQ; [lia|]. cbn [load_offsets].
  destruct (Z.ltb_spec (E + Z.of_nat i) (E + zlen L)) as [Hm|Hm]; cbn [negb].
  2:{ rewrite drop_ge in HQ by (unfold zlen in Hm; lia). by apply wp_ret. }
  apply wp_bind. eapply wp_read; [exact P|unfold zlen in *; lia|by vm_compute|by vm_compute|].
  replace (Z.to_nat (E + Z.of_nat i - E)) with i by lia. cbn [rr_status rr_records].
  change (negb (Status_ok Status_OK)) with false. cbv beta iota.
  destruct (drop i L) as [|r0 rest] eqn:Ed.
  { apply (f_equal length) in Ed. rewrite length_drop in Ed. cbn in Ed. unfold zlen in Hm. lia. }
  pose proof (take_limit_prefix 1000 (1024 * 1024) (r0 :: rest) 0 0) as [post Epre].
  pose proof (take_limit_nonempty 1000 (1024 * 1024) r0 rest 0 0) as Hne.
  set (out := (take_limit _ _ 0 0 (r0 :: rest)).1.1.1) in *. clearbody out.
  destruct out as [|x out]; [done|]. set (recs := x :: out) in *.
  assert (length L = i + length recs + length post)%nat as Hlen.
  { apply (f_equal length) in Ed. rewrite Epre, length_drop, length_app in Ed. lia. }
  pose proof (load_records_replay recs cache (E + Z.of_nat i)) as Hload.
  assert (forall j r, recs !! j = Some r -> offset r = E + Z.of_nat i + Z.of_nat j) as Hoff.
  { intros j r Hj. destruct (part_is_offsets d p E L (i + j) r P) as [-> _]; [|lia].
    rewrite <- lookup_drop, Ed, Epre. by apply lookup_app_Some; left. }
  specialize (Hload Hoff ltac:(lia) ltac:(unfold zlen in *; lia)).
  rewrite Epre, replay_app in HQ. destruct (replay cache recs) as [c|] eqn:Er; cbn [mbind option_bind] in HQ.
  - rewrite Hload. change (negb (Status_ok Status_OK)) with false. cbv beta iota.
    replace (E + Z.of_nat i + zlen recs) with (E + Z.of_nat (i + length recs)) by (unfold zlen; lia).
    apply IH; [lia|subst recs; cbn [length] in *; lia|].
    replace (drop (i + length recs) L) with post; [done|].
    by rewrite <- drop_drop, Ed, Epre, drop_app_length.
  - destruct (load_records cache (E + Z.of_nat i) recs) as [[st c] cur]. cbn [fst] in Hload.
    assert (Status_ok st = false) as -> by (apply Status_ok_false; by rewrite Hload). cbn [negb].
    by apply wp_ret, HQ.
Qed.

End recover.

(** ** Keys and values *)

(** A name that can be part of a key. *)
Definition key_part (s : bytes) : Prop := s <> [] /\ Byte.x7c ∉ s.

#[global] Instance key_part_dec s : Decision (key_part s).
Proof. unfold key_part. apply _. Defined.

Lemma find_from (pre s : bytes) c :
  string_find c (length pre) (pre ++ s) = (fun n => (length pre + n)%nat) <$> string_find c 0 s.
Proof.
  unfold string_find. rewrite drop_app_length, drop_0. by destruct (list_find _ s) as [[? ?]|].
Qed.

Lemma parse_make_key g t p :
  key_part g -> key_part t -> is_u16 p -> OffsetStore_parse_key (OffsetStore_make_key g t p) = Some (g, t, p).
Proof.
  intros [Hg Hg'] [Ht Ht'] Hp. unfold OffsetStore_parse_key, OffsetStore_make_key.
  change (str "|") with [Byte.x7c]. cbn [app]. rewrite string_find_first by done.
  set (rest := t ++ Byte.x7c :: std_to_string p).
  assert (g ++ Byte.x7c :: rest = (g ++ [Byte.x7c]) ++ rest) as Eg by (by rewrite <- app_assoc).
  replace (length g + 1)%nat with (length (g ++ [Byte.x7c])) by (rewrite length_app; done).
  rewrite Eg at 1. rewrite find_from. unfold rest at 1. rewrite string_find_first by done. cbn [fmap option_fmap option_map].
  rewrite take_app_length. rewrite Eg, drop_app_length.
  replace (length (g ++ [Byte.x7c]) + length t - length (g ++ [Byte.x7c]))%nat with (length t) by lia.
  unfold rest. rewrite take_app_length.
  replace (drop _ _) with (std_to_string p).
  2:{ replace ((g ++ [Byte.x7c]) ++ t ++ Byte.x7c :: std_to_string p)
        with ((g ++ [Byte.x7c] ++ t ++ [Byte.x7c]) ++ std_to_string p) by (by rewrite <- !app_assoc).
      symmetry. apply drop_app_length'. rewrite !length_app. cbn. lia. }
  destruct (to_string_spec p) as (_ & _ & Hne); [unfold is_u16 in Hp; lia|].
  rewrite !bool_decide_eq_false_2 by done. cbn [orb].
  rewrite stoul_to_string by (unfold is_u16, is_u32 in *; lia).
  rewrite bool_decide_eq_true_2 by done. cbn [negb orb]. rewrite (proj2 (Z.ltb_ge _ _)) by (unfold is_u16 in Hp; lia).
  by rewrite u16_id.
Qed.

Lemma make_key_inj g t p g' t' p' :
  key_part g -> key_part t -> is_u16 p -> key_part g' -> key_part t' -> is_u16 p' ->
  OffsetStore_make_key g t p = OffsetStore_make_key g' t' p' -> g = g' /\ t = t' /\ p = p'.
Proof.
  intros H1 H2 H3 H4 H5 H6 E. apply (f_equal OffsetStore_parse_key) in E. rewrite !parse_make_key in E by done.
  by simplify_eq.
Qed.

Section value.
Context {N : Winsock}.

Lemma length_commit_value off ts : length (commit_value off ts) = 16%nat.
Proof. unfold commit_value, FrameCodec_write_u32. by rewrite !length_app, !length_le_store. Qed.

Lemma read_write_u32 v rest : is_u32 v -> FrameCodec_read_u32 (FrameCodec_write_u32 v ++ rest) = v.
Proof.
  intros Hv. rewrite FrameCodec_write_u32_be by done.
  assert (length (be_store 4 v) = 4%nat) as Hl by (unfold be_store; by rewrite length_rev, length_le_store).
  rewrite FrameCodec_read_u32_be by (rewrite length_app; lia).
  rewrite take_app_length' by done. rewrite be_load_store_id; [done|]. exact Hv.
Qed.

Lemma split_u64 v : is_u64 v ->
  Z.lor (u64 (Z.shiftl (u32 (Z.shiftr v 32)) 32)) (u32 (Z.land v 0xFFFFFFFF)) = v.
Proof.
  intros Hv. unfold is_u64 in Hv. rewrite Z.shiftr_div_pow2 by lia.
  assert (0 <= v / 2 ^ 32 < 2 ^ 32) as Hh.
  { split; [apply Z.div_pos; lia|]. apply Z.div_lt_upper_bound; lia. }
  rewrite (u32_id (v / 2 ^ 32)) by done. rewrite Z.shiftl_mul_pow2 by lia.
  rewrite u64_id by (unfold is_u64; nia). change 0xFFFFFFFF with (Z.ones 32). rewrite Z.land_ones by lia.
  pose proof (Z.mod_pos_bound v (2 ^ 32) ltac:(lia)). rewrite u32_id by done.
  rewrite Z.lor_comm, lor_add_shift by lia. pose proof (Z.div_mod v (2 ^ 32)). lia.
Qed.

Lemma entry_commit_value off ts : is_u64 off -> is_i64 ts ->
  entry_of_value (commit_value off ts) = mkOffsetEntry (i64 off) ts.
Proof.
  intros Ho Ht. unfold entry_of_value, commit_value.
  assert (forall v, length (FrameCodec_write_u32 v) = 4%nat) as Hl by (intros; apply length_le_store).
  rewrite read_write_u32 by apply u32_range. rewrite drop_app_length' by done.
  rewrite read_write_u32 by apply u32_range. rewrite split_u64 by done.
  rewrite (app_assoc (FrameCodec_write_u32 _) (FrameCodec_write_u32 _)).
  rewrite drop_app_length' by (rewrite length_app, !Hl; done). rewrite read_write_u32 by apply u32_range.
  rewrite (app_assoc (FrameCodec_write_u32 _ ++ _)). rewrite drop_app_length' by (rewrite !length_app, !Hl; done).
  rewrite <- (app_nil_r (FrameCodec_write_u32 (u32 (Z.land (u64 ts) 4294967295)))).
  rewrite read_write_u32 by apply u32_range. rewrite split_u64 by apply u64_range. by rewrite i64_u64.
Qed.

(** Items that recovery will accept. *)
Definition item_ok (item : OffsetCommitItem) : Prop :=
  key_part (oci_topic item) /\ is_u16 (oci_partition item) /\ is_u64 (oci_offset item) /\
  is_i64 (oci_timestamp_ms item).

#[global] Instance item_ok_dec item : Decision (item_ok item).
Proof. unfold item_ok, is_u16, is_u64, is_i64. apply _. Defined.

(** What a commit does to the cache. *)
Definition commit_cache (group_id : bytes) (cache : gmap bytes OffsetEntry) (items : list OffsetCommitItem)
    : gmap bytes OffsetEntry :=
  foldl (fun cache item => <[OffsetStore_make_key group_id (oci_topic item) (oci_partition item) :=
    mkOffsetEntry (i64 (oci_offset item)) (oci_timestamp_ms item)]> cache) cache items.

Lemma replay_commit g items : key_part g -> Forall item_ok items -> forall n now cache,
  replay cache (batch_records n now (commit_record g <$> items)) = Some (commit_cache g cache items).
Proof.
  intros Hg. induction 1 as [|item items (Ht & Hp & Ho & Hts) _ IH]; intros n now cache; [done|].
  cbn [fmap list_fmap batch_records replay commit_record]. unfold commit_ok. cbn [key value].
  rewrite parse_make_key by done. rewrite bool_decide_eq_true_2 by (by eexists).
  unfold zlen. rewrite length_commit_value. cbn [andb]. change (Z.of_nat 16 =? 16) with true. cbv iota.
  rewrite entry_commit_value by done. apply IH.
Qed.

End value.

(** ** The invariant *)

Section store.
Context {N : Winsock} {W : Win32} {R : Reliable W} {F : Fstream W} {RF : ReliableStreams W F}.

(** The broker holds the topics [logs]; the internal one has the single log [L], of
    which the cache is the replay. *)
Record store_is (d : disk) (tm : TopicManager) (os : OffsetStore)
    (logs : gmap bytes (list (Z * list Record))) (E : Z) (L : list Record) : Prop := {
  si_tm : tm_is d tm logs;
  si_logs : logs !! INTERNAL_OFFSETS_TOPIC = Some [(E, L)];
  si_ptr : os_offsets_partition os = Some (INTERNAL_OFFSETS_TOPIC, 0);
  si_cache : replay ∅ L = Some (os_cache os);
}.

(** The partition behind the pointer. *)
Lemma internal_partition d tm logs E L :
  tm_holds d tm logs -> logs !! INTERNAL_OFFSETS_TOPIC = Some [(E, L)] ->
  exists t p, tm_topics tm !! INTERNAL_OFFSETS_TOPIC = Some t /\ tc_partitions t = [p] /\
    part_is d p E L /\ pt_partition_dir p = tc_topic_dir t ++ [std_to_string 0].
Proof.
  intros Htm HL. destruct (tm_is_logs _ _ _ _ _ Htm HL) as (t & Ht & He).
  pose proof (te_is _ _ _ _ _ He) as Hti. pose proof (ti_logs _ _ _ Hti) as HF.
  destruct (tc_partitions t) as [|p l] eqn:Ep; [by apply Forall2_nil_inv_l in HF|].
  apply Forall2_cons_inv_l in HF as (EL & k & Hp & HF & [= <- <-]). apply Forall2_nil_inv_r in HF as ->.
  exists t, p. split_and!; [done|done|done|]. apply (ti_dirs _ _ _ Hti 0%nat). by rewrite Ep.
Qed.

(** Whatever the group is called, its records are appended to the log. *)
Lemma wp_commit_log now d tm os logs E L g items Q :
  store_is d tm os logs E L -> is_i64 now -> items <> [] ->
  batch_ok (commit_record g <$> items) -> E + zlen L + zlen items < 2 ^ 64 ->
  (forall d' tm' os', let L' := L ++ batch_records (E + zlen L) now (commit_record g <$> items) in
     tm_is d' tm' (<[INTERNAL_OFFSETS_TOPIC := [(E, L')]]> logs) ->
     os' = mkOffsetStore (os_offsets_partition os) (commit_cache g (os_cache os) items) ->
     tm_config tm' = tm_config tm -> Q (Status_OK, os', tm') d') ->
  wp (OffsetStore_commit now tm os g items) Q d.
Proof.
  intros [Htm HL Hptr Hc] Hnow Hne Hb Hlim HQ. unfold OffsetStore_commit.
  rewrite bool_decide_eq_false_2, Hptr by done.
  destruct (internal_partition _ _ _ _ _ (tmi_holds _ _ _ Htm) HL) as (t & p & Ht & Hp & Hpi & Hdir).
  assert (os_partition tm (INTERNAL_OFFSETS_TOPIC, 0) = Some p) as Eop.
  { unfold os_partition, TopicManager_get_topic. cbn [fst snd]. rewrite Ht. cbn. by rewrite Hp. }
  apply wp_bind. eapply wp_opt; [exact Eop|]. apply wp_bind.
  destruct (part_is_next _ _ _ _ Hpi) as (Hn & _).
  set (batch := commit_record g <$> items) in *.
  eapply wp_mono.
  { eapply wp_local; [|apply local_append_batch; by eapply part_is_in].
    eapply (wp_append_batch now d p E L batch (fun '(res, p') d' => res = Ok (pt_next_offset p) /\
      part_is d' p' E (L ++ batch_records (pt_next_offset p) now batch) /\ same_partition p p')); try done.
    - unfold batch. by destruct items.
    - unfold batch. rewrite zlen_fmap. lia. }
  intros [res p'] d1 ((-> & Hp' & (_ & Hd' & _)) & _ & Hout). apply wp_bind, wp_flush_segments. intros d2 Hd2.
  apply wp_ret. rewrite Hn in *. cbn zeta in HQ. apply HQ; [|by rewrite Hptr|].
  - unfold os_set_partition, TopicManager_get_topic. cbn [fst snd]. rewrite Ht. change (Z.to_nat 0) with 0%nat.
    eapply (tm_is_update d d2 tm logs _ t _ [(E, L)] 0 p' (E, _)); try done.
    + cbn. lia.
    + repeat split. cbn. by rewrite Hp.
    + by rewrite Hd'.
    + rewrite Hd', Hd2. done.
    + cbn [fst snd]. by eapply part_is_files.
  - unfold os_set_partition. by destruct (TopicManager_get_topic _ _).
Qed.

Lemma wp_commit now d tm os logs E L g items Q :
  store_is d tm os logs E L -> is_i64 now -> key_part g -> Forall item_ok items -> items <> [] ->
  batch_ok (commit_record g <$> items) -> E + zlen L + zlen items < 2 ^ 64 ->
  (forall d' tm' os', let L' := L ++ batch_records (E + zlen L) now (commit_record g <$> items) in
     store_is d' tm' os' (<[INTERNAL_OFFSETS_TOPIC := [(E, L')]]> logs) E L' ->
     os_cache os' = commit_cache g (os_cache os) items -> tm_config tm' = tm_config tm ->
     Q (Status_OK, os', tm') d') ->
  wp (OffsetStore_commit now tm os g items) Q d.
Proof.
  intros Hs Hnow Hg Hit Hne Hb Hlim HQ. eapply wp_commit_log; [exact Hs|done..|].
  intros d' tm' os' L' Htm -> Hc. destruct Hs. apply HQ; [|done|done]. split; try done.
  - apply lookup_insert_eq.
  - rewrite replay_app, si_cache0. cbn [mbind option_bind os_cache]. by apply replay_commit.
Qed.

(** Recovering the store from the log. *)
Lemma wp_store_recover now d tm os logs E L Q :
  tm_holds d tm logs -> logs !! INTERNAL_OFFSETS_TOPIC = Some [(E, L)] ->
  match replay ∅ L with
  | Some c => Q (Status_OK, mkOffsetStore (Some (INTERNAL_OFFSETS_TOPIC, 0)) c, tm) d
  | None => forall st os', m_code st = Corrupt -> Q (st, os', tm) d
  end ->
  wp (OffsetStore_open_and_recover now tm os) Q d.
Proof.
  intros Htm HL HQ. unfold OffsetStore_open_and_recover.
  destruct (internal_partition _ _ _ _ _ Htm HL) as (t & p & Ht & Hp & Hpi & Hdir).
  assert (TopicManager_get_topic tm INTERNAL_OFFSETS_TOPIC = Some t) as Hgt by exact Ht.
  rewrite Hgt. apply wp_bind, wp_ret.
  change (negb (Status_ok Status_OK)) with false. cbv beta iota.
  rewrite Hgt. cbn [mbind option_bind]. unfold Topic_get_partition.
  rewrite Hp. cbn [os_cache]. apply wp_bind. change (zlen [p] <=? 0) with false. cbv iota.
  change ([p] !! Z.to_nat 0) with (Some p). cbv iota.
  destruct (part_is_next _ _ _ _ Hpi) as (Hn & HE & _).
  assert (Partition_earliest_offset p = E + Z.of_nat 0) as ->
    by (destruct Hpi as (? & ? & ? & _ & H & _); lia).
  eapply (wp_load_offsets d p E L Hpi); [lia|rewrite Hn; unfold zlen; lia|]. rewrite drop_0.
  destruct (replay ∅ L); [|intros st c Hst]; by apply wp_ret; auto.
Qed.

End store.

(** ** Properties *)

(** A key is read back as it was made, for every group and topic name without
    the separator, so that different committed positions have different keys. *)
Theorem offset_key_roundtrip g t p :
  key_part g -> key_part t -> is_u16 p -> OffsetStore_parse_key (OffsetStore_make_key g t p) = Some (g, t, p).
Proof. apply parse_make_key. Qed.

Example offset_key_roundtrip_witness :
  OffsetStore_parse_key (OffsetStore_make_key (str "billing") (str "orders.eu") 65535) =
  Some (str "billing", str "orders.eu", 65535).
Proof.
  apply (offset_key_roundtrip (str "billing") (str "orders.eu") 65535);
    [apply (bool_decide_unpack _); by vm_compute..|by vm_compute].
Defined.

Lemma commit_cache_lookup g items : key_part g -> Forall item_ok items -> forall cache g' t' p',
  key_part g' -> key_part t' -> is_u16 p' ->
  commit_cache g cache items !! OffsetStore_make_key g' t' p' =
  match list.last (filter (fun it => g = g' /\ oci_topic it = t' /\ oci_partition it = p') items) with
  | Some it => Some (mkOffsetEntry (i64 (oci_offset it)) (oci_timestamp_ms it))
  | None => cache !! OffsetStore_make_key g' t' p'
  end.
Proof.
  intros Hg Hall cache g' t' p' Hg' Ht' Hp'. induction items as [|it items IH] using rev_ind; [done|].
  apply Forall_app in Hall as [Hall Hit]. apply list.Forall_cons in Hit as [(Ht & Hp & _) _].
  unfold commit_cache in *. rewrite foldl_app. cbn [foldl]. rewrite list.filter_app, filter_cons, filter_nil.
  destruct (decide (g = g' /\ oci_topic it = t' /\ oci_partition it = p')) as [(<- & <- & <-)|Hne].
  - by rewrite list.last_snoc, lookup_insert_eq.
  - rewrite app_nil_r, lookup_insert_ne; [by apply IH|]. intros E. apply make_key_inj in E; naive_solver.
Qed.

(** A commit is in the log before it is acknowledged, and is what is read back.
    Committing items of a group (names without the separator) succeeds, appends
    exactly their records to the internal log, of which the cache stays the replay;
    afterwards the offset of a position is that of the last item for it, and every
    other committed offset, of this and of other groups, is as before. *)
Theorem offset_commit_correct {N : Winsock} {W : Win32} {R : Reliable W} {F : Fstream W}
    {RF : ReliableStreams W F} now d tm os logs E L g items :
  store_is d tm os logs E L -> is_i64 now -> key_part g -> Forall item_ok items -> items <> [] ->
  batch_ok (commit_record g <$> items) -> E + zlen L + zlen items < 2 ^ 64 ->
  wp (OffsetStore_commit now tm os g items)
    (fun '(st, os', tm') d' => st = Status_OK /\
       (let L' := L ++ batch_records (E + zlen L) now (commit_record g <$> items) in
        store_is d' tm' os' (<[INTERNAL_OFFSETS_TOPIC := [(E, L')]]> logs) E L') /\
       forall g' t' p', key_part g' -> key_part t' -> is_u16 p' ->
         OffsetStore_get os' g' t' p' =
         match list.last (filter (fun it => g = g' /\ oci_topic it = t' /\ oci_partition it = p') items) with
         | Some it => i64 (oci_offset it)
         | None => OffsetStore_get os g' t' p'
         end) d.
Proof.
  intros Hs Hnow Hg Hit Hne Hb Hlim. eapply wp_commit; [exact Hs|done..|].
  intros d' tm' os' L' Hs' Hc _. split_and!; [done|done|]. intros g' t' p' Hg' Ht' Hp'.
  unfold OffsetStore_get. rewrite Hc, commit_cache_lookup by done. by destruct (list.last _).
Qed.

(** A broker whose internal topic was just created. *)
Lemma demo_store :
  exists d tm os logs, store_is (W := memory_disk) (N := x86_winsock) d tm os logs 0 [] /\
    tm_config tm = demo_config.
Proof.
  destruct (wp_create_topic (W := memory_disk) 1000 ∅ demo_manager ∅ INTERNAL_OFFSETS_TOPIC 1 0 0 [(0, [])]
    (fun '(_, tm') d' => tm_config tm' = demo_config /\
       tm_is d' tm' (<[INTERNAL_OFFSETS_TOPIC := [(0, [])]]> ∅))) as ([res tm] & d & _ & Hc & Htm).
  - apply demo_manager_is.
  - by vm_compute.
  - lia.
  - reflexivity.
  - by vm_compute.
  - by vm_compute.
  - reflexivity.
  - intros [|i] EL Hi; [|done]. injection Hi as <-. by apply (fresh_stored (W := memory_disk)).
  - intros d' t Htm _ _. by split.
  - exists d, tm, (mkOffsetStore (Some (INTERNAL_OFFSETS_TOPIC, 0)) ∅), (<[INTERNAL_OFFSETS_TOPIC := [(0, [])]]> ∅).
    split; [|done]. split; [done|apply lookup_insert_eq|done|done].
Qed.

(** A broker with a user topic of two partitions and the internal one. *)
Definition demo_broker_logs : gmap bytes (list (Z * list Record)) :=
  <[INTERNAL_OFFSETS_TOPIC := [(0, [])]]> (<[str "orders" := replicate 2 (0, [])]> ∅).

Lemma demo_broker_is :
  exists d tm os, store_is (W := memory_disk) (N := x86_winsock) d tm os demo_broker_logs 0 [] /\ tm_config tm = demo_config.
Proof.
  destruct (wp_create_topic (W := memory_disk) 1000 ∅ demo_manager ∅ (str "orders") 2 0 0 (replicate 2 (0, []))
    (fun '(_, tm') d' => tm_config tm' = demo_config /\
       tm_is d' tm' (<[str "orders" := replicate 2 (0, [])]> ∅))) as ([res1 tm1] & d1 & E1 & Hc1 & Htm1).
  { apply demo_manager_is. }
  { by vm_compute. }
  { lia. }
  { reflexivity. }
  { by vm_compute. }
  { by vm_compute. }
  { reflexivity. }
  { intros i EL Hi. apply lookup_replicate in Hi as [-> _]. by apply (fresh_stored (W := memory_disk)). }
  { intros d' t Htm _ _. by split. }
  set (dir := data_path demo_config ++ [INTERNAL_OFFSETS_TOPIC]).
  assert (forall r, files d1 !! (dir ++ r) = None) as Hfree.
  { assert ((fun r => forallb (fun k => negb (bool_decide (take (length dir) k = dir))) (map_to_list r.2).*1) <$>
      TopicManager_create_topic (W := memory_disk) 1000 demo_manager (str "orders") 2 0 0 ∅ = Some true) as Hk
      by (by vm_compute).
    rewrite E1 in Hk. injection Hk as Hk. rewrite forallb_forall in Hk. intros r.
    destruct (files d1 !! (dir ++ r)) as [c|] eqn:Ef; [|done]. exfalso.
    assert (In (dir ++ r) (map_to_list d1).*1) as Hin.
    { apply list_elem_of_In, list_elem_of_fmap. exists (dir ++ r, c). split; [done|].
      apply (elem_of_map_to_list (d1 : gmap path bytes) (dir ++ r) c). exact Ef. }
    apply Hk in Hin. change (take 2 (dir ++ r)) with (take (length dir) (dir ++ r)) in Hin.
    rewrite take_app_length, bool_decide_eq_true_2 in Hin by done. done. }
  clear E1.
  destruct (wp_create_topic (W := memory_disk) 1000 d1 tm1 (<[str "orders" := replicate 2 (0, [])]> ∅) INTERNAL_OFFSETS_TOPIC 1 0 0 [(0, [])]
    (fun '(_, tm') d' => tm_config tm' = demo_config /\ tm_is d' tm' (<[INTERNAL_OFFSETS_TOPIC := [(0, [])]]>
       (<[str "orders" := replicate 2 (0, [])]> ∅)))) as ([res tm] & d & _ & Hc & Htm).
  { exact Htm1. }
  { by vm_compute. }
  { lia. }
  { reflexivity. }
  { by vm_compute. }
  { by vm_compute. }
  { reflexivity. }
  { intros [|i] EL Hi; [|done]. injection Hi as <-. apply (fresh_stored (W := memory_disk)). intros name.
    rewrite Hc1, <- app_assoc. apply Hfree. }
  { intros d' t Htm _ _. by split. }
  exists d, tm, (mkOffsetStore (Some (INTERNAL_OFFSETS_TOPIC, 0)) ∅). split; [|done].
  split; [done|apply lookup_insert_eq|done|done].
Qed.

Lemma demo_broker :
  exists d tm os logs, store_is (W := memory_disk) (N := x86_winsock) d tm os logs 0 [] /\
    tm_config tm = demo_config /\ logs !! str "orders" = Some (replicate 2 (0, [])).
Proof. destruct demo_broker_is as (d & tm & os & Hs & Hc). by exists d, tm, os, demo_broker_logs. Qed.

Example offset_commit_correct_witness :
  let items := [mkOffsetCommitItem (str "orders") 0 41 7; mkOffsetCommitItem (str "orders") 0 42 8] in
  exists d tm os logs,
  wp (W := memory_disk) (OffsetStore_commit (N := x86_winsock) 1000 tm os (str "billing") items)
    (fun '(st, os', tm') d' => st = Status_OK /\
       (let L' := [] ++ batch_records (0 + zlen (@nil Record)) 1000 (commit_record (str "billing") <$> items) in
        store_is d' tm' os' (<[INTERNAL_OFFSETS_TOPIC := [(0, L')]]> logs) 0 L') /\
       forall g' t' p', key_part g' -> key_part t' -> is_u16 p' ->
         OffsetStore_get os' g' t' p' =
         match list.last (filter (fun it => str "billing" = g' /\ oci_topic it = t' /\ oci_partition it = p')
                            items) with
         | Some it => i64 (oci_offset it)
         | None => OffsetStore_get os g' t' p'
         end) d.
Proof.
  destruct demo_store as (d & tm & os & logs & Hs & _). exists d, tm, os, logs.
  apply (offset_commit_correct (N := x86_winsock) (W := memory_disk)).
  - exact Hs.
  - by vm_compute.
  - apply (bool_decide_unpack _). by vm_compute.
  - apply (bool_decide_unpack _). by vm_compute.
  - done.
  - repeat constructor; by vm_compute.
  - by vm_compute.
Defined.

(** The start of the broker: the topics, then the offsets (server_main.cpp). *)
Definition start_storage {N : Winsock} {W : Win32} {F : Fstream W} (now : Z) (config : StorageConfig)
    : io (Status * OffsetStore * TopicManager) :=
  '(st, tm) ← TopicManager_open_and_recover_all (mkTopicManager config ∅);
  if negb (Status_ok st) then mret (st, mkOffsetStore None ∅, tm) else
  OffsetStore_open_and_recover now tm (mkOffsetStore None ∅).

(** The internal topic is created on the first start. *)
Definition with_internal (logs : gmap bytes (list (Z * list Record))) : gmap bytes (list (Z * list Record)) :=
  match logs !! INTERNAL_OFFSETS_TOPIC with
  | Some _ => logs
  | None => <[INTERNAL_OFFSETS_TOPIC := [(0, [])]]> logs
  end.

Section start.
Context {N : Winsock} {W : Win32} {R : Reliable W} {F : Fstream W} {RF : ReliableStreams W F}.

Lemma wp_store_create now d tm os logs Q :
  tm_is d tm logs -> logs !! INTERNAL_OFFSETS_TOPIC = None ->
  (forall r, files d !! (data_path (tm_config tm) ++ INTERNAL_OFFSETS_TOPIC :: r) = None) ->
  (forall d' t, tm_is d' (tm_set_topic INTERNAL_OFFSETS_TOPIC t tm) (<[INTERNAL_OFFSETS_TOPIC := [(0, [])]]> logs) ->
     Q (Status_OK, mkOffsetStore (Some (INTERNAL_OFFSETS_TOPIC, 0)) ∅, tm_set_topic INTERNAL_OFFSETS_TOPIC t tm) d') ->
  wp (OffsetStore_open_and_recover now tm os) Q d.
Proof.
  intros Htm HL Hfree HQ.
  assert (TopicManager_get_topic tm INTERNAL_OFFSETS_TOPIC = None) as Hg.
  { unfold TopicManager_get_topic. destruct (tm_topics tm !! INTERNAL_OFFSETS_TOPIC) as [t|] eqn:E; [|done].
    destruct (tm_is_lookup _ _ _ _ _ (tmi_holds _ _ _ Htm) E) as (? & ? & _). congruence. }
  assert (wp (TopicManager_create_topic now tm INTERNAL_OFFSETS_TOPIC 1 0 0)
    (fun '(res, tm1) d1 => exists name t, res = Ok name /\ tm1 = tm_set_topic INTERNAL_OFFSETS_TOPIC t tm /\
       tm_is d1 tm1 (<[INTERNAL_OFFSETS_TOPIC := [(0, [])]]> logs)) d) as ([res tm1] & d1 & Hc & name & t & -> & -> & Htm1).
  { eapply (wp_create_topic now d tm logs _ 1 0 0 [(0, [])]); [done|by vm_compute|lia|done|done|done|done| |].
    - intros [|i] EL Hi; [|done]. injection Hi as <-. apply fresh_stored. intros nm. rewrite <- !app_assoc. apply Hfree.
    - intros d' t Ht _ _. by eexists _, t. }
  assert (wp (OffsetStore_open_and_recover now (tm_set_topic INTERNAL_OFFSETS_TOPIC t tm) os) Q d1) as (r & d2 & Hr & HQr).
  { apply (wp_store_recover now d1 _ os (<[INTERNAL_OFFSETS_TOPIC := [(0, [])]]> logs) 0 []); [apply Htm1|apply lookup_insert_eq|].
    by apply HQ. }
  exists r, d2. split; [|done]. rewrite <- Hr. unfold OffsetStore_open_and_recover. rewrite Hg.
  assert (TopicManager_get_topic (tm_set_topic INTERNAL_OFFSETS_TOPIC t tm) INTERNAL_OFFSETS_TOPIC = Some t) as ->
    by apply lookup_insert_eq.
  unfold mbind at 1, io_bind at 1. unfold mbind at 1, io_bind at 1. rewrite Hc. done.
Qed.

Lemma wp_start_storage now d c logs E L cache Q :
  broker_files d c logs -> 28 <= segment_max_bytes c <= LOG_LIMIT /\ StorageConfig_wf c ->
  with_internal logs !! INTERNAL_OFFSETS_TOPIC = Some [(E, L)] -> replay ∅ L = Some cache ->
  (logs !! INTERNAL_OFFSETS_TOPIC = None -> forall r, files d !! (data_path c ++ INTERNAL_OFFSETS_TOPIC :: r) = None) ->
  (forall d' tm', let os' := mkOffsetStore (Some (INTERNAL_OFFSETS_TOPIC, 0)) cache in
     store_is d' tm' os' (with_internal logs) E L -> tm_config tm' = c -> Q (Status_OK, os', tm') d') ->
  wp (start_storage now c) Q d.
Proof.
  intros Hf Hc HL Hr Hfree HQ. unfold start_storage. apply wp_bind.
  apply (wp_recover_all d (mkTopicManager c ∅) logs); [done|done|]. intros d1 tm1 Htm1 Hcf Hot. cbn [tm_config] in Hcf, Hot.
  change (negb (Status_ok Status_OK)) with false. cbv beta iota. unfold with_internal in *.
  destruct (logs !! INTERNAL_OFFSETS_TOPIC) as [Ls|] eqn:El.
  - assert (Ls = [(E, L)]) as -> by congruence. eapply wp_store_recover; [apply Htm1|exact El|].
    rewrite Hr. apply HQ; [by split|done].
  - rewrite lookup_insert_eq in HL. injection HL as <- <-. injection Hr as <-.
    apply (wp_store_create now d1 tm1 _ logs); [done|done| |].
    + intros r. rewrite Hcf, Hot; [by apply Hfree|]. intros nm Hs [r' Eq]. unfold data_path in Eq. cbn in Eq.
      injection Eq as Eq _. subst nm. change (is_Some (logs !! INTERNAL_OFFSETS_TOPIC)) in Hs.
      rewrite El in Hs. by destruct Hs.
    + intros d2 t Htm2. apply HQ; [|done]. split; [done|apply lookup_insert_eq|done|done].
Qed.

End start.

(** ** A run of commits, then a restart *)

(** One call of [commit]: the time, the group and its items. *)
Record commit_call := mkCommitCall {
  cc_now : Z;
  cc_group : bytes;
  cc_items : list OffsetCommitItem;
}.

(** A group id and topics that make a key the store can read back, and a batch the
    internal log takes. *)
Definition commit_call_ok {N : Winsock} (c : commit_call) : Prop :=
  is_i64 (cc_now c) /\ key_part (cc_group c) /\ Forall item_ok (cc_items c) /\ cc_items c <> [] /\
  batch_ok (commit_record (cc_group c) <$> cc_items c).

Fixpoint commit_calls {N : Winsock} {W : Win32} (cs : list commit_call) (tm : TopicManager) (os : OffsetStore)
    : io (list Status * OffsetStore * TopicManager) :=
  match cs with
  | [] => mret ([], os, tm)
  | c :: cs =>
    '(st, os, tm) ← OffsetStore_commit (cc_now c) tm os (cc_group c) (cc_items c);
    '(sts, os, tm) ← commit_calls cs tm os;
    mret (st :: sts, os, tm)
  end.

Definition called_items (cs : list commit_call) : list (bytes * OffsetCommitItem) :=
  concat ((fun c => pair (cc_group c) <$> cc_items c) <$> cs).

Definition item_for (g t : bytes) (p : Z) (x : bytes * OffsetCommitItem) : Prop :=
  x.1 = g /\ oci_topic x.2 = t /\ oci_partition x.2 = p.
#[global] Instance item_for_dec g t p x : Decision (item_for g t p x).
Proof. unfold item_for. apply _. Defined.

(** What the calls leave as the committed offset of a position: the last one for it. *)
Definition committed_by (cs : list commit_call) (g t : bytes) (p before : Z) : Z :=
  match list.last (filter (item_for g t p) (called_items cs)) with
  | Some (_, it) => i64 (oci_offset it)
  | None => before
  end.

Lemma filter_pairs {A B} (a : A) (l : list B) (P : A * B -> Prop) `{forall x, Decision (P x)} :
  filter P (pair a <$> l) = pair a <$> filter (fun b => P (a, b)) l.
Proof. induction l as [|b l IH]; [done|]. cbn [fmap list_fmap]. rewrite !filter_cons, IH. by destruct (decide _). Qed.

Lemma committed_by_cons c cs g t p before :
  committed_by (c :: cs) g t p before = committed_by cs g t p (committed_by [c] g t p before).
Proof.
  unfold committed_by, called_items. cbn [fmap list_fmap concat]. rewrite app_nil_r, list.filter_app, list.last_app.
  by destruct (list.last (filter _ (concat _))) as [[]|].
Qed.

Section calls.
Context {N : Winsock} {W : Win32} {R : Reliable W} {F : Fstream W} {RF : ReliableStreams W F}.

Lemma commit_cache_get os os' c g t p : commit_call_ok c ->
  os_cache os' = commit_cache (cc_group c) (os_cache os) (cc_items c) -> key_part g -> key_part t -> is_u16 p ->
  OffsetStore_get os' g t p = committed_by [c] g t p (OffsetStore_get os g t p).
Proof.
  intros (_ & Hg & Hit & _) Hc Hg' Ht Hp. unfold OffsetStore_get. rewrite Hc, commit_cache_lookup by done.
  unfold committed_by, called_items. cbn [fmap list_fmap concat]. rewrite app_nil_r, filter_pairs, fmap_last.
  assert (forall dec1 dec2, @list_filter _ (fun it => cc_group c = g /\ oci_topic it = t /\ oci_partition it = p) dec1 (cc_items c) =
    @list_filter _ (fun it => item_for g t p (cc_group c, it)) dec2 (cc_items c)) as He by (intros; by apply list_filter_iff).
  unfold filter. erewrite He. by destruct (list.last _).
Qed.

Lemma wp_commit_calls cs : forall d tm os logs E L Q,
  store_is d tm os logs E L -> Forall commit_call_ok cs -> E + zlen L + zlen (called_items cs) < 2 ^ 64 ->
  (forall d' tm' os' L', store_is d' tm' os' (<[INTERNAL_OFFSETS_TOPIC := [(E, L ++ L')]]> logs) E (L ++ L') ->
     tm_config tm' = tm_config tm -> zlen L' = zlen (called_items cs) ->
     (forall g t p, key_part g -> key_part t -> is_u16 p ->
        OffsetStore_get os' g t p = committed_by cs g t p (OffsetStore_get os g t p)) ->
     Q (replicate (length cs) Status_OK, os', tm') d') ->
  wp (commit_calls cs tm os) Q d.
Proof.
  induction cs as [|c cs IH]; intros d tm os logs E L Q Hs Hok Hlim HQ; cbn [commit_calls].
  { apply wp_ret, (HQ d tm os []); [|done..]. rewrite app_nil_r, insert_id by apply Hs. done. }
  apply list.Forall_cons in Hok as [Hc Hok]. destruct (Hc) as (Hnow & Hg & Hit & Hne & Hb).
  assert (zlen (called_items (c :: cs)) = zlen (cc_items c) + zlen (called_items cs)) as Hl
    by (unfold called_items; cbn; by rewrite zlen_app, zlen_fmap).
  pose proof (zlen_nonneg (called_items cs)).
  apply wp_bind, (wp_commit _ d tm os logs E L); [done..|lia|]. intros d1 tm1 os1 L1 Hs1 Hcache Hcf.
  assert (zlen L1 = zlen L + zlen (cc_items c)) as Hl1
    by (unfold L1; by rewrite zlen_app, zlen_batch_records, zlen_fmap).
  apply wp_bind. cbv beta iota. eapply IH; [exact Hs1|done|lia|].
  intros d2 tm2 os2 L2 Hs2 Hcf2 Hl2 Hget. cbv beta iota. apply wp_ret. cbn [length replicate].
  unfold L1 in Hs2. rewrite insert_insert_eq, <- app_assoc in Hs2.
  apply (HQ d2 tm2 os2 _ Hs2); [congruence|rewrite zlen_app, zlen_batch_records, zlen_fmap; lia|].
  intros g t p Hg' Ht Hp. rewrite committed_by_cons, Hget by done. f_equal. by apply commit_cache_get.
Qed.

End calls.

(** C10: committed offsets survive a restart.  Take a store whose internal log replays
    to its cache, as it does after the first start, let any number of commits with
    non-empty group ids run on it (names without the separator, batches the log takes),
    and restart the broker on the files that are then there.  Every commit was
    acknowledged, the start succeeds in a state of the same kind, and the restarted
    store answers every query with the offset of the last commit for that position, or
    with what it was before the commits if there was none. *)
Theorem committed_offsets_durable {N : Winsock} {W : Win32} {R : Reliable W} {F : Fstream W}
    {RF : ReliableStreams W F} now d tm os logs E L cs :
  store_is d tm os logs E L -> Forall commit_call_ok cs -> E + zlen L + zlen (called_items cs) < 2 ^ 64 ->
  wp ('(sts, _, tm1) ← commit_calls cs tm os; '(st, os', tm') ← start_storage now (tm_config tm1);
      mret (sts, st, os', tm'))
    (fun '(sts, st, os', tm') d' => sts = replicate (length cs) Status_OK /\ st = Status_OK /\
       (exists L', zlen L' = zlen (called_items cs) /\
          store_is d' tm' os' (<[INTERNAL_OFFSETS_TOPIC := [(E, L ++ L')]]> logs) E (L ++ L')) /\
       forall g t p, key_part g -> key_part t -> is_u16 p ->
         OffsetStore_get os' g t p = committed_by cs g t p (OffsetStore_get os g t p)) d.
Proof.
  intros Hs Hok Hlim. apply wp_bind, (wp_commit_calls cs d tm os logs E L); [done..|].
  intros d1 tm1 os1 L' [Htm HL Hptr Hc] Hcf Hl Hget. cbv beta iota. apply wp_bind.
  set (logs1 := <[INTERNAL_OFFSETS_TOPIC := [(E, L ++ L')]]> logs) in *.
  assert (with_internal logs1 = logs1) as Hw by (unfold with_internal; by rewrite HL).
  eapply (wp_start_storage now d1 (tm_config tm1) logs1 E (L ++ L') (os_cache os1)); [exact (tm_is_files _ _ _ Htm)|
    apply (tmi_config _ _ _ (tmi_holds _ _ _ Htm))|by rewrite Hw|done|congruence|].
  rewrite Hw. intros d' tm' os' Hs' _. cbv beta iota. apply wp_ret. split_and!; [done|done|by exists L'|].
  intros g t p Hg Ht Hp. by rewrite <- Hget.
Qed.

(** Two groups commit, the first one twice, and the broker restarts. *)
Example committed_offsets_durable_witness :
  let cs := [mkCommitCall 1000 (str "billing") [mkOffsetCommitItem (str "orders") 0 41 7];
             mkCommitCall 1001 (str "audit") [mkOffsetCommitItem (str "orders") 0 5 8; mkOffsetCommitItem (str "orders") 1 6 8];
             mkCommitCall 1002 (str "billing") [mkOffsetCommitItem (str "orders") 0 42 9]] in
  exists d tm os, wp (W := memory_disk)
    ('(_, _, tm1) ← commit_calls (N := x86_winsock) cs tm os; '(st, os', _) ← start_storage 2000 (tm_config tm1);
     mret (st, os'))
    (fun '(st, os') _ => st = Status_OK /\ OffsetStore_get os' (str "billing") (str "orders") 0 = 42 /\
       OffsetStore_get os' (str "audit") (str "orders") 1 = 6) d.
Proof.
  intros cs. destruct demo_store as (d & tm & os & logs & Hs & _). exists d, tm, os.
  destruct (committed_offsets_durable (N := x86_winsock) (W := memory_disk) 2000 d tm os logs 0 [] cs)
    as ([[[sts st] os'] tm'] & d' & Hrun & _ & -> & _ & Hget).
  - exact Hs.
  - repeat constructor; first [by vm_compute | apply (bool_decide_unpack _); by vm_compute].
  - by vm_compute.
  - exists (Status_OK, os'), d'. split; [|split_and!; [done| |]].
    + unfold mbind, io_bind in *. destruct (commit_calls cs tm os d) as [[[[? ?] tm1] d1]|]; [|done]. cbv beta iota in *.
      destruct (start_storage 2000 (tm_config tm1) d1) as [[[[? ?] ?] ?]|]; [|done]. cbv beta iota in *.
      unfold mret, io_ret in *. by simplify_eq.
    + rewrite Hget; [by vm_compute|apply (bool_decide_unpack _); by vm_compute..|by vm_compute].
    + rewrite Hget; [by vm_compute|apply (bool_decide_unpack _); by vm_compute..|by vm_compute].
Defined.

Lemma parse_key_empty_group t p : OffsetStore_parse_key (OffsetStore_make_key [] t p) = None.
Proof.
  unfold OffsetStore_parse_key, OffsetStore_make_key. change (str "|") with [Byte.x7c]. cbn [app].
  change (string_find Byte.x7c 0 (Byte.x7c :: t ++ Byte.x7c :: std_to_string p)) with (Some 0%nat). cbv iota.
  destruct (string_find _ _ _); [|done]. by rewrite bool_decide_eq_true_2.
Qed.
