(* ===== verification/BrokerCrash.v ===== *)
(** * BrokerCrash: a crash of the broker in a PRODUCE or in an offset commit

    The crash theorems of PartitionCrash.v, carried to the whole storage engine: the
    process dies at an arbitrary point of an append to one partition of one topic, or of
    a commit to the internal topic, and the broker is started on what remains
    ([OffsetStore.start_storage], the part of server_main.cpp that opens the storage).
    It also shows what a crash in [create_topic] can leave. *)
From S2P Require Import Prelude StdString Status RecordCodec FrameCodec ProtocolMessages FileHandle CrashDisk.
From S2P Require Import OffsetIndex LogSegment Partition PartitionRead PartitionRecovery PartitionProps PartitionCrash.
From S2P Require Import PartitionFrame Partitioner Topic TopicManager OffsetStore.

Section files.
Context {W : Win32} {F : Fstream W}.

(** The directory of a partition. *)
Definition partition_dir_of (c : StorageConfig) (name : bytes) (i : nat) : path :=
  (data_path c ++ [name]) ++ [std_to_string (Z.of_nat i)].

(** The files of one partition change and hold another log. *)
Lemma broker_files_update d d' c logs name Ls i EL' :
  broker_files d c logs -> logs !! name = Some Ls -> (i < length Ls)%nat ->
  outside (partition_dir_of c name i) (files d) (files d') ->
  stored_log d' (partition_dir_of c name i) EL'.1 EL'.2 ->
  broker_files d' c (<[name := <[i := EL']> Ls]> logs).
Proof.
  intros [Ht Hm] HL Hi Ho Hs.
  assert (forall nm, files d' !! meta_path (data_path c ++ [nm]) = files d !! meta_path (data_path c ++ [nm])) as Hmeta.
  { intros nm. apply Ho. intros [r E]. apply (f_equal length) in E. unfold meta_path, partition_dir_of in E.
    rewrite !length_app in E. cbn in E. lia. }
  assert (forall nm j f, partition_dir_of c nm j <> partition_dir_of c name i ->
    files d' !! (partition_dir_of c nm j ++ [f]) = files d !! (partition_dir_of c nm j ++ [f])) as Hother.
  { intros nm j f Hne. apply Ho. eapply within_disjoint; [exact Hne|by eexists]. }
  split.
  - intros nm Ls' HL'. destruct (decide (nm = name)) as [->|Hne].
    + rewrite lookup_insert_eq in HL'. injection HL' as <-. destruct (Ht name Ls HL) as [t []]. exists t.
      split; try done; [unfold zlen in *; by rewrite length_insert|by rewrite Hmeta|].
      intros j EL Hj. fold (partition_dir_of c name j). destruct (decide (j = i)) as [->|Hji].
      * rewrite list_lookup_insert_eq in Hj by done. by injection Hj as <-.
      * rewrite list_lookup_insert_ne in Hj by done. eapply stored_log_frame; [|by apply tf_stored].
        intros f. apply Hother. unfold partition_dir_of. intros E. apply app_inv_head in E.
        injection E as E. apply to_string_inj in E; lia.
    + rewrite lookup_insert_ne in HL' by done. destruct (Ht nm Ls' HL') as [t []]. exists t.
      split; try done; [by rewrite Hmeta|]. intros j EL Hj.
      eapply stored_log_frame; [|by apply tf_stored]. intros f. apply Hother. unfold partition_dir_of.
      intros E. unfold data_path in E. cbn in E. by injection E as E _.
  - intros nm Hs'. rewrite Hmeta in Hs'. apply Hm in Hs'. destruct (decide (nm = name)) as [->|].
    + rewrite lookup_insert_eq. by eexists.
    + by rewrite lookup_insert_ne.
Qed.

(** Only the files count. *)
Lemma broker_files_same d d' c logs : files d' = files d -> broker_files d c logs -> broker_files d' c logs.
Proof.
  intros Hf [Ht Hm]. split; [|by rewrite Hf]. intros name Ls HL. destruct (Ht name Ls HL) as [t []].
  exists t. split; rewrite ?Hf; try done. intros i EL Hi. by eapply stored_log_transfer; [|by apply tf_stored].
Qed.

End files.

Section crash.
Context {N : Winsock} {W : Win32} {R : Reliable W} {F : Fstream W} {RF : ReliableStreams W F}.

(** The broker is started on the volume [d]: its topics hold [logs] and its cache is the
    replay [cache] of the internal log [L]. *)
Definition restarts_with (now : Z) (d : disk) (c : StorageConfig)
    (logs : gmap bytes (list (Z * list Record))) (E : Z) (L : list Record)
    (cache : gmap bytes OffsetEntry) : Prop :=
  wp (start_storage now c)
    (fun '(st, os, tm) d' => st = Status_OK /\ store_is d' tm os logs E L /\ os_cache os = cache /\
       tm_config tm = c) d.

Lemma files_restart now d c logs E L cache :
  broker_files d c logs -> 28 <= segment_max_bytes c <= LOG_LIMIT /\ StorageConfig_wf c ->
  logs !! INTERNAL_OFFSETS_TOPIC = Some [(E, L)] -> replay ∅ L = Some cache ->
  restarts_with now d c logs E L cache.
Proof.
  intros Hf Hc HL Hr. assert (with_internal logs = logs) as Hw by (unfold with_internal; by rewrite HL).
  eapply wp_start_storage; [done|done|by rewrite Hw|done|congruence|].
  rewrite Hw. intros d' tm' os' Hs Hcf. by split_and!.
Qed.

(** A failed batch carries the status of the failure. *)
Lemma append_batch_err {W' : Win32} now p batch d st p' d' :
  Partition_append_batch (W := W') now p batch d = Some (Err st, p', d') -> m_code st <> OK.
Proof.
  unfold Partition_append_batch. case_bool_decide; [by intros [= <- _ _]|].
  destruct (list_find _ batch) as [[? [k v]]|]; [by intros [= <- _ _]|].
  unfold mbind, io_bind. destruct (Partition_append_items now p batch d) as [[[st1 p1] d1]|]; [|done].
  destruct (Status_ok st1) eqn:Es; cbn [negb].
  - destruct ((if sync_on_append (pt_config p1) then Partition_flush p1 else mret tt) d1) as [[[] d2]|]; [|done].
    by intros [=].
  - intros [= <- _ _]. by apply Status_ok_false.
Qed.

(** One partition is in the middle of an append when the process dies. *)
Lemma wp_partition_crash now d c logs name Ls i E L p batch n torn :
  broker_files d c logs -> logs !! name = Some Ls -> Ls !! i = Some (E, L) ->
  part_is d p E L -> pt_partition_dir p = partition_dir_of c name i ->
  is_i64 now -> batch <> [] -> batch_ok batch -> E + zlen L + zlen batch < 2 ^ 64 ->
  let rs := batch_records (E + zlen L) now batch in
  wp (W := dying W) (Partition_append_batch now p batch)
    (fun '(res, _) d1 => exists k,
       broker_files (volume d1) c (<[name := <[i := (E, L ++ take k rs)]> Ls]> logs) /\
       match res with
       | Ok o => o = E + zlen L /\ (length rs <= k)%nat
       | Err st => m_code st <> OK
       end) (crash_after n torn d).
Proof.
  intros Hf HL Hi P Hdir Hnow Hne Hb Hlim rs. destruct (part_is_next _ _ _ _ P) as [Hn _].
  assert (Hl : local (W := dying W) (pt_partition_dir p) (Partition_append_batch now p batch)
    (fun r => part_in (pt_partition_dir p) r.2)).
  { apply (local_append_batch (W := dying W)). by eapply part_is_in. }
  rewrite <- Hn in Hlim. pose proof (wp_batch_crash now d p E L batch n torn P Hnow Hne Hb Hlim) as Hw.
  destruct (wp_local (W := dying W) _ _ _ _ _ Hw Hl) as ([res p1] & d1 & Er & (k & Hs & Hr) & _ & Ho).
  exists (res, p1), d1. split; [done|]. exists k. rewrite Hn in Hs, Hr. rewrite Hdir in Hs, Ho. split.
  - eapply broker_files_update; [done|done|by eapply lookup_lt_Some|exact Ho|done].
  - destruct res as [o|st]; [by apply Hr|exact (append_batch_err _ _ _ _ _ _ _ Er)].
Qed.

End crash.

(** C3: a crash of the broker in a PRODUCE.  The broker dies at any point of the append of a
    batch to a partition of a topic.  Started again it holds the same topics; every log is
    as it was, except that of the partition, which has the first k records of the batch
    more, all of them when the append had reported its base offset; and every committed
    offset is as it was. *)
Theorem produce_crash_safe {N : Winsock} {W : Win32} {R : Reliable W} {F : Fstream W} {RF : ReliableStreams W F}
    now now' d tm os logs E0 L0 name t Ls partition records out n torn :
  store_is d tm os logs E0 L0 -> tm_topics tm !! name = Some t -> logs !! name = Some Ls ->
  name <> INTERNAL_OFFSETS_TOPIC -> is_i64 now -> -1 <= partition < zlen (tc_partitions t) ->
  let batch := (fun r => (prp_key r, prp_value r)) <$> records in
  records <> [] -> batch_ok batch -> Forall (fun EL => EL.1 + zlen EL.2 + zlen batch < 2 ^ 64) Ls ->
  wp (W := dying W) (Topic_produce_batch now t partition records out)
    (fun '(res, chosen, _) d1 => exists E L k,
       Ls !! Z.to_nat chosen = Some (E, L) /\ (partition <> -1 -> chosen = partition) /\
       let rs := batch_records (E + zlen L) now batch in
       restarts_with now' (volume d1) (tm_config tm)
         (<[name := <[Z.to_nat chosen := (E, L ++ take k rs)]> Ls]> logs) E0 L0 (os_cache os) /\
       forall o, res = Ok o -> o = E + zlen L /\ (length rs <= k)%nat) (crash_after n torn d).
Proof.
  intros Hst Ht HL Hint Hnow Hp batch Hne Hb Hlim. destruct Hst as [Htm HL0 Hptr Hca].
  pose proof (tm_is_files _ _ _ Htm) as Hbf. pose proof (tmi_config _ _ _ (tmi_holds _ _ _ Htm)) as Hcfg.
  destruct (tm_is_lookup _ _ _ _ _ (tmi_holds _ _ _ Htm) Ht) as (Ls' & HL' & He).
  rewrite HL in HL'. injection HL' as <-. pose proof (te_is _ _ _ _ _ He) as Hti.
  pose proof (ti_count _ _ _ Hti) as Hc. unfold Topic_produce_batch.
  destruct records as [|first rest]; [done|]. fold batch. destruct (num_partitions_small t Hc) as [_ ->].
  replace ((partition <? -1) || (zlen (tc_partitions t) <=? partition)) with false
    by (symmetry; apply orb_false_iff; rewrite Z.ltb_ge, Z.leb_gt; lia).
  pose proof (choice_range t partition (prp_key first) Hc Hp) as Hch.
  pose proof (same_choice t partition (prp_key first)) as [_ Hpt].
  destruct (Topic_choose_partition t partition (prp_key first)) as [ch t0]. cbn [fst snd] in *.
  destruct Hch as (Hcr & Hc1 & _). pose proof (Forall2_length (ti_logs _ _ _ Hti)) as Hlen.
  destruct (lookup_lt_is_Some_2 (tc_partitions t) (Z.to_nat ch)) as [p Hpc]; [unfold zlen in *; lia|].
  destruct (lookup_lt_is_Some_2 Ls (Z.to_nat ch)) as [[E L] HLc]; [unfold zlen in *; lia|].
  pose proof (Forall2_lookup_lr _ _ _ _ _ _ (ti_logs _ _ _ Hti) Hpc HLc) as Hpi. cbn [fst snd] in Hpi.
  rewrite list.Forall_forall in Hlim. pose proof (Hlim _ (list_elem_of_lookup_2 _ _ _ HLc)) as Hl. cbn [fst snd] in Hl.
  apply (wp_bind (W := dying W)). unfold on_partition. rewrite Hpt. apply (wp_bind (W := dying W)).
  eapply (wp_opt (W := dying W)); [exact Hpc|]. apply (wp_bind (W := dying W)). eapply (wp_mono (W := dying W)).
  { eapply (wp_partition_crash now d (tm_config tm) logs name Ls (Z.to_nat ch) E L p batch n torn); try done.
    rewrite (ti_dirs _ _ _ Hti (Z.to_nat ch) p Hpc), (te_dir _ _ _ _ _ He). done. }
  intros [res p1] d1 (k & Hk & Hr). apply (wp_ret (W := dying W)), (wp_ret (W := dying W)).
  exists E, L, k. split_and!; [done|by auto| |by intros o ->].
  apply files_restart; [done|done| |done]. by rewrite lookup_insert_ne.
Qed.

Lemma batch_records_length now batch : forall next, length (batch_records next now batch) = length batch.
Proof. induction batch as [|[k v] batch IH]; intros next; cbn; [done|]. by rewrite IH. Qed.

(** The start of a batch of records is the batch of the start. *)
Lemma batch_records_take k : forall next now batch,
  take k (batch_records next now batch) = batch_records next now (take k batch).
Proof.
  induction k as [|k IH]; [done|]. intros next now [|[key v] batch]; [done|]. cbn. by rewrite IH.
Qed.

(** C11: a crash of the broker in an offset commit.  The broker dies at any point of the commit
    of a list of offsets, for a group id and topics that make keys the store can read back
    (not empty, without the separator) and offsets that fit their type.  Started again, its
    store answers as if the first k of them had been committed, for some k, and nothing
    else; all of them when the commit had been reported.  (A commit of several offsets is
    not atomic; for the empty group id see [anonymous_commit_poisons_store].) *)
Theorem commit_crash_safe {N : Winsock} {W : Win32} {R : Reliable W} {F : Fstream W} {RF : ReliableStreams W F}
    now now' d tm os logs E L g items n torn :
  store_is d tm os logs E L -> is_i64 now -> key_part g -> Forall item_ok items -> items <> [] ->
  batch_ok (commit_record g <$> items) -> E + zlen L + zlen items < 2 ^ 64 ->
  wp (W := dying W) (OffsetStore_commit now tm os g items)
    (fun '(st, _, _) d1 => exists k L', restarts_with now' (volume d1) (tm_config tm)
         (<[INTERNAL_OFFSETS_TOPIC := [(E, L')]]> logs) E L' (commit_cache g (os_cache os) (take k items)) /\
       (st = Status_OK -> (length items <= k)%nat)) (crash_after n torn d).
Proof.
  intros Hst Hnow Hg Hit Hne Hb Hlim. destruct Hst as [Htm HL Hptr Hca].
  pose proof (tm_is_files _ _ _ Htm) as Hbf. pose proof (tmi_config _ _ _ (tmi_holds _ _ _ Htm)) as Hcfg.
  destruct (internal_partition _ _ _ _ _ (tmi_holds _ _ _ Htm) HL) as (t & p & Ht & Hp & Hpi & Hdir).
  destruct (tm_is_lookup _ _ _ _ _ (tmi_holds _ _ _ Htm) Ht) as (Ls' & _ & He).
  unfold OffsetStore_commit. rewrite bool_decide_eq_false_2, Hptr by done.
  assert (os_partition tm (INTERNAL_OFFSETS_TOPIC, 0) = Some p) as Eop.
  { unfold os_partition, TopicManager_get_topic. cbn [fst snd]. rewrite Ht. cbn. by rewrite Hp. }
  apply (wp_bind (W := dying W)). eapply (wp_opt (W := dying W)); [exact Eop|].
  apply (wp_bind (W := dying W)). set (batch := commit_record g <$> items) in *.
  eapply (wp_mono (W := dying W)).
  { eapply (wp_partition_crash now d (tm_config tm) logs _ [(E, L)] 0 E L p batch n torn); try done.
    - rewrite Hdir, (te_dir _ _ _ _ _ He). done.
    - unfold batch. by destruct items.
    - unfold batch. rewrite zlen_fmap. lia. }
  intros [res p1] d1 (k & Hk & Hr). cbn [list_insert insert] in Hk.
  set (rs := batch_records (E + zlen L) now batch) in *.
  assert (length rs = length items) as Hlr by (unfold rs, batch; by rewrite batch_records_length, length_fmap).
  assert (forall v, files v = files (volume d1) -> restarts_with now' v (tm_config tm)
    (<[INTERNAL_OFFSETS_TOPIC := [(E, L ++ take k rs)]]> logs) E
    (L ++ take k rs) (commit_cache g (os_cache os) (take k items))) as Hrs.
  { intros v Hv. apply files_restart; [by eapply broker_files_same|done|apply lookup_insert_eq|].
    rewrite replay_app, Hca. cbn [mbind option_bind]. unfold rs, batch. rewrite batch_records_take, <- fmap_take.
    apply replay_commit; [done|by apply Forall_take]. }
  destruct res as [o|st].
  - apply (wp_bind (W := dying W)), (wp_flush_segments (W := dying W)). intros d2 Hd2. apply (wp_ret (W := dying W)).
    exists k. eexists. split; [by apply Hrs|]. intros _. destruct Hr as [_ Hr]. lia.
  - apply (wp_ret (W := dying W)). exists k. eexists. split; [by apply Hrs|]. by intros ->.
Qed.

Definition demo_payloads : list ProduceRecordPayload :=
  [mkProduceRecordPayload (str "k") (str "first"); mkProduceRecordPayload (str "k") (str "second")].

(** The broker dies in the second write of the batch, with ten bytes of it stored. *)
Example produce_crash_safe_witness :
  exists d tm os t, tm_topics tm !! str "orders" = Some t /\
  wp (W := dying memory_disk) (Topic_produce_batch 1000 t 1 demo_payloads 0)
    (fun '(res, chosen, _) d1 => exists E L k,
       replicate 2 (0, []) !! Z.to_nat chosen = Some (E, L) /\ (1 <> -1 -> chosen = 1) /\
       let rs := batch_records (E + zlen L) 1000 ((fun r => (prp_key r, prp_value r)) <$> demo_payloads) in
       restarts_with (N := x86_winsock) (W := memory_disk) 2000 (volume d1) (tm_config tm)
         (<[str "orders" := <[Z.to_nat chosen := (E, L ++ take k rs)]> (replicate 2 (0, []))]> demo_broker_logs)
         0 [] (os_cache os) /\
       forall o, res = Ok o -> o = E + zlen L /\ (length rs <= k)%nat) (crash_after 2 10 d).
Proof.
  destruct demo_broker_is as (d & tm & os & Hs & Hc).
  assert (demo_broker_logs !! str "orders" = Some (replicate 2 (0, []))) as HL by (by vm_compute).
  destruct (tm_is_logs _ _ _ _ _ (tmi_holds _ _ _ (si_tm _ _ _ _ _ _ Hs)) HL) as (t & Ht & He).
  exists d, tm, os, t. split; [exact Ht|].
  apply (produce_crash_safe (N := x86_winsock) (W := memory_disk) 1000 2000 d tm os demo_broker_logs 0 []
           (str "orders") t (replicate 2 (0, [])) 1 demo_payloads 0 2 10).
  - exact Hs.
  - exact Ht.
  - exact HL.
  - by vm_compute.
  - by vm_compute.
  - unfold zlen. rewrite (Forall2_length (ti_logs _ _ _ (te_is _ _ _ _ _ He))). by vm_compute.
  - done.
  - repeat constructor; by vm_compute.
  - repeat constructor; by vm_compute.
Defined.

Example commit_crash_safe_witness :
  let items := [mkOffsetCommitItem (str "orders") 0 41 7; mkOffsetCommitItem (str "orders") 1 42 8] in
  exists d tm os logs,
  wp (W := dying memory_disk) (OffsetStore_commit (N := x86_winsock) 1000 tm os (str "billing") items)
    (fun '(st, _, _) d1 => exists k L',
       restarts_with (N := x86_winsock) (W := memory_disk) 2000 (volume d1) (tm_config tm)
         (<[INTERNAL_OFFSETS_TOPIC := [(0, L')]]> logs) 0 L' (commit_cache (str "billing") (os_cache os) (take k items)) /\
       (st = Status_OK -> (length items <= k)%nat)) (crash_after 1 7 d).
Proof.
  destruct demo_store as (d & tm & os & logs & Hs & _). exists d, tm, os, logs.
  apply (commit_crash_safe (N := x86_winsock) (W := memory_disk) 1000 2000 d tm os logs 0 []).
  - exact Hs.
  - by vm_compute.
  - apply (bool_decide_unpack _). by vm_compute.
  - apply (bool_decide_unpack _). by vm_compute.
  - done.
  - repeat constructor; by vm_compute.
  - by vm_compute.
Defined.

(** ** A topic whose creation was cut short

    [save_topic_metadata] writes topic.meta in place and does not look at the state of the
    stream, so a crash (or a full volume) leaves a start of the file. *)

(** What is left of the text says how many partitions there are only after the first
    eleven bytes, "partitions=". *)
Lemma metadata_cut_short c now t n : n <= 11 -> (parse_metadata c (ztake n (topic_metadata now t))).1.1 = 0.
Proof.
  intros Hn. unfold topic_metadata, ztake. rewrite take_app_le by (cbn; lia).
  assert (Z.to_nat n <= 11)%nat as Hm by lia. revert Hm. generalize (Z.to_nat n). clear.
  intros m Hm. do 12 (destruct m as [|m]; [reflexivity|]). lia.
Qed.

Section unfinished.
Context {N : Winsock} {W : Win32} {R : Reliable W} {F : Fstream W} {RF : ReliableStreams W F}.

(** The topic directory has a metadata file from which no number of partitions is read. *)
Definition unfinished (d : disk) (c : StorageConfig) (name : bytes) : Prop :=
  exists content, files d !! meta_path (data_path c ++ [name]) = Some content /\
    (parse_metadata c (text_in content)).1.1 = 0.

(** So it is after a write that stored at most "partitions=". *)
Lemma torn_write_unfinished d c name now t n :
  files d !! meta_path (data_path c ++ [name]) = Some (text_out (ztake n (topic_metadata now t))) -> n <= 11 ->
  unfinished d c name.
Proof.
  intros Hm Hn. eexists. split; [exact Hm|].
  rewrite text_in_out by (apply Forall_take, plain_metadata). by apply metadata_cut_short.
Qed.

(** The operation leaves the metadata files as they are. *)
Definition keeps_meta {A} (c : StorageConfig) (m : io A) : Prop :=
  forall d a d' name, m d = Some (a, d') ->
    files d' !! meta_path (data_path c ++ [name]) = files d !! meta_path (data_path c ++ [name]).

Lemma keeps_bind {A B} c (m : io A) (k : A -> io B) :
  keeps_meta c m -> (forall a, keeps_meta c (k a)) -> keeps_meta c (m ≫= k).
Proof.
  intros Hm Hk d b d' name. unfold mbind, io_bind. destruct (m d) as [[a d1]|] eqn:E; [|done].
  intros E'. by rewrite (Hk _ _ _ _ _ E'), (Hm _ _ _ _ E).
Qed.

Lemma keeps_ret {A} c (a : A) : keeps_meta c (mret a).
Proof. by intros d a' d' name [= <- <-]. Qed.

Lemma keeps_create_directories c p : keeps_meta c (create_directories p).
Proof.
  intros d a d' name E. destruct (local_create_directories [] p d a d' E) as [Ho _]. apply Ho.
  intros [r Er]. unfold meta_path, data_path in Er. done.
Qed.

(** The files of a partition are deeper than the metadata. *)
Lemma keeps_recover_partitions c dir l :
  Forall (fun p => exists i, part_in (data_path c ++ [dir; i]) p) l -> keeps_meta c (recover_partitions l).
Proof.
  induction 1 as [|p l [i Hp] Hl IH]; cbn [recover_partitions]; [apply keeps_ret|].
  apply keeps_bind.
  - intros d a d' name E. destruct (local_partition_open _ p Hp d a d' E) as [Ho _]. apply Ho.
    intros [r Er]. by apply (f_equal length) in Er.
  - intros [st p']. destruct (Status_ok st); cbn [negb]; [|apply keeps_ret].
    apply keeps_bind; [done|]. intros [st' l']. apply keeps_ret.
Qed.

Lemma keeps_topic_open c name n ms rb :
  keeps_meta c (Topic_open_and_recover (Topic_new name n (data_path c ++ [name]) c ms rb)).
Proof.
  unfold Topic_open_and_recover. apply keeps_bind; [apply keeps_create_directories|]. intros _.
  apply keeps_bind; [|intros [st l]; apply keeps_ret]. eapply (keeps_recover_partitions _ name).
  apply list.Forall_forall. intros p Hp. cbn [tc_partitions Topic_new] in Hp.
  apply list_elem_of_fmap in Hp as (i & -> & _). exists (std_to_string i). by split.
Qed.

(** The start passes over the topic. *)
Lemma unfinished_skipped name names : forall tm d st tm' d',
  unfinished d (tm_config tm) name -> recover_topics tm names d = Some (st, tm', d') ->
  unfinished d' (tm_config tm) name /\ tm_config tm' = tm_config tm /\ tm_topics tm' !! name = tm_topics tm !! name.
Proof.
  induction names as [|nm names IH]; intros tm d st tm' d' Hu; cbn [recover_topics]; [by intros [= <- <- <-]|].
  destruct (TopicManager_validate_topic_name nm); [by apply IH|].
  unfold mbind at 1, io_bind at 1. unfold TopicManager_load_topic_metadata, io_get.
  unfold mbind at 1, io_bind at 1. destruct (ifstream_read _ d) as [text|] eqn:Et; [|by apply IH].
  destruct (parse_metadata (tm_config tm) text) as [[n ms] rb] eqn:Ep. cbn [fst snd].
  destruct (n =? 0) eqn:En; [by apply IH|]. cbn [mret io_ret negb Status_ok Status_OK].
  change (negb (Status_ok Status_OK)) with false. cbv iota. unfold mbind, io_bind.
  destruct (Topic_open_and_recover _ d) as [[[st1 t] d1]|] eqn:Eo; [|done].
  assert (unfinished d1 (tm_config tm) name) as Hu1.
  { destruct Hu as (c & Hc & Hp). exists c. split; [|done]. by rewrite (keeps_topic_open _ _ _ _ _ _ _ _ _ Eo). }
  destruct (Status_ok st1); cbn [negb]; [|by intros [= <- <- <-]].
  intros E. destruct (IH (tm_set_topic nm t tm) _ _ _ _ Hu1 E) as (? & ? & Hl). split_and!; [done|done|]. rewrite Hl.
  apply lookup_insert_ne. intros ->. destruct Hu as (c & Hc & Hp).
  apply ifstream_data in Et as (c' & Hc' & ->). rewrite Hc in Hc'. injection Hc' as <-.
  rewrite Ep in Hp. cbn in Hp. by apply Z.eqb_neq in En.
Qed.

Lemma unfinished_not_recovered c name d st tm d' :
  unfinished d c name -> TopicManager_open_and_recover_all (mkTopicManager c ∅) d = Some (st, tm, d') ->
  unfinished d' c name /\ tm_config tm = c /\ tm_topics tm !! name = None.
Proof.
  intros Hu. unfold TopicManager_open_and_recover_all. cbn [tm_config]. unfold mbind at 1, io_bind at 1, io_get at 1.
  assert (fs_exists_directory (data_path c) d = true) as ->.
  { destruct Hu as (t & Ht & _). unfold meta_path in Ht. rewrite <- app_assoc in Ht.
    by eapply fs_exists_directory_complete. }
  cbn [negb]. unfold mbind, io_bind, io_get. intros E.
  by apply (unfinished_skipped name _ (mkTopicManager c ∅)) in E.
Qed.

(** It can neither be created again. *)
Lemma unfinished_refused now tm name n ms rb d :
  unfinished d (tm_config tm) name -> TopicManager_validate_topic_name name = None ->
  tm_topics tm !! name = None -> 1 <= n <= 64 ->
  exists msg, TopicManager_create_topic now tm name n ms rb d = Some (Err (mkStatus AlreadyExists msg), tm, d).
Proof.
  intros (t & Ht & _) Hv Hn Hp. unfold TopicManager_create_topic. rewrite Hv, Hn.
  replace ((n <? 1) || (64 <? n)) with false by (symmetry; apply orb_false_iff; rewrite !Z.ltb_ge; lia).
  rewrite bool_decide_eq_false_2 by (by intros []). unfold mbind, io_bind, io_get.
  assert (fs_exists (meta_path (data_path (tm_config tm) ++ [name])) d = true) as ->.
  { apply fs_exists_spec. by rewrite Ht. }
  by eexists.
Qed.

End unfinished.

(** C33: a topic whose creation was cut short stays in the way for good.  A crash in the write of
    topic.meta leaves a start of the file; without a number of partitions in it, every start of
    the broker passes over the topic, and a new create_topic with its name is refused with
    AlreadyExists, since the file is there.  When the topic is the internal one, whose
    creation is a part of the first start, no later start succeeds: the broker is out of
    service until the file is removed by hand. *)
Theorem unfinished_topic_is_final {N : Winsock} {W : Win32} {R : Reliable W} {F : Fstream W} {RF : ReliableStreams W F}
    c d name : unfinished d c name -> TopicManager_validate_topic_name name = None ->
  (forall st tm d', TopicManager_open_and_recover_all (mkTopicManager c ∅) d = Some (st, tm, d') ->
     unfinished d' c name /\ tm_topics tm !! name = None /\
     forall now n ms rb, 1 <= n <= 64 ->
       exists msg, TopicManager_create_topic now tm name n ms rb d' = Some (Err (mkStatus AlreadyExists msg), tm, d')) /\
  (name = INTERNAL_OFFSETS_TOPIC -> forall now st os tm d', start_storage now c d = Some (st, os, tm, d') ->
     m_code st <> OK /\ unfinished d' c name).
Proof.
  intros Hu Hv. split.
  - intros st tm d' E. destruct (unfinished_not_recovered _ _ _ _ _ _ Hu E) as (Hu' & Hc & Hn).
    split_and!; [done|done|]. intros now n ms rb Hp. subst c. by apply unfinished_refused.
  - intros -> now st os tm d'. unfold start_storage. unfold mbind at 1, io_bind at 1.
    destruct (TopicManager_open_and_recover_all _ d) as [[[st1 tm1] d1]|] eqn:E; [|done].
    destruct (unfinished_not_recovered _ _ _ _ _ _ Hu E) as (Hu1 & Hc & Hn). subst c.
    destruct (Status_ok st1) eqn:Es; cbn [negb].
    2:{ intros [= <- _ _ <-]. split; [by apply Status_ok_false|done]. }
    destruct (unfinished_refused now tm1 INTERNAL_OFFSETS_TOPIC 1 0 0 d1 Hu1 Hv Hn) as [msg Ec]; [lia|].
    unfold OffsetStore_open_and_recover, TopicManager_get_topic. rewrite Hn. unfold mbind, io_bind. rewrite Ec.
    cbn. by intros [= <- _ _ <-].
Qed.

(** The streams of a process that dies; opening the file and the writes are one call. *)
Definition dying_ofstream {W : Win32} {F : Fstream W} (p : path) (text : bytes) (d : dying_disk W)
    : bool * dying_disk W :=
  match calls_left d with
  | Some (S n) => let '(ok, v) := ofstream_write p text (volume d) in (ok, mkDying v (Some n) (torn_bytes d))
  | Some O => let '(ok, v) := ofstream_write p (ztake (torn_bytes d) text) (volume d) in
              (ok, mkDying v None (torn_bytes d))
  | None => (false, d)
  end.

#[global] Instance dying_fstream {W : Win32} (F : Fstream W) : Fstream (dying W).
Proof.
  refine (@Build_Fstream (dying W) (@text_out W F) (@text_in W F) (@dying_ofstream W F)
    (fun p d => ifstream_read p (volume d)) (fun p d => fs_exists_directory p (volume d))
    (fun p d => fs_subdirectories p (volume d)) _ _ _ _).
  - apply text_in_out.
  - intros p text d ok d' E. unfold dying_ofstream in E. destruct (calls_left d) as [[|n]|].
    + destruct (ofstream_write p _ (volume d)) as [b v] eqn:Ew. injection E as <- <-.
      apply ofstream_files in Ew. destruct b; [|done]. destruct Ew as [m Hm].
      exists (Z.min m (torn_bytes d)). change (files v = <[p:=text_out (ztake (Z.min m (torn_bytes d)) text)]> (files (volume d))).
      rewrite Hm. unfold ztake. rewrite take_take. do 3 f_equal. lia.
    + destruct (ofstream_write p text (volume d)) as [b v] eqn:Ew. injection E as <- <-.
      by apply ofstream_files in Ew.
    + by injection E as <- <-.
  - intros p d text. exact (ifstream_data p (volume d) text).
  - intros dir d. exact (fs_subdirectories_nodup dir (volume d)).
Defined.

(** The first start on an empty volume dies in the write of the metadata of the internal topic. *)
Definition demo_first_start : option (gmap path bytes) :=
  match @start_storage x86_winsock (dying memory_disk) (dying_fstream memory_fstream) 1000 demo_config
          (crash_after (W := memory_disk) 3 4 ∅) with
  | Some (_, d) => Some (volume d)
  | None => None
  end.

Example unfinished_topic_is_final_witness :
  exists d : gmap path bytes, demo_first_start = Some d /\
  ((forall st tm d', TopicManager_open_and_recover_all (W := memory_disk) (mkTopicManager demo_config ∅) d = Some (st, tm, d') ->
     unfinished (W := memory_disk) d' demo_config INTERNAL_OFFSETS_TOPIC /\ tm_topics tm !! INTERNAL_OFFSETS_TOPIC = None /\
     forall now n ms rb, 1 <= n <= 64 ->
       exists msg, TopicManager_create_topic now tm INTERNAL_OFFSETS_TOPIC n ms rb d' = Some (Err (mkStatus AlreadyExists msg), tm, d')) /\
  (INTERNAL_OFFSETS_TOPIC = INTERNAL_OFFSETS_TOPIC -> forall now st os tm d',
     start_storage (N := x86_winsock) (W := memory_disk) now demo_config d = Some (st, os, tm, d') ->
     m_code st <> OK /\ unfinished (W := memory_disk) d' demo_config INTERNAL_OFFSETS_TOPIC)) /\
  (fun r => m_code r.1.1.1) <$> start_storage (N := x86_winsock) (W := memory_disk) 2000 demo_config d = Some IoError.
Proof.
  assert (match demo_first_start with
          | Some d => bool_decide (d !! meta_path (data_path demo_config ++ [INTERNAL_OFFSETS_TOPIC]) = Some (str "part")) &&
              bool_decide ((fun r => m_code r.1.1.1) <$>
                start_storage (N := x86_winsock) (W := memory_disk) 2000 demo_config d = Some IoError)
          | None => false
          end = true) as Hrun by (by vm_compute).
  destruct demo_first_start as [d|]; [|done]. exists d. split; [done|].
  apply andb_true_iff in Hrun as [Hm Hr]. apply bool_decide_eq_true in Hm, Hr. split; [|exact Hr].
  apply (unfinished_topic_is_final (N := x86_winsock) (W := memory_disk) demo_config d INTERNAL_OFFSETS_TOPIC).
  - exact (torn_write_unfinished (W := memory_disk) d demo_config _ 1000 (Topic_new [] 1 [] demo_config 0 0) 4 Hm ltac:(lia)).
  - by vm_compute.
Defined.
