(* ===== verification/RetentionManager.v ===== *)
(** * RetentionManager: the background removal of old segments (src/RetentionManager.cpp)

    One pass scans every partition of every topic that is not internal.  The thread
    is a loop over the values it sees in [m_running]: [running k] is what the [k]-th
    load returns, and [now k] the time of a pass that follows it; sleeping has no
    effect on the state.  The loop ends within one round after the flag is cleared. *)
From S2P Require Import Prelude StdString Status RecordCodec FileHandle LogSegment Partition PartitionRead.
From S2P Require Import PartitionRecovery PartitionFrame PartitionProps Partitioner Topic TopicManager.

(** Assignment through the pointer to a partition. *)
Definition set_partition (name : bytes) (id : Z) (p : Partition) (tm : TopicManager) : TopicManager :=
  match TopicManager_get_topic tm name with
  | Some t => tm_set_topic name (tc_set_partitions (<[Z.to_nat id := p]> (tc_partitions t)) t) tm
  | None => tm
  end.

Section RetentionManager.
Context {W : Win32}.

(** The loop over the partitions of one topic; the segments deleted are counted. *)
Fixpoint scan_partitions (now_ms retention_ms retention_bytes : Z) (dry_run : bool) (tm : TopicManager)
    (name : bytes) (ids : list Z) (total_deleted : Z) : io (Z * TopicManager) :=
  match ids with
  | [] => mret (total_deleted, tm)
  | id :: ids =>
      match (t ← TopicManager_get_topic tm name; Topic_get_partition t id) with
      | None => scan_partitions now_ms retention_ms retention_bytes dry_run tm name ids total_deleted
      | Some part =>
          '(st, part, candidates) ← Partition_scan_and_delete_segments now_ms part retention_ms
                                      retention_bytes dry_run;
          let tm := set_partition name id part tm in
          scan_partitions now_ms retention_ms retention_bytes dry_run tm name ids
            (if negb (Status_ok st) then total_deleted
             else total_deleted + zlen (default [] candidates))
      end
  end.

Fixpoint scan_topics (now_ms : Z) (dry_run : bool) (tm : TopicManager) (names : list bytes)
    (total_deleted : Z) : io (Z * TopicManager) :=
  match names with
  | [] => mret (total_deleted, tm)
  | name :: names =>
      match TopicManager_get_topic tm name with
      | None => scan_topics now_ms dry_run tm names total_deleted
      | Some t =>
          if starts_with (str "__") (tc_name t) then scan_topics now_ms dry_run tm names total_deleted else
          if (tc_retention_ms t =? 0) && (tc_retention_bytes t =? 0)
          then scan_topics now_ms dry_run tm names total_deleted else
          '(total_deleted, tm) ← scan_partitions now_ms (tc_retention_ms t) (tc_retention_bytes t) dry_run tm
                                   name (seqZ 0 (Topic_num_partitions t)) total_deleted;
          scan_topics now_ms dry_run tm names total_deleted
      end
  end.

Definition RetentionManager_run_one_pass (now_ms : Z) (tm : TopicManager) (dry_run : bool)
    (specific_topic : bytes) : io (Z * TopicManager) :=
  let topics_to_scan :=
    match specific_topic with
    | [] => (TopicManager_list_topics tm).*1
    | _ => match TopicManager_get_topic tm specific_topic with Some _ => [specific_topic] | None => [] end
    end in
  scan_topics now_ms dry_run tm topics_to_scan 0.

(** The inner loop of the thread: how many loads it performs until the interval is
    over or the flag is seen cleared.  Every round adds at least one millisecond. *)
Fixpoint sleep_loop (fuel : nat) (interval_ms elapsed : Z) (running : nat -> bool) (k : nat) : option nat :=
  match fuel with
  | O => None
  | S fuel =>
      if negb (elapsed <? interval_ms) then Some k else
      if negb (running k) then Some (S k) else
      let step := Z.min 100 (interval_ms - elapsed) in
      sleep_loop fuel interval_ms (u64 (elapsed + step)) running (S k)
  end.

(** [thread_loop] from the [k]-th load on, [fuel] rounds at most. *)
Fixpoint RetentionManager_thread_loop (fuel : nat) (interval_ms : Z) (running : nat -> bool) (now : nat -> Z)
    (k : nat) (tm : TopicManager) : io TopicManager :=
  match fuel with
  | O => io_fail
  | S fuel =>
      if negb (running k) then mret tm else
      k ← io_opt (sleep_loop (S (Z.to_nat interval_ms)) interval_ms 0 running (S k));
      if negb (running k) then mret tm else
      '(_, tm) ← RetentionManager_run_one_pass (now k) tm false [];
      RetentionManager_thread_loop fuel interval_ms running now (S k) tm
  end.

End RetentionManager.

(** ** What a pass leaves *)

(** A log without a prefix of it. *)
Definition trimmed (x y : Z * list Record) : Prop := exists n, y = (x.1 + Z.of_nat n, drop n x.2).

(** Logs of internal topics are the same, others may have lost a prefix. *)
Definition logs_trimmed (logs logs' : gmap bytes (list (Z * list Record))) : Prop :=
  forall name, match logs !! name, logs' !! name with
    | Some Ls, Some Ls' => if starts_with (str "__") name then Ls' = Ls else Forall2 trimmed Ls Ls'
    | None, None => True
    | _, _ => False
    end.

#[global] Instance trimmed_refl : Reflexive trimmed.
Proof. intros x. exists 0%nat. destruct x. cbn. by rewrite Z.add_0_r. Qed.

#[global] Instance trimmed_trans : Transitive trimmed.
Proof.
  intros x y z [n ->] [m ->]. exists (n + m)%nat. cbn. rewrite drop_drop. f_equal. lia.
Qed.

Lemma logs_trimmed_refl logs : logs_trimmed logs logs.
Proof.
  intros name. destruct (logs !! name); [|done]. destruct (starts_with _ _); [done|].
  reflexivity.
Qed.

Lemma logs_trimmed_trans l1 l2 l3 : logs_trimmed l1 l2 -> logs_trimmed l2 l3 -> logs_trimmed l1 l3.
Proof.
  intros H1 H2 name. specialize (H1 name). specialize (H2 name).
  destruct (l1 !! name), (l2 !! name), (l3 !! name); try done.
  destruct (starts_with _ _); [congruence|]. by etransitivity.
Qed.

Lemma logs_trimmed_update logs name Ls i E L n :
  logs !! name = Some Ls -> Ls !! i = Some (E, L) -> starts_with (str "__") name = false ->
  logs_trimmed logs (<[name := <[i := (E + Z.of_nat n, drop n L)]> Ls]> logs).
Proof.
  intros HL Hi Hu nm. destruct (decide (nm = name)) as [->|Hne].
  - rewrite lookup_insert_eq, HL, Hu. apply Forall2_same_length_lookup. rewrite length_insert. split; [done|].
    intros j x y Hx Hy. destruct (decide (j = i)) as [->|Hj].
    + rewrite list_lookup_insert_eq in Hy by (by eapply lookup_lt_Some). simplify_eq. by exists n.
    + rewrite list_lookup_insert_ne in Hy by done. simplify_eq. reflexivity.
  - rewrite lookup_insert_ne by done. apply logs_trimmed_refl.
Qed.

Section proofs.
Context {W : Win32} {R : Reliable W} {F : Fstream W}.

(** The partition [i] of a topic the manager holds. *)
Lemma tm_is_partition d tm logs name t Ls i p :
  tm_is d tm logs -> tm_topics tm !! name = Some t -> logs !! name = Some Ls -> tc_partitions t !! i = Some p ->
  exists E L, Ls !! i = Some (E, L) /\ part_is d p E L /\
    pt_partition_dir p = tc_topic_dir t ++ [std_to_string (Z.of_nat i)].
Proof.
  intros Htm Ht HL Hp. destruct (tm_is_lookup _ _ _ _ _ (tmi_holds _ _ _ Htm) Ht) as (Ls' & HL' & He).
  rewrite HL in HL'. injection HL' as <-. pose proof (te_is _ _ _ _ _ He) as Hti.
  destruct (Forall2_lookup_l _ _ _ i p (ti_logs _ _ _ Hti) Hp) as ([E L] & HEL & Hpi).
  exists E, L. split_and!; [done|done|]. by apply (ti_dirs _ _ _ Hti i).
Qed.

(** The scan of one partition. *)
Lemma wp_scan_partition now d tm logs name t Ls i p ms rb Q :
  tm_is d tm logs -> tm_topics tm !! name = Some t -> logs !! name = Some Ls ->
  tc_partitions t !! i = Some p -> starts_with (str "__") name = false ->
  (forall st p' out d' logs', tm_is d' (set_partition name (Z.of_nat i) p' tm) logs' -> logs_trimmed logs logs' ->
     Q (st, p', out) d') ->
  wp (Partition_scan_and_delete_segments now p ms rb false) Q d.
Proof.
  intros Htm Ht HL Hp Hu HQ. destruct (tm_is_partition _ _ _ _ _ _ _ _ Htm Ht HL Hp) as (E & L & HEL & Hpi & Hdir).
  pose proof (part_is_in _ _ _ _ Hpi) as Hin. destruct Hpi as (olds & a & ra & P & HE & HLL).
  eapply wp_mono; [eapply wp_local; [|by apply local_scan_and_delete]|].
  - eapply (wp_scan_and_delete now d p olds a ra ms rb (fun '(st, p', _) d' => pt_partition_dir p' = pt_partition_dir p /\
      exists n, part_is d' p' (E + Z.of_nat n) (drop n L))); [exact P|].
    intros d' out p' P' He _. split; [done|]. set (k := Partition_deletable_count p now ms rb) in *.
    exists (length (records_of (take k olds))), (drop k olds), a, ra.
    split_and!; [done|by rewrite He, HE|]. rewrite <- HLL. unfold part_log.
    rewrite <- (take_drop k olds) at 3. rewrite records_of_app, <- app_assoc. by rewrite drop_app_length.
  - intros [[st p'] out] d' ((Hd' & n & Hp') & _ & Hout).
    apply (HQ st p' out d' (<[name := <[i := (E + Z.of_nat n, drop n L)]> Ls]> logs)).
    + unfold set_partition, TopicManager_get_topic. rewrite Ht, Nat2Z.id.
      eapply (tm_is_update d d' tm logs name t _ Ls i p' (_, _)); try done.
      * by eapply lookup_lt_Some.
      * repeat split. cbn. apply length_insert.
      * by rewrite Hd'.
      * by rewrite Hd'.
    + by eapply logs_trimmed_update.
Qed.

Lemma set_partition_config name i p tm : tm_config (set_partition name i p tm) = tm_config tm.
Proof. unfold set_partition. by destruct (TopicManager_get_topic tm name). Qed.

Lemma wp_scan_partitions now ms rb name ids : forall d tm logs total Q,
  tm_is d tm logs -> starts_with (str "__") name = false -> Forall (fun i => 0 <= i) ids ->
  (forall total' tm' d' logs', tm_is d' tm' logs' -> logs_trimmed logs logs' -> Q (total', tm') d') ->
  wp (scan_partitions now ms rb false tm name ids total) Q d.
Proof.
  induction ids as [|i ids IH]; intros d tm logs total Q Htm Hu Hids HQ; cbn [scan_partitions].
  - apply wp_ret. eapply HQ; [done|apply logs_trimmed_refl].
  - apply list.Forall_cons in Hids as [Hi Hids].
    destruct (TopicManager_get_topic tm name) as [t|] eqn:Ht; cbn [mbind option_bind]; [|by eapply IH].
    destruct (Topic_get_partition t i) as [p|] eqn:Hp; [|by eapply IH]. apply wp_bind.
    unfold Topic_get_partition in Hp. destruct (_ <=? _); [done|].
    destruct (tm_is_lookup _ _ _ _ _ (tmi_holds _ _ _ Htm) Ht) as (Ls & HL & _).
    eapply (wp_scan_partition now d tm logs name t Ls (Z.to_nat i) p); [done..|].
    intros st p' out d' logs' Htm' Htr. rewrite Z2Nat.id in Htm' by done. eapply IH; [exact Htm'|done|done|].
    intros total' tm' d2 logs2 Htm2 Htr2. eapply HQ; [done|]. by eapply logs_trimmed_trans.
Qed.

Lemma wp_scan_topics now names : forall d tm logs total Q,
  tm_is d tm logs ->
  (forall total' tm' d' logs', tm_is d' tm' logs' -> logs_trimmed logs logs' -> Q (total', tm') d') ->
  wp (scan_topics now false tm names total) Q d.
Proof.
  induction names as [|name names IH]; intros d tm logs total Q Htm HQ; cbn [scan_topics].
  - apply wp_ret. eapply HQ; [done|apply logs_trimmed_refl].
  - destruct (TopicManager_get_topic tm name) as [t|] eqn:Ht; [|by eapply IH].
    destruct (tm_is_lookup _ _ _ _ _ (tmi_holds _ _ _ Htm) Ht) as (Ls & HL & He).
    rewrite (te_name _ _ _ _ _ He). destruct (starts_with (str "__") name) eqn:Hu; [by eapply IH|].
    destruct (_ && _); [by eapply IH|]. apply wp_bind.
    eapply wp_scan_partitions; [exact Htm|done|apply list.Forall_forall; intros i Hi; apply elem_of_seqZ in Hi; lia|].
    intros total' tm' d' logs' Htm' Htr. eapply IH; [exact Htm'|].
    intros total2 tm2 d2 logs2 Htm2 Htr2. eapply HQ; [done|]. by eapply logs_trimmed_trans.
Qed.

Lemma sleep_loop_ends interval running fuel : forall elapsed k,
  0 <= elapsed -> interval < 2 ^ 64 -> (Z.to_nat (interval - elapsed) < fuel)%nat ->
  exists k', sleep_loop fuel interval elapsed running k = Some k' /\ (k <= k')%nat.
Proof.
  induction fuel as [|fuel IH]; intros elapsed k He Hi Hf; [lia|]. cbn [sleep_loop].
  destruct (Z.ltb_spec elapsed interval); cbn [negb]; [|by eauto].
  destruct (running k); cbn [negb]; [|eauto]. rewrite u64_id by (unfold is_u64; lia).
  destruct (IH (elapsed + Z.min 100 (interval - elapsed)) (S k)) as (k' & -> & Hk); [lia..|].
  exists k'. split; [done|lia].
Qed.

End proofs.

(** ** Properties *)

(** A retention pass keeps the broker consistent and spares the internal topics.
    Every topic stays, with its partitions and metadata; the log of each partition is
    the old one without a prefix, and those of topics whose name starts with two
    underscores, among them the committed offsets, are not touched at all. *)
Theorem retention_pass_correct {W : Win32} {R : Reliable W} {F : Fstream W} now d tm logs topic :
  tm_is d tm logs ->
  wp (RetentionManager_run_one_pass now tm false topic)
    (fun '(_, tm') d' => exists logs', tm_is d' tm' logs' /\ logs_trimmed logs logs') d.
Proof.
  intros Htm. eapply wp_scan_topics; [exact Htm|]. intros total tm' d' logs' Htm' Htr. by exists logs'.
Qed.

Example retention_pass_correct_witness :
  wp (W := memory_disk) (RetentionManager_run_one_pass 5000 demo_manager false [])
    (fun '(_, tm') d' => exists logs', tm_is d' tm' logs' /\ logs_trimmed ∅ logs') (∅ : gmap path bytes).
Proof. apply (retention_pass_correct (W := memory_disk)). apply demo_manager_is. Defined.

(** The retention thread stops.  When [m_running] reads false from the [n]-th load
    on (as after [stop]), the thread function returns, whatever the interval is and
    however many passes it has run; the broker is then consistent, with logs that at
    most lost a prefix. *)
Theorem retention_thread_stops {W : Win32} {R : Reliable W} {F : Fstream W} fuel interval running now n k d tm logs :
  is_u64 interval -> (forall j, (n <= j)%nat -> running j = false) -> (n - k < fuel)%nat -> tm_is d tm logs ->
  wp (RetentionManager_thread_loop fuel interval running now k tm)
    (fun tm' d' => exists logs', tm_is d' tm' logs' /\ logs_trimmed logs logs') d.
Proof.
  intros Hi Hstop. revert k d tm logs. induction fuel as [|fuel IH]; intros k d tm logs Hf Htm; [lia|].
  cbn [RetentionManager_thread_loop].
  assert (wp (mret tm) (fun tm' d' => exists logs', tm_is d' tm' logs' /\ logs_trimmed logs logs') d) as Hret
    by (apply wp_ret; exists logs; split; [done|apply logs_trimmed_refl]).
  destruct (running k) eqn:Ek; cbn [negb]; [|done].
  destruct (sleep_loop_ends interval running (S (Z.to_nat interval)) 0 (S k)) as (k' & Es & Hk');
    [lia|unfold is_u64 in Hi; lia|rewrite Z.sub_0_r; lia|].
  apply wp_bind. eapply wp_opt; [exact Es|]. destruct (running k') eqn:Ek'; cbn [negb]; [|done].
  assert (k' < n)%nat as Hlt by (destruct (Nat.le_gt_cases n k'); [rewrite Hstop in Ek' by done; done|done]).
  apply wp_bind. eapply wp_scan_topics; [exact Htm|]. intros total tm' d' logs' Htm' Htr.
  eapply wp_mono; [apply (IH (S k') d' tm' logs'); [lia|exact Htm']|].
  intros tm2 d2 (logs2 & Htm2 & Htr2). exists logs2. split; [done|]. by eapply logs_trimmed_trans.
Qed.

Example retention_thread_stops_witness :
  wp (W := memory_disk)
    (RetentionManager_thread_loop 8 250 (fun k => bool_decide (k < 7)%nat) (fun k => 1000 * Z.of_nat k) 0
       demo_manager)
    (fun tm' d' => exists logs', tm_is d' tm' logs' /\ logs_trimmed ∅ logs') (∅ : gmap path bytes).
Proof.
  apply (retention_thread_stops (W := memory_disk) 8 250 _ _ 7 0).
  - by vm_compute.
  - intros j Hj. apply bool_decide_eq_false. lia.
  - lia.
  - apply demo_manager_is.
Defined.
