(* ===== verification/StorageMain.v ===== *)
(** * StorageMain: the storage tool (src/storage_main.cpp)

    A console program on the data directory itself, without a broker.  It runs in the
    monad [cli] over the disk; a path given on the command line is one component.  The
    error stream is not modelled.  There is no [try]: an exception ends the program
    ([Thrown]).  [now k] is the time of the [k]-th append.

    [dump_lists_segment] shows that [dump-segment] lists exactly the records of a log,
    and where a torn write begins; [fill_distributes] that [fill] adds its records to
    the partitions their keys are hashed to, in order. *)
From S2P Require Import Prelude StdString Status RecordCodec FrameCodec BodyCodec ProtocolMessages.
From S2P Require Import FileHandle OffsetIndex LogSegment Partition PartitionRead PartitionRecovery PartitionFrame.
From S2P Require Import PartitionProps Partitioner Topic TopicManager RetentionManager Client Console ClientCommands.

Record StorageOptions := mkStorageOptions {
  st_data_dir : bytes;
  st_segment_bytes : Z;      (* uint32_t *)
  st_command : bytes;
  st_args : list bytes;
}.

Definition default_storage_options : StorageOptions :=
  mkStorageOptions (str "./data") DEFAULT_SEGMENT_MAX_BYTES [] [].

(** The loop over [argv]. *)
Fixpoint parse_storage_options (argv : list bytes) (o : StorageOptions) : outcome StorageOptions :=
  match argv with
  | [] => Value o
  | arg :: rest =>
      let plain :=
        if bytes_eqb (st_command o) [] && negb (starts_with (str "--") arg)
        then mkStorageOptions (st_data_dir o) (st_segment_bytes o) arg (st_args o)
        else mkStorageOptions (st_data_dir o) (st_segment_bytes o) (st_command o) (st_args o ++ [arg]) in
      match rest with
      | [] => Value plain
      | v :: rest' =>
          if bytes_eqb arg (str "--data-dir") then
            parse_storage_options rest' (mkStorageOptions v (st_segment_bytes o) (st_command o) (st_args o))
          else if bytes_eqb arg (str "--segment-bytes") then
            match stoul v with
            | Value n => parse_storage_options rest' (mkStorageOptions (st_data_dir o) n (st_command o) (st_args o))
            | _ => Thrown
            end
          else parse_storage_options rest plain
      end
  end.

Definition usage : bytes :=
  str "Usage:" ++ nl ++
  str "  streamforge_storage --data-dir DIR create-topic NAME PARTITIONS [--retention-ms N] [--retention-bytes N]" ++ nl ++
  str "  streamforge_storage --data-dir DIR append TOPIC VALUE [--key K] [--partition P]" ++ nl ++
  str "  streamforge_storage --data-dir DIR read TOPIC PARTITION START_OFFSET [--max N]" ++ nl ++
  str "  streamforge_storage --data-dir DIR describe TOPIC" ++ nl ++
  str "  streamforge_storage --data-dir DIR fill TOPIC COUNT VALUE_SIZE [--key-prefix P] [--segment-bytes N]" ++ nl ++
  str "  streamforge_storage --data-dir DIR gc TOPIC [--dry-run]" ++ nl ++
  str "  streamforge_storage dump-segment PATH_TO_LOG" ++ nl.

(** The lines of [dump-segment]. *)
Definition dump_header (log_path : bytes) (file_size : Z) : bytes :=
  str "Dumping log segment: " ++ log_path ++ str " (" ++ num_text file_size ++ str " bytes)" ++ nl.
Definition dump_position (pos : Z) (what : bytes) : bytes :=
  str "Position " ++ num_text pos ++ str ": [" ++ what ++ str "]" ++ nl.
Definition dump_line (count pos total_size : Z) (st : Status) (record : Record) : bytes :=
  str "[" ++ setw 5 (num_text count) ++ str "] Offset: " ++ setw 8 (num_text (offset record)) ++
  str " Pos: " ++ setw 8 (num_text pos) ++ str " Size: " ++ setw 6 (num_text total_size) ++
  str " CRC: " ++ (if Status_ok st then str "VALID" else str "CORRUPT (" ++ m_msg st ++ str ")") ++
  str " Key: " ++ key record ++ str " Val: " ++ value record ++ nl.

Section storage.
Context {W : Win32} {F : Fstream W}.

(** An operation on the disk; without a result the program does not end normally (an
    exception of the file system, or undefined behaviour). *)
Definition on_disk {A} (m : io A) : cli disk A := on_machine m.

(** The loop of [dump-segment].  Each round advances by 28 bytes at least, so that the
    size of the file bounds the number of rounds. *)
Fixpoint dump_loop (fuel : nat) (file : FileHandle) (file_size pos count : Z) : cli disk unit :=
  match fuel with
  | O => blocked
  | Datatypes.S fuel =>
      if negb (pos <? file_size) then mret tt else
      '(ok, header) ← on_disk (FileHandle_read_at file pos 28);
      if negb ok then cout (dump_position pos (str "TRUNCATED HEADER")) else
      let length := RecordCodec_read_u32 header in
      if (length <? 24) || (MAX_RECORD_SIZE <? length) then
        cout (dump_position pos (str "INVALID LENGTH " ++ num_text length))
      else
      let total_size := u32 (4 + length) in
      if file_size <? u64 (pos + total_size) then
        cout (dump_position pos (str "PARTIAL RECORD Payload " ++ num_text (file_size - pos) ++ str "/" ++
                num_text total_size ++ str " bytes"))
      else
      (* the vector is zero where nothing was read *)
      '(_, data) ← on_disk (FileHandle_read_at file pos total_size);
      let buf := data ++ replicate (Z.to_nat (total_size - zlen data)) Byte.x00 in
      '(st, record) ← or_undefined (RecordCodec_decode buf empty_Record);
      _ ← cout (dump_line count pos total_size st record);
      dump_loop fuel file file_size (u64 (pos + total_size)) (count + 1)
  end.

Definition tool_dump_segment (o : StorageOptions) : cli disk Z :=
  match st_args o with
  | [] => mret 1
  | log_path :: _ =>
      file ← on_disk (FileHandle_open_read_only [log_path]);
      if negb (FileHandle_is_valid file) then mret 1 else
      file_size ← on_disk (FileHandle_get_size file);
      _ ← cout (dump_header log_path file_size);
      _ ← dump_loop (Datatypes.S (Z.to_nat file_size)) file file_size 0 0;
      mret 0
  end.

(** The options of [create-topic], *)
Fixpoint retention_args (l : list bytes) (ret_ms ret_bytes : Z) : outcome (Z * Z) :=
  match l with
  | a :: ((v :: rest') as rest) =>
      if bytes_eqb a (str "--retention-ms") then
        match stoull v with Value ms => retention_args rest' ms ret_bytes | _ => Thrown end
      else if bytes_eqb a (str "--retention-bytes") then
        match stoull v with Value bs => retention_args rest' ret_ms bs | _ => Thrown end
      else retention_args rest ret_ms ret_bytes
  | _ => Value (ret_ms, ret_bytes)
  end.

Definition tool_create_topic (now : nat -> Z) (o : StorageOptions) (tm : TopicManager) : cli disk Z :=
  match st_args o with
  | name :: n :: rest =>
      partitions ← of_outcome (stoul n);
      '(ret_ms, ret_bytes) ← of_outcome (retention_args rest 0 0);
      '(res, _) ← on_disk (TopicManager_create_topic (now 0%nat) tm name partitions ret_ms ret_bytes);
      match res with
      | Err _ => mret 1
      | Ok _ =>
          _ ← cout (str "Successfully created topic '" ++ name ++ str "' with " ++ num_text partitions ++
                    str " partitions." ++ nl);
          mret 0
      end
  | _ => mret 1
  end.

(** of [append]: value, key and partition, *)
Fixpoint append_args (l : list bytes) (value key : bytes) (p : Z) : outcome (bytes * bytes * Z) :=
  match l with
  | [] => Value (value, key, p)
  | a :: rest =>
      let plain := append_args rest (if bytes_eqb value [] then a else value) key p in
      match rest with
      | [] => plain
      | v :: rest' =>
          if bytes_eqb a (str "--key") then append_args rest' value v p
          else if bytes_eqb a (str "--partition") then
            match stoi v with Value p => append_args rest' value key p | _ => Thrown end
          else plain
      end
  end.

Definition tool_append (now : nat -> Z) (o : StorageOptions) (tm : TopicManager) : cli disk Z :=
  match st_args o with
  | [] => mret 1
  | topic_name :: rest =>
      '(value, key, target_partition) ← of_outcome (append_args rest [] [] (-1));
      match TopicManager_get_topic tm topic_name with
      | None => mret 1
      | Some topic =>
          '(res, _) ← on_disk (if 0 <=? target_partition
                               then Topic_append_to (now 0%nat) topic target_partition key value
                               else Topic_append (now 0%nat) topic key value);
          match res with
          | Err _ => mret 1
          | Ok off =>
              _ ← cout (str "Appended to topic '" ++ topic_name ++ str "' -> Partition: " ++
                        num_text target_partition ++ str ", Offset: " ++ num_text off ++ nl);
              mret 0
          end
      end
  end.

(** and of [read]. *)
Fixpoint max_args (l : list bytes) (max_msgs : Z) : outcome Z :=
  match l with
  | a :: ((v :: rest') as rest) =>
      if bytes_eqb a (str "--max") then
        match stoul v with Value n => max_args rest' n | _ => Thrown end
      else max_args rest max_msgs
  | _ => Value max_msgs
  end.

Definition read_line (rec : Record) : bytes :=
  str "Offset: " ++ num_text (offset rec) ++ str " | Timestamp: " ++ num_text (timestamp_ms rec) ++
  str " | Key: " ++ key rec ++ str " | Value: " ++ value rec ++ nl.

Definition tool_read (o : StorageOptions) (tm : TopicManager) : cli disk Z :=
  match st_args o with
  | topic_name :: p :: off :: rest =>
      part_id ← of_outcome (stoul p);
      start_off ← of_outcome (stoull off);
      max_msgs ← of_outcome (max_args rest 100);
      match TopicManager_get_topic tm topic_name with
      | None => mret 1
      | Some topic =>
          match Topic_get_partition topic part_id with
          | None => mret 1
          | Some partition =>
              rr ← on_disk (Partition_read partition start_off max_msgs (1024 * 1024));
              if negb (Status_ok (rr_status rr)) then mret 1 else
              _ ← cout (str "Read " ++ num_text (zlen (rr_records rr)) ++ str " records from " ++ topic_name ++
                        str "[" ++ num_text part_id ++ str "]:" ++ nl);
              _ ← for_each (rr_records rr) (fun rec => cout (read_line rec));
              mret 0
          end
      end
  | _ => mret 1
  end.

Definition tool_describe (o : StorageOptions) (tm : TopicManager) : cli disk Z :=
  match st_args o with
  | [] => mret 1
  | topic_name :: _ =>
      match TopicManager_get_topic tm topic_name with
      | None => mret 1
      | Some topic =>
          _ ← cout (str "Topic: " ++ topic_name ++ str " (Partitions: " ++ num_text (Topic_num_partitions topic) ++
                    str ")" ++ nl);
          _ ← for_each (seqZ 0 (Topic_num_partitions topic)) (fun p =>
                part ← or_undefined (Topic_get_partition topic p);
                cout (str "  Partition " ++ num_text p ++ str ": EarliestOffset=" ++
                      num_text (Partition_earliest_offset part) ++ str ", NextOffset=" ++ num_text (pt_next_offset part) ++
                      str ", Segments=" ++ num_text (Partition_segment_count part) ++ str ", TotalBytes=" ++
                      num_text (Partition_total_bytes part) ++ nl));
          mret 0
      end
  end.

Fixpoint key_prefix_args (l : list bytes) (key_prefix : bytes) : bytes :=
  match l with
  | a :: ((v :: rest') as rest) =>
      if bytes_eqb a (str "--key-prefix") then key_prefix_args rest' v else key_prefix_args rest key_prefix
  | _ => key_prefix
  end.

(** The loop of [fill], [n] records from the number [i] on: the topic, unless an
    append fails. *)
Fixpoint fill_loop (now : nat -> Z) (key_prefix dummy_val : bytes) (i n : nat) (topic : Topic)
    : cli disk (option Topic) :=
  match n with
  | O => mret (Some topic)
  | Datatypes.S n =>
      '(res, topic) ← on_disk (Topic_append (now i) topic (key_prefix ++ std_to_string (Z.of_nat i)) dummy_val);
      match res with
      | Err _ => mret None
      | Ok _ => fill_loop now key_prefix dummy_val (Datatypes.S i) n topic
      end
  end.

Definition tool_fill (now : nat -> Z) (o : StorageOptions) (tm : TopicManager) : cli disk Z :=
  match st_args o with
  | topic_name :: c :: v :: rest =>
      count ← of_outcome (stoul c);
      val_size ← of_outcome (stoul v);
      let key_prefix := key_prefix_args rest (str "key-") in
      match TopicManager_get_topic tm topic_name with
      | None => mret 1
      | Some topic =>
          let dummy_val := replicate (Z.to_nat val_size) (byte_of_Z 88) in
          _ ← cout (str "Filling topic '" ++ topic_name ++ str "' with " ++ num_text count ++ str " records of " ++
                    num_text val_size ++ str " bytes each..." ++ nl);
          filled ← fill_loop now key_prefix dummy_val 0 (Z.to_nat count) topic;
          match filled with
          | None => mret 1
          | Some _ =>
              _ ← cout (str "Successfully filled " ++ num_text count ++ str " records into '" ++ topic_name ++
                        str "'." ++ nl);
              mret 0
          end
      end
  | _ => mret 1
  end.

Definition tool_gc (now : nat -> Z) (o : StorageOptions) (tm : TopicManager) : cli disk Z :=
  match st_args o with
  | [] => mret 1
  | topic_name :: rest =>
      let dry_run := existsb (fun a => bytes_eqb a (str "--dry-run")) rest in
      match TopicManager_get_topic tm topic_name with
      | None => mret 1
      | Some _ =>
          '(count, _) ← on_disk (RetentionManager_run_one_pass (now 0%nat) tm dry_run topic_name);
          _ ← cout (if dry_run then
                      str "GC dry-run completed: " ++ num_text count ++ str " segment(s) would be deleted for topic '" ++
                      topic_name ++ str "'." ++ nl
                    else
                      str "GC completed: " ++ num_text count ++ str " segment(s) deleted for topic '" ++ topic_name ++
                      str "'." ++ nl);
          mret 0
      end
  end.

(** The configuration of the tool. *)
Definition storage_config (o : StorageOptions) : StorageConfig :=
  mkStorageConfig (st_data_dir o) (st_segment_bytes o) DEFAULT_INDEX_INTERVAL_BYTES true DEFAULT_RETENTION_MS
    DEFAULT_RETENTION_BYTES DEFAULT_RETENTION_CHECK_INTERVAL_MS (str "quick").

Definition storage_command (now : nat -> Z) (o : StorageOptions) (tm : TopicManager) : cli disk Z :=
  let named (name : bytes) := bytes_eqb (st_command o) name in
  if named (str "create-topic") then tool_create_topic now o tm else
  if named (str "append") then tool_append now o tm else
  if named (str "read") then tool_read o tm else
  if named (str "describe") then tool_describe o tm else
  if named (str "fill") then tool_fill now o tm else
  if named (str "gc") then tool_gc now o tm else
  _ ← cout usage; mret 1.

Definition storage_main (now : nat -> Z) (argv : list bytes) : cli disk Z :=
  match argv with
  | [] => _ ← cout usage; mret 1
  | _ =>
      o ← of_outcome (parse_storage_options argv default_storage_options);
      if bytes_eqb (st_command o) (str "dump-segment") then tool_dump_segment o else
      '(st, tm) ← on_disk (TopicManager_open_and_recover_all (mkTopicManager (storage_config o) ∅));
      if negb (Status_ok st) then mret 1 else
      storage_command now o tm
  end.

End storage.

(** ** Runs of the tool *)

Section runs.
Context {W : Win32}.

(** The program gets to a value, in a world with [Q]. *)
Definition runs {A} (m : cli disk A) (Q : A -> World disk -> Prop) (w : World disk) : Prop :=
  exists a w', m w = (Value a, w') /\ Q a w'.

Lemma runs_ret {A} (a : A) (Q : A -> World disk -> Prop) w : Q a w -> runs (mret a) Q w.
Proof. intros H. by exists a, w. Qed.

Lemma runs_bind {A B} (m : cli disk A) (k : A -> cli disk B) Q w :
  runs m (fun a w' => runs (k a) Q w') w -> runs (m ≫= k) Q w.
Proof. intros (a & w' & Hm & b & w'' & Hk & HQ). exists b, w''. unfold mbind, cli_bind. by rewrite Hm. Qed.

Lemma runs_mono {A} (m : cli disk A) (P Q : A -> World disk -> Prop) w :
  runs m P w -> (forall a w', P a w' -> Q a w') -> runs m Q w.
Proof. intros (a & w' & Hm & HP) H. exists a, w'. auto. Qed.

Lemma runs_disk {A} (m : io A) (Q : A -> World disk -> Prop) d id tr :
  wp m (fun a d' => Q a (mkWorld d' id tr)) d -> runs (on_disk m) Q (mkWorld d id tr).
Proof.
  intros (a & d' & Hm & HQ). exists a, (mkWorld d' id tr). split; [|done].
  unfold on_disk, on_machine. cbn. by rewrite Hm.
Qed.

Lemma runs_cout (text : bytes) (Q : unit -> World disk -> Prop) d id tr :
  Q tt (mkWorld d id (tr ++ [Printed (Text text)])) -> runs (cout text) Q (mkWorld d id tr).
Proof. intros HQ. by eexists _, _. Qed.

Lemma runs_value {A} (a : A) (Q : A -> World disk -> Prop) w : Q a w -> runs (of_outcome (Value a)) Q w.
Proof. intros HQ. by exists a, w. Qed.

Lemma stdout_snoc tr text : stdout (tr ++ [Printed (Text text)]) = stdout tr ++ text.
Proof. unfold stdout. rewrite omap_app, concat_app. cbn. by rewrite app_nil_r. Qed.

End runs.

(** ** dump-segment *)

(** The lines for records from a position on. *)
Fixpoint dump_records (count pos : Z) (rs : list Record) : bytes :=
  match rs with
  | [] => []
  | r :: rs => dump_line count pos (record_size r) Status_OK r ++ dump_records (count + 1) (pos + record_size r) rs
  end.

(** What is said of bytes that do not start with a complete record. *)
Definition dump_tail (pos : Z) (tail : bytes) : bytes :=
  if zlen tail =? 0 then [] else
  if zlen tail <? 28 then dump_position pos (str "TRUNCATED HEADER") else
  let length := RecordCodec_read_u32 tail in
  if (length <? 24) || (MAX_RECORD_SIZE <? length) then
    dump_position pos (str "INVALID LENGTH " ++ num_text length)
  else dump_position pos (str "PARTIAL RECORD Payload " ++ num_text (zlen tail) ++ str "/" ++
         num_text (4 + length) ++ str " bytes").

Definition incomplete (tail : bytes) : Prop :=
  zlen tail < 28 \/
  let length := RecordCodec_read_u32 tail in length < 24 \/ MAX_RECORD_SIZE < length \/ zlen tail < 4 + length.

(** A write that was cut short leaves such bytes. *)
Lemma torn_record_incomplete r tail rest :
  Record_wf r -> record_bytes r = tail ++ rest -> rest <> [] -> incomplete tail.
Proof.
  intros Hwf E Hne. destruct (decide (zlen tail < 28)); [by left|]. right.
  assert (RecordCodec_read_u32 tail = record_size r - 4) as ->.
  { rewrite <- (record_bytes_length r [] (zlen tail)) by (done || lia). by rewrite app_nil_r, E, ztake_app_exact. }
  right; right. pose proof (zlen_record_bytes r) as Hl. rewrite E, zlen_app in Hl.
  pose proof (zlen_nonneg rest). destruct (decide (zlen rest = 0)) as [Hz|]; [|lia]. by apply zlen_zero in Hz.
Qed.

Section dump.
Context {W : Win32} {R : Reliable W} (p : path).

Lemma dump_loop_stop fuel pre tail count d id tr : incomplete tail -> files d !! p = Some (pre ++ tail) ->
  zlen (pre ++ tail) < 2 ^ 63 -> (0 < fuel)%nat ->
  runs (dump_loop fuel (Some p) (zlen (pre ++ tail)) (zlen pre) count)
    (fun _ w' => w_machine w' = d /\ stdout (w_trace w') = stdout tr ++ dump_tail (zlen pre) tail) (mkWorld d id tr).
Proof.
  intros Hi Hf Hlim Hfuel. destruct fuel as [|fuel]; [lia|]. cbn [dump_loop]. rewrite zlen_app in *.
  pose proof (zlen_nonneg pre). pose proof (zlen_nonneg tail). unfold dump_tail.
  destruct (Z.eqb_spec (zlen tail) 0) as [Hz|Hz].
  { rewrite (proj2 (Z.ltb_ge _ _)) by lia. apply runs_ret. by rewrite app_nil_r. }
  rewrite (proj2 (Z.ltb_lt _ _)) by lia. cbn [negb]. apply runs_bind, runs_disk.
  destruct (Z.ltb_spec (zlen tail) 28) as [H28|H28].
  { apply wp_read_at; [lia|lia| |].
    - intros data. apply runs_cout. cbn [w_trace w_machine]. by rewrite stdout_snoc.
    - intros c Hc Hz'. rewrite Hf in Hc. injection Hc as <-. rewrite zdrop_app_exact in Hz' by done.
      rewrite zlen_ztake in Hz' by lia. lia. }
  eapply wp_read_ok; [exact Hf|lia|lia|rewrite zlen_app; lia|]. cbn [negb]. rewrite zdrop_app_exact by done.
  replace (RecordCodec_read_u32 (ztake 28 tail)) with (RecordCodec_read_u32 tail)
    by (unfold RecordCodec_read_u32, ztake; rewrite take_take; done).
  set (len := RecordCodec_read_u32 tail) in *.
  destruct (_ || _) eqn:Eb; [apply runs_cout; cbn [w_trace w_machine]; by rewrite stdout_snoc|].
  apply orb_false_iff in Eb as [E1 E2]. unfold incomplete in Hi. fold len in Hi. cbn zeta in Hi.
  unfold MAX_RECORD_SIZE in *. zbool. rewrite (u32_id (4 + len)) by (unfold is_u32; lia).
  rewrite u64_id by (unfold is_u64; lia). rewrite (proj2 (Z.ltb_lt _ _)) by lia.
  apply runs_cout. cbn [w_trace w_machine]. rewrite stdout_snoc.
  replace (zlen pre + zlen tail - zlen pre) with (zlen tail) by lia. done.
Qed.

Lemma dump_loop_records rs : forall fuel pre tail count d id tr, Forall Record_wf rs -> incomplete tail ->
  files d !! p = Some (pre ++ log_bytes rs ++ tail) -> zlen (pre ++ log_bytes rs ++ tail) < 2 ^ 63 ->
  (length rs < fuel)%nat ->
  runs (dump_loop fuel (Some p) (zlen (pre ++ log_bytes rs ++ tail)) (zlen pre) count)
    (fun _ w' => w_machine w' = d /\ stdout (w_trace w') = stdout tr ++ dump_records count (zlen pre) rs ++
       dump_tail (zlen pre + zlen (log_bytes rs)) tail) (mkWorld d id tr).
Proof.
  induction rs as [|r rs IH]; intros fuel pre tail count d id tr Hwf Hi Hf Hlim Hfuel.
  { change (log_bytes []) with (@nil byte) in *. cbn [app dump_records] in *. rewrite zlen_nil, Z.add_0_r.
    apply dump_loop_stop; [done..|lia]. }
  destruct fuel as [|fuel]; [lia|]. cbn [length] in Hfuel. apply list.Forall_cons in Hwf as [Hr Hwf].
  rewrite log_bytes_cons, <- app_assoc in *. cbn [dump_loop dump_records].
  pose proof (Record_wf_size r Hr) as Hsz. pose proof (zlen_nonneg pre). pose proof (zlen_nonneg tail).
  pose proof (zlen_nonneg (log_bytes rs)).
  assert (zlen (pre ++ record_bytes r ++ log_bytes rs ++ tail) =
    zlen pre + record_size r + zlen (log_bytes rs) + zlen tail) as Hz by (rewrite !zlen_app, zlen_record_bytes; lia).
  rewrite Hz in *. unfold MAX_RECORD_SIZE in *.
  rewrite (proj2 (Z.ltb_lt _ _)) by lia. cbn [negb]. apply runs_bind, runs_disk.
  eapply wp_read_ok; [exact Hf|lia|lia|rewrite Hz; lia|]. cbn [negb].
  rewrite zdrop_app_exact, record_bytes_length by (done || lia).
  replace (4 + (record_size r - 4)) with (record_size r) by lia. unfold MAX_RECORD_SIZE.
  rewrite (proj2 (Z.ltb_ge _ 24)), (proj2 (Z.ltb_ge (1024 * 1024) _)) by lia. cbn [orb].
  rewrite (u32_id (record_size r)) by (unfold is_u32; lia). rewrite u64_id by (unfold is_u64; lia).
  rewrite (proj2 (Z.ltb_ge _ _)) by lia. apply runs_bind, runs_disk.
  eapply wp_read_ok; [exact Hf|lia|lia|rewrite Hz; lia|].
  rewrite zdrop_app_exact, ztake_app_exact by (done || by rewrite zlen_record_bytes). rewrite zlen_record_bytes.
  replace (Z.to_nat (record_size r - record_size r)) with 0%nat by lia. cbn [replicate].
  rewrite RecordCodec_decode_bytes by done. apply runs_bind. eexists _, _. split; [reflexivity|].
  apply runs_bind, runs_cout.
  specialize (IH fuel (pre ++ record_bytes r) tail (count + 1) d id
    (tr ++ [Printed (Text (dump_line count (zlen pre) (record_size r) Status_OK r))]) Hwf Hi).
  rewrite <- app_assoc, Hz in IH. rewrite zlen_app, zlen_record_bytes in IH.
  eapply runs_mono; [apply IH; [done|lia|lia]|]. intros [] w' [Hm Ho]. split; [done|]. rewrite Ho, stdout_snoc.
  rewrite zlen_app, zlen_record_bytes, Z.add_assoc, <- !app_assoc. done.
Qed.

End dump.

(** ** fill *)

(** The partition a key goes to. *)
Definition key_partition (n : Z) (k : bytes) : nat := Z.to_nat (KeyHashPartitioner_fnv1a_32 k mod n).

Section fill.
Context {W : Win32} {R : Reliable W} {F : Fstream W} {RF : ReliableStreams W F}.

(** One append to a topic of the manager, by its key. *)
Lemma wp_topic_append d tm logs name t Ls k v now E L Q :
  tm_is d tm logs -> tm_topics tm !! name = Some t -> logs !! name = Some Ls -> is_i64 now -> k <> [] ->
  record_size (mkRecord 0 now k v) <= MAX_RECORD_SIZE -> Ls !! key_partition (zlen Ls) k = Some (E, L) ->
  E + zlen L + 1 < 2 ^ 64 ->
  (forall d' t', tm_is d' (tm_set_topic name t' tm)
       (<[name := <[key_partition (zlen Ls) k := (E, L ++ [mkRecord (E + zlen L) now k v])]> Ls]> logs) ->
     Q (Ok (E + zlen L), t') d') ->
  wp (Topic_append now t k v) Q d.
Proof.
  intros Htm Ht HLs Hnow Hk Hsz HL Hlim HQ.
  destruct (tm_is_lookup _ _ _ _ _ (tmi_holds _ _ _ Htm) Ht) as (Ls' & HL' & He). rewrite HLs in HL'. injection HL' as <-.
  pose proof (te_is _ _ _ _ _ He) as Hti. pose proof (ti_count _ _ _ Hti) as Hc.
  pose proof (Forall2_length (ti_logs _ _ _ Hti)) as Hlen.
  assert (zlen Ls = zlen (tc_partitions t)) as Hz by (unfold zlen; by rewrite Hlen).
  set (c := key_partition (zlen Ls) k) in *.
  unfold Topic_append, KeyHashPartitioner_partition. destruct (num_partitions_small t Hc) as [-> _].
  rewrite (proj2 (Z.eqb_neq _ 0)) by lia. destruct k as [|b k]; [done|]. set (key := b :: k) in *.
  assert (KeyHashPartitioner_fnv1a_32 key mod zlen (tc_partitions t) = Z.of_nat c) as ->.
  { unfold c, key_partition. rewrite Hz, Z2Nat.id; [done|]. apply Z.mod_pos_bound. lia. }
  pose proof (lookup_lt_Some _ _ _ HL) as Hlt.
  destruct (lookup_lt_is_Some_2 (tc_partitions t) c) as [p Hp]; [lia|].
  unfold Topic_append_to. cbn [tc_partitions tc_set_key]. rewrite (proj2 (Z.leb_gt _ _)) by (unfold zlen; lia).
  pose proof (Forall2_lookup_lr _ _ _ _ _ _ (ti_logs _ _ _ Hti) Hp HL) as Hpi. cbn [fst snd] in Hpi.
  destruct (part_is_next _ _ _ _ Hpi) as [Hnx _].
  assert (pt_partition_dir p = tc_topic_dir t ++ [std_to_string (Z.of_nat c)]) as Hdir by exact (ti_dirs _ _ _ Hti c p Hp).
  unfold record_size, MAX_RECORD_SIZE in Hsz. cbn [RecordCodec.key value] in Hsz.
  eapply (wp_on_partition d t (tc_set_key (tc_key_partitioner t) t) Ls c p E L
    (fun p => Partition_append now p key v) _ (L ++ [mkRecord (E + zlen L) now key v]) E);
    [done|by destruct t; repeat split|done|done|done| |].
  - intros q Hq. by apply local_partition_append.
  - unfold Partition_append. eapply wp_partition_append; [exact Hpi|done|lia|lia|done|]. intros d' p' Hp' Hsp. rewrite Hnx in *.
    pose proof Hsp as (_ & Hd' & _).
    split_and!; [done|done|]. intros t' Ht' Hti' Hpt' Hout. apply HQ.
    eapply (tm_is_update d d' tm logs name t t' Ls c p' (E, _)); try done. by rewrite Hd'.
Qed.

End fill.

(** The record with the number [i]. *)
Definition fill_key (key_prefix : bytes) (i : nat) : bytes := key_prefix ++ std_to_string (Z.of_nat i).

Lemma fill_key_nonempty key_prefix i : fill_key key_prefix i <> [].
Proof.
  intros H. apply app_eq_nil in H as [_ H]. destruct (to_string_spec (Z.of_nat i)) as (_ & _ & Hne); [lia|].
  by rewrite H in Hne.
Qed.

Definition log_append (now : Z) (k v : bytes) (EL : Z * list Record) : Z * list Record :=
  (EL.1, EL.2 ++ [mkRecord (EL.1 + zlen EL.2) now k v]).

(** The logs after [n] records from the number [i] on. *)
Fixpoint fill_logs (now : nat -> Z) (key_prefix v : bytes) (i n : nat) (Ls : list (Z * list Record))
    : list (Z * list Record) :=
  match n with
  | O => Ls
  | Datatypes.S n =>
      let k := fill_key key_prefix i in
      fill_logs now key_prefix v (Datatypes.S i) n (alter (log_append (now i) k v) (key_partition (zlen Ls) k) Ls)
  end.

Lemma list_alter_value {A} (f : A -> A) (l : list A) i x : l !! i = Some x -> alter f i l = <[i := f x]> l.
Proof. revert i. induction l as [|y l IH]; intros [|i] H; cbn in *; [done..|by injection H as ->|]. by rewrite IH. Qed.

Lemma zlen_alter {A} (f : A -> A) (l : list A) i : zlen (alter f i l) = zlen l.
Proof. unfold zlen. by rewrite length_alter. Qed.

(** What they are for one partition. *)
Lemma fill_logs_lookup now key_prefix v p n : forall i Ls E L, Ls !! p = Some (E, L) ->
  exists Rs, fill_logs now key_prefix v i n Ls !! p = Some (E, L ++ Rs) /\
    (fun r => (timestamp_ms r, key r, value r)) <$> Rs =
      (fun j => (now j, fill_key key_prefix j, v)) <$>
        filter (fun j => key_partition (zlen Ls) (fill_key key_prefix j) = p) (seq i n) /\
    offset <$> Rs = seqZ (E + zlen L) (zlen Rs).
Proof.
  induction n as [|n IH]; intros i Ls E L HL; cbn [fill_logs seq].
  { exists []. by rewrite app_nil_r. }
  set (k := fill_key key_prefix i). set (c := key_partition (zlen Ls) k). rewrite filter_cons. fold k. fold c.
  destruct (decide (c = p)) as [Ec|Hne].
  - destruct (IH (Datatypes.S i) (alter (log_append (now i) k v) c Ls) E (L ++ [mkRecord (E + zlen L) (now i) k v]))
      as (Rs & H1 & H2 & H3).
    { by rewrite Ec, list_lookup_alter_eq, HL. }
    exists (mkRecord (E + zlen L) (now i) k v :: Rs). rewrite zlen_alter in H2. split_and!.
    + by rewrite H1, <- app_assoc.
    + cbn [fmap list_fmap]. f_equal. exact H2.
    + cbn [fmap list_fmap]. rewrite H3, zlen_cons. pose proof (zlen_nonneg Rs). rewrite (seqZ_cons (E + zlen L)) by lia.
      f_equal. rewrite zlen_app. change (zlen [_]) with 1. f_equal; lia.
  - destruct (IH (Datatypes.S i) (alter (log_append (now i) k v) c Ls) E L) as (Rs & H1 & H2 & H3).
    { by rewrite list_lookup_alter_ne. }
    exists Rs. rewrite zlen_alter in H2. done.
Qed.

Lemma length_fill_logs now key_prefix v n : forall i Ls, length (fill_logs now key_prefix v i n Ls) = length Ls.
Proof. induction n as [|n IH]; intros i Ls; cbn [fill_logs]; [done|]. by rewrite IH, length_alter. Qed.

Section fill_loop.
Context {W : Win32} {R : Reliable W} {F : Fstream W} {RF : ReliableStreams W F}.
Context (now : nat -> Z) (key_prefix v name : bytes).

Lemma fill_loop_runs n : forall i d tm logs t Ls id tr,
  tm_is d tm logs -> tm_topics tm !! name = Some t -> logs !! name = Some Ls ->
  (forall j, (i <= j < i + n)%nat -> is_i64 (now j) /\
     record_size (mkRecord 0 (now j) (fill_key key_prefix j) v) <= MAX_RECORD_SIZE) ->
  Forall (fun EL => EL.1 + zlen EL.2 + Z.of_nat n < 2 ^ 64) Ls -> (0 < length Ls)%nat ->
  runs (fill_loop now key_prefix v i n t)
    (fun r w' => is_Some r /\ (exists tm', tm_config tm' = tm_config tm /\
       tm_is (w_machine w') tm' (<[name := fill_logs now key_prefix v i n Ls]> logs)) /\ w_trace w' = tr)
    (mkWorld d id tr).
Proof.
  induction n as [|n IH]; intros i d tm logs t Ls id tr Htm Ht HLs Hrec Hlim Hpos; cbn [fill_loop fill_logs].
  { apply runs_ret. split_and!; [by eexists| |done]. exists tm. by rewrite insert_id. }
  fold (fill_key key_prefix i). set (k := fill_key key_prefix i). set (c := key_partition (zlen Ls) k).
  destruct (lookup_lt_is_Some_2 Ls c) as [[E L] HL].
  { unfold c, key_partition. pose proof (Z.mod_pos_bound (KeyHashPartitioner_fnv1a_32 k) (zlen Ls)). unfold zlen in *. lia. }
  pose proof (list.Forall_lookup_1 _ _ _ _ Hlim HL) as Hl. cbn [fst snd] in Hl. destruct (Hrec i ltac:(lia)) as [Hnow Hsz].
  apply runs_bind, runs_disk. eapply (wp_topic_append d tm logs name t Ls k v (now i) E L);
    [done|done|done|done|apply fill_key_nonempty|done|done|lia|]. intros d' t' Htm'.
  fold c in Htm'. rewrite (list_alter_value _ Ls c (E, L) HL). set (Ls1 := <[c := _]> Ls) in *.
  eapply runs_mono; [apply (IH (Datatypes.S i) d' (tm_set_topic name t' tm) (<[name := Ls1]> logs) t' Ls1 id tr); try done|].
  - cbn. apply lookup_insert_eq.
  - apply lookup_insert_eq.
  - intros j Hj. apply Hrec. lia.
  - apply list.Forall_insert; [eapply list.Forall_impl; [exact Hlim|cbn; lia]|]. cbn [fst snd log_append].
    rewrite zlen_app. change (zlen [_]) with 1. lia.
  - unfold Ls1. by rewrite length_insert.
  - intros r w' (Hr & (tm' & Hc & H) & Htr). split_and!; [done| |done]. exists tm'. split; [done|]. by rewrite insert_insert_eq in H.
Qed.

End fill_loop.

(** ** Properties *)

(** The tool past its command line. *)
Lemma storage_main_runs {W : Win32} {R : Reliable W} {F : Fstream W} {RF : ReliableStreams W F} now argv o d logs id tr Q :
  parse_storage_options argv default_storage_options = Value o -> st_command o <> [] ->
  st_command o <> str "dump-segment" -> 28 <= st_segment_bytes o <= LOG_LIMIT ->
  broker_files d (storage_config o) logs ->
  (forall d' tm, tm_is d' tm logs -> tm_config tm = storage_config o ->
     runs (storage_command now o tm) Q (mkWorld d' id tr)) ->
  runs (storage_main now argv) Q (mkWorld d id tr).
Proof.
  intros Hp Hc Hd Hseg Hf HQ. unfold storage_main. destruct argv as [|a argv]; [by injection Hp as <-|].
  rewrite Hp. apply runs_bind, runs_value. unfold bytes_eqb at 1. rewrite bool_decide_eq_false_2 by done.
  apply runs_bind, runs_disk. apply (wp_recover_all d (mkTopicManager (storage_config o) ∅) logs); [done| |].
  - cbn [tm_config]. split; [done|]. unfold StorageConfig_wf. cbn. unfold LOG_LIMIT in Hseg.
    split_and!; try done; unfold is_u32; lia.
  - intros d' tm Htm Hcf _. by apply HQ.
Qed.

(** [dump-segment] lists exactly the records of a segment.  On a file that holds any
    number of records, followed by the beginning of one whose write was cut short (or by
    nothing), the tool ends with exit code 0 and changes no file; it prints one line per
    record, in order, with its offset, position and size and the verdict VALID, and then
    where the incomplete record begins, if there is one. *)
Theorem dump_lists_segment {W : Win32} {R : Reliable W} {F : Fstream W} now (log_path : bytes) rs tail d id :
  files d !! [log_path] = Some (log_bytes rs ++ tail) -> Forall Record_wf rs -> incomplete tail ->
  zlen (log_bytes rs ++ tail) < 2 ^ 63 ->
  runs (storage_main now [str "dump-segment"; log_path])
    (fun code w' => code = 0 /\ files (w_machine w') = files d /\
       stdout (w_trace w') = dump_header log_path (zlen (log_bytes rs ++ tail)) ++ dump_records 0 0 rs ++
         dump_tail (zlen (log_bytes rs)) tail) (mkWorld d id []).
Proof.
  intros Hf Hrs Hi Hlim. unfold storage_main.
  change (parse_storage_options [str "dump-segment"; log_path] default_storage_options)
    with (Value (mkStorageOptions (str "./data") DEFAULT_SEGMENT_MAX_BYTES (str "dump-segment") [log_path])).
  apply runs_bind, runs_value. change (bytes_eqb _ _) with true. unfold tool_dump_segment. cbn [st_args].
  apply runs_bind, runs_disk. apply wp_open_existing_ok; [by eexists|]. intros d' Hd' _. cbn [FileHandle_is_valid negb].
  apply runs_bind, runs_disk. eapply wp_get_size_ok; [by rewrite Hd'|]. apply runs_bind, runs_cout. apply runs_bind.
  eapply runs_mono; [apply (dump_loop_records [log_path] rs _ [] tail 0 d'); [done|done|by rewrite Hd'|done|]|].
  - cbn [app]. rewrite zlen_app. pose proof (zlen_log_bytes_ge rs). pose proof (zlen_nonneg tail). unfold zlen in *. lia.
  - intros [] w' [Hm Ho]. apply runs_ret. split_and!; [done|by rewrite Hm|]. rewrite Ho, stdout_snoc.
    change (zlen []) with 0. change (stdout []) with (@nil byte). cbn [app]. by destruct (zlen (log_bytes rs)).
Qed.

(** [fill] distributes its records by their keys.  Run on the files of a set of topics,
    the tool ends with exit code 0 and leaves the files of the same topics; only the logs
    of the topic it was given have changed.  Each of its partitions got, after what it
    held, exactly the records whose key is hashed to it, in the order of their numbers
    and with consecutive offsets. *)
Theorem fill_distributes {W : Win32} {R : Reliable W} {F : Fstream W} {RF : ReliableStreams W F}
    now argv o d logs name count_text size_text rest count val_size Ls id :
  parse_storage_options argv default_storage_options = Value o -> st_command o = str "fill" ->
  st_args o = name :: count_text :: size_text :: rest ->
  stoul count_text = Value count -> stoul size_text = Value val_size -> 0 <= count ->
  28 <= st_segment_bytes o <= LOG_LIMIT ->
  broker_files d (storage_config o) logs -> logs !! name = Some Ls ->
  let key_prefix := key_prefix_args rest (str "key-") in
  let v := replicate (Z.to_nat val_size) (byte_of_Z 88) in
  (forall i, (i < Z.to_nat count)%nat -> is_i64 (now i) /\
     record_size (mkRecord 0 (now i) (fill_key key_prefix i) v) <= MAX_RECORD_SIZE) ->
  Forall (fun EL => EL.1 + zlen EL.2 + count < 2 ^ 64) Ls ->
  runs (storage_main now argv)
    (fun code w' => code = 0 /\ exists Ls', length Ls' = length Ls /\
       broker_files (w_machine w') (storage_config o) (<[name := Ls']> logs) /\
       forall p E L, Ls !! p = Some (E, L) -> exists Rs, Ls' !! p = Some (E, L ++ Rs) /\
         (fun r => (timestamp_ms r, key r, value r)) <$> Rs =
           (fun i => (now i, fill_key key_prefix i, v)) <$>
             filter (fun i => key_partition (zlen Ls) (fill_key key_prefix i) = p) (seq 0 (Z.to_nat count)) /\
         offset <$> Rs = seqZ (E + zlen L) (zlen Rs)) (mkWorld d id []).
Proof.
  intros Hp Hc Ha Hct Hst Hn Hseg Hf HLs key_prefix v Hrec Hlim.
  eapply storage_main_runs; [exact Hp|by rewrite Hc|by rewrite Hc|done|exact Hf|].
  intros d1 tm Htm Hcf. unfold storage_command. rewrite Hc.
  destruct (tm_is_logs _ _ _ _ _ (tmi_holds _ _ _ Htm) HLs) as (t & Ht & He).
  pose proof (ti_count _ _ _ (te_is _ _ _ _ _ He)) as Hcnt. pose proof (Forall2_length (ti_logs _ _ _ (te_is _ _ _ _ _ He))) as Hlen.
  match goal with |- runs _ ?Q _ => change (runs (tool_fill now o tm) Q (mkWorld d1 id [])) end.
  unfold tool_fill. rewrite Ha, Hct, Hst. apply runs_bind, runs_value. apply runs_bind, runs_value.
  unfold TopicManager_get_topic. rewrite Ht. apply runs_bind, runs_cout. fold key_prefix v. apply runs_bind.
  eapply runs_mono; [apply (fill_loop_runs now key_prefix v name (Z.to_nat count) 0 d1 tm logs t Ls); [done|done|done| | |]|].
  - intros j Hj. apply Hrec. lia.
  - eapply list.Forall_impl; [exact Hlim|]. cbn. lia.
  - unfold zlen in *. lia.
  - intros r w' ([t' ->] & (tm' & Hcf' & Htm') & _). destruct w' as [d2 id2 tr2]. apply runs_bind, runs_cout, runs_ret.
    split; [done|]. exists (fill_logs now key_prefix v 0 (Z.to_nat count) Ls). split; [apply length_fill_logs|]. split.
    + apply tm_is_files in Htm'. by rewrite Hcf', Hcf in Htm'.
    + intros p E L HL. by apply fill_logs_lookup.
Qed.

(** ** Examples *)

(** Two records, and the first ten bytes of a third. *)
Definition demo_dump_disk : disk (Win32 := memory_disk) :=
  {[ [str "a.log"] := log_bytes demo_records ++ take 10 (record_bytes demo_next) ]}.

Example dump_lists_segment_witness :
  runs (W := memory_disk) (storage_main (fun _ => 0) [str "dump-segment"; str "a.log"])
    (fun code w' => code = 0 /\ files (Win32 := memory_disk) (w_machine w') = demo_dump_disk /\
       stdout (w_trace w') =
         dump_header (str "a.log") (zlen (log_bytes demo_records ++ take 10 (record_bytes demo_next))) ++
         dump_records 0 0 demo_records ++ dump_tail (zlen (log_bytes demo_records)) (take 10 (record_bytes demo_next)))
    (mkWorld demo_dump_disk 0 []).
Proof.
  apply (dump_lists_segment (W := memory_disk)).
  - reflexivity.
  - repeat constructor; by vm_compute.
  - left. by vm_compute.
  - by vm_compute.
Defined.

(** The output for it. *)
Example demo_dump : stdout (w_trace (storage_main (W := memory_disk) (fun _ => 0)
    [str "dump-segment"; str "a.log"] (mkWorld demo_dump_disk 0 [])).2) =
  str "Dumping log segment: a.log (78 bytes)" ++ nl ++
  str "[    0] Offset:        5 Pos:        0 Size:     34 CRC: VALID Key: k Val: first" ++ nl ++
  str "[    1] Offset:        6 Pos:       34 Size:     34 CRC: VALID Key:  Val: second" ++ nl ++
  str "Position 68: [TRUNCATED HEADER]" ++ nl.
Proof. by vm_compute. Qed.

(** A new topic with three partitions, and five records. *)
Definition demo_fill_argv : list bytes := [str "fill"; str "orders"; str "5"; str "4"].
Definition demo_fill_options : StorageOptions :=
  mkStorageOptions (str "./data") DEFAULT_SEGMENT_MAX_BYTES (str "fill") [str "orders"; str "5"; str "4"].

Lemma demo_fill_manager : tm_is (W := memory_disk) (∅ : gmap path bytes)
  (mkTopicManager (storage_config demo_fill_options) ∅) ∅.
Proof.
  split; [split|].
  - intros nm. cbn. by rewrite !lookup_empty.
  - split; [by vm_compute|]. repeat split; by vm_compute.
  - intros nm Hs. cbn in Hs. by destruct Hs.
Qed.

Lemma demo_fill_files : exists d,
  broker_files (W := memory_disk) d (storage_config demo_fill_options) {[ str "orders" := replicate 3 (0, []) ]}.
Proof.
  destruct (wp_create_topic (W := memory_disk) 1000 ∅ (mkTopicManager (storage_config demo_fill_options) ∅) ∅
    (str "orders") 3 0 0 (replicate 3 (0, [])) (fun '(_, tm') d' => tm_config tm' = storage_config demo_fill_options /\
       tm_is d' tm' {[ str "orders" := replicate 3 (0, []) ]})) as ([res tm'] & d & _ & Hc & Htm).
  - apply demo_fill_manager.
  - by vm_compute.
  - lia.
  - reflexivity.
  - by vm_compute.
  - by vm_compute.
  - reflexivity.
  - intros i EL Hi. apply lookup_replicate in Hi as [-> _]. by apply (fresh_stored (W := memory_disk)).
  - intros d' t Htm _ _. by split.
  - exists d. apply tm_is_files in Htm. by rewrite Hc in Htm.
Qed.

Example fill_distributes_witness : exists d,
  runs (W := memory_disk) (storage_main (fun i => Z.of_nat i) demo_fill_argv)
    (fun code w' => code = 0 /\ exists Ls', length Ls' = 3%nat /\
       broker_files (W := memory_disk) (w_machine w') (storage_config demo_fill_options) {[ str "orders" := Ls' ]})
    (mkWorld d 0 []).
Proof.
  destruct demo_fill_files as [d Hf]. exists d.
  eapply runs_mono; [apply (fill_distributes (W := memory_disk) (fun i => Z.of_nat i) demo_fill_argv demo_fill_options d
    {[ str "orders" := replicate 3 (0, []) ]} (str "orders") (str "5") (str "4") [] 5 4 (replicate 3 (0, [])) 0)|].
  - reflexivity.
  - reflexivity.
  - reflexivity.
  - reflexivity.
  - reflexivity.
  - lia.
  - by vm_compute.
  - exact Hf.
  - apply lookup_singleton_eq.
  - intros i Hi. change (Z.to_nat 5) with 5%nat in Hi. do 5 (destruct i as [|i]; [split; by vm_compute|]). lia.
  - repeat constructor; by vm_compute.
  - intros code w' (-> & Ls' & Hlen & Hb & _). split; [done|]. exists Ls'. split; [done|].
    by rewrite insert_singleton_eq in Hb.
Defined.

(** A session with the tool, and the output of its last command. *)
Definition demo_session (cmds : list (list bytes)) : bytes :=
  (foldl (fun '(d, _) argv => let w := (storage_main (W := memory_disk) (fun i => Z.of_nat i) argv (mkWorld d 0 [])).2 in
                              (w_machine w, stdout (w_trace w))) (∅ : disk (Win32 := memory_disk), []) cmds).2.

Example demo_fill_read : demo_session
    [[str "create-topic"; str "orders"; str "3"]; demo_fill_argv; [str "read"; str "orders"; str "1"; str "0"]] =
  str "Read 1 records from orders[1]:" ++ nl ++ str "Offset: 0 | Timestamp: 1 | Key: key-1 | Value: XXXX" ++ nl.
Proof. by vm_compute. Qed.
