(* ===== verification/GroupCoordinator.v ===== *)
(** * GroupCoordinator: membership and assignment of consumer groups
    (src/GroupCoordinator.cpp)

    The state is [GroupCoordinator]: the configuration, the counter of member ids
    and the groups.  Every operation takes the group's lock for its whole effect and
    is one function on the state; the clock (a [steady_clock] time in nanoseconds)
    and the random part of a member id are arguments.  Topics are looked up in the
    topic manager, which only ever gains topics. *)
From S2P Require Import Prelude StdString Status RecordCodec FrameCodec ProtocolMessages FileHandle OffsetIndex.
From S2P Require Import LogSegment Partition PartitionRead PartitionRecovery PartitionFrame PartitionProps.
From S2P Require Import Partitioner Assignor Topic TopicManager OffsetStore.

Inductive GroupState := GroupEmpty | Stable.

#[global] Instance GroupState_eq_dec : EqDecision GroupState.
Proof. solve_decision. Defined.

Record CoordinatorConfig := mkCoordinatorConfig {
  min_session_timeout_ms : Z;   (* uint32_t *)
  max_session_timeout_ms : Z;   (* uint32_t *)
  max_members_per_group : Z;    (* size_t *)
  max_groups : Z;               (* size_t *)
}.

Definition default_CoordinatorConfig : CoordinatorConfig := mkCoordinatorConfig 1000 60000 64 1024.

Record MemberMetadata := mkMemberMetadata {
  mm_member_id : bytes;
  mm_session_timeout_ms : Z;    (* uint32_t *)
  mm_last_heartbeat : Z;        (* time_point, in nanoseconds *)
  mm_assignment : list TopicPartition;
}.

Record Group := mkGroup {
  g_group_id : bytes;
  g_generation : Z;             (* uint32_t *)
  g_strategy : AssignorStrategy;
  g_subscribed_topics : list bytes;
  g_state : GroupState;
  g_members : gmap bytes MemberMetadata;
}.

Record JoinResult := mkJoinResult {
  jr_status : Status;
  jr_error_code : Z;            (* uint16_t *)
  jr_member_id : bytes;
  jr_generation : Z;
  jr_heartbeat_interval_ms : Z;
  jr_assignment : list TopicPartition;
}.

(** [HeartbeatResult], [LeaveResult] and [CommitResult]: status and error code. *)
Definition HeartbeatResult : Type := (Status * Z)%type.
Definition LeaveResult : Type := (Status * Z)%type.
Definition CommitResult : Type := (Status * Z)%type.

Record OffsetCommitRequestEntry := mkOffsetCommitRequestEntry {
  ocr_topic : bytes;
  ocr_partition : Z;            (* uint16_t *)
  ocr_offset : Z;               (* uint64_t *)
}.

Record MemberDescription := mkMemberDescription {
  md_member_id : bytes;
  md_session_timeout_ms : Z;
  md_ms_since_heartbeat : Z;
  md_assignment : list TopicPartition;
}.

Record GroupDescription := mkGroupDescription {
  gd_status : Status;
  gd_error_code : Z;
  gd_group_id : bytes;
  gd_generation : Z;
  gd_state : bytes;
  gd_strategy : Z;
  gd_members : list MemberDescription;
}.

Record GroupCoordinator := mkGroupCoordinator {
  gc_config : CoordinatorConfig;
  gc_member_counter : Z;        (* std::atomic<uint64_t> *)
  gc_groups : gmap bytes Group;
}.

(** Assignments to the members of the structs. *)
Definition mm_set_assignment (l : list TopicPartition) (m : MemberMetadata) : MemberMetadata :=
  mkMemberMetadata (mm_member_id m) (mm_session_timeout_ms m) (mm_last_heartbeat m) l.
Definition mm_set_heartbeat (now : Z) (m : MemberMetadata) : MemberMetadata :=
  mkMemberMetadata (mm_member_id m) (mm_session_timeout_ms m) now (mm_assignment m).
Definition mm_set_timeout (ms : Z) (m : MemberMetadata) : MemberMetadata :=
  mkMemberMetadata (mm_member_id m) ms (mm_last_heartbeat m) (mm_assignment m).
Definition g_set_members (ms : gmap bytes MemberMetadata) (g : Group) : Group :=
  mkGroup (g_group_id g) (g_generation g) (g_strategy g) (g_subscribed_topics g) (g_state g) ms.
Definition g_set_state (s : GroupState) (g : Group) : Group :=
  mkGroup (g_group_id g) (g_generation g) (g_strategy g) (g_subscribed_topics g) s (g_members g).
Definition g_next_generation (g : Group) : Group :=
  mkGroup (g_group_id g) (u32 (g_generation g + 1)) (g_strategy g) (g_subscribed_topics g) (g_state g)
    (g_members g).
Definition g_subscribe (strategy : AssignorStrategy) (topics : list bytes) (g : Group) : Group :=
  mkGroup (g_group_id g) (g_generation g) strategy topics (g_state g) (g_members g).
Definition gc_set_group (id : bytes) (g : Group) (gc : GroupCoordinator) : GroupCoordinator :=
  mkGroupCoordinator (gc_config gc) (gc_member_counter gc) (<[id := g]> (gc_groups gc)).

(** [duration_cast<milliseconds>(now - last)] *)
Definition elapsed_ms (now last : Z) : Z := Z.quot (now - last) 1000000.

Definition group_char (c : byte) : bool :=
  islower c || isupper c || isdigit c || bool_decide (c = Byte.x2e) || bool_decide (c = Byte.x5f) ||
  bool_decide (c = Byte.x2d).

Definition GroupCoordinator_validate_group_id (group_id : bytes) : bool :=
  negb (bool_decide (group_id = []) || (64 <? zlen group_id)) &&
  negb (starts_with (str "__") group_id) &&
  negb (bool_decide (head group_id = Some Byte.x2e) || bool_decide (list.last group_id = Some Byte.x2e)) &&
  forallb group_char group_id.

Definition hex_digit (d : Z) : byte := if d <? 10 then byte_of_Z (48 + d) else byte_of_Z (87 + d).

(** [%04x] of a 16-bit number. *)
Definition hex4 (v : Z) : bytes :=
  [hex_digit (Z.land (Z.shiftr v 12) 15); hex_digit (Z.land (Z.shiftr v 8) 15);
   hex_digit (Z.land (Z.shiftr v 4) 15); hex_digit (Z.land v 15)].

(** [snprintf] into 128 bytes: at most 127 characters of the formatted string. *)
Definition GroupCoordinator_generate_member_id (gc : GroupCoordinator) (rng : Z) (group_id : bytes)
    : bytes * GroupCoordinator :=
  let counter := gc_member_counter gc in
  let rand_val := u16 (Z.land rng 0xFFFF) in
  (take 127 (group_id ++ str "-" ++ setw_fill0 8 (std_to_string counter) ++ str "-" ++ hex4 rand_val),
   mkGroupCoordinator (gc_config gc) (u64 (counter + 1)) (gc_groups gc)).

(** The subscribed topics that exist, with their partition counts. *)
Definition topic_counts (tm : TopicManager) (topics : list bytes) : list (bytes * Z) :=
  omap (fun name => (fun t => (name, u16 (Topic_num_partitions t))) <$> TopicManager_get_topic tm name) topics.

Definition Assignor_assign (strategy : AssignorStrategy)
    : list bytes -> list (bytes * Z) -> assignments :=
  match strategy with Range => RangeAssignor_assign | RoundRobin => RoundRobinAssignor_assign end.

Definition GroupCoordinator_rebalance_unlocked (tm : TopicManager) (g : Group) : Group :=
  if bool_decide (g_members g = ∅) then g_set_state GroupEmpty g else
  let sorted_members := merge_sort (fun a b => string_leb a b = true) (map_to_list (g_members g)).*1 in
  let topic_partitions := topic_counts tm (g_subscribed_topics g) in
  let assignments := Assignor_assign (g_strategy g) sorted_members topic_partitions in
  g_set_state Stable
    (g_set_members (map_imap (fun id m => Some (mm_set_assignment (default [] (assignments !! id)) m))
                      (g_members g)) g).

Definition join_error (code : StatusCode) (msg : bytes) (error_code : Z) : JoinResult :=
  mkJoinResult (mkStatus code msg) error_code [] 0 0 [].

(** The topics of a subscription are checked in order. *)
Fixpoint check_topics (tm : TopicManager) (topics : list bytes) : option JoinResult :=
  match topics with
  | [] => None
  | t :: topics =>
      if starts_with (str "__") t then
        Some (join_error InvalidArgument (str "Cannot subscribe to reserved topic: " ++ t) INVALID_TOPIC_NAME)
      else match TopicManager_get_topic tm t with
      | None => Some (join_error NotFound (str "Subscribed topic not found: " ++ t) UNKNOWN_TOPIC)
      | Some _ => check_topics tm topics
      end
  end.

(** The checks of [join] before any group is looked up. *)
Definition join_guard (tm : TopicManager) (cfg : CoordinatorConfig) (group_id : bytes) (session_timeout_ms : Z)
    (topics : list bytes) (strategy : Z) : option JoinResult :=
  if negb (GroupCoordinator_validate_group_id group_id) then
    Some (join_error InvalidArgument (str "Invalid group ID") INVALID_ARGUMENT) else
  if bool_decide (topics = []) then
    Some (join_error InvalidArgument (str "Subscribed topics list cannot be empty") INVALID_ARGUMENT) else
  if (session_timeout_ms <? min_session_timeout_ms cfg) || (max_session_timeout_ms cfg <? session_timeout_ms) then
    Some (join_error InvalidArgument (str "Session timeout out of bounds") INVALID_ARGUMENT) else
  if 1 <? strategy then
    Some (join_error InvalidArgument (str "Invalid assignment strategy") INVALID_ARGUMENT) else
  check_topics tm topics.

(** A strategy that passed the check. *)
Definition strategy_of (strategy : Z) : AssignorStrategy := if strategy =? 0 then Range else RoundRobin.
Definition strategy_code (s : AssignorStrategy) : Z := match s with Range => 0 | RoundRobin => 1 end.

(** The part of [join] that runs under the lock of the group. *)
Definition join_group (tm : TopicManager) (gc : GroupCoordinator) (now rng : Z) (group_id member_id : bytes)
    (session_timeout_ms : Z) (topics : list bytes) (strategy : AssignorStrategy) (g : Group)
    : JoinResult * GroupCoordinator :=
  let gc := gc_set_group group_id g gc in
  if negb (bool_decide (g_members g = ∅)) && negb (bool_decide (g_strategy g = strategy)) then
    (join_error InvalidArgument (str "Strategy mismatch for group") INVALID_ARGUMENT, gc) else
  if negb (bool_decide (g_members g = ∅)) && negb (bool_decide (g_subscribed_topics g = topics)) then
    (join_error InvalidArgument (str "Topic subscription mismatch for group") INVALID_ARGUMENT, gc) else
  let g := if bool_decide (g_members g = ∅) then g_subscribe strategy topics g else g in
  let gc := gc_set_group group_id g gc in
  if bool_decide (member_id = []) then
    if max_members_per_group (gc_config gc) <=? Z.of_nat (size (g_members g)) then
      (join_error InvalidArgument (str "Maximum members limit reached for group") INVALID_ARGUMENT, gc) else
    let '(new_id, gc) := GroupCoordinator_generate_member_id gc rng group_id in
    let member := mkMemberMetadata new_id session_timeout_ms now [] in
    let g := g_next_generation (g_set_members (<[new_id := member]> (g_members g)) g) in
    let g := GroupCoordinator_rebalance_unlocked tm g in
    (mkJoinResult Status_OK 0 new_id (g_generation g) (session_timeout_ms / 3)
       (default [] (mm_assignment <$> g_members g !! new_id)), gc_set_group group_id g gc)
  else
    match g_members g !! member_id with
    | None => (join_error NotFound (str "Unknown member ID in group") UNKNOWN_GROUP_OR_MEMBER, gc)
    | Some m =>
        let m := mm_set_timeout session_timeout_ms (mm_set_heartbeat now m) in
        let g := g_set_members (<[member_id := m]> (g_members g)) g in
        (mkJoinResult Status_OK 0 member_id (g_generation g) (session_timeout_ms / 3) (mm_assignment m),
         gc_set_group group_id g gc)
    end.

Definition GroupCoordinator_join (tm : TopicManager) (gc : GroupCoordinator) (now rng : Z)
    (group_id member_id : bytes) (session_timeout_ms : Z) (topics : list bytes) (strategy : Z)
    : JoinResult * GroupCoordinator :=
  match join_guard tm (gc_config gc) group_id session_timeout_ms topics strategy with
  | Some err => (err, gc)
  | None =>
      match gc_groups gc !! group_id with
      | None =>
          if max_groups (gc_config gc) <=? Z.of_nat (size (gc_groups gc)) then
            (join_error InvalidArgument (str "Maximum groups limit reached") INVALID_ARGUMENT, gc)
          else join_group tm gc now rng group_id member_id session_timeout_ms topics (strategy_of strategy)
                 (mkGroup group_id 0 (strategy_of strategy) topics GroupEmpty ∅)
      | Some g => join_group tm gc now rng group_id member_id session_timeout_ms topics (strategy_of strategy) g
      end
  end.

Definition GroupCoordinator_heartbeat (gc : GroupCoordinator) (now : Z) (group_id member_id : bytes)
    (generation : Z) : HeartbeatResult * GroupCoordinator :=
  match gc_groups gc !! group_id with
  | None => ((mkStatus NotFound (str "Unknown group"), UNKNOWN_GROUP_OR_MEMBER), gc)
  | Some g =>
      match g_members g !! member_id with
      | None => ((mkStatus NotFound (str "Unknown member"), UNKNOWN_GROUP_OR_MEMBER), gc)
      | Some m =>
          if negb (generation =? g_generation g) then
            ((mkStatus InvalidArgument (str "Illegal generation"), ILLEGAL_GENERATION), gc)
          else
            ((Status_OK, 0),
             gc_set_group group_id
               (g_set_members (<[member_id := mm_set_heartbeat now m]> (g_members g)) g) gc)
      end
  end.

(** After members were removed: a new generation, and a new assignment if any are left. *)
Definition after_removal (tm : TopicManager) (g : Group) : Group :=
  let g := g_next_generation g in
  if bool_decide (g_members g = ∅) then g_set_state GroupEmpty g
  else GroupCoordinator_rebalance_unlocked tm g.

Definition GroupCoordinator_leave (tm : TopicManager) (gc : GroupCoordinator) (group_id member_id : bytes)
    : LeaveResult * GroupCoordinator :=
  match gc_groups gc !! group_id with
  | None => ((mkStatus NotFound (str "Unknown group"), UNKNOWN_GROUP_OR_MEMBER), gc)
  | Some g =>
      match g_members g !! member_id with
      | None => ((mkStatus NotFound (str "Unknown member"), UNKNOWN_GROUP_OR_MEMBER), gc)
      | Some _ =>
          ((Status_OK, 0),
           gc_set_group group_id (after_removal tm (g_set_members (delete member_id (g_members g)) g)) gc)
      end
  end.

Definition expired (now : Z) (m : MemberMetadata) : bool :=
  mm_session_timeout_ms m <? elapsed_ms now (mm_last_heartbeat m).

(** The body of the loop of [expire_members] for one group. *)
Definition expire_group (tm : TopicManager) (now : Z) (g : Group) : Group * Z :=
  let expired_ids := (filter (fun x => expired now x.2 = true) (map_to_list (g_members g))).*1 in
  if bool_decide (expired_ids = []) then (g, 0) else
  let members := foldl (fun ms id => delete id ms) (g_members g) expired_ids in
  (after_removal tm (g_set_members members g), zlen expired_ids).

(** The groups are independent of each other: the order of the loop does not matter. *)
Definition GroupCoordinator_expire_members (tm : TopicManager) (gc : GroupCoordinator) (now : Z)
    : Z * GroupCoordinator :=
  (map_fold (fun _ g total => total + (expire_group tm now g).2) 0 (gc_groups gc),
   mkGroupCoordinator (gc_config gc) (gc_member_counter gc)
     ((fun g => (expire_group tm now g).1) <$> gc_groups gc)).

(** The first validation loop of [commit]. *)
Fixpoint check_commit_entries (tm : TopicManager) (entries : list OffsetCommitRequestEntry)
    : option CommitResult :=
  match entries with
  | [] => None
  | e :: entries =>
      if starts_with (str "__") (ocr_topic e) then
        Some (mkStatus InvalidArgument (str "Cannot commit offsets for reserved topic: " ++ ocr_topic e),
              INVALID_TOPIC_NAME)
      else match TopicManager_get_topic tm (ocr_topic e) with
      | None => Some (mkStatus NotFound (str "Topic not found: " ++ ocr_topic e), UNKNOWN_TOPIC)
      | Some t =>
          match Topic_get_partition t (ocr_partition e) with
          | None => Some (mkStatus InvalidArgument (str "Invalid partition: " ++ std_to_string (ocr_partition e)),
                          INVALID_PARTITION)
          | Some _ => check_commit_entries tm entries
          end
      end
  end.

Definition is_assigned (m : MemberMetadata) (e : OffsetCommitRequestEntry) : bool :=
  existsb (fun tp => bool_decide (tp_topic tp = ocr_topic e) && (tp_partition tp =? ocr_partition e))
    (mm_assignment m).

(** Who may commit: the check of membership, generation and assignment. *)
Definition check_committer (g : option Group) (group_id member_id : bytes) (generation : Z)
    (entries : list OffsetCommitRequestEntry) : option CommitResult :=
  if bool_decide (member_id = []) && (generation =? 0xFFFFFFFF) then
    match g with
    | Some g => if bool_decide (g_members g = ∅) then None
                else Some (mkStatus InvalidArgument (str "Standalone commit rejected: group has active members"),
                           ILLEGAL_GENERATION)
    | None => None
    end
  else
    match g with
    | None => Some (mkStatus NotFound (str "Unknown group: " ++ group_id), UNKNOWN_GROUP_OR_MEMBER)
    | Some g =>
        match g_members g !! member_id with
        | None => Some (mkStatus NotFound (str "Unknown member: " ++ member_id), UNKNOWN_GROUP_OR_MEMBER)
        | Some m =>
            if negb (generation =? g_generation g) then
              Some (mkStatus InvalidArgument (str "Illegal generation (expected " ++
                      std_to_string (g_generation g) ++ str ", got " ++ std_to_string generation ++ str ")"),
                    ILLEGAL_GENERATION)
            else match list_find (fun e => is_assigned m e = false) entries with
            | Some (_, e) => Some (mkStatus InvalidArgument (str "Partition " ++ ocr_topic e ++ str ":" ++
                                     std_to_string (ocr_partition e) ++ str " is not assigned to member " ++
                                     member_id), PARTITION_NOT_ASSIGNED)
            | None => None
            end
        end
    end.

(** The high watermark of the partition of an entry that passed the first loop. *)
Definition entry_watermark (tm : TopicManager) (e : OffsetCommitRequestEntry) : option Z :=
  t ← TopicManager_get_topic tm (ocr_topic e); p ← Topic_get_partition t (ocr_partition e);
  Some (pt_next_offset p).

Fixpoint check_commit_offsets (tm : TopicManager) (entries : list OffsetCommitRequestEntry)
    : option (option CommitResult) :=
  match entries with
  | [] => Some None
  | e :: entries =>
      hw ← entry_watermark tm e;
      if hw <? ocr_offset e then
        Some (Some (mkStatus OffsetOutOfRange (str "Commit offset (" ++ std_to_string (ocr_offset e) ++
                      str ") exceeds high watermark (" ++ std_to_string hw ++ str ")"), OFFSET_OUT_OF_RANGE))
      else check_commit_offsets tm entries
  end.

Section commit.
Context {N : Winsock} {W : Win32}.

(** The part of [commit] after the lookup of the group, under the lock of the group [g]
    if there is one.  [sys_now_ms] is the time the log records carry, [now] the
    coordinator's clock. *)
Definition commit_locked (sys_now_ms now : Z) (tm : TopicManager) (os : OffsetStore)
    (g : option Group) (group_id member_id : bytes) (generation : Z)
    (entries : list OffsetCommitRequestEntry) : io (CommitResult * OffsetStore * TopicManager) :=
  match check_committer g group_id member_id generation entries with
  | Some err => mret (err, os, tm)
  | None =>
      offsets ← io_opt (check_commit_offsets tm entries);
      match offsets with
      | Some err => mret (err, os, tm)
      | None =>
          let items := (fun e => mkOffsetCommitItem (ocr_topic e) (ocr_partition e) (ocr_offset e)
                                   (Z.quot now 1000000)) <$> entries in
          '(persist_status, os, tm) ← OffsetStore_commit sys_now_ms tm os group_id items;
          if negb (Status_ok persist_status) then mret ((persist_status, INTERNAL_ERROR), os, tm)
          else mret ((Status_OK, 0), os, tm)
      end
  end.

Definition GroupCoordinator_commit (sys_now_ms now : Z) (tm : TopicManager) (os : OffsetStore)
    (gc : GroupCoordinator) (group_id member_id : bytes) (generation : Z)
    (entries : list OffsetCommitRequestEntry) : io (CommitResult * OffsetStore * TopicManager) :=
  match check_commit_entries tm entries with
  | Some err => mret (err, os, tm)
  | None => commit_locked sys_now_ms now tm os (gc_groups gc !! group_id) group_id member_id generation entries
  end.

End commit.

Definition GroupCoordinator_fetch_offsets (os : OffsetStore) (group_id : bytes) (queries : list (bytes * Z))
    : Status * Z * list Z :=
  (Status_OK, 0, (fun q => OffsetStore_get os group_id q.1 q.2) <$> queries).

Definition GroupCoordinator_describe (gc : GroupCoordinator) (now : Z) (group_id : bytes) : GroupDescription :=
  match gc_groups gc !! group_id with
  | None => mkGroupDescription (mkStatus NotFound (str "Unknown group: " ++ group_id)) UNKNOWN_GROUP_OR_MEMBER
              [] 0 [] 0 []
  | Some g =>
      mkGroupDescription Status_OK 0 (g_group_id g) (g_generation g)
        (if bool_decide (g_state g = GroupEmpty) then str "Empty" else str "Stable")
        (strategy_code (g_strategy g))
        ((fun x => let elapsed := elapsed_ms now (mm_last_heartbeat x.2) in
                   mkMemberDescription x.1 (mm_session_timeout_ms x.2) (u32 (if 0 <=? elapsed then elapsed else 0))
                     (mm_assignment x.2)) <$> map_to_list (g_members g))
  end.

(** How often the members hold a partition. *)
Definition holders (g : Group) (tp : TopicPartition) : nat :=
  length (filter (fun x => x = tp) (concat (mm_assignment <$> (map_to_list (g_members g)).*2))).

(** The loop over the partitions of one topic with its 16-bit counter: [None] when it
    never ends, which happens when there are 65536 partitions or more and all of the
    first 65536 pass. *)
Definition check_topic_partitions (g : Group) (topic : bytes) (num_parts : Z) : option bool :=
  let fine p := bool_decide (holders g (mkTopicPartition topic p) = 1%nat) in
  if num_parts <=? 65535 then Some (forallb fine (seqZ 0 num_parts))
  else if forallb fine (seqZ 0 65536) then None else Some false.

Fixpoint check_subscriptions (tm : TopicManager) (g : Group) (topics : list bytes) : option bool :=
  match topics with
  | [] => Some true
  | name :: topics =>
      match TopicManager_get_topic tm name with
      | None => Some false
      | Some t =>
          ok ← check_topic_partitions g name (Topic_num_partitions t);
          if (ok : bool) then check_subscriptions tm g topics else Some false
      end
  end.

Definition known_assignment (tm : TopicManager) (tp : TopicPartition) : bool :=
  match TopicManager_get_topic tm (tp_topic tp) with
  | None => false
  | Some t => negb (Topic_num_partitions t <=? tp_partition tp)
  end.

Definition GroupCoordinator_debug_check_invariants (tm : TopicManager) (gc : GroupCoordinator) (group_id : bytes)
    : option bool :=
  match gc_groups gc !! group_id with
  | None => Some true
  | Some g =>
      if bool_decide (g_members g = ∅) then Some (bool_decide (g_state g = GroupEmpty)) else
      ok ← check_subscriptions tm g (g_subscribed_topics g);
      if negb ok then Some false else
      Some (forallb (fun x => forallb (known_assignment tm) (mm_assignment x.2)) (map_to_list (g_members g)))
  end.

(** ** The invariant of a group *)

(** What each member holds. *)
Definition group_assignments (g : Group) : assignments := mm_assignment <$> g_members g.

Definition topic_known (tm : TopicManager) (name : bytes) : Prop :=
  exists t, TopicManager_get_topic tm name = Some t /\ 0 <= Topic_num_partitions t < 2 ^ 16.

Record group_ok (tm : TopicManager) (id : bytes) (g : Group) : Prop := {
  go_id : g_group_id g = id;
  go_ids : map_Forall (fun id m => mm_member_id m = id) (g_members g);
  go_state : g_state g = if bool_decide (g_members g = ∅) then GroupEmpty else Stable;
  go_topics : g_members g <> ∅ -> Forall (topic_known tm) (g_subscribed_topics g);
  go_assigned : g_members g <> ∅ ->
    assigned (group_assignments g) ≡ₚ all_partitions (topic_counts tm (g_subscribed_topics g));
}.

Definition coordinator_ok (tm : TopicManager) (gc : GroupCoordinator) : Prop :=
  map_Forall (group_ok tm) (gc_groups gc).

(** Topics are only added, and keep their number of partitions. *)
Definition topics_grow (tm tm' : TopicManager) : Prop :=
  forall name t, TopicManager_get_topic tm name = Some t ->
    exists t', TopicManager_get_topic tm' name = Some t' /\ zlen (tc_partitions t') = zlen (tc_partitions t).

Lemma assigned_members g : assigned (group_assignments g) = concat (mm_assignment <$> (map_to_list (g_members g)).*2).
Proof.
  unfold assigned, group_assignments. rewrite map_to_list_fmap, <- !list_fmap_compose. f_equal.
Qed.

Lemma topic_counts_u16 tm topics : Forall (fun tp => is_u16 tp.2) (topic_counts tm topics).
Proof.
  apply list.Forall_forall. intros [name n] Hin. apply list_elem_of_omap in Hin as (nm & _ & E).
  destruct (TopicManager_get_topic tm nm); [|done]. injection E as <- <-. apply u16_range.
Qed.

Lemma topic_counts_grow tm tm' topics : topics_grow tm tm' -> Forall (topic_known tm) topics ->
  topic_counts tm' topics = topic_counts tm topics /\ Forall (topic_known tm') topics.
Proof.
  intros Hg. induction 1 as [|name topics (t & Ht & Hn) _ [IH1 IH2]]; [done|].
  destruct (Hg _ _ Ht) as (t' & Ht' & Hz).
  assert (Topic_num_partitions t' = Topic_num_partitions t) as Hn' by (unfold Topic_num_partitions; by rewrite Hz).
  unfold topic_counts in *. cbn [omap list_omap].
  rewrite Ht, Ht'. cbn [fmap option_fmap option_map]. rewrite Hn', IH1. split; [done|].
  constructor; [|done]. exists t'. by rewrite Hn'.
Qed.

Lemma group_ok_grow tm tm' id g : topics_grow tm tm' -> group_ok tm id g -> group_ok tm' id g.
Proof.
  intros Hg []. split; try done.
  - intros Hm. exact (proj2 (topic_counts_grow tm tm' _ Hg (go_topics0 Hm))).
  - intros Hm. destruct (topic_counts_grow tm tm' (g_subscribed_topics g)) as [-> _]; auto.
Qed.

(** Both strategies keep the promise of the interface. *)
#[global] Instance strategy_Assignor s : Assignor (Assignor_assign s).
Proof. destruct s; apply _. Qed.

Lemma sorted_members_spec (ms : gmap bytes MemberMetadata) id :
  id ∈ merge_sort (fun a b => string_leb a b = true) (map_to_list ms).*1 <-> is_Some (ms !! id).
Proof.
  rewrite merge_sort_Permutation. rewrite list_elem_of_fmap. split.
  - intros ([id' m] & -> & Hin). apply elem_of_map_to_list in Hin. by exists m.
  - intros [m Hm]. exists (id, m). split; [done|]. by apply elem_of_map_to_list.
Qed.

(** A rebalance hands every partition out, each as often as it is subscribed. *)
Lemma rebalance_ok tm id g :
  g_group_id g = id -> map_Forall (fun id m => mm_member_id m = id) (g_members g) ->
  (g_members g <> ∅ -> Forall (topic_known tm) (g_subscribed_topics g)) ->
  group_ok tm id (GroupCoordinator_rebalance_unlocked tm g).
Proof.
  intros Hid Hids Ht. unfold GroupCoordinator_rebalance_unlocked. case_bool_decide as Hm.
  - split; cbn; try done. by rewrite bool_decide_eq_true_2.
  - set (sorted := merge_sort _ _). set (tps := topic_counts tm _).
    set (r := Assignor_assign (g_strategy g) sorted tps).
    set (ms := map_imap _ (g_members g)).
    assert (forall k, ms !! k = (fun m => mm_set_assignment (default [] (r !! k)) m) <$> g_members g !! k) as Hms.
    { intros k. unfold ms. rewrite map_lookup_imap. by destruct (g_members g !! k). }
    assert (ms <> ∅) as Hne.
    { apply map_choose in Hm as (k & m & Hk). intros E. specialize (Hms k). rewrite E, lookup_empty, Hk in Hms.
      done. }
    assert (sorted <> []) as Hs.
    { apply map_choose in Hm as (k & m & Hk). intros E. assert (k ∈ sorted) as Hin
        by (apply sorted_members_spec; by exists m). rewrite E in Hin. by apply not_elem_of_nil in Hin. }
    assert (mm_assignment <$> ms = r) as Er.
    { apply map_eq. intros k. rewrite lookup_fmap, Hms.
      pose proof (assign_members (assign := Assignor_assign (g_strategy g)) sorted tps k) as Hk. fold r in Hk.
      unfold sorted in Hk. rewrite sorted_members_spec in Hk.
      destruct (g_members g !! k), (r !! k); cbn; try done.
      - destruct Hk as [_ Hk]. destruct Hk as [? Hk]; [by eexists|done].
      - destruct Hk as [Hk _]. destruct Hk as [? Hk]; [by eexists|done]. }
    split; cbn; try done.
    + intros k m Hk. rewrite Hms in Hk. destruct (g_members g !! k) as [m0|] eqn:E; [|done].
      injection Hk as <-. cbn. by apply Hids.
    + by rewrite bool_decide_eq_false_2.
    + intros _. auto.
    + intros _. unfold group_assignments. cbn. rewrite Er. apply assign_exact; [done|apply topic_counts_u16].
Qed.

(** ** Every operation preserves the invariant *)

(** A member changed in its times only. *)
Lemma group_ok_touch tm id g k m m' :
  group_ok tm id g -> g_members g !! k = Some m -> mm_assignment m' = mm_assignment m ->
  mm_member_id m' = mm_member_id m -> group_ok tm id (g_set_members (<[k := m']> (g_members g)) g).
Proof.
  intros [] Hk Ha Hi. assert (g_members g <> ∅) as Hne by (intros E; by rewrite E, lookup_empty in Hk).
  assert (<[k := m']> (g_members g) <> ∅) as Hne' by apply insert_non_empty. split; cbn; try done.
  - apply map_Forall_insert_2; [|done]. rewrite Hi. by apply go_ids0.
  - rewrite bool_decide_eq_false_2 in * by done. done.
  - auto.
  - intros _. unfold group_assignments. cbn. rewrite fmap_insert, Ha, insert_id by (by rewrite lookup_fmap, Hk). auto.
Qed.

Lemma after_removal_ok tm id g :
  g_group_id g = id -> map_Forall (fun id m => mm_member_id m = id) (g_members g) ->
  (g_members g <> ∅ -> Forall (topic_known tm) (g_subscribed_topics g)) ->
  group_ok tm id (after_removal tm g).
Proof.
  intros Hid Hids Ht. unfold after_removal. case_bool_decide as Hm; cbn in Hm.
  - split; cbn; try done. by rewrite bool_decide_eq_true_2.
  - by apply rebalance_ok.
Qed.

Lemma check_topics_known tm topics :
  (forall name t, TopicManager_get_topic tm name = Some t -> 0 <= Topic_num_partitions t < 2 ^ 16) ->
  check_topics tm topics = None -> Forall (topic_known tm) topics.
Proof.
  intros Hc. induction topics as [|name topics IH]; [constructor|]. cbn [check_topics].
  destruct (starts_with _ _); [done|]. destruct (TopicManager_get_topic tm name) as [t|] eqn:E; [|done].
  intros H. constructor; [|auto]. exists t. split; [done|]. by eapply Hc.
Qed.

Lemma join_guard_topics tm cfg group_id timeout topics strategy :
  join_guard tm cfg group_id timeout topics strategy = None -> check_topics tm topics = None.
Proof. unfold join_guard. by repeat case_match. Qed.

(** Partition counts as topic creation and 16-bit assignment allow them. *)
Definition counts_fit (tm : TopicManager) : Prop :=
  forall name t, TopicManager_get_topic tm name = Some t -> 0 <= Topic_num_partitions t < 2 ^ 16.

Lemma join_group_ok tm gc now rng gid mid timeout topics s g :
  coordinator_ok tm gc -> group_ok tm gid g -> Forall (topic_known tm) topics ->
  coordinator_ok tm (join_group tm gc now rng gid mid timeout topics s g).2.
Proof.
  intros Hgc Hg Ht. unfold join_group.
  assert (forall g' c n, group_ok tm gid g' -> coordinator_ok tm (mkGroupCoordinator c n (<[gid := g']> (gc_groups gc))))
    as Hset by (intros g' c n Hg'; apply map_Forall_insert_2; done).
  set (g1 := if bool_decide (g_members g = ∅) then g_subscribe s topics g else g).
  assert (group_ok tm gid g1) as Hg1.
  { unfold g1. case_bool_decide as Hm; [|done]. destruct Hg. split; cbn; try done. }
  assert (Forall (topic_known tm) (g_subscribed_topics g1)) as Ht1.
  { unfold g1. case_bool_decide as Hm; [done|]. by apply (go_topics _ _ _ Hg). }
  destruct (negb _ && _); [by apply Hset|]. destruct (negb _ && _); [by apply Hset|].
  case_bool_decide as Hmid.
  - destruct (_ <=? _); cbn [snd]; [unfold gc_set_group; cbn; rewrite insert_insert_eq; by apply Hset|].
    cbn [GroupCoordinator_generate_member_id snd]. unfold gc_set_group. cbn. rewrite !insert_insert_eq. apply Hset.
    apply rebalance_ok; cbn; [apply Hg1| |done].
    apply map_Forall_insert_2; [done|apply Hg1].
  - destruct (g_members g1 !! mid) as [m|] eqn:Em; cbn [snd]; unfold gc_set_group; cbn; rewrite !insert_insert_eq;
      apply Hset; [|done]. by eapply group_ok_touch.
Qed.

Lemma join_ok tm gc now rng gid mid timeout topics s :
  coordinator_ok tm gc -> counts_fit tm ->
  coordinator_ok tm (GroupCoordinator_join tm gc now rng gid mid timeout topics s).2.
Proof.
  intros Hgc Hc. unfold GroupCoordinator_join.
  destruct (join_guard _ _ _ _ _ _) eqn:Eg; [done|].
  apply join_guard_topics, check_topics_known in Eg; [|done].
  destruct (gc_groups gc !! gid) as [g|] eqn:E.
  - apply join_group_ok; [done|by apply Hgc|done].
  - destruct (_ <=? _); [done|]. apply join_group_ok; [done| |done]. split; cbn; try done.
Qed.

Lemma heartbeat_ok tm gc now gid mid gen :
  coordinator_ok tm gc -> coordinator_ok tm (GroupCoordinator_heartbeat gc now gid mid gen).2.
Proof.
  intros Hgc. unfold GroupCoordinator_heartbeat. destruct (gc_groups gc !! gid) as [g|] eqn:E; [|done].
  destruct (g_members g !! mid) as [m|] eqn:Em; [|done]. destruct (negb _); [done|].
  apply map_Forall_insert_2; [|done]. eapply group_ok_touch; [by apply Hgc|done..].
Qed.

Lemma delete_topics tm id g ms : group_ok tm id g -> ms ⊆ g_members g ->
  ms <> ∅ -> Forall (topic_known tm) (g_subscribed_topics g).
Proof.
  intros Hg Hsub Hne. apply (go_topics _ _ _ Hg). intros E.
  apply map_choose in Hne as (k & m & Hk). eapply lookup_weaken in Hk; [|exact Hsub].
  by rewrite E, lookup_empty in Hk.
Qed.

Lemma map_Forall_subseteq {A} (P : bytes -> A -> Prop) (m1 m2 : gmap bytes A) :
  m1 ⊆ m2 -> map_Forall P m2 -> map_Forall P m1.
Proof. intros Hs H k a Hk. apply H. by eapply lookup_weaken. Qed.

Lemma leave_ok tm gc gid mid :
  coordinator_ok tm gc -> coordinator_ok tm (GroupCoordinator_leave tm gc gid mid).2.
Proof.
  intros Hgc. unfold GroupCoordinator_leave. destruct (gc_groups gc !! gid) as [g|] eqn:E; [|done].
  destruct (g_members g !! mid) as [m|] eqn:Em; [|done]. apply map_Forall_insert_2; [|done].
  pose proof (Hgc _ _ E) as Hg. pose proof (delete_subseteq (g_members g) mid) as Hsub.
  apply after_removal_ok; cbn; [apply Hg| |by eapply delete_topics].
  eapply map_Forall_subseteq; [exact Hsub|apply Hg].
Qed.

Lemma foldl_delete_lookup {A} (ids : list bytes) k : forall ms : gmap bytes A,
  foldl (fun ms id => delete id ms) ms ids !! k = if bool_decide (k ∈ ids) then None else ms !! k.
Proof.
  induction ids as [|id ids IH]; intros ms; cbn [foldl].
  - rewrite bool_decide_eq_false_2; [done|apply not_elem_of_nil].
  - rewrite IH. destruct (decide (k ∈ ids)).
    + by rewrite !bool_decide_eq_true_2 by set_solver.
    + rewrite (bool_decide_eq_false_2 (k ∈ ids)) by done. destruct (decide (k = id)) as [->|Hne].
      * rewrite lookup_delete_eq, bool_decide_eq_true_2 by set_solver. done.
      * rewrite lookup_delete_ne by done. rewrite bool_decide_eq_false_2 by set_solver. done.
Qed.

Definition expired_ids (now : Z) (g : Group) : list bytes :=
  (filter (fun x => expired now x.2 = true) (map_to_list (g_members g))).*1.

Lemma elem_of_expired_ids now g k :
  k ∈ expired_ids now g <-> exists m, g_members g !! k = Some m /\ expired now m = true.
Proof.
  unfold expired_ids. rewrite list_elem_of_fmap. split.
  - intros ([k' m] & -> & Hin). apply list_elem_of_filter in Hin as [He Hin].
    apply elem_of_map_to_list in Hin. by exists m.
  - intros (m & Hm & He). exists (k, m). split; [done|]. apply list_elem_of_filter.
    split; [done|]. by apply elem_of_map_to_list.
Qed.

(** The members that are left after an expiry. *)
Definition live_members (now : Z) (g : Group) : gmap bytes MemberMetadata :=
  foldl (fun ms id => delete id ms) (g_members g) (expired_ids now g).

Lemma live_members_lookup now g k m :
  live_members now g !! k = Some m <-> g_members g !! k = Some m /\ expired now m = false.
Proof.
  unfold live_members. rewrite foldl_delete_lookup. case_bool_decide as Hin.
  - apply elem_of_expired_ids in Hin as (m' & Hm' & He). split; [done|]. intros [Hm Hf]. congruence.
  - split; [|by intros [? _]]. intros Hm. split; [done|]. destruct (expired now m) eqn:E; [|done].
    exfalso. apply Hin, elem_of_expired_ids. by exists m.
Qed.

Lemma expire_group_ok tm now id g : group_ok tm id g -> group_ok tm id (expire_group tm now g).1.
Proof.
  intros Hg. unfold expire_group. fold (expired_ids now g). case_bool_decide; [done|]. cbn [fst].
  fold (live_members now g).
  assert (live_members now g ⊆ g_members g) as Hsub
    by (apply map_subseteq_spec; intros k m Hk; by apply live_members_lookup in Hk as [? _]).
  apply after_removal_ok; cbn; [apply Hg| |by eapply delete_topics].
  eapply map_Forall_subseteq; [exact Hsub|apply Hg].
Qed.

Lemma expire_ok tm gc now :
  coordinator_ok tm gc -> coordinator_ok tm (GroupCoordinator_expire_members tm gc now).2.
Proof.
  intros Hgc. unfold GroupCoordinator_expire_members, coordinator_ok. cbn [snd gc_groups].
  apply map_Forall_fmap. intros id g Hg. apply expire_group_ok. by apply Hgc.
Qed.

(** ** The coordinator as a state machine *)

Inductive gc_step : TopicManager * GroupCoordinator -> TopicManager * GroupCoordinator -> Prop :=
| step_join tm gc now rng gid mid timeout topics s :
    gc_step (tm, gc) (tm, (GroupCoordinator_join tm gc now rng gid mid timeout topics s).2)
| step_heartbeat tm gc now gid mid gen :
    gc_step (tm, gc) (tm, (GroupCoordinator_heartbeat gc now gid mid gen).2)
| step_leave tm gc gid mid :
    gc_step (tm, gc) (tm, (GroupCoordinator_leave tm gc gid mid).2)
| step_expire tm gc now :
    gc_step (tm, gc) (tm, (GroupCoordinator_expire_members tm gc now).2)
| step_topics tm tm' gc :
    topics_grow tm tm' -> counts_fit tm' -> gc_step (tm, gc) (tm', gc).

(** Reachable from a coordinator without groups. *)
Definition reachable (s : TopicManager * GroupCoordinator) : Prop :=
  exists tm cfg, counts_fit tm /\ rtc gc_step (tm, mkGroupCoordinator cfg 1 ∅) s.

Lemma gc_step_ok s s' : gc_step s s' -> coordinator_ok s.1 s.2 /\ counts_fit s.1 ->
  coordinator_ok s'.1 s'.2 /\ counts_fit s'.1.
Proof.
  intros [] [Hok Hc]; cbn [fst snd] in *; (split; [|done]).
  - by apply join_ok.
  - by apply heartbeat_ok.
  - by apply leave_ok.
  - by apply expire_ok.
  - intros id g Hg. by eapply group_ok_grow, Hok.
Qed.

Lemma reachable_ok tm gc : reachable (tm, gc) -> coordinator_ok tm gc /\ counts_fit tm.
Proof.
  intros (tm0 & cfg & Hc & Hs).
  assert (forall s s', rtc gc_step s s' -> coordinator_ok s.1 s.2 /\ counts_fit s.1 ->
            coordinator_ok s'.1 s'.2 /\ counts_fit s'.1) as Hind.
  { induction 1 as [|s1 s2 s3 H12 _ IH]; [done|]. intros H1. apply IH. by eapply gc_step_ok. }
  apply (Hind _ _ Hs). split; [|done]. apply map_Forall_empty.
Qed.

(** ** Exclusive ownership *)

(** In a duplicate-free deal, an element is in one hand only. *)
Lemma assigned_once (r : assignments) m1 m2 l1 l2 tp :
  NoDup (assigned r) -> r !! m1 = Some l1 -> r !! m2 = Some l2 -> tp ∈ l1 -> tp ∈ l2 -> m1 = m2.
Proof.
  intros Hnd H1 H2 Hin1 Hin2. destruct (decide (m1 = m2)) as [->|Hne]; [done|]. exfalso.
  unfold assigned in Hnd.
  assert (map_to_list r ≡ₚ (m1, l1) :: (m2, l2) :: map_to_list (delete m2 (delete m1 r))) as Hp.
  { rewrite <- (insert_delete_id r m1 l1 H1) at 1. rewrite map_to_list_insert by apply lookup_delete_eq.
    f_equiv. rewrite <- (insert_delete_id (delete m1 r) m2 l2) at 1 by (by rewrite lookup_delete_ne).
    by rewrite map_to_list_insert by apply lookup_delete_eq. }
  assert (forall A (l l' : list (list A)), l ≡ₚ l' -> concat l ≡ₚ concat l') as Hc.
  { intros A l l'. induction 1; cbn; [done|by f_equiv| |by etransitivity].
    rewrite !app_assoc. by f_equiv; rewrite Permutation_app_comm. }
  rewrite (Hc _ _ _ (fmap_Permutation snd _ _ Hp)) in Hnd. cbn in Hnd.
  apply list.NoDup_app in Hnd as (_ & Hd & _). apply (Hd tp Hin1). set_solver.
Qed.

Lemma topic_counts_fst tm topics : Forall (topic_known tm) topics -> (topic_counts tm topics).*1 = topics.
Proof.
  induction 1 as [|name topics (t & Ht & _) _ IH]; [done|]. unfold topic_counts in *. cbn [omap list_omap].
  rewrite Ht. cbn. by rewrite IH.
Qed.

Lemma topic_counts_lookup tm topics name t :
  name ∈ topics -> topic_known tm name -> TopicManager_get_topic tm name = Some t ->
  (name, Topic_num_partitions t) ∈ topic_counts tm topics.
Proof.
  intros Hin (t' & Ht' & Hn) Ht. rewrite Ht in Ht'. injection Ht' as <-.
  apply list_elem_of_omap. exists name. split; [done|]. rewrite Ht. cbn. rewrite u16_id; [done|]. exact Hn.
Qed.

(** ** A concrete group *)

Definition demo_tm : TopicManager := mkTopicManager demo_config {[ str "orders" := demo_topic ]}.
Definition demo_gc0 : GroupCoordinator := mkGroupCoordinator default_CoordinatorConfig 1 ∅.
Definition demo_join (s : Z) (topics : list bytes) (now rng : Z) (gc : GroupCoordinator)
    : JoinResult * GroupCoordinator :=
  GroupCoordinator_join demo_tm gc now rng (str "billing") [] 10000 topics s.

(** Two members that joined one after the other. *)
Definition demo_gc (s : Z) (topics : list bytes) : GroupCoordinator :=
  (demo_join s topics 2000000 0x1b (demo_join s topics 1000000 0xbeef demo_gc0).2).2.
Definition demo_member1 : bytes := str "billing-00000001-beef".
Definition demo_member2 : bytes := str "billing-00000002-001b".

Lemma demo_counts : counts_fit demo_tm.
Proof.
  intros name t Ht. unfold TopicManager_get_topic, demo_tm in Ht. cbn [tm_topics] in Ht.
  apply lookup_singleton_Some in Ht as [<- <-]. by vm_compute.
Qed.

Lemma demo_partition_one : 0 <= 1 < Topic_num_partitions demo_topic.
Proof. by vm_compute. Qed.

Lemma demo_reachable s topics : reachable (demo_tm, demo_gc s topics).
Proof.
  exists demo_tm, default_CoordinatorConfig. split; [apply demo_counts|].
  eapply rtc_l; [apply step_join|]. eapply rtc_l; [apply step_join|]. apply rtc_refl.
Qed.

Example demo_join_result :
  (demo_join 0 [str "orders"] 1000000 0xbeef demo_gc0).1 =
  mkJoinResult Status_OK 0 demo_member1 1 3333
    [mkTopicPartition (str "orders") 0; mkTopicPartition (str "orders") 1].
Proof. by vm_compute. Qed.

(** ** Properties *)

(** C12: a partition has exactly one owner.  In every state the coordinator can reach
    by joins, heartbeats, leaves and expiries (while topics are added), a group that has
    members and whose subscription names no topic twice has every partition of its topics
    in the assignment of exactly one member, whichever strategy it uses.  ([join] accepts
    a subscription that names a topic twice: see [duplicate_topics_shared_owner].) *)
Theorem partition_has_one_owner tm gc id g name t p :
  reachable (tm, gc) -> gc_groups gc !! id = Some g -> g_members g <> ∅ -> NoDup (g_subscribed_topics g) ->
  name ∈ g_subscribed_topics g -> TopicManager_get_topic tm name = Some t -> 0 <= p < Topic_num_partitions t ->
  exists m md, g_members g !! m = Some md /\ mkTopicPartition name p ∈ mm_assignment md /\
    forall m' md', g_members g !! m' = Some md' -> mkTopicPartition name p ∈ mm_assignment md' -> m' = m.
Proof.
  intros Hr Hg Hne Hnd Hin Ht Hp. destruct (reachable_ok _ _ Hr) as [Hok _]. specialize (Hok _ _ Hg).
  pose proof (go_topics _ _ _ Hok Hne) as Hts. pose proof (go_assigned _ _ _ Hok Hne) as Ha.
  assert (NoDup (assigned (group_assignments g))) as Hnda
    by (rewrite Ha; apply all_partitions_nodup; by rewrite topic_counts_fst).
  assert (mkTopicPartition name p ∈ assigned (group_assignments g)) as Htp.
  { rewrite Ha. apply elem_of_all_partitions. exists (Topic_num_partitions t). split; [|done].
    apply topic_counts_lookup; [done|by eapply list.Forall_forall|done]. }
  apply list_elem_of_In, in_concat in Htp as (l & Hl & Htp). apply list_elem_of_In in Hl, Htp.
  apply list_elem_of_fmap in Hl as ([m l'] & -> & Hm). apply elem_of_map_to_list in Hm. cbn [snd] in Htp.
  unfold group_assignments in Hm. rewrite lookup_fmap in Hm.
  destruct (g_members g !! m) as [md|] eqn:Em; [|done]. injection Hm as <-. exists m, md. split_and!; [done|done|].
  intros m' md' Hm' Htp'. eapply (assigned_once (group_assignments g)); [done| | |exact Htp'|exact Htp];
    unfold group_assignments; rewrite lookup_fmap; [by rewrite Hm'|by rewrite Em].
Qed.

Example partition_has_one_owner_witness :
  exists g m md, gc_groups (demo_gc 1 [str "orders"]) !! str "billing" = Some g /\
    g_members g !! m = Some md /\ mkTopicPartition (str "orders") 1 ∈ mm_assignment md /\
    forall m' md', g_members g !! m' = Some md' -> mkTopicPartition (str "orders") 1 ∈ mm_assignment md' -> m' = m.
Proof.
  assert ((fun g => (g_subscribed_topics g, bool_decide (g_members g = ∅))) <$>
            gc_groups (demo_gc 1 [str "orders"]) !! str "billing" = Some ([str "orders"], false)) as Hview
    by (by vm_compute).
  destruct (gc_groups (demo_gc 1 [str "orders"]) !! str "billing") as [g|] eqn:Eg; [|discriminate Hview].
  injection Hview as Htop Hmem. apply bool_decide_eq_false in Hmem.
  exists g. destruct (partition_has_one_owner demo_tm (demo_gc 1 [str "orders"]) (str "billing") g
    (str "orders") demo_topic 1) as (m & md & H).
  - apply demo_reachable.
  - exact Eg.
  - exact Hmem.
  - rewrite Htop. apply NoDup_singleton.
  - rewrite Htop. by apply list_elem_of_singleton.
  - apply lookup_singleton_eq.
  - exact demo_partition_one.
  - exists m, md. split; [reflexivity|exact H].
Defined.

Lemma filter_once {A} `{!EqDecision A} (l : list A) x : NoDup l -> x ∈ l -> length (filter (fun y => y = x) l) = 1%nat.
Proof.
  induction l as [|y l IH]; intros Hnd Hin; [by apply not_elem_of_nil in Hin|].
  apply list.NoDup_cons in Hnd as [Hy Hnd]. rewrite filter_cons. case_decide as E.
  - subst y. cbn. rewrite filter_none; [done|]. apply list.Forall_forall. intros z Hz ->. done.
  - apply elem_of_cons in Hin as [->|Hin]; [done|]. by apply IH.
Qed.

Lemma holders_one tm id g name t p :
  group_ok tm id g -> g_members g <> ∅ -> NoDup (g_subscribed_topics g) -> name ∈ g_subscribed_topics g ->
  TopicManager_get_topic tm name = Some t -> 0 <= p < Topic_num_partitions t ->
  holders g (mkTopicPartition name p) = 1%nat.
Proof.
  intros Hok Hne Hnd Hin Ht Hp. pose proof (go_topics _ _ _ Hok Hne) as Hts.
  unfold holders. rewrite <- assigned_members. pose proof (go_assigned _ _ _ Hok Hne) as Ha.
  apply filter_once; rewrite Ha.
  - apply all_partitions_nodup. by rewrite topic_counts_fst.
  - apply elem_of_all_partitions. exists (Topic_num_partitions t). split; [|done].
    apply topic_counts_lookup; [done|by eapply list.Forall_forall|done].
Qed.

(** The program's own consistency check never fails.  In every reachable state,
    [debug_check_invariants] terminates and returns true for every group whose
    subscription names no topic twice. *)
Theorem debug_check_never_fails tm gc id :
  reachable (tm, gc) ->
  (forall g, gc_groups gc !! id = Some g -> NoDup (g_subscribed_topics g)) ->
  GroupCoordinator_debug_check_invariants tm gc id = Some true.
Proof.
  intros Hr Hnd. destruct (reachable_ok _ _ Hr) as [Hok _]. unfold GroupCoordinator_debug_check_invariants.
  destruct (gc_groups gc !! id) as [g|] eqn:Eg; [|done]. specialize (Hok _ _ Eg). specialize (Hnd g eq_refl).
  case_bool_decide as Hm.
  - rewrite (go_state _ _ _ Hok), (bool_decide_eq_true_2 (g_members g = ∅)) by done. done.
  - pose proof (go_topics _ _ _ Hok Hm) as Hts.
    assert (forall l, (forall x, x ∈ l -> x ∈ g_subscribed_topics g) -> check_subscriptions tm g l = Some true) as Hc.
    { induction l as [|name l IH]; intros Hl; [done|]. cbn [check_subscriptions].
      assert (name ∈ g_subscribed_topics g) as Hin by (apply Hl; set_solver).
      pose proof (proj1 (list.Forall_forall _ _) Hts _ Hin) as (t & Ht & Hn). rewrite Ht.
      unfold check_topic_partitions. rewrite (proj2 (Z.leb_le _ _)) by lia. cbn [mbind option_bind].
      replace (forallb _ _) with true; [apply IH; intros x Hx; apply Hl; set_solver|].
      symmetry. apply forallb_forall. intros p Hp. apply list_elem_of_In, elem_of_seqZ in Hp.
      apply bool_decide_eq_true. eapply holders_one; try done. }
    rewrite Hc by done. cbn [mbind option_bind negb]. f_equal. apply forallb_forall. intros [m md] Hin.
    apply forallb_forall. intros tp Htp. apply list_elem_of_In in Hin, Htp. apply elem_of_map_to_list in Hin.
    assert (tp ∈ assigned (group_assignments g)) as Ha.
    { rewrite assigned_members, list_elem_of_In, in_concat. exists (mm_assignment md). rewrite <- !list_elem_of_In.
      split; [|done]. rewrite <- list_fmap_compose. apply list_elem_of_fmap. exists (m, md). split; [done|].
      by apply elem_of_map_to_list. }
    rewrite (go_assigned _ _ _ Hok Hm) in Ha. apply elem_of_all_partitions in Ha as (n & Hn & Hp).
    apply list_elem_of_omap in Hn as (nm & Hnm & E). destruct (TopicManager_get_topic tm nm) as [t|] eqn:Et; [|done].
    injection E as E1 E2. unfold known_assignment. rewrite <- E1, Et.
    pose proof (proj1 (list.Forall_forall _ _) Hts _ Hnm) as (t' & Ht' & Hnt). rewrite Et in Ht'. injection Ht' as <-.
    rewrite <- E2, u16_id in Hp by exact Hnt. apply negb_true_iff, Z.leb_gt. lia.
Qed.

Example debug_check_never_fails_witness :
  GroupCoordinator_debug_check_invariants demo_tm (demo_gc 0 [str "orders"]) (str "billing") = Some true.
Proof.
  apply debug_check_never_fails; [apply demo_reachable|]. intros g Hg.
  assert (g_subscribed_topics <$> gc_groups (demo_gc 0 [str "orders"]) !! str "billing" = Some [str "orders"])
    as Hv by (by vm_compute).
  rewrite Hg in Hv. injection Hv as ->. apply NoDup_singleton.
Defined.

(** A subscription that names a topic twice breaks exclusive ownership.  Nothing
    in [join] refuses it; with two members and the round-robin strategy both own
    partition 0 of the topic, and the program's own check fails. *)
Theorem duplicate_topics_shared_owner :
  let gc := demo_gc 1 [str "orders"; str "orders"] in
  (mm_assignment <$> (gc_groups gc !! str "billing" ≫= fun g => g_members g !! demo_member1)) =
    Some [mkTopicPartition (str "orders") 0; mkTopicPartition (str "orders") 1] /\
  (mm_assignment <$> (gc_groups gc !! str "billing" ≫= fun g => g_members g !! demo_member2)) =
    Some [mkTopicPartition (str "orders") 0; mkTopicPartition (str "orders") 1] /\
  GroupCoordinator_debug_check_invariants demo_tm gc (str "billing") = Some false.
Proof. by vm_compute. Qed.

(** A rebalance only changes assignments. *)
Lemma after_removal_lookup tm g k :
  exists a, g_members (after_removal tm g) !! k = mm_set_assignment a <$> g_members g !! k.
Proof.
  unfold after_removal, GroupCoordinator_rebalance_unlocked. cbn [g_members g_next_generation].
  case_bool_decide as Hm; cbn [g_members g_set_state g_set_members g_next_generation].
  - exists []. by rewrite Hm, lookup_empty.
  - rewrite map_lookup_imap. destruct (g_members g !! k); [|by exists []]. by eexists.
Qed.

Lemma after_removal_generation tm g : g_generation (after_removal tm g) = u32 (g_generation g + 1).
Proof. unfold after_removal, GroupCoordinator_rebalance_unlocked. by repeat case_bool_decide. Qed.

(** Nobody is expired, or there is somebody to remove. *)
Lemma expired_ids_nil now g :
  expired_ids now g = [] <-> map_Forall (fun _ m => expired now m = false) (g_members g).
Proof.
  split.
  - intros Hi k m Hm. destruct (expired now m) eqn:E; [|done]. exfalso.
    assert (k ∈ expired_ids now g) as Hk by (apply elem_of_expired_ids; by exists m).
    rewrite Hi in Hk. by apply not_elem_of_nil in Hk.
  - intros Hall. destruct (expired_ids now g) as [|k l] eqn:E; [done|].
    assert (k ∈ expired_ids now g) as Hk by (rewrite E; set_solver).
    apply elem_of_expired_ids in Hk as (m & Hm & Hx). by rewrite (Hall _ _ Hm) in Hx.
Qed.

Lemma expired_false now m : expired now m = false <-> elapsed_ms now (mm_last_heartbeat m) <= mm_session_timeout_ms m.
Proof. unfold expired. apply Z.ltb_ge. Qed.

(** Expiry removes exactly the silent members.  After [expire_members] at time
    [now] a group has the members whose last heartbeat is at most their session
    timeout ago, each with its times unchanged; if some were removed, the generation
    is the next one, otherwise the group is the same. *)
Theorem expire_exact tm gc now id g :
  gc_groups gc !! id = Some g ->
  exists g', gc_groups (GroupCoordinator_expire_members tm gc now).2 !! id = Some g' /\
    (forall k, is_Some (g_members g' !! k) <-> exists m, g_members g !! k = Some m /\
       elapsed_ms now (mm_last_heartbeat m) <= mm_session_timeout_ms m) /\
    (forall k m', g_members g' !! k = Some m' -> exists m, g_members g !! k = Some m /\
       mm_last_heartbeat m' = mm_last_heartbeat m /\ mm_session_timeout_ms m' = mm_session_timeout_ms m) /\
    (if bool_decide (map_Forall (fun _ m => expired now m = false) (g_members g)) then g' = g
     else g_generation g' = u32 (g_generation g + 1)).
Proof.
  intros Hg. unfold GroupCoordinator_expire_members. cbn [snd gc_groups]. rewrite lookup_fmap, Hg. cbn.
  eexists. split; [reflexivity|]. unfold expire_group. fold (expired_ids now g). fold (live_members now g).
  setoid_rewrite <- expired_false.
  rewrite (bool_decide_ext _ _ (expired_ids_nil now g)). case_bool_decide as Hall; cbn [fst].
  - split_and!; [|by eauto|done]. intros k. split; [|by intros (m & -> & _)]. intros [m Hm]. exists m. eauto.
  - assert (forall k m, live_members now g !! k = Some m <-> g_members g !! k = Some m /\ expired now m = false)
      as Hl by (intros; apply live_members_lookup).
    split_and!; [| |by rewrite after_removal_generation]; intros k;
      destruct (after_removal_lookup tm (g_set_members (live_members now g) g) k) as [a ->];
      cbn [g_members g_set_members].
    + rewrite fmap_is_Some. unfold is_Some. by setoid_rewrite Hl.
    + intros m' Hm'. apply fmap_Some in Hm' as (m & Hm & ->). apply Hl in Hm as [Hm _]. by exists m.
Qed.

(** Ten seconds after its last heartbeat the first member is removed, the second,
    one millisecond younger, is not. *)
Example expire_exact_witness :
  exists g g', gc_groups (demo_gc 0 [str "orders"]) !! str "billing" = Some g /\
    gc_groups (GroupCoordinator_expire_members demo_tm (demo_gc 0 [str "orders"]) 10002000000).2 !! str "billing" =
      Some g' /\
    (forall k, is_Some (g_members g' !! k) <-> exists m, g_members g !! k = Some m /\
       elapsed_ms 10002000000 (mm_last_heartbeat m) <= mm_session_timeout_ms m) /\
    is_Some (g_members g' !! demo_member2) /\ g_members g' !! demo_member1 = None.
Proof.
  assert (is_Some (gc_groups (demo_gc 0 [str "orders"]) !! str "billing")) as [g Eg]
    by (apply (bool_decide_unpack _); by vm_compute).
  destruct (expire_exact demo_tm (demo_gc 0 [str "orders"]) 10002000000 (str "billing") g Eg)
    as (g' & Eg' & Hk & _).
  exists g, g'. split; [exact Eg|]. split; [exact Eg'|]. split; [exact Hk|]. rewrite <- not_eq_None_Some.
  assert ((fun h => (bool_decide (g_members h !! demo_member2 = None), bool_decide (g_members h !! demo_member1 = None))) <$>
    gc_groups (GroupCoordinator_expire_members demo_tm (demo_gc 0 [str "orders"]) 10002000000).2 !! str "billing" =
    Some (false, true)) as Hv by (by vm_compute).
  rewrite Eg' in Hv. injection Hv as H2 H1. apply bool_decide_eq_false in H2. apply bool_decide_eq_true in H1.
  exact (conj H2 H1).
Defined.
