(* ===== verification/GroupFencing.v ===== *)
(** * GroupFencing: who may commit, and when a member is cut off
    (src/GroupCoordinator.cpp)

    The specification of a commit is [commit_admissible]: what a request must satisfy
    given the group and the logs.  [check_admissible] shows that the three validation
    passes of [commit] accept exactly these requests; the claims follow from it, from
    the offset store's lemmas and from the generation counter that every rebalance
    advances. *)
From S2P Require Import Prelude StdString Status RecordCodec FrameCodec ProtocolMessages FileHandle OffsetIndex.
From S2P Require Import LogSegment Partition PartitionRead PartitionRecovery PartitionFrame PartitionProps.
From S2P Require Import Partitioner Assignor Topic TopicManager OffsetStore GroupCoordinator.

(** ** The specification of a commit *)

(** A position in the log of a user topic that has been written. *)
Definition entry_admissible (tm : TopicManager) (e : OffsetCommitRequestEntry) : Prop :=
  starts_with (str "__") (ocr_topic e) = false /\
  exists hw, entry_watermark tm e = Some hw /\ ocr_offset e <= hw.

(** A consumer outside any group, or a member of the current generation that owns
    every partition it commits. *)
Definition committer_admissible (g : option Group) (member_id : bytes) (generation : Z)
    (entries : list OffsetCommitRequestEntry) : Prop :=
  if bool_decide (member_id = [] /\ generation = 0xFFFFFFFF)
  then forall g', g = Some g' -> g_members g' = ∅
  else exists g' m, g = Some g' /\ g_members g' !! member_id = Some m /\ generation = g_generation g' /\
    Forall (fun e => mkTopicPartition (ocr_topic e) (ocr_partition e) ∈ mm_assignment m) entries.

Definition commit_admissible (tm : TopicManager) (g : option Group) (member_id : bytes) (generation : Z)
    (entries : list OffsetCommitRequestEntry) : Prop :=
  Forall (entry_admissible tm) entries /\ committer_admissible g member_id generation entries.

(** ** The checks decide the specification *)

Lemma watermark_none tm e : entry_watermark tm e = None <->
  match TopicManager_get_topic tm (ocr_topic e) with
  | None => True
  | Some t => Topic_get_partition t (ocr_partition e) = None
  end.
Proof.
  unfold entry_watermark. destruct (TopicManager_get_topic _ _) as [t|]; cbn; [|done].
  by destruct (Topic_get_partition t _).
Qed.

(** The first pass, with an error code that is never zero. *)
Lemma check_entries_spec tm entries :
  match check_commit_entries tm entries with
  | None => Forall (fun e => starts_with (str "__") (ocr_topic e) = false /\ is_Some (entry_watermark tm e)) entries
  | Some err => err.2 <> 0 /\ ~ Forall (entry_admissible tm) entries
  end.
Proof.
  induction entries as [|e entries IH]; cbn [check_commit_entries]; [apply list.Forall_nil_2|].
  destruct (starts_with _ _) eqn:Es; [split; [done|]; intros [[H _] _]%list.Forall_cons; congruence|].
  pose proof (watermark_none tm e) as Hw.
  destruct (TopicManager_get_topic tm (ocr_topic e)) as [t|].
  2:{ split; [done|]. intros [(_ & hw & H & _) _]%list.Forall_cons. rewrite (proj2 Hw I) in H. done. }
  destruct (Topic_get_partition t (ocr_partition e)) as [p|].
  2:{ split; [done|]. intros [(_ & hw & H & _) _]%list.Forall_cons. rewrite (proj2 Hw eq_refl) in H. done. }
  destruct (check_commit_entries tm entries).
  - destruct IH as [Hz Hn]. split; [done|]. by intros [_ H]%list.Forall_cons.
  - apply list.Forall_cons. split; [|done]. split; [done|]. apply not_eq_None_Some. intros E. by apply Hw in E.
Qed.

(** The last pass, once every entry has a watermark: it always ends with an answer. *)
Lemma check_offsets_spec tm entries :
  Forall (fun e => starts_with (str "__") (ocr_topic e) = false /\ is_Some (entry_watermark tm e)) entries ->
  exists r, check_commit_offsets tm entries = Some r /\
  match r with
  | None => Forall (entry_admissible tm) entries
  | Some err => err.2 <> 0 /\ ~ Forall (entry_admissible tm) entries
  end.
Proof.
  induction 1 as [|e entries [Hs [hw Hw]] _ (r & IH & Hr)]; cbn [check_commit_offsets].
  - exists None. split; [done|apply list.Forall_nil_2].
  - rewrite Hw. cbn [mbind option_bind]. destruct (Z.ltb_spec hw (ocr_offset e)) as [Hlt|Hle].
    + eexists. split; [reflexivity|]. split; [done|]. intros [(_ & hw' & Hw' & ?) _]%list.Forall_cons.
      rewrite Hw in Hw'. injection Hw' as <-. lia.
    + exists r. split; [done|]. destruct r as [err|].
      * destruct Hr as [Hz Hn]. split; [done|]. by intros [_ H]%list.Forall_cons.
      * apply list.Forall_cons. split; [|done]. split; [done|]. by exists hw.
Qed.

Lemma is_assigned_spec m e :
  is_assigned m e = true <-> mkTopicPartition (ocr_topic e) (ocr_partition e) ∈ mm_assignment m.
Proof.
  unfold is_assigned. rewrite existsb_exists. setoid_rewrite <- list_elem_of_In. split.
  - intros ([t p] & Hin & [Ht Hp]%andb_true_iff). apply bool_decide_eq_true in Ht. apply Z.eqb_eq in Hp.
    cbn in *. by subst.
  - intros Hin. eexists. split; [exact Hin|]. cbn. by rewrite bool_decide_eq_true_2, Z.eqb_refl by done.
Qed.

Lemma check_committer_spec g gid mid gen entries :
  match check_committer g gid mid gen entries with
  | None => committer_admissible g mid gen entries
  | Some err => err.2 <> 0 /\ ~ committer_admissible g mid gen entries
  end.
Proof.
  unfold check_committer, committer_admissible.
  replace (bool_decide (mid = []) && (gen =? 0xFFFFFFFF)) with (bool_decide (mid = [] /\ gen = 0xFFFFFFFF))
    by (rewrite bool_decide_and; f_equal; by destruct (Z.eqb_spec gen 0xFFFFFFFF); case_bool_decide).
  case_bool_decide as Hs.
  - destruct g as [g|]; [|done]. case_bool_decide as Hm; [by intros ? [= <-]|]. split; [done|]. eauto.
  - destruct g as [g|]; [|split; [done|]; by intros (? & ? & ? & _)].
    destruct (g_members g !! mid) as [m|] eqn:Em;
      [|split; [done|]; intros (? & ? & [= <-] & H & _); by rewrite Em in H].
    destruct (Z.eqb_spec gen (g_generation g)) as [->|Hg]; cbn [negb];
      [|split; [done|]; by intros (? & ? & [= <-] & _ & H & _)].
    destruct (list_find _ entries) as [[i e]|] eqn:Ef.
    + split; [done|]. intros (? & ? & [= <-] & H & _ & Hall). rewrite Em in H. injection H as <-.
      apply list_find_Some in Ef as (He & Hn & _). eapply list.Forall_lookup in Hall; [|exact He].
      apply is_assigned_spec in Hall. congruence.
    + exists g, m. split_and!; [done|done|done|]. apply list_find_None in Ef.
      eapply list.Forall_impl; [exact Ef|]. intros e He. apply is_assigned_spec, not_false_is_true, He.
Qed.

Section commit.
Context {N : Winsock} {W : Win32}.

Definition commit_items (now : Z) (entries : list OffsetCommitRequestEntry) : list OffsetCommitItem :=
  (fun e => mkOffsetCommitItem (ocr_topic e) (ocr_partition e) (ocr_offset e) (Z.quot now 1000000)) <$> entries.

(** An admissible commit is one of the offset store, any other a refusal. *)
Lemma check_admissible sys_now now tm os gc gid mid gen entries d :
  (commit_admissible tm (gc_groups gc !! gid) mid gen entries /\
   GroupCoordinator_commit sys_now now tm os gc gid mid gen entries d =
     ('(st, os, tm) ← OffsetStore_commit sys_now tm os gid (commit_items now entries);
      if negb (Status_ok st) then mret ((st, INTERNAL_ERROR), os, tm) else mret ((Status_OK, 0), os, tm)) d) \/
  (~ commit_admissible tm (gc_groups gc !! gid) mid gen entries /\
   exists st code, code <> 0 /\
     GroupCoordinator_commit sys_now now tm os gc gid mid gen entries d = Some ((st, code), os, tm, d)).
Proof.
  unfold GroupCoordinator_commit, commit_locked, commit_admissible. pose proof (check_entries_spec tm entries) as H1.
  destruct (check_commit_entries tm entries) as [[st code]|].
  { destruct H1 as [Hz Hn]. right. split; [naive_solver|]. by exists st, code. }
  pose proof (check_committer_spec (gc_groups gc !! gid) gid mid gen entries) as H2.
  destruct (check_committer _ _ _ _ _) as [[st code]|].
  { destruct H2 as [Hz Hn]. right. split; [naive_solver|]. by exists st, code. }
  destruct (check_offsets_spec tm entries H1) as (r & -> & H3). destruct r as [[st code]|].
  - destruct H3 as [Hz Hn]. right. split; [naive_solver|]. by exists st, code.
  - left. split; done.
Qed.

End commit.

(** ** Generations *)

(** Updating one group. *)
Lemma set_group_cases (gs : gmap bytes Group) id id' g g0 g' :
  gs !! id = Some g -> (<[id' := g0]> gs : gmap bytes Group) !! id = Some g' -> g' = g \/ (id' = id /\ g' = g0).
Proof.
  intros Hg H. destruct (decide (id' = id)) as [->|Hne].
  - rewrite lookup_insert_eq in H. injection H as <-. by right.
  - rewrite lookup_insert_ne in H by done. left. congruence.
Qed.

Lemma touch_assignments g k m m' : g_members g !! k = Some m -> mm_assignment m' = mm_assignment m ->
  group_assignments (g_set_members (<[k := m']> (g_members g)) g) = group_assignments g.
Proof.
  intros Hk Ha. unfold group_assignments. cbn. by rewrite fmap_insert, Ha, insert_id by (by rewrite lookup_fmap, Hk).
Qed.

Lemma rebalance_generation tm g : g_generation (GroupCoordinator_rebalance_unlocked tm g) = g_generation g.
Proof. unfold GroupCoordinator_rebalance_unlocked. by case_bool_decide. Qed.

Lemma join_group_generation tm gc now rng gid mid timeout topics s h id g g' :
  (gid = id -> h = g) -> gc_groups gc !! id = Some g ->
  gc_groups (join_group tm gc now rng gid mid timeout topics s h).2 !! id = Some g' ->
  group_assignments g' = group_assignments g \/ g_generation g' = u32 (g_generation g + 1).
Proof.
  intros Hh Hg Hg'. unfold join_group in Hg'.
  destruct (negb _ && _); [|destruct (negb _ && _)]; cbn [snd gc_groups gc_set_group] in Hg'.
  1,2: apply (set_group_cases _ _ _ _ _ _ Hg) in Hg' as [->|[He ->]]; left; [done|by rewrite Hh].
  set (h1 := if bool_decide (g_members h = ∅) then g_subscribe s topics h else h) in Hg'.
  assert (group_assignments h1 = group_assignments h /\ g_generation h1 = g_generation h) as [Ha Hgen]
    by (unfold h1; destruct (bool_decide _); split; reflexivity).
  case_bool_decide; [destruct (_ <=? _)|destruct (g_members h1 !! mid) as [m|] eqn:Em];
    cbn [snd gc_groups gc_set_group GroupCoordinator_generate_member_id gc_config gc_member_counter] in Hg';
    rewrite ?insert_insert_eq in Hg';
    apply (set_group_cases _ _ _ _ _ _ Hg) in Hg' as [->|[He ->]]; try (by left); specialize (Hh He); subst h.
  - by left.
  - right. rewrite rebalance_generation. cbn. by rewrite Hgen.
  - left. by rewrite (touch_assignments _ _ m) by done.
  - by left.
Qed.

Lemma join_generation tm gc now rng gid mid timeout topics s id g g' :
  gc_groups gc !! id = Some g ->
  gc_groups (GroupCoordinator_join tm gc now rng gid mid timeout topics s).2 !! id = Some g' ->
  group_assignments g' = group_assignments g \/ g_generation g' = u32 (g_generation g + 1).
Proof.
  intros Hg Hg'. unfold GroupCoordinator_join in Hg'. destruct (join_guard _ _ _ _ _ _); [left; cbn in *; congruence|].
  destruct (gc_groups gc !! gid) as [h|] eqn:Eh; [|destruct (_ <=? _); [left; cbn in *; congruence|]];
    (eapply join_group_generation; [|exact Hg|exact Hg']); congruence.
Qed.

Lemma heartbeat_generation gc now gid mid gen id g g' :
  gc_groups gc !! id = Some g ->
  gc_groups (GroupCoordinator_heartbeat gc now gid mid gen).2 !! id = Some g' ->
  group_assignments g' = group_assignments g.
Proof.
  intros Hg Hg'. unfold GroupCoordinator_heartbeat in Hg'.
  destruct (gc_groups gc !! gid) as [h|] eqn:Eh; [|cbn in *; congruence].
  destruct (g_members h !! mid) as [m|] eqn:Em; [|cbn in *; congruence].
  destruct (negb _); cbn in Hg'; [congruence|].
  apply (set_group_cases _ _ _ _ _ _ Hg) in Hg' as [->|[-> ->]]; [done|]. replace h with g in * by congruence.
  by apply (touch_assignments _ _ m).
Qed.

Lemma leave_generation tm gc gid mid id g g' :
  gc_groups gc !! id = Some g -> gc_groups (GroupCoordinator_leave tm gc gid mid).2 !! id = Some g' ->
  g' = g \/ g_generation g' = u32 (g_generation g + 1).
Proof.
  intros Hg Hg'. unfold GroupCoordinator_leave in Hg'.
  destruct (gc_groups gc !! gid) as [h|] eqn:Eh; [|left; cbn in *; congruence].
  destruct (g_members h !! mid); [|left; cbn in *; congruence]. cbn in Hg'.
  apply (set_group_cases _ _ _ _ _ _ Hg) in Hg' as [->|[-> ->]]; [by left|]. right.
  rewrite after_removal_generation. cbn. congruence.
Qed.

(** Whatever changes who holds what also advances the generation. *)
Lemma step_generation tm gc tm' gc' id g g' :
  gc_step (tm, gc) (tm', gc') -> gc_groups gc !! id = Some g -> gc_groups gc' !! id = Some g' ->
  group_assignments g' = group_assignments g \/ g_generation g' = u32 (g_generation g + 1).
Proof.
  intros Hs Hg Hg'. inversion Hs; subst.
  - by eapply join_generation.
  - left. by eapply heartbeat_generation.
  - destruct (leave_generation _ _ _ _ _ _ _ Hg Hg') as [->|H]; [by left|by right].
  - unfold GroupCoordinator_expire_members in Hg'. cbn [snd gc_groups] in Hg'. rewrite lookup_fmap, Hg in Hg'.
    injection Hg' as <-. unfold expire_group. case_bool_decide; [by left|]. right. cbn [fst].
    by rewrite after_removal_generation.
  - left. congruence.
Qed.

(** ** Properties *)

(** C18: a member of an old generation is fenced off.  When a step of the coordinator
    changes the members of a group or what they hold, the generation moves on, and
    from then on a heartbeat, or a commit with a member id, for the generation that was
    before is refused, and changes neither the coordinator nor the offsets nor the
    disk. *)
Theorem stale_generation_refused {N : Winsock} {W : Win32} tm gc tm' gc' id g g' :
  gc_step (tm, gc) (tm', gc') -> gc_groups gc !! id = Some g -> gc_groups gc' !! id = Some g' ->
  group_assignments g' <> group_assignments g ->
  g_generation g' = u32 (g_generation g + 1) /\
  (forall now mid, (GroupCoordinator_heartbeat gc' now id mid (g_generation g)).1.2 <> 0 /\
     (GroupCoordinator_heartbeat gc' now id mid (g_generation g)).2 = gc') /\
  (forall sys_now now os mid entries d, mid <> [] -> exists st code, code <> 0 /\
     GroupCoordinator_commit sys_now now tm' os gc' id mid (g_generation g) entries d =
       Some ((st, code), os, tm', d)).
Proof.
  intros Hs Hg Hg' Ha. destruct (step_generation _ _ _ _ _ _ _ Hs Hg Hg') as [?|Hgen]; [done|].
  assert (g_generation g <> g_generation g') as Hne by (rewrite Hgen; unfold u32; Z.to_euclidean_division_equations; lia).
  split_and!; [done| |].
  - intros now mid. unfold GroupCoordinator_heartbeat. rewrite Hg'. destruct (g_members g' !! mid); [|done].
    by rewrite (proj2 (Z.eqb_neq _ _) Hne).
  - intros sys_now now os mid entries d Hmid.
    destruct (check_admissible sys_now now tm' os gc' id mid (g_generation g) entries d) as [[[_ Hadm] _]|[_ H]]; [|done].
    unfold committer_admissible in Hadm. rewrite bool_decide_eq_false_2 in Hadm by naive_solver.
    destruct Hadm as (g0 & m & E & _ & Hg0 & _). congruence.
Qed.

Definition demo_first : GroupCoordinator := (demo_join 0 [str "orders"] 1000000 0xbeef demo_gc0).2.

(** The second member joins: the first one's generation is over. *)
Example stale_generation_refused_witness :
  exists g g', gc_groups demo_first !! str "billing" = Some g /\
    gc_groups (demo_gc 0 [str "orders"]) !! str "billing" = Some g' /\
    g_generation g = 1 /\ g_generation g' = u32 (g_generation g + 1) /\
    forall now mid, (GroupCoordinator_heartbeat (demo_gc 0 [str "orders"]) now (str "billing") mid (g_generation g)).1.2 <> 0.
Proof.
  assert ((fun g => (g_generation g, length (map_to_list (group_assignments g)))) <$>
    gc_groups demo_first !! str "billing" = Some (1, 1%nat)) as H1 by (by vm_compute).
  assert ((fun g => length (map_to_list (group_assignments g))) <$>
    gc_groups (demo_gc 0 [str "orders"]) !! str "billing" = Some 2%nat) as H2 by (by vm_compute).
  destruct (gc_groups demo_first !! str "billing") as [g|] eqn:Eg; [|discriminate H1].
  destruct (gc_groups (demo_gc 0 [str "orders"]) !! str "billing") as [g'|] eqn:Eg'; [|discriminate H2].
  injection H1 as Hgen Hl. injection H2 as Hl'. exists g, g'.
  destruct (stale_generation_refused (N := x86_winsock) (W := memory_disk)
    demo_tm demo_first demo_tm (demo_gc 0 [str "orders"]) (str "billing") g g') as (Hn & Hh & _).
  - apply step_join.
  - exact Eg.
  - exact Eg'.
  - intros E. rewrite E, Hl in Hl'. discriminate Hl'.
  - split; [reflexivity|]. split; [reflexivity|]. split; [exact Hgen|]. split; [exact Hn|].
    intros now mid. apply Hh.
Defined.

(** C17: a commit is taken only from its owner.  A request with an unknown or reserved
    topic, a partition or an offset that does not exist yet, from a stranger, from a
    member of another generation, for a partition that member does not own, or from
    outside a group that has members, gets an error, and leaves the offset store, the
    topics and the disk as they are. *)
Theorem commit_fenced {N : Winsock} {W : Win32} sys_now now tm os gc gid mid gen entries d :
  ~ commit_admissible tm (gc_groups gc !! gid) mid gen entries ->
  exists st code, code <> 0 /\
    GroupCoordinator_commit sys_now now tm os gc gid mid gen entries d = Some ((st, code), os, tm, d).
Proof.
  intros Hn. by destruct (check_admissible sys_now now tm os gc gid mid gen entries d) as [[H _]|[_ H]].
Qed.

(** The first member of two tries to commit the partition of the second. *)
Example commit_fenced_witness :
  exists st code, code <> 0 /\
    GroupCoordinator_commit (N := x86_winsock) (W := memory_disk) 1000 3000000 demo_tm (mkOffsetStore None ∅)
      (demo_gc 0 [str "orders"]) (str "billing") demo_member1 2
      [mkOffsetCommitRequestEntry (str "orders") 1 0] ∅ = Some ((st, code), mkOffsetStore None ∅, demo_tm, ∅).
Proof.
  apply (commit_fenced (N := x86_winsock) (W := memory_disk)). intros [_ Hc]. unfold committer_admissible in Hc.
  rewrite bool_decide_eq_false_2 in Hc by (intros [H _]; discriminate H). destruct Hc as (g & m & Eg & Em & _ & Ha).
  assert (mm_assignment <$> (gc_groups (demo_gc 0 [str "orders"]) !! str "billing" ≫= fun g => g_members g !! demo_member1)
    = Some [mkTopicPartition (str "orders") 0]) as Hv by (by vm_compute).
  rewrite Eg in Hv. cbn [mbind option_bind] in Hv. rewrite Em in Hv. injection Hv as Hv.
  rewrite Hv in Ha. apply list.Forall_cons in Ha as [Ha _]. apply list_elem_of_singleton in Ha. discriminate Ha.
Defined.

(** The last entry for a position, in a request. *)
Definition last_commit (entries : list OffsetCommitRequestEntry) (topic : bytes) (partition : Z)
    : option OffsetCommitRequestEntry :=
  list.last (filter (fun e => ocr_topic e = topic /\ ocr_partition e = partition) entries).

Lemma filter_fmap_comm {A B} (P : B -> Prop) `{!forall x, Decision (P x)} (f : A -> B) (l : list A) :
  filter P (f <$> l) = f <$> filter (fun x => P (f x)) l.
Proof.
  induction l as [|x l IH]; [done|]. rewrite fmap_cons, !filter_cons, IH. by case_decide.
Qed.

Lemma last_commit_items now entries (g : bytes) t p :
  list.last (filter (fun it => g = g /\ oci_topic it = t /\ oci_partition it = p) (commit_items now entries)) =
  (fun e => mkOffsetCommitItem (ocr_topic e) (ocr_partition e) (ocr_offset e) (Z.quot now 1000000)) <$>
    last_commit entries t p.
Proof.
  unfold last_commit, commit_items. rewrite filter_fmap_comm, fmap_last. do 2 f_equal.
  apply list_filter_iff. intros e. cbn. tauto.
Qed.

(** C23: an admissible commit is stored and fetched back.  For a group id and topics that
    make keys the store can read back (not empty, without the separator) and a batch the
    internal log takes, it returns success with its
    records in the internal log, whose replay stays the cache; [fetch_offsets] then
    answers for each queried position the offset of the request's last entry for it,
    or what it answered before if the request has none; other groups see no change. *)
Theorem group_commit_correct {N : Winsock} {W : Win32} {R : Reliable W} {F : Fstream W} {RF : ReliableStreams W F}
    sys_now now d tm os logs E L gc gid mid gen entries :
  store_is d tm os logs E L -> is_i64 sys_now -> entries <> [] ->
  commit_admissible tm (gc_groups gc !! gid) mid gen entries ->
  key_part gid -> Forall item_ok (commit_items now entries) ->
  batch_ok (commit_record gid <$> commit_items now entries) -> E + zlen L + zlen entries < 2 ^ 64 ->
  wp (GroupCoordinator_commit sys_now now tm os gc gid mid gen entries)
    (fun '(res, os', tm') d' => res = (Status_OK, 0) /\
       (let L' := L ++ batch_records (E + zlen L) sys_now (commit_record gid <$> commit_items now entries) in
        store_is d' tm' os' (<[INTERNAL_OFFSETS_TOPIC := [(E, L')]]> logs) E L') /\
       (forall queries, Forall (fun q => key_part q.1 /\ is_u16 q.2) queries ->
          GroupCoordinator_fetch_offsets os' gid queries =
            (Status_OK, 0, (fun q => match last_commit entries q.1 q.2 with
                                     | Some e => i64 (ocr_offset e)
                                     | None => OffsetStore_get os gid q.1 q.2
                                     end) <$> queries)) /\
       (forall gid' queries, key_part gid' -> gid' <> gid -> Forall (fun q => key_part q.1 /\ is_u16 q.2) queries ->
          GroupCoordinator_fetch_offsets os' gid' queries = GroupCoordinator_fetch_offsets os gid' queries)) d.
Proof.
  intros Hs Hnow Hne Hadm Hk Hit Hb Hlim. unfold wp.
  destruct (check_admissible sys_now now tm os gc gid mid gen entries d) as [[_ ->]|[? _]]; [|done].
  apply wp_bind. eapply wp_commit; [exact Hs|done|done|done| |done| |].
  - unfold commit_items. by destruct entries.
  - unfold commit_items. rewrite zlen_fmap. done.
  - intros d' tm' os' L' Hs' Hc _. apply wp_ret. split_and!; [done|exact Hs'| |].
    + intros queries Hq. unfold GroupCoordinator_fetch_offsets. f_equal. apply list_fmap_ext. intros i q Hi.
      eapply list.Forall_lookup in Hq as [Hq1 Hq2]; [|exact Hi]. unfold OffsetStore_get.
      rewrite Hc, commit_cache_lookup, last_commit_items by done. by destruct (last_commit _ _ _).
    + intros gid' queries Hk' Hg Hq. unfold GroupCoordinator_fetch_offsets. f_equal. apply list_fmap_ext.
      intros i q Hi. eapply list.Forall_lookup in Hq as [Hq1 Hq2]; [|exact Hi]. unfold OffsetStore_get.
      rewrite Hc, commit_cache_lookup by done. rewrite filter_none; [done|].
      apply list.Forall_forall. naive_solver.
Qed.

Definition demo_owner : GroupCoordinator :=
  mkGroupCoordinator default_CoordinatorConfig 2 {[ str "billing" :=
    mkGroup (str "billing") 1 Range [str "orders"] Stable {[ str "m1" :=
      mkMemberMetadata (str "m1") 10000 0 [mkTopicPartition (str "orders") 0; mkTopicPartition (str "orders") 1] ]} ]}.

Lemma demo_entry d tm os logs :
  store_is (W := memory_disk) (N := x86_winsock) d tm os logs 0 [] -> logs !! str "orders" = Some (replicate 2 (0, [])) ->
  entry_admissible tm (mkOffsetCommitRequestEntry (str "orders") 1 0).
Proof.
  intros Hs Ho. split; [by vm_compute|].
  destruct (tm_is_logs _ _ _ _ _ (tmi_holds _ _ _ (si_tm _ _ _ _ _ _ Hs)) Ho) as (t & Ht & He).
  pose proof (ti_logs _ _ _ (te_is _ _ _ _ _ He)) as HF.
  destruct (tc_partitions t) as [|p0 [|p1 [|]]] eqn:Ep; try by (apply Forall2_length in HF).
  apply list.Forall2_cons in HF as [_ [H1 _]%list.Forall2_cons]. destruct (part_is_next _ _ _ _ H1) as (Hn & _).
  exists (pt_next_offset p1). split; [|rewrite Hn; by vm_compute].
  assert (TopicManager_get_topic tm (str "orders") = Some t) as Hgt by exact Ht.
  unfold entry_watermark. cbn [ocr_topic ocr_partition]. rewrite Hgt. cbn [mbind option_bind].
  unfold Topic_get_partition. rewrite Ep. reflexivity.
Qed.

Example group_commit_correct_witness :
  let entries := [mkOffsetCommitRequestEntry (str "orders") 1 0] in
  exists d tm os, wp (W := memory_disk)
    (GroupCoordinator_commit (N := x86_winsock) 1000 3000000 tm os demo_owner (str "billing") (str "m1") 1 entries)
    (fun '(res, os', tm') d' => res = (Status_OK, 0) /\
       GroupCoordinator_fetch_offsets os' (str "billing") [(str "orders", 1)] = (Status_OK, 0, [0])) d.
Proof.
  intros entries. destruct demo_broker as (d & tm & os & logs & Hs & Hc & Ho). exists d, tm, os.
  eapply wp_mono.
  { apply (group_commit_correct (N := x86_winsock) (W := memory_disk) 1000 3000000 d tm os logs 0 [] demo_owner
      (str "billing") (str "m1") 1 entries).
    - exact Hs.
    - by vm_compute.
    - done.
    - split.
      + apply list.Forall_singleton. by eapply demo_entry.
      + unfold committer_admissible. rewrite bool_decide_eq_false_2 by (by intros [H _]).
        eexists _, _. split; [apply lookup_singleton_eq|]. split; [apply lookup_singleton_eq|].
        split; [done|]. apply (bool_decide_unpack _). by vm_compute.
    - apply (bool_decide_unpack _). by vm_compute.
    - apply (bool_decide_unpack _). by vm_compute.
    - repeat constructor; by vm_compute.
    - by vm_compute. }
  intros [[res os'] tm'] d' (Hr & _ & Hq & _). split; [exact Hr|]. rewrite Hq; [by vm_compute|].
  apply list.Forall_singleton. split; [apply (bool_decide_unpack _)|]; by vm_compute.
Defined.

(** C37: one anonymous commit makes the store unrecoverable.  A consumer outside any
    group may commit under an empty group id: [commit] reports success, but with its
    record in the internal log the offset store cannot be recovered any more, and the
    broker does not start. *)
Theorem anonymous_commit_poisons_store {N : Winsock} {W : Win32} {R : Reliable W} {F : Fstream W}
    {RF : ReliableStreams W F} sys_now now now' d tm os logs E L gc entries :
  store_is d tm os logs E L -> is_i64 sys_now -> entries <> [] -> Forall (entry_admissible tm) entries ->
  gc_groups gc !! [] = None -> batch_ok (commit_record [] <$> commit_items now entries) ->
  E + zlen L + zlen entries < 2 ^ 64 ->
  wp ('(res, os', tm') ← GroupCoordinator_commit sys_now now tm os gc [] [] 0xFFFFFFFF entries;
      '(st, _, _) ← OffsetStore_open_and_recover now' tm' os';
      mret (res, st))
    (fun '(res, st) _ => res = (Status_OK, 0) /\ m_code st = Corrupt) d.
Proof.
  intros Hs Hnow Hne Hadm Hg Hb Hlim. apply wp_bind. unfold wp at 1.
  destruct (check_admissible sys_now now tm os gc [] [] 0xFFFFFFFF entries d) as [[_ ->]|[Hn _]].
  2:{ exfalso. apply Hn. split; [done|]. unfold committer_admissible. rewrite bool_decide_eq_true_2 by done.
      intros g' Hg'. congruence. }
  apply wp_bind. eapply wp_commit_log; [exact Hs|done| |done| |].
  { unfold commit_items. by destruct entries. }
  { unfold commit_items. by rewrite zlen_fmap. }
  intros d' tm' os' L' Htm _ _. apply wp_ret, wp_bind. eapply wp_store_recover; [apply Htm|apply lookup_insert_eq|].
  unfold L'. rewrite replay_app, (si_cache _ _ _ _ _ _ Hs). cbn [mbind option_bind].
  destruct entries as [|e entries]; [done|]. cbn [commit_items fmap list_fmap batch_records commit_record replay].
  unfold commit_ok. cbn [key]. rewrite parse_key_empty_group.
  rewrite bool_decide_eq_false_2 by (intros [? ?]; done). cbn [andb]. intros st os'' Hst. by apply wp_ret.
Qed.

Example anonymous_commit_poisons_store_witness :
  exists d tm os, wp (W := memory_disk)
    ('(res, os', tm') ← GroupCoordinator_commit (N := x86_winsock) 1000 3000000 tm os demo_gc0 [] [] 0xFFFFFFFF
                          [mkOffsetCommitRequestEntry (str "orders") 1 0];
     '(st, _, _) ← OffsetStore_open_and_recover (N := x86_winsock) 2000 tm' os';
     mret (res, st))
    (fun '(res, st) _ => res = (Status_OK, 0) /\ m_code st = Corrupt) d.
Proof.
  destruct demo_broker as (d & tm & os & logs & Hs & _ & Ho). exists d, tm, os.
  apply (anonymous_commit_poisons_store (N := x86_winsock) (W := memory_disk) 1000 3000000 2000 d tm os logs 0 []).
  - exact Hs.
  - by vm_compute.
  - done.
  - apply list.Forall_singleton. by eapply demo_entry.
  - reflexivity.
  - repeat constructor; by vm_compute.
  - by vm_compute.
Defined.
