(* ===== verification/ConcurrentCommit.v ===== *)
(** * ConcurrentCommit: a commit among joins, leaves and expiries
    (src/GroupCoordinator.cpp)

    [commit] looks its group up under the lock of the table of groups, lets that lock
    go, and takes the lock of the group it found for the checks and the write.  Other
    threads can change groups between the two.  For a member that makes no difference,
    since groups are never removed and the checks are made under the lock that is held
    during the write.  A consumer outside any group whose group id was not in the table
    holds no lock at all. *)
From S2P Require Import Prelude StdString Status RecordCodec FrameCodec FileHandle Partition PartitionProps Topic TopicManager OffsetStore.
From S2P Require Import GroupCoordinator GroupFencing.

(** ** What stays *)

#[global] Instance topics_grow_preorder : PreOrder topics_grow.
Proof.
  split.
  - intros tm name t Ht. by exists t.
  - intros tm1 tm2 tm3 H1 H2 name t Ht. destruct (H1 _ _ Ht) as (t2 & Ht2 & Hz2).
    destruct (H2 _ _ Ht2) as (t3 & Ht3 & Hz3). exists t3. split; [done|congruence].
Qed.

Definition groups_kept (gc gc' : GroupCoordinator) : Prop :=
  forall id, is_Some (gc_groups gc !! id) -> is_Some (gc_groups gc' !! id).

Lemma set_group_kept id g gc : groups_kept gc (gc_set_group id g gc).
Proof. intros id' Hid. cbn. destruct (decide (id = id')) as [<-|Hne]; [rewrite lookup_insert_eq; by eexists|by rewrite lookup_insert_ne]. Qed.

#[global] Instance groups_kept_preorder : PreOrder groups_kept.
Proof. split; [by intros gc id|]. intros gc1 gc2 gc3 H1 H2 id Hid. auto. Qed.

Lemma generated_id_kept gc rng gid : groups_kept gc (GroupCoordinator_generate_member_id gc rng gid).2.
Proof. by intros id. Qed.

Lemma join_group_kept tm gc now rng gid mid timeout topics s g :
  groups_kept gc (join_group tm gc now rng gid mid timeout topics s g).2.
Proof.
  unfold join_group. cbv zeta. etrans; [apply (set_group_kept gid g)|].
  case_match; [reflexivity|]. case_match; [reflexivity|]. set (g1 := if bool_decide (g_members g = ∅) then _ else _).
  etrans; [apply (set_group_kept gid g1)|]. case_match.
  - case_match; [reflexivity|].
    pose proof (generated_id_kept (gc_set_group gid g1 (gc_set_group gid g gc)) rng gid) as Hk.
    destruct (GroupCoordinator_generate_member_id _ _ _) as [new_id gc']. cbn [snd] in *.
    etrans; [exact Hk|]. apply set_group_kept.
  - case_match; [|reflexivity]. apply set_group_kept.
Qed.

Lemma gc_step_kept s s' : gc_step s s' -> topics_grow s.1 s'.1 /\ groups_kept s.2 s'.2.
Proof.
  intros Hs. destruct Hs; cbn [fst snd]; (split; [done || reflexivity|]).
  - unfold GroupCoordinator_join. case_match; [reflexivity|]. case_match; [apply join_group_kept|].
    case_match; [reflexivity|apply join_group_kept].
  - unfold GroupCoordinator_heartbeat. repeat case_match; try reflexivity. apply set_group_kept.
  - unfold GroupCoordinator_leave. repeat case_match; try reflexivity. apply set_group_kept.
  - intros id Hid. cbn. rewrite lookup_fmap. by apply fmap_is_Some.
  - reflexivity.
Qed.

Lemma gc_steps_kept s s' : rtc gc_step s s' -> topics_grow s.1 s'.1 /\ groups_kept s.2 s'.2.
Proof.
  induction 1 as [s|s1 s2 s3 Hs _ [IH1 IH2]]; [split; reflexivity|].
  destruct (gc_step_kept _ _ Hs) as [H1 H2]. split; by etrans.
Qed.

Lemma watermark_kept tm tm' e : topics_grow tm tm' -> is_Some (entry_watermark tm e) -> is_Some (entry_watermark tm' e).
Proof.
  intros Hg [hw Hw]. unfold entry_watermark in *. destruct (TopicManager_get_topic tm (ocr_topic e)) as [t|] eqn:Et; [|done].
  destruct (Hg _ _ Et) as (t' & -> & Hz). cbn [mbind option_bind] in *. unfold Topic_get_partition in *. rewrite Hz.
  destruct (Z.leb_spec (zlen (tc_partitions t)) (ocr_partition e)) as [|Hlt]; [done|].
  destruct (lookup_lt_is_Some_2 (tc_partitions t') (Z.to_nat (ocr_partition e))) as [p' Hp'].
  { destruct (tc_partitions t !! Z.to_nat (ocr_partition e)) as [p|] eqn:Ep; [|done].
    apply lookup_lt_Some in Ep. unfold zlen in Hz. lia. }
  rewrite Hp'. by eexists.
Qed.

(** Entries that pass the first loop pass it later too. *)
Lemma check_entries_kept tm tm' entries : topics_grow tm tm' ->
  check_commit_entries tm entries = None -> check_commit_entries tm' entries = None.
Proof.
  intros Hg. induction entries as [|e entries IH]; [done|]. cbn [check_commit_entries]. intros E.
  destruct (starts_with _ _); [done|]. pose proof (watermark_kept tm tm' e Hg) as Hk.
  pose proof (watermark_none tm e) as H1. pose proof (watermark_none tm' e) as H2.
  destruct (TopicManager_get_topic tm (ocr_topic e)) as [t|]; [|done].
  destruct (Topic_get_partition t (ocr_partition e)) as [p|]; [|done].
  assert (is_Some (entry_watermark tm' e)) as Hw by (apply Hk, not_eq_None_Some; intros E'; by apply H1 in E').
  rewrite <- not_eq_None_Some in Hw.
  destruct (TopicManager_get_topic tm' (ocr_topic e)) as [t'|]; [|by destruct Hw; apply H2].
  destruct (Topic_get_partition t' (ocr_partition e)) as [p'|]; [by apply IH|by destruct Hw; apply H2].
Qed.

(** ** The commit *)

(** The group [commit] has a pointer to after the lookup, as it is later. *)
Definition held_group (gc1 gc2 : GroupCoordinator) (group_id : bytes) : option Group :=
  match gc_groups gc1 !! group_id with Some _ => gc_groups gc2 !! group_id | None => None end.

Definition standalone (member_id : bytes) (generation : Z) : bool :=
  bool_decide (member_id = [] /\ generation = 0xFFFFFFFF).

Section commit.
Context {N : Winsock} {W : Win32}.

(** [commit]: the topics [tm1] as they are in the first loop, the coordinator [gc1] as it
    is at the lookup, both as they are when the rest runs. *)
Definition commit_sections (sys_now now : Z) (tm1 tm2 : TopicManager) (os : OffsetStore) (gc1 gc2 : GroupCoordinator)
    (group_id member_id : bytes) (generation : Z) (entries : list OffsetCommitRequestEntry)
    : io (CommitResult * OffsetStore * TopicManager) :=
  match check_commit_entries tm1 entries with
  | Some err => mret (err, os, tm2)
  | None => commit_locked sys_now now tm2 os (held_group gc1 gc2 group_id) group_id member_id generation entries
  end.

Lemma commit_sections_alone sys_now now tm os gc gid mid gen entries :
  commit_sections sys_now now tm tm os gc gc gid mid gen entries =
  GroupCoordinator_commit sys_now now tm os gc gid mid gen entries.
Proof.
  unfold commit_sections, GroupCoordinator_commit, held_group. by destruct (gc_groups gc !! gid).
Qed.

(** Without a group, a member is refused. *)
Lemma stranger_refused sys_now now tm os gid mid gen entries d : standalone mid gen = false ->
  exists st code, code <> 0 /\ commit_locked sys_now now tm os None gid mid gen entries d = Some ((st, code), os, tm, d).
Proof.
  intros Hs. unfold commit_locked. pose proof (check_committer_spec None gid mid gen entries) as H.
  destruct (check_committer None gid mid gen entries) as [[st code]|]; [destruct H; by exists st, code|].
  unfold committer_admissible in H. unfold standalone in Hs. rewrite Hs in H. by destruct H as (? & ? & ? & _).
Qed.

End commit.

(** ** Properties *)

(** C19: commits are atomic, with one exception.  Whatever joins, heartbeats, leaves,
    expiries and new topics come between the first checks, the lookup of the group and
    the rest, a commit
    of a member, or for a group that was in the table, is refused without a trace or
    does exactly what it would do in one step at the time of its write, so that what
    [commit_fenced] and [group_commit_correct] say holds for it.  A commit from outside
    for a group that was not in the table is treated as if there still were none: it is
    written although the group has members by now. *)
Theorem commit_interleaved {N : Winsock} {W : Win32} sys_now now tm1 gc0 tm gc1 tm2 gc2 os gid mid gen entries d :
  rtc gc_step (tm1, gc0) (tm, gc1) -> rtc gc_step (tm, gc1) (tm2, gc2) ->
  let interleaved := commit_sections sys_now now tm1 tm2 os gc1 gc2 gid mid gen entries d in
  (exists st code, code <> 0 /\ interleaved = Some ((st, code), os, tm2, d)) \/
  interleaved = GroupCoordinator_commit sys_now now tm2 os
    (if standalone mid gen && bool_decide (gc_groups gc1 !! gid = None)
     then mkGroupCoordinator (gc_config gc2) (gc_member_counter gc2) (delete gid (gc_groups gc2)) else gc2)
    gid mid gen entries d.
Proof.
  intros Hs1 Hs2. assert (topics_grow tm1 tm2) as Hg.
  { destruct (gc_steps_kept _ _ Hs1) as [H1 _], (gc_steps_kept _ _ Hs2) as [H2 _]. cbn [fst] in *. by etrans. }
  cbv zeta. unfold commit_sections.
  pose proof (check_entries_spec tm1 entries) as H1. destruct (check_commit_entries tm1 entries) as [[st code]|] eqn:E1.
  { left. exists st, code. by destruct H1. }
  unfold GroupCoordinator_commit. rewrite (check_entries_kept _ _ _ Hg E1). unfold held_group.
  destruct (gc_groups gc1 !! gid) as [g1|] eqn:Eg.
  - right. rewrite bool_decide_eq_false_2, andb_false_r by done. done.
  - rewrite bool_decide_eq_true_2, andb_true_r by done. destruct (standalone mid gen) eqn:Est.
    + right. cbn [gc_groups]. by rewrite lookup_delete_eq.
    + left. by apply stranger_refused.
Qed.

(** The second member of a group joins between the lookup of a commit by the first and
    the rest of it. *)
Example commit_interleaved_witness :
  let entries := [mkOffsetCommitRequestEntry (str "orders") 1 0] in
  let interleaved := commit_sections (N := x86_winsock) (W := memory_disk) 1000 3000000 demo_tm demo_tm (mkOffsetStore None ∅)
    demo_first (demo_gc 0 [str "orders"]) (str "billing") demo_member1 1 entries ∅ in
  (exists st code, code <> 0 /\ interleaved = Some ((st, code), mkOffsetStore None ∅, demo_tm, ∅)) \/
  interleaved = GroupCoordinator_commit (N := x86_winsock) (W := memory_disk) 1000 3000000 demo_tm (mkOffsetStore None ∅)
    (demo_gc 0 [str "orders"]) (str "billing") demo_member1 1 entries ∅.
Proof.
  cbv zeta.
  apply (commit_interleaved (N := x86_winsock) (W := memory_disk) 1000 3000000 demo_tm demo_first demo_tm demo_first demo_tm
    (demo_gc 0 [str "orders"]) (mkOffsetStore None ∅) (str "billing") demo_member1 1
    [mkOffsetCommitRequestEntry (str "orders") 1 0] ∅).
  - apply rtc_refl.
  - apply rtc_once, step_join.
Defined.

(** ** A commit from outside overtakes a member *)

(** On a new broker with a topic of one record: a consumer outside any group commits
    offset 0 for "billing"; after its lookup a member joins that group and commits
    offset 1; then the first commit goes on.  The error codes of the two commits, of the
    same commit from outside when it starts now, and the offset of the group. *)
Definition overtaking_session : @io memory_disk (Z * Z * Z * list Z) :=
  '(_, os, tm) ← start_storage (N := x86_winsock) (W := memory_disk) 1000 demo_config;
  '(_, tm) ← TopicManager_create_topic (W := memory_disk) 1000 tm (str "orders") 1 0 0;
  topic ← io_opt (TopicManager_get_topic tm (str "orders"));
  '(_, topic) ← Topic_append_to (W := memory_disk) 1000 topic 0 [] (str "first");
  let tm := tm_set_topic (str "orders") topic tm in
  let '(joined, gc) := GroupCoordinator_join tm demo_gc0 1000000 0xbeef (str "billing") [] 10000 [str "orders"] 0 in
  let commit n := [mkOffsetCommitRequestEntry (str "orders") 0 n] in
  '(member, os, tm) ← GroupCoordinator_commit (N := x86_winsock) 1000 2000000 tm os gc (str "billing")
                        (jr_member_id joined) (jr_generation joined) (commit 1);
  '(outside, os, tm) ← commit_sections (N := x86_winsock) 1000 2000000 tm tm os demo_gc0 gc (str "billing") []
                         0xFFFFFFFF (commit 0);
  '(late, os, tm) ← GroupCoordinator_commit (N := x86_winsock) 1000 2000000 tm os gc (str "billing") [] 0xFFFFFFFF
                      (commit 0);
  mret (member.2, outside.2, late.2, (GroupCoordinator_fetch_offsets os (str "billing") [(str "orders", 0)]).2).

(** Both are accepted, and the member's offset is lost; in one step the commit from
    outside is refused. *)
Example commit_from_outside_overtakes :
  fst <$> overtaking_session ∅ = Some (0, 0, ILLEGAL_GENERATION, [0]).
Proof. by vm_compute. Qed.
