(* ===== verification/MessageHandler.v ===== *)
(** * MessageHandler: from a request frame to a response frame
    (src/MessageHandler.cpp)

    [Broker] is everything a handler can reach: the topic manager, the offset store
    behind the coordinator, and the coordinator itself, which may be absent.  Each
    handler is one function from a request frame and a broker to a response frame and
    the broker after it.  What a handler reads of its surroundings (the two clocks
    and the random number of a new member id) is in [Env]. *)
From S2P Require Import Prelude StdString Status RecordCodec FrameCodec BodyCodec ProtocolMessages FileHandle OffsetIndex.
From S2P Require Import LogSegment Partition PartitionRead PartitionRecovery PartitionFrame PartitionProps.
From S2P Require Import Partitioner Assignor Topic TopicManager OffsetStore GroupCoordinator GroupFencing.

Record Broker := mkBroker {
  bk_topics : TopicManager;
  bk_offsets : OffsetStore;
  bk_coordinator : option GroupCoordinator;
}.

Record Env := mkEnv {
  env_now_ms : Z;   (* system_clock, milliseconds *)
  env_now : Z;      (* steady_clock, nanoseconds *)
  env_random : Z;   (* the next value of the generator *)
}.

Definition bk_set_topics (tm : TopicManager) (b : Broker) : Broker :=
  mkBroker tm (bk_offsets b) (bk_coordinator b).
Definition bk_set_coordinator (gc : GroupCoordinator) (b : Broker) : Broker :=
  mkBroker (bk_topics b) (bk_offsets b) (Some gc).

Definition MessageHandler_map_status_to_error_code (status : Status) : Z :=
  match m_code status with
  | NotFound => UNKNOWN_TOPIC
  | AlreadyExists => TOPIC_ALREADY_EXISTS
  | InvalidArgument => INVALID_ARGUMENT
  | Corrupt => CORRUPT_DATA
  | OffsetOutOfRange => OFFSET_OUT_OF_RANGE
  | RecordTooLarge => RECORD_TOO_LARGE
  | IoError => INTERNAL_ERROR
  | OK => INTERNAL_ERROR
  end.

Definition reserved (topic : bytes) : bool := starts_with (str "__") topic.

Section handlers.
Context {N : Winsock} {W : Win32} {F : Fstream W}.

(** [Frame{ HEADER_SIZE + body.size(), type, request_id, body }] *)
Definition response (type : Z) (req : Frame) (body : bytes) : Frame :=
  mkFrame (u32 (HEADER_SIZE + u32 (zlen body))) type (request_id req) body.

(** [return FrameCodec::create_error_frame(...)], leaving the broker as it is. *)
Definition refuse (req : Frame) (b : Broker) (code : Z) (msg : bytes) : io (Frame * Broker) :=
  mret (FrameCodec_create_error_frame (request_id req) code msg, b).

(** [BodyReader reader(req.body); if (!req_msg.decode(reader)) ...] *)
Definition decode_body {A} (decode : reader A) (req : Frame) : option A :=
  fst <$> decode (BodyReader_of (body req)).

Definition reserved_name : bytes := str "Topic name starting with '__' is reserved".

Definition MessageHandler_handle_create_topic (env : Env) (req : Frame) (b : Broker) : io (Frame * Broker) :=
  match decode_body CreateTopicRequest_decode req with
  | None => refuse req b MALFORMED_BODY (str "Malformed CREATE_TOPIC body")
  | Some m =>
      if ctr_partitions m =? 0 then refuse req b INVALID_ARGUMENT (str "Partitions count must be > 0") else
      if reserved (ctr_topic m) then refuse req b INVALID_TOPIC_NAME reserved_name else
      match TopicManager_validate_topic_name (ctr_topic m) with
      | Some name_err => refuse req b INVALID_TOPIC_NAME (str "Invalid topic name: " ++ name_err)
      | None =>
          let ret_ms := if ctr_has_retention m then ctr_retention_ms m else 0 in
          let ret_bytes := if ctr_has_retention m then ctr_retention_bytes m else 0 in
          '(res, tm) ← TopicManager_create_topic (env_now_ms env) (bk_topics b) (ctr_topic m) (ctr_partitions m)
                         ret_ms ret_bytes;
          let b := bk_set_topics tm b in
          match res with
          | Err st => refuse req b (MessageHandler_map_status_to_error_code st) (m_msg st)
          | Ok _ => mret (mkFrame HEADER_SIZE CREATE_TOPIC_OK (request_id req) [], b)
          end
      end
  end.

Definition MessageHandler_handle_produce (env : Env) (req : Frame) (b : Broker) : io (Frame * Broker) :=
  match decode_body ProduceRequest_decode req with
  | None => refuse req b MALFORMED_BODY (str "Malformed PRODUCE body")
  | Some m =>
      if reserved (pr_topic m) then refuse req b INVALID_TOPIC_NAME reserved_name else
      if bool_decide (pr_records m = []) then
        refuse req b INVALID_ARGUMENT (str "PRODUCE batch cannot be empty") else
      match TopicManager_get_topic (bk_topics b) (pr_topic m) with
      | None => refuse req b UNKNOWN_TOPIC (str "Topic '" ++ pr_topic m ++ str "' not found")
      | Some topic =>
          '(res, chosen_partition, topic) ←
            Topic_produce_batch (env_now_ms env) topic (pr_partition m) (pr_records m) 0;
          let b := bk_set_topics (tm_set_topic (pr_topic m) topic (bk_topics b)) b in
          match res with
          | Err st => refuse req b (MessageHandler_map_status_to_error_code st) (m_msg st)
          | Ok base =>
              let resp := mkProduceResponse (u16 chosen_partition) base (u16 (zlen (pr_records m))) in
              mret (response PRODUCE_OK req (bw_buffer (ProduceResponse_encode resp empty_writer)), b)
          end
      end
  end.

Definition fetch_wire (r : Record) : FetchRecordWire :=
  mkFetchRecordWire (offset r) (timestamp_ms r) (key r) (value r).

Definition fetch_response (req : Frame) (b : Broker) (resp : FetchResponse) : io (Frame * Broker) :=
  mret (response FETCH_OK req (bw_buffer (FetchResponse_encode resp empty_writer)), b).

(** The part of [handle_fetch] that looks at the partition.  [hw] and [earliest] are what
    [next_offset] and [earliest_offset] returned; these do not take the partition's lock.
    [at_read] is the partition when [read] has it. *)
Definition fetch_sections (req : Frame) (b : Broker) (m : FetchRequest) (hw earliest : Z) (at_read : Partition)
    : io (Frame * Broker) :=
  if fr_start_offset m =? hw then fetch_response req b (mkFetchResponse hw hw earliest 0 []) else
  if (hw <? fr_start_offset m) || (fr_start_offset m <? earliest) then
    refuse req b OFFSET_OUT_OF_RANGE
      (str "Start offset " ++ std_to_string (fr_start_offset m) ++ str " out of valid range [" ++
       std_to_string earliest ++ str ", " ++ std_to_string hw ++ str ")") else
  let clamped_max_bytes := Z.min (fr_max_bytes m) 1048500 in
  rr ← Partition_read at_read (fr_start_offset m) (fr_max_messages m) clamped_max_bytes;
  if negb (Status_ok (rr_status rr)) then
    refuse req b (MessageHandler_map_status_to_error_code (rr_status rr)) (m_msg (rr_status rr)) else
  let records := fetch_wire <$> rr_records rr in
  let next_offset := match list.last records with
                     | None => fr_start_offset m
                     | Some r => u64 (frw_offset r + 1)
                     end in
  fetch_response req b (mkFetchResponse next_offset hw earliest (u16 (zlen records)) records).

Definition MessageHandler_handle_fetch (req : Frame) (b : Broker) : io (Frame * Broker) :=
  match decode_body FetchRequest_decode req with
  | None => refuse req b MALFORMED_BODY (str "Malformed FETCH body")
  | Some m =>
      if reserved (fr_topic m) then refuse req b INVALID_TOPIC_NAME reserved_name else
      if (fr_max_bytes m =? 0) || (fr_max_messages m =? 0) then
        refuse req b INVALID_ARGUMENT (str "max_bytes and max_messages must be > 0") else
      match TopicManager_get_topic (bk_topics b) (fr_topic m) with
      | None => refuse req b UNKNOWN_TOPIC (str "Topic '" ++ fr_topic m ++ str "' not found")
      | Some topic =>
          if Topic_num_partitions topic <=? fr_partition m then
            refuse req b INVALID_PARTITION
              (str "Partition " ++ std_to_string (fr_partition m) ++ str " out of range") else
          part ← io_opt (Topic_get_partition topic (fr_partition m));
          fetch_sections req b m (pt_next_offset part) (Partition_earliest_offset part) part
      end
  end.

Definition MessageHandler_handle_list_topics (req : Frame) (b : Broker) : io (Frame * Broker) :=
  match decode_body ListTopicsRequest_decode req with
  | None => refuse req b MALFORMED_BODY (str "Malformed LIST_TOPICS body")
  | Some _ =>
      let topic_list := (TopicManager_list_topics (bk_topics b)).*2 in
      let shown := filter (fun t => reserved (tc_name t) = false) topic_list in
      let topics := (fun t => mkTopicInfoWire (tc_name t) (u16 (Topic_num_partitions t))) <$> shown in
      let resp := mkListTopicsResponse (u16 (zlen topics)) topics in
      mret (response TOPICS req (bw_buffer (ListTopicsResponse_encode resp empty_writer)), b)
  end.

(** One round of the loop over the partitions. *)
Definition describe_partition (topic : Topic) (p : Z) : PartitionOffsetWire :=
  match Topic_get_partition topic p with
  | Some part => mkPartitionOffsetWire (Partition_earliest_offset part) (pt_next_offset part)
                   (u32 (Partition_segment_count part))
  | None => mkPartitionOffsetWire 0 0 0
  end.

Definition MessageHandler_handle_describe_topic (req : Frame) (b : Broker) : io (Frame * Broker) :=
  match decode_body DescribeTopicRequest_decode req with
  | None => refuse req b MALFORMED_BODY (str "Malformed DESCRIBE_TOPIC body")
  | Some m =>
      if reserved (dtr_topic m) then refuse req b INVALID_TOPIC_NAME reserved_name else
      match TopicManager_get_topic (bk_topics b) (dtr_topic m) with
      | None => refuse req b UNKNOWN_TOPIC (str "Topic '" ++ dtr_topic m ++ str "' not found")
      | Some topic =>
          let resp := mkDescribeTopicResponse (tc_name topic) (u16 (Topic_num_partitions topic))
            (describe_partition topic <$> seqZ 0 (Topic_num_partitions topic))
            (tc_retention_ms topic) (tc_retention_bytes topic) (if Topic_is_degraded topic then 1 else 0) in
          mret (response TOPIC_DESCRIPTION req (bw_buffer (DescribeTopicResponse_encode resp empty_writer)), b)
      end
  end.

(** The handlers of the coordinator's requests start with this test. *)
Definition with_coordinator (req : Frame) (b : Broker) (k : GroupCoordinator -> io (Frame * Broker))
    : io (Frame * Broker) :=
  match bk_coordinator b with
  | None => refuse req b INTERNAL_ERROR (str "Coordinator unavailable")
  | Some gc => k gc
  end.

Definition partition_wire (tp : TopicPartition) : TopicPartitionWire :=
  mkTopicPartitionWire (tp_topic tp) (tp_partition tp).

Definition MessageHandler_handle_join_group (env : Env) (req : Frame) (b : Broker) : io (Frame * Broker) :=
  with_coordinator req b (fun gc =>
    match decode_body JoinGroupRequest_decode req with
    | None => refuse req b MALFORMED_BODY (str "Malformed JOIN_GROUP body")
    | Some m =>
        let '(res, gc) := GroupCoordinator_join (bk_topics b) gc (env_now env) (env_random env) (jgr_group_id m)
                            (jgr_member_id m) (jgr_session_timeout_ms m) (jgr_topics m) (jgr_strategy m) in
        let b := bk_set_coordinator gc b in
        if negb (jr_error_code res =? 0) then refuse req b (jr_error_code res) (m_msg (jr_status res)) else
        let resp := mkJoinGroupResponse (jr_member_id res) (jr_generation res) (jr_heartbeat_interval_ms res)
                      (u16 (zlen (jr_assignment res))) (partition_wire <$> jr_assignment res) in
        mret (response JOIN_GROUP_OK req (bw_buffer (JoinGroupResponse_encode resp empty_writer)), b)
    end).

Definition MessageHandler_handle_heartbeat (env : Env) (req : Frame) (b : Broker) : io (Frame * Broker) :=
  with_coordinator req b (fun gc =>
    match decode_body HeartbeatRequest_decode req with
    | None => refuse req b MALFORMED_BODY (str "Malformed HEARTBEAT body")
    | Some m =>
        let '(res, gc) := GroupCoordinator_heartbeat gc (env_now env) (hbr_group_id m) (hbr_member_id m)
                            (hbr_generation m) in
        let b := bk_set_coordinator gc b in
        if negb (res.2 =? 0) then refuse req b res.2 (m_msg res.1) else
        mret (mkFrame HEADER_SIZE HEARTBEAT_OK (request_id req) [], b)
    end).

Definition MessageHandler_handle_leave_group (req : Frame) (b : Broker) : io (Frame * Broker) :=
  with_coordinator req b (fun gc =>
    match decode_body LeaveGroupRequest_decode req with
    | None => refuse req b MALFORMED_BODY (str "Malformed LEAVE_GROUP body")
    | Some m =>
        let '(res, gc) := GroupCoordinator_leave (bk_topics b) gc (lgr_group_id m) (lgr_member_id m) in
        let b := bk_set_coordinator gc b in
        if negb (res.2 =? 0) then refuse req b res.2 (m_msg res.1) else
        mret (mkFrame HEADER_SIZE LEAVE_GROUP_OK (request_id req) [], b)
    end).

Definition commit_entry (e : CommitOffsetItemWire) : OffsetCommitRequestEntry :=
  mkOffsetCommitRequestEntry (ciw_topic e) (ciw_partition e) (ciw_offset e).

Definition MessageHandler_handle_commit_offset (env : Env) (req : Frame) (b : Broker) : io (Frame * Broker) :=
  with_coordinator req b (fun gc =>
    match decode_body CommitOffsetRequest_decode req with
    | None => refuse req b MALFORMED_BODY (str "Malformed COMMIT_OFFSET body")
    | Some m =>
        let entries := commit_entry <$> cor_entries m in
        '(res, os, tm) ← GroupCoordinator_commit (env_now_ms env) (env_now env) (bk_topics b) (bk_offsets b) gc
                           (cor_group_id m) (cor_member_id m) (cor_generation m) entries;
        let b := mkBroker tm os (bk_coordinator b) in
        if negb (res.2 =? 0) then refuse req b res.2 (m_msg res.1) else
        mret (mkFrame HEADER_SIZE COMMIT_OK (request_id req) [], b)
    end).

Definition MessageHandler_handle_fetch_offset (req : Frame) (b : Broker) : io (Frame * Broker) :=
  with_coordinator req b (fun gc =>
    match decode_body FetchOffsetRequest_decode req with
    | None => refuse req b MALFORMED_BODY (str "Malformed FETCH_OFFSET body")
    | Some m =>
        let queries := (fun q => (fqw_topic q, fqw_partition q)) <$> for_queries m in
        let '(st, code, offsets) := GroupCoordinator_fetch_offsets (bk_offsets b) (for_group_id m) queries in
        if negb (code =? 0) then refuse req b code (m_msg st) else
        let resp := mkFetchOffsetResponse (u16 (zlen queries))
                      (zip_with (fun q o => mkOffsetEntryWire q.1 q.2 o) queries offsets) in
        mret (response OFFSETS req (bw_buffer (FetchOffsetResponse_encode resp empty_writer)), b)
    end).

Definition member_wire (m : MemberDescription) : MemberDescriptionWire :=
  mkMemberDescriptionWire (md_member_id m) (md_session_timeout_ms m) (md_ms_since_heartbeat m)
    (u16 (zlen (md_assignment m))) (partition_wire <$> md_assignment m).

Definition MessageHandler_handle_describe_group (env : Env) (req : Frame) (b : Broker) : io (Frame * Broker) :=
  with_coordinator req b (fun gc =>
    match decode_body DescribeGroupRequest_decode req with
    | None => refuse req b MALFORMED_BODY (str "Malformed DESCRIBE_GROUP body")
    | Some m =>
        let desc := GroupCoordinator_describe gc (env_now env) (dgr_group_id m) in
        if negb (gd_error_code desc =? 0) then refuse req b (gd_error_code desc) (m_msg (gd_status desc)) else
        let resp := mkDescribeGroupResponse (gd_group_id desc) (gd_generation desc) (gd_state desc)
                      (gd_strategy desc) (u16 (zlen (gd_members desc))) (member_wire <$> gd_members desc) in
        mret (response GROUP_DESCRIPTION req (bw_buffer (DescribeGroupResponse_encode resp empty_writer)), b)
    end).

Definition MessageHandler_handle_request (env : Env) (req : Frame) (b : Broker) : io (Frame * Broker) :=
  let type := frame_type req in
  if type =? PING then mret (FrameCodec_create_pong_frame (request_id req), b) else
  if type =? ECHO then mret (FrameCodec_create_echo_reply_frame (request_id req) (body req), b) else
  if type =? CREATE_TOPIC then MessageHandler_handle_create_topic env req b else
  if type =? PRODUCE then MessageHandler_handle_produce env req b else
  if type =? FETCH then MessageHandler_handle_fetch req b else
  if type =? LIST_TOPICS then MessageHandler_handle_list_topics req b else
  if type =? DESCRIBE_TOPIC then MessageHandler_handle_describe_topic req b else
  if type =? JOIN_GROUP then MessageHandler_handle_join_group env req b else
  if type =? HEARTBEAT then MessageHandler_handle_heartbeat env req b else
  if type =? LEAVE_GROUP then MessageHandler_handle_leave_group req b else
  if type =? COMMIT_OFFSET then MessageHandler_handle_commit_offset env req b else
  if type =? FETCH_OFFSET then MessageHandler_handle_fetch_offset req b else
  if type =? DESCRIBE_GROUP then MessageHandler_handle_describe_group env req b else
  refuse req b UNKNOWN_TYPE (str "Unknown message type: 0x" ++ std_to_string type).

(** The cases of the [switch] the theorems need. *)
Lemma dispatch_produce env req b : frame_type req = PRODUCE ->
  MessageHandler_handle_request env req b = MessageHandler_handle_produce env req b.
Proof. intros H. unfold MessageHandler_handle_request. by rewrite H. Qed.

Lemma dispatch_fetch env req b : frame_type req = FETCH ->
  MessageHandler_handle_request env req b = MessageHandler_handle_fetch req b.
Proof. intros H. unfold MessageHandler_handle_request. by rewrite H. Qed.

Lemma dispatch_describe env req b : frame_type req = DESCRIBE_TOPIC ->
  MessageHandler_handle_request env req b = MessageHandler_handle_describe_topic req b.
Proof. intros H. unfold MessageHandler_handle_request. by rewrite H. Qed.

End handlers.

(** ** What holds of every result *)

Section always.
Context {W : Win32}.

(** Whatever the disk does: if the operation ends with [a], then [Q a]. *)
Definition always {A} (Q : A -> Prop) (m : io A) : Prop := forall d a d', m d = Some (a, d') -> Q a.

Lemma always_ret {A} (Q : A -> Prop) a : Q a -> always Q (mret a).
Proof. intros H d a' d' E. by injection E as <- <-. Qed.

Lemma always_bind {A B} (Q : B -> Prop) (P : A -> Prop) (m : io A) (k : A -> io B) :
  always P m -> (forall a, P a -> always Q (k a)) -> always Q (m ≫= k).
Proof.
  intros Hm Hk d b d' E. unfold mbind, io_bind in E. destruct (m d) as [[a d1]|] eqn:Em; [|done].
  eapply Hk; [by eapply Hm|exact E].
Qed.

Lemma always_bind_any {A B} (Q : B -> Prop) (m : io A) (k : A -> io B) :
  (forall a, always Q (k a)) -> always Q (m ≫= k).
Proof. intros Hk. apply (always_bind Q (fun _ => True)); [done|auto]. Qed.

End always.

Section answers.
Context {N : Winsock} {W : Win32} {F : Fstream W}.

(** The type of the answer to a request that is carried out. *)
Definition ok_type (type : Z) : Z := Z.lor type 0x80.

Definition answers (req : Frame) (r : Frame * Broker) : Prop :=
  request_id r.1 = request_id req /\
  (frame_type r.1 = MSG_ERROR \/ frame_type r.1 = ok_type (frame_type req)).

Lemma answers_refuse req b code msg : always (answers req) (refuse req b code msg).
Proof. apply always_ret. split; [done|by left]. Qed.

Lemma answers_response req b type bs :
  type = ok_type (frame_type req) -> always (answers req) (mret (response type req bs, b)).
Proof. intros ->. apply always_ret. split; [done|by right]. Qed.

Lemma answers_empty req b type :
  type = ok_type (frame_type req) -> always (answers req) (mret (mkFrame HEADER_SIZE type (request_id req) [], b)).
Proof. intros ->. apply always_ret. split; [done|by right]. Qed.

(** Every path of a handler ends in one of these. *)
Ltac answer :=
  repeat first
    [ apply answers_refuse
    | apply answers_response; by match goal with H : frame_type _ = _ |- _ => rewrite H end
    | apply answers_empty; by match goal with H : frame_type _ = _ |- _ => rewrite H end
    | apply always_bind_any; intros
    | case_match ].

Lemma request_answers env req b : always (answers req) (MessageHandler_handle_request env req b).
Proof.
  unfold MessageHandler_handle_request. cbv zeta.
  repeat (lazymatch goal with |- context [if frame_type req =? ?t then _ else _] =>
    destruct (Z.eqb_spec (frame_type req) t) as [Ht|_] end).
  1,2: apply always_ret; split; [done|by right; rewrite Ht].
  all: unfold MessageHandler_handle_create_topic, MessageHandler_handle_produce, MessageHandler_handle_fetch,
    MessageHandler_handle_list_topics, MessageHandler_handle_describe_topic, MessageHandler_handle_join_group,
    MessageHandler_handle_heartbeat, MessageHandler_handle_leave_group, MessageHandler_handle_commit_offset,
    MessageHandler_handle_fetch_offset, MessageHandler_handle_describe_group, with_coordinator, fetch_sections, fetch_response;
    cbv zeta; answer.
Qed.

(** ** Internal topics *)

(** The offset store and the topics with reserved names are as they were. *)
Definition keeps_internal (b : Broker) (r : Frame * Broker) : Prop :=
  bk_offsets r.2 = bk_offsets b /\
  forall name, reserved name = true ->
    TopicManager_get_topic (bk_topics r.2) name = TopicManager_get_topic (bk_topics b) name.

Lemma keeps_same b f b' : bk_offsets b' = bk_offsets b -> bk_topics b' = bk_topics b ->
  always (keeps_internal b) (mret (f, b')).
Proof. intros Ho Ht. apply always_ret. split; cbn; [done|]. intros name _. by rewrite Ht. Qed.

Lemma keeps_set_topic b f name t tm : reserved name = false ->
  tm_topics tm = <[name := t]> (tm_topics (bk_topics b)) -> always (keeps_internal b) (mret (f, bk_set_topics tm b)).
Proof.
  intros Hr Ht. apply always_ret. split; [done|]. intros nm Hn. unfold TopicManager_get_topic. cbn.
  rewrite Ht. apply lookup_insert_ne. congruence.
Qed.

Lemma create_topic_adds now tm name n ms rb :
  always (fun '(_, tm') => tm' = tm \/ exists t, tm' = tm_set_topic name t tm)
    (TopicManager_create_topic now tm name n ms rb).
Proof.
  unfold TopicManager_create_topic.
  repeat first [apply always_ret; by eauto | apply always_bind_any; intros | case_match].
Qed.

Lemma create_keeps_internal env req b :
  always (keeps_internal b) (MessageHandler_handle_create_topic env req b).
Proof.
  unfold MessageHandler_handle_create_topic. destruct (decode_body _ _) as [m|]; [|by apply keeps_same].
  destruct (_ =? 0); [by apply keeps_same|]. destruct (reserved _) eqn:Er; [by apply keeps_same|].
  destruct (TopicManager_validate_topic_name _); [by apply keeps_same|].
  eapply always_bind; [apply create_topic_adds|]. intros [res tm] [->|[t ->]];
    destruct res; solve [by apply keeps_same | by eapply keeps_set_topic].
Qed.

Lemma produce_keeps_internal env req b :
  always (keeps_internal b) (MessageHandler_handle_produce env req b).
Proof.
  unfold MessageHandler_handle_produce. destruct (decode_body _ _) as [m|]; [|by apply keeps_same].
  destruct (reserved _) eqn:Er; [by apply keeps_same|]. case_bool_decide; [by apply keeps_same|].
  destruct (TopicManager_get_topic _ _) as [t|]; [|by apply keeps_same].
  apply always_bind_any. intros [[res chosen] t']. destruct res; by eapply keeps_set_topic.
Qed.

Lemma request_keeps_internal env req b : frame_type req <> COMMIT_OFFSET ->
  always (keeps_internal b) (MessageHandler_handle_request env req b).
Proof.
  intros Hc. unfold MessageHandler_handle_request. cbv zeta.
  repeat (lazymatch goal with |- context [if frame_type req =? ?t then _ else _] =>
    destruct (Z.eqb_spec (frame_type req) t) as [Ht|_] end); try done.
  1,2: by apply keeps_same.
  1: apply create_keeps_internal.
  1: apply produce_keeps_internal.
  all: unfold MessageHandler_handle_fetch,
    MessageHandler_handle_list_topics, MessageHandler_handle_describe_topic, MessageHandler_handle_join_group,
    MessageHandler_handle_heartbeat, MessageHandler_handle_leave_group,
    MessageHandler_handle_fetch_offset, MessageHandler_handle_describe_group, with_coordinator, fetch_sections, fetch_response;
    cbv zeta; repeat first [apply keeps_same; reflexivity | apply always_bind_any; intros | case_match].
Qed.

End answers.

(** ** Properties *)

(** An answer belongs to its request.  Whatever the request, the state of the
    broker and the disk, a response carries the id of the request, and its type is
    either the error type or the request's type with the response bit set. *)
Theorem response_matches_request {N : Winsock} {W : Win32} {F : Fstream W} env req b d f b' d' :
  MessageHandler_handle_request env req b d = Some (f, b', d') ->
  request_id f = request_id req /\ (frame_type f = MSG_ERROR \/ frame_type f = Z.lor (frame_type req) 0x80).
Proof. apply request_answers. Qed.

Definition demo_broker_state : Broker := mkBroker demo_tm (mkOffsetStore None ∅) (Some (demo_gc 0 [str "orders"])).
Definition demo_env : Env := mkEnv 1000 3000000 7.

(** A heartbeat of the second member. *)
Definition demo_heartbeat : Frame :=
  let body := bw_buffer (HeartbeatRequest_encode (W := x86_winsock)
                (mkHeartbeatRequest (str "billing") demo_member2 2) empty_writer) in
  mkFrame (5 + zlen body) HEARTBEAT 77 body.

Lemma demo_heartbeat_ok :
  (fun r => r.1.1) <$> MessageHandler_handle_request (N := x86_winsock) (W := memory_disk) demo_env demo_heartbeat
    demo_broker_state ∅ = Some (mkFrame 5 HEARTBEAT_OK 77 []).
Proof. by vm_compute. Qed.

Example response_matches_request_witness :
  exists f b d, MessageHandler_handle_request (N := x86_winsock) (W := memory_disk) demo_env demo_heartbeat
    demo_broker_state ∅ = Some (f, b, d) /\ request_id f = 77 /\
    (frame_type f = MSG_ERROR \/ frame_type f = Z.lor HEARTBEAT 0x80).
Proof.
  pose proof demo_heartbeat_ok as H. unfold fmap, option_fmap, option_map in H.
  destruct (MessageHandler_handle_request _ _ _ _) as [[[f b] d]|] eqn:E; [|discriminate H].
  exists f, b, d. split; [reflexivity|].
  exact (response_matches_request (N := x86_winsock) (W := memory_disk) demo_env demo_heartbeat demo_broker_state ∅ f b d E).
Defined.

(** Internal topics are out of the clients' reach.  No request but a commit
    changes the offset store or a topic whose name starts with two underscores,
    whatever its outcome; and a PRODUCE, FETCH or DESCRIBE_TOPIC that names such a
    topic is refused with [INVALID_TOPIC_NAME] and changes nothing. *)
Theorem internal_topics_shielded {N : Winsock} {W : Win32} {F : Fstream W} env req b d :
  frame_type req <> COMMIT_OFFSET ->
  (forall f b' d', MessageHandler_handle_request env req b d = Some (f, b', d') ->
     bk_offsets b' = bk_offsets b /\
     forall name, starts_with (str "__") name = true ->
       TopicManager_get_topic (bk_topics b') name = TopicManager_get_topic (bk_topics b) name) /\
  (forall name, starts_with (str "__") name = true ->
     (frame_type req = PRODUCE /\ (pr_topic <$> decode_body ProduceRequest_decode req) = Some name) \/
     (frame_type req = FETCH /\ (fr_topic <$> decode_body FetchRequest_decode req) = Some name) \/
     (frame_type req = DESCRIBE_TOPIC /\ (dtr_topic <$> decode_body DescribeTopicRequest_decode req) = Some name) ->
     MessageHandler_handle_request env req b d =
       Some (FrameCodec_create_error_frame (request_id req) INVALID_TOPIC_NAME reserved_name, b, d)).
Proof.
  intros Hc. split; [intros f b' d' E; by apply (request_keeps_internal env req b Hc d (f, b') d')|].
  intros name Hn [[Ht Hm]|[[Ht Hm]|[Ht Hm]]];
    [rewrite dispatch_produce by done|rewrite dispatch_fetch by done|rewrite dispatch_describe by done];
    unfold MessageHandler_handle_produce, MessageHandler_handle_fetch, MessageHandler_handle_describe_topic;
    apply fmap_Some in Hm as (m & -> & ->); unfold reserved; by rewrite Hn.
Qed.

Definition demo_internal_fetch : Frame :=
  let body := bw_buffer (FetchRequest_encode (W := x86_winsock)
                (mkFetchRequest INTERNAL_OFFSETS_TOPIC 0 0 1000 10) empty_writer) in
  mkFrame (HEADER_SIZE + zlen body) FETCH 7 body.

Example internal_topics_shielded_witness :
  MessageHandler_handle_request (N := x86_winsock) (W := memory_disk) demo_env demo_internal_fetch demo_broker_state ∅ =
    Some (FrameCodec_create_error_frame (W := x86_winsock) 7 INVALID_TOPIC_NAME reserved_name, demo_broker_state, ∅).
Proof.
  apply (internal_topics_shielded (N := x86_winsock) (W := memory_disk) demo_env demo_internal_fetch demo_broker_state ∅
    ltac:(discriminate)) with (name := INTERNAL_OFFSETS_TOPIC); [done|].
  right; left. split; [done|by vm_compute].
Defined.

(** Whether the body of a request can be decoded as its type demands. *)
Definition request_decodes {N : Winsock} (req : Frame) : bool :=
  let ok {A} (r : reader A) := bool_decide (is_Some (fst <$> r (BodyReader_of (body req)))) in
  let type := frame_type req in
  if type =? CREATE_TOPIC then ok CreateTopicRequest_decode else
  if type =? PRODUCE then ok ProduceRequest_decode else
  if type =? FETCH then ok FetchRequest_decode else
  if type =? LIST_TOPICS then ok ListTopicsRequest_decode else
  if type =? DESCRIBE_TOPIC then ok DescribeTopicRequest_decode else
  if type =? JOIN_GROUP then ok JoinGroupRequest_decode else
  if type =? HEARTBEAT then ok HeartbeatRequest_decode else
  if type =? LEAVE_GROUP then ok LeaveGroupRequest_decode else
  if type =? COMMIT_OFFSET then ok CommitOffsetRequest_decode else
  if type =? FETCH_OFFSET then ok FetchOffsetRequest_decode else
  if type =? DESCRIBE_GROUP then ok DescribeGroupRequest_decode else true.

(** A malformed body has no effect.  A request of any type whose body its decoder
    rejects (truncated, with bytes left over, or with a count that cannot fit) is
    answered with [MALFORMED_BODY]; broker and disk stay exactly as they are. *)
Theorem malformed_body_refused {N : Winsock} {W : Win32} {F : Fstream W} env req b d :
  is_Some (bk_coordinator b) -> request_decodes req = false ->
  exists msg, MessageHandler_handle_request env req b d =
    Some (FrameCodec_create_error_frame (request_id req) MALFORMED_BODY msg, b, d).
Proof.
  intros [gc Hgc] Hd. unfold request_decodes in Hd. unfold MessageHandler_handle_request. cbv zeta in *.
  repeat (lazymatch goal with |- context [if frame_type req =? ?t then _ else _] =>
    destruct (Z.eqb_spec (frame_type req) t) as [Ht|_] end); try (rewrite Ht in Hd; discriminate Hd); try done.
  all: try (rewrite Ht in Hd; cbn in Hd).
  all: unfold MessageHandler_handle_create_topic, MessageHandler_handle_produce, MessageHandler_handle_fetch,
    MessageHandler_handle_list_topics, MessageHandler_handle_describe_topic, MessageHandler_handle_join_group,
    MessageHandler_handle_heartbeat, MessageHandler_handle_leave_group, MessageHandler_handle_commit_offset,
    MessageHandler_handle_fetch_offset, MessageHandler_handle_describe_group, with_coordinator;
    rewrite ?Hgc; unfold decode_body.
  all: apply bool_decide_eq_false in Hd; apply eq_None_not_Some in Hd; rewrite Hd; by eexists.
Qed.

(** A heartbeat whose group id is cut off. *)
Example malformed_body_refused_witness :
  exists msg, MessageHandler_handle_request (N := x86_winsock) (W := memory_disk) demo_env
    (mkFrame 7 HEARTBEAT 78 [Byte.x00; Byte.x09]) demo_broker_state ∅ =
    Some (FrameCodec_create_error_frame (W := x86_winsock) 78 MALFORMED_BODY msg, demo_broker_state, ∅).
Proof.
  apply (malformed_body_refused (N := x86_winsock) (W := memory_disk) demo_env
    (mkFrame 7 HEARTBEAT 78 [Byte.x00; Byte.x09])).
  - eexists. reflexivity.
  - by vm_compute.
Defined.
