(* ===== verification/RequestFlow.v ===== *)
(** * RequestFlow: produce and fetch from the client's side of the wire

    The path of a record through the whole broker: a client encodes a PRODUCE, the
    handler decodes it, the topic chooses a partition and appends to its log on disk;
    a FETCH reads the log back into a response that the client decodes.  The theorems
    compose the codecs, the handlers (src/MessageHandler.cpp), the topic manager and
    the partitions, over the logs of [store_is]. *)
From S2P Require Import Prelude StdString Status RecordCodec FrameCodec BodyCodec ProtocolMessages FileHandle OffsetIndex.
From S2P Require Import LogSegment Partition PartitionRead PartitionRecovery PartitionFrame PartitionProps.
From S2P Require Import Partitioner Assignor Topic TopicManager OffsetStore GroupCoordinator MessageHandler.

(** ** The bounds of a fetch *)

Lemma record_size_min r : 28 <= record_size r.
Proof. unfold record_size. pose proof (zlen_nonneg (key r)). pose proof (zlen_nonneg (value r)). lia. Qed.

Lemma take_limit_bytes mm mb l : forall b m, 0 <= b ->
  let out := (take_limit mm mb b m l).1.1.1 in
  out = [] \/ (zlen out = 1 \/ b + 28 * (zlen out - 1) < mb).
Proof.
  induction l as [|r l IH]; intros b m Hb; cbn [take_limit]; [by left|].
  pose proof (record_size_min r) as Hr.
  right. destruct ((mm <=? m + 1) || (mb <=? b + record_size r)) eqn:El; [by left|].
  apply orb_false_iff in El as [_ El]. apply Z.leb_gt in El.
  specialize (IH (b + record_size r) (m + 1) ltac:(lia)).
  destruct (take_limit mm mb (b + record_size r) (m + 1) l) as [[[out ?] ?] ?]. cbn [fst] in *.
  rewrite zlen_cons. destruct IH as [->|[IH|IH]]; [by left| |]; right; lia.
Qed.

(** Limits that are not reached before the end cut nothing off. *)
Lemma take_limit_all mm mb l : forall b m,
  b + foldr (fun r n => record_size r + n) 0 l <= mb -> m + zlen l <= mm -> (take_limit mm mb b m l).1.1.1 = l.
Proof.
  induction l as [|r l IH]; intros b m Hb Hm; cbn [take_limit foldr] in *; [done|]. rewrite zlen_cons in Hm.
  assert (forall l', 0 <= foldr (fun r n => record_size r + n) 0 l') as Hpos.
  { induction l' as [|x l' IH']; cbn [foldr]; [lia|].
    pose proof (record_size_min x). lia. }
  destruct l as [|r' l]; [by destruct (_ || _)|].
  rewrite zlen_cons in Hm. pose proof (zlen_nonneg l). specialize (Hpos l).
  pose proof (record_size_min r').
  replace ((mm <=? m + 1) || (mb <=? b + record_size r)) with false
    by (cbn [foldr] in Hb; symmetry; apply orb_false_iff; rewrite !Z.leb_gt; lia).
  specialize (IH (b + record_size r) (m + 1) ltac:(lia) ltac:(rewrite zlen_cons; lia)).
  destruct (take_limit _ _ _ _ (r' :: l)) as [[[out ?] ?] ?]. cbn [fst] in *. by rewrite IH.
Qed.

Definition batch_bytes (batch : list (bytes * bytes)) : Z :=
  foldr (fun kv n => 28 + zlen kv.1 + zlen kv.2 + n) 0 batch.

Lemma batch_records_size now batch : forall next,
  foldr (fun r n => record_size r + n) 0 (batch_records next now batch) = batch_bytes batch.
Proof.
  induction batch as [|[k v] batch IH]; intros next; cbn [batch_records foldr]; [done|].
  rewrite IH. unfold record_size, batch_bytes. cbn. lia.
Qed.

Lemma batch_bytes_pos batch : batch <> [] -> 0 < batch_bytes batch.
Proof.
  assert (forall l, 0 <= batch_bytes l) as Hpos.
  { induction l as [|[k v] l IH]; unfold batch_bytes in *; cbn [foldr fst snd]; [lia|].
    pose proof (zlen_nonneg k). pose proof (zlen_nonneg v). lia. }
  destruct batch as [|[k v] l]; [done|]. intros _. specialize (Hpos l). unfold batch_bytes in *. cbn [foldr fst snd].
  pose proof (zlen_nonneg k). pose proof (zlen_nonneg v). lia.
Qed.

Section flow.
Context {N : Winsock} {W : Win32} {R : Reliable W} {F : Fstream W} {RF : ReliableStreams W F}.

Lemma decode_encoded {A} (wf : A -> Prop) encode (decode : reader A) layout req m :
  (forall m, wf m -> reads_end decode m (layout m)) ->
  (forall m w, wf m -> encode m w = BodyWriter_append (layout m) w) ->
  wf m -> body req = bw_buffer (encode m empty_writer) -> decode_body decode req = Some m.
Proof.
  intros Hr He Hm Hb. unfold decode_body. rewrite Hb.
  by rewrite (layout_roundtrips wf encode decode layout Hr He m Hm).
Qed.

(** The topic a request names. *)
Lemma request_topic d tm os logs E0 L0 name Ls :
  store_is d tm os logs E0 L0 -> logs !! name = Some Ls ->
  exists t, TopicManager_get_topic tm name = Some t /\ topic_is d t Ls /\ zlen (tc_partitions t) = zlen Ls.
Proof.
  intros Hs HL. destruct (tm_is_logs _ _ _ _ _ (tmi_holds _ _ _ (si_tm _ _ _ _ _ _ Hs)) HL) as (t & Ht & He).
  pose proof (te_is _ _ _ _ _ He) as Hti. exists t. split_and!; [done|done|].
  unfold zlen. by rewrite (Forall2_length (ti_logs _ _ _ Hti)).
Qed.

(** The store keeps its log when another topic grows. *)
Lemma store_is_update d d' tm os logs E0 L0 name t t' Ls c E L :
  store_is d tm os logs E0 L0 -> reserved name = false -> TopicManager_get_topic tm name = Some t ->
  topic_is d t Ls -> logs !! name = Some Ls -> same_topic t t' -> 0 <= c < zlen (tc_partitions t) ->
  topic_is d' t' (<[Z.to_nat c := (E, L)]> Ls) ->
  (exists p', tc_partitions t' = <[Z.to_nat c := p']> (tc_partitions t) /\
     outside (pt_partition_dir p') (files d) (files d')) ->
  store_is d' (tm_set_topic name t' tm) os (<[name := <[Z.to_nat c := (E, L)]> Ls]> logs) E0 L0.
Proof.
  intros [Htm HL0 Hptr Hc0] Hr Ht Hti HLs Hst Hc Hti' (p' & Hp' & Hout).
  pose proof (Forall2_length (ti_logs _ _ _ Hti)) as Hlen.
  assert (Z.to_nat c < length (tc_partitions t))%nat as Hlt by (unfold zlen in Hc; lia).
  assert (tc_partitions t' !! Z.to_nat c = Some p') as Hl by (rewrite Hp'; by apply list_lookup_insert_eq).
  split; [|rewrite lookup_insert_ne; [done|intros ->; by vm_compute in Hr]|done|done].
  eapply (tm_is_update d d' tm logs name t t' Ls (Z.to_nat c) p' (E, L)); try done.
  - lia.
  - rewrite (ti_dirs _ _ _ Hti' _ _ Hl). destruct Hst as (_ & -> & _). done.
  - apply (Forall2_lookup_lr _ _ _ _ _ _ (ti_logs _ _ _ Hti') Hl). apply list_lookup_insert_eq. lia.
Qed.

Lemma wp_handle_produce env req b d logs E0 L0 m Ls Q :
  store_is d (bk_topics b) (bk_offsets b) logs E0 L0 -> is_i64 (env_now_ms env) ->
  frame_type req = PRODUCE -> ProduceRequest_wf m -> body req = bw_buffer (ProduceRequest_encode m empty_writer) ->
  reserved (pr_topic m) = false -> logs !! pr_topic m = Some Ls -> zlen Ls <= 65536 ->
  -1 <= pr_partition m < zlen Ls -> pr_records m <> [] ->
  let batch := (fun r => (prp_key r, prp_value r)) <$> pr_records m in
  batch_ok batch -> Forall (fun EL => EL.1 + zlen EL.2 + zlen batch < 2 ^ 64) Ls ->
  (forall f b' d' c E L, Ls !! Z.to_nat c = Some (E, L) -> 0 <= c < zlen Ls ->
     (pr_partition m <> -1 -> c = pr_partition m) -> request_id f = request_id req -> frame_type f = PRODUCE_OK ->
     decode_body ProduceResponse_decode f = Some (mkProduceResponse c (E + zlen L) (zlen (pr_records m))) ->
     zlen (body f) = 12 -> frame_length f = 17 ->
     (let L' := L ++ batch_records (E + zlen L) (env_now_ms env) batch in
      store_is d' (bk_topics b') (bk_offsets b')
        (<[pr_topic m := <[Z.to_nat c := (E, L')]> Ls]> logs) E0 L0) ->
     Q (f, b') d') ->
  wp (MessageHandler_handle_request env req b) Q d.
Proof.
  intros Hs Hnow Hty Hwf Hb Hr HLs Hn Hp Hne batch Hbatch Hlim HQ. rewrite dispatch_produce by done.
  unfold MessageHandler_handle_produce.
  rewrite (decode_encoded _ _ _ _ req m ProduceRequest_reads ProduceRequest_encode_append Hwf Hb).
  rewrite Hr, bool_decide_eq_false_2 by done. destruct (request_topic _ _ _ _ _ _ _ _ Hs HLs) as (t & Ht & Hti & Hl).
  rewrite Ht. apply wp_bind. eapply wp_mono; [eapply wp_produce; [exact Hti|done|by rewrite Hl|done|done|exact Hlim]|].
  intros [[res c] t'] d' (Hc1 & _ & Hst & E & L & Hc & -> & Hti' & Hcr & Hp'). apply wp_ret.
  destruct Hwf as (_ & _ & Hcnt & Hu & _). rewrite Hl in Hcr.
  assert (E + zlen L < 2 ^ 64 /\ 0 <= E) as [Hlt HE].
  { rewrite list.Forall_forall in Hlim. pose proof (Hlim _ (list_elem_of_lookup_2 _ _ _ Hc)) as H. cbn in H.
    pose proof (zlen_nonneg batch). split; [lia|].
    destruct (lookup_lt_is_Some_2 (tc_partitions t) (Z.to_nat c)) as [p Hpc]; [unfold zlen in *; lia|].
    by destruct (part_is_next _ _ _ _ (Forall2_lookup_lr _ _ _ _ _ _ (ti_logs _ _ _ Hti) Hpc Hc)) as (_ & ? & _). }
  apply (HQ _ _ _ c E L); try done.
  - rewrite (u16_id c), (u16_id (zlen _)) by (done || (unfold is_u16; lia)).
    eapply (decode_encoded _ _ _ _ _ _ ProduceResponse_reads ProduceResponse_encode_append); [|done].
    pose proof (zlen_nonneg L). repeat split; cbn; unfold is_u16 in *; lia.
  - cbn zeta. eapply store_is_update; try done. by rewrite Hl.
Qed.

(** What a FETCH from [start] returns of a log. *)
Definition fetched (m : FetchRequest) (E : Z) (L : list Record) : list Record :=
  (take_limit (fr_max_messages m) (Z.min (fr_max_bytes m) 1048500) 0 0
     (drop (Z.to_nat (fr_start_offset m - E)) L)).1.1.1.

Definition fetch_result (m : FetchRequest) (E : Z) (L : list Record) : FetchResponse :=
  let out := fetched m E L in
  mkFetchResponse (fr_start_offset m + zlen out) (E + zlen L) E (zlen out) (fetch_wire <$> out).

Lemma fetched_prefix m E L : fetched m E L `prefix_of` drop (Z.to_nat (fr_start_offset m - E)) L.
Proof. apply take_limit_prefix. Qed.

(** From the offset a batch was given, it is the batch that is read. *)
Lemma fetched_batch m E L now batch :
  fr_start_offset m = E + zlen L -> batch_bytes batch <= Z.min (fr_max_bytes m) 1048500 ->
  zlen batch <= fr_max_messages m ->
  fetched m E (L ++ batch_records (E + zlen L) now batch) = batch_records (E + zlen L) now batch.
Proof.
  intros Hs Hb Hm. unfold fetched. rewrite Hs, drop_app_length' by (unfold zlen; lia).
  apply take_limit_all; [by rewrite batch_records_size|by rewrite zlen_batch_records].
Qed.

Lemma fetched_lookup d p m E L i r : part_is d p E L -> E <= fr_start_offset m ->
  fetched m E L !! i = Some r -> offset r = fr_start_offset m + Z.of_nat i /\ Record_wf r.
Proof.
  intros P Hs Hi. eapply prefix_lookup_Some in Hi; [|apply fetched_prefix]. rewrite lookup_drop in Hi.
  destruct (part_is_offsets _ _ _ _ _ _ P Hi) as [-> Hwf]. split; [lia|done].
Qed.

Lemma fetched_count m E L : 0 <= zlen (fetched m E L) < 65536.
Proof.
  split; [apply zlen_nonneg|].
  pose proof (take_limit_bytes (fr_max_messages m) (Z.min (fr_max_bytes m) 1048500)
    (drop (Z.to_nat (fr_start_offset m - E)) L) 0 0 ltac:(lia)) as H. cbn zeta in H. fold (fetched m E L) in H.
  destruct H as [->|[H|H]]; [by vm_compute|lia|lia].
Qed.

Lemma fetched_length d p m E L : part_is d p E L -> E <= fr_start_offset m <= E + zlen L ->
  fr_start_offset m + zlen (fetched m E L) <= E + zlen L.
Proof.
  intros P Hs. pose proof (prefix_length _ _ (fetched_prefix m E L)) as H. rewrite length_drop in H.
  unfold zlen in *. lia.
Qed.

Lemma fetch_result_wf d p m E L : part_is d p E L -> E <= fr_start_offset m <= E + zlen L ->
  FetchResponse_wf (fetch_result m E L).
Proof.
  intros P Hs. destruct (part_is_next _ _ _ _ P) as (Hn & HE & Hlt). rewrite Hn in Hlt.
  pose proof (fetched_length _ _ _ _ _ P Hs). pose proof (fetched_count m E L) as Hc.
  unfold FetchResponse_wf, fetch_result. cbn. rewrite zlen_fmap. unfold is_u64, is_u16.
  split_and!; try lia. apply Forall_fmap, list.Forall_lookup. intros i r Hi.
  destruct (fetched_lookup _ _ _ _ _ _ _ P (proj1 Hs) Hi) as [_ (Ho & Ht & Hsz)]. unfold record_size in Hsz.
  pose proof (zlen_nonneg (key r)). pose proof (zlen_nonneg (value r)).
  unfold FetchRecordWire_wf, MAX_FRAME_LENGTH, MAX_RECORD_SIZE in *. cbn. split_and!; [done|done|lia|lia].
Qed.

(** The log behind a topic and a partition number. *)
Lemma log_partition d tm os logs E0 L0 name Ls i E L :
  store_is d tm os logs E0 L0 -> logs !! name = Some Ls -> Ls !! i = Some (E, L) ->
  exists p, part_is d p E L.
Proof.
  intros Hs HLs HL. destruct (request_topic _ _ _ _ _ _ _ _ Hs HLs) as (t & _ & Hti & Hl).
  destruct (lookup_lt_is_Some_2 (tc_partitions t) i) as [p Hp].
  { pose proof (lookup_lt_Some _ _ _ HL). unfold zlen in Hl. lia. }
  exists p. exact (Forall2_lookup_lr _ _ _ _ _ _ (ti_logs _ _ _ Hti) Hp HL).
Qed.

(** The offset after the last record of the answer. *)
Lemma fetched_next d p m E L : part_is d p E L -> E <= fr_start_offset m <= E + zlen L ->
  match list.last (fetch_wire <$> fetched m E L) with
  | None => fr_start_offset m
  | Some r => u64 (frw_offset r + 1)
  end = fr_start_offset m + zlen (fetched m E L).
Proof.
  intros P Hs. pose proof (fetched_length _ _ _ _ _ P Hs) as Hl. destruct (part_is_next _ _ _ _ P) as (Hn & HE & Hlt).
  rewrite fmap_last, last_lookup. destruct (fetched m E L !! _) as [r|] eqn:Er; cbn [fmap option_fmap option_map].
  - pose proof (lookup_lt_Some _ _ _ Er) as Hlen. destruct (fetched_lookup _ _ _ _ _ _ _ P (proj1 Hs) Er) as [Ho _].
    cbn [frw_offset fetch_wire]. rewrite Ho, u64_id; unfold is_u64, zlen in *; lia.
  - destruct (fetched m E L) as [|x l]; [unfold zlen; cbn [length]; lia|]. apply lookup_ge_None in Er. cbn in Er. lia.
Qed.

Lemma wp_handle_fetch env req b d logs E0 L0 m Ls E L Q :
  store_is d (bk_topics b) (bk_offsets b) logs E0 L0 ->
  frame_type req = FETCH -> FetchRequest_wf m -> body req = bw_buffer (FetchRequest_encode m empty_writer) ->
  reserved (fr_topic m) = false -> logs !! fr_topic m = Some Ls -> Ls !! Z.to_nat (fr_partition m) = Some (E, L) ->
  0 < fr_max_bytes m -> 0 < fr_max_messages m -> E <= fr_start_offset m <= E + zlen L ->
  Q (response FETCH_OK req (bw_buffer (FetchResponse_encode (fetch_result m E L) empty_writer)), b) d ->
  wp (MessageHandler_handle_request env req b) Q d.
Proof.
  intros Hs Hty Hwf Hb Hr HLs HL Hmb Hmm Hst HQ. rewrite dispatch_fetch by done. unfold MessageHandler_handle_fetch, fetch_sections.
  rewrite (decode_encoded _ _ _ _ req m FetchRequest_reads FetchRequest_encode_append Hwf Hb), Hr.
  replace ((fr_max_bytes m =? 0) || (fr_max_messages m =? 0)) with false
    by (symmetry; apply orb_false_iff; rewrite !Z.eqb_neq; lia).
  destruct (request_topic _ _ _ _ _ _ _ _ Hs HLs) as (t & Ht & Hti & Hl). rewrite Ht.
  destruct Hwf as (_ & Hup & _ & Hub & Hum). unfold is_u16, is_u32 in *.
  pose proof (lookup_lt_Some _ _ _ HL) as Hlt. destruct (num_partitions_small t (ti_count _ _ _ Hti)) as [-> _].
  assert ((zlen (tc_partitions t) <=? fr_partition m) = false) as Hle by (apply Z.leb_gt; unfold zlen in *; lia).
  rewrite Hle. apply wp_bind.
  destruct (lookup_lt_is_Some_2 (tc_partitions t) (Z.to_nat (fr_partition m))) as [p Hp]; [unfold zlen in *; lia|].
  apply (wp_opt _ p); [by unfold Topic_get_partition; rewrite Hle|]. cbv zeta.
  pose proof (Forall2_lookup_lr _ _ _ _ _ _ (ti_logs _ _ _ Hti) Hp HL) as P. cbn [fst snd] in P.
  pose proof (fetched_next _ _ m _ _ P Hst) as Hnext. pose proof (fetched_count m E L) as Hcnt.
  destruct (part_is_next _ _ _ _ P) as (Hn & _ & _). rewrite Hn.
  assert (Partition_earliest_offset p = E) as -> by (by destruct P as (? & ? & ? & _ & H & _)).
  destruct (Z.eqb_spec (fr_start_offset m) (E + zlen L)) as [Heq|Hneq].
  - apply wp_ret. unfold fetch_result, fetched in HQ. rewrite drop_ge in HQ by (unfold zlen in Heq; lia).
    cbn in HQ. by rewrite Heq, Z.add_0_r in HQ.
  - rewrite (proj2 (Z.ltb_ge _ _)), (proj2 (Z.ltb_ge (fr_start_offset m) E)) by lia. cbn [orb]. apply wp_bind.
    eapply wp_read; [exact P|done|unfold READ_LIMIT; lia|unfold READ_LIMIT; lia|]. fold (fetched m E L).
    cbn [rr_status rr_records]. change (negb (Status_ok Status_OK)) with false. cbv iota. apply wp_ret.
    rewrite Hnext, zlen_fmap, u16_id by (unfold is_u16; lia). exact HQ.
Qed.

End flow.

(** ** Properties *)

(** A request as a client sends it. *)
Definition request_frame (type id : Z) (body : bytes) : Frame := mkFrame (5 + zlen body) type id body.

(** A PRODUCE does what its answer says.  For a batch of records within the size
    limit to an existing topic, the client gets PRODUCE_OK with the partition that
    took the batch (the one it asked for, if any), the offset of the first record and
    the number of records; exactly that partition's log has grown by the batch, from
    that offset on, with the broker's time; no other log has changed. *)
Theorem produce_request_correct {N : Winsock} {W : Win32} {R : Reliable W} {F : Fstream W} {RF : ReliableStreams W F}
    env b d logs E0 L0 id m Ls :
  store_is d (bk_topics b) (bk_offsets b) logs E0 L0 -> is_i64 (env_now_ms env) -> ProduceRequest_wf m ->
  reserved (pr_topic m) = false -> logs !! pr_topic m = Some Ls -> zlen Ls <= 65536 ->
  -1 <= pr_partition m < zlen Ls -> pr_records m <> [] ->
  let batch := (fun r => (prp_key r, prp_value r)) <$> pr_records m in
  batch_ok batch -> Forall (fun EL => EL.1 + zlen EL.2 + zlen batch < 2 ^ 64) Ls ->
  wp (MessageHandler_handle_request env
        (request_frame PRODUCE id (bw_buffer (ProduceRequest_encode m empty_writer))) b)
    (fun '(f, b') d' => request_id f = id /\ frame_type f = PRODUCE_OK /\
       exists c E L, Ls !! Z.to_nat c = Some (E, L) /\ (pr_partition m <> -1 -> c = pr_partition m) /\
         decode_body ProduceResponse_decode f = Some (mkProduceResponse c (E + zlen L) (zlen (pr_records m))) /\
         let L' := L ++ batch_records (E + zlen L) (env_now_ms env) batch in
         store_is d' (bk_topics b') (bk_offsets b')
           (<[pr_topic m := <[Z.to_nat c := (E, L')]> Ls]> logs) E0 L0) d.
Proof.
  intros Hs Hnow Hwf Hr HLs Hn Hp Hne batch Hb Hlim.
  eapply wp_handle_produce; [exact Hs|done|done|exact Hwf|done|done|exact HLs|done|done|done|done|done|].
  intros f b' d' c E L Hc _ Hc1 Hid Hty Hdec _ _ Hst. split_and!; [done|done|]. exists c, E, L. split_and!; done.
Qed.

(** A FETCH returns the log.  For a position within the log, the client gets
    FETCH_OK with the records from that position on, in order and without gaps, as
    far as its limits and the broker's allow (at least one, if there is any), the
    position to continue from, the end and the beginning of the log; broker and disk
    are unchanged. *)
Theorem fetch_request_correct {N : Winsock} {W : Win32} {R : Reliable W} {F : Fstream W} {RF : ReliableStreams W F}
    env b d logs E0 L0 id m Ls E L :
  store_is d (bk_topics b) (bk_offsets b) logs E0 L0 -> FetchRequest_wf m ->
  reserved (fr_topic m) = false -> logs !! fr_topic m = Some Ls -> Ls !! Z.to_nat (fr_partition m) = Some (E, L) ->
  0 < fr_max_bytes m -> 0 < fr_max_messages m -> E <= fr_start_offset m <= E + zlen L ->
  wp (MessageHandler_handle_request env
        (request_frame FETCH id (bw_buffer (FetchRequest_encode m empty_writer))) b)
    (fun '(f, b') d' => b' = b /\ d' = d /\ request_id f = id /\ frame_type f = FETCH_OK /\
       exists out rest, drop (Z.to_nat (fr_start_offset m - E)) L = out ++ rest /\ (out = [] -> rest = []) /\
         decode_body FetchResponse_decode f =
           Some (mkFetchResponse (fr_start_offset m + zlen out) (E + zlen L) E (zlen out) (fetch_wire <$> out))) d.
Proof.
  intros Hs Hwf Hr HLs HL Hmb Hmm Hst.
  eapply wp_handle_fetch; [exact Hs|done|exact Hwf|done|done|exact HLs|exact HL|done|done|done|].
  split_and!; try done. destruct (fetched_prefix m E L) as [rest Hrest]. exists (fetched m E L), rest.
  split_and!; [done| |].
  - intros He. rewrite He in Hrest. unfold fetched in He.
    destruct (drop (Z.to_nat (fr_start_offset m - E)) L) as [|r l] eqn:Ed; [by destruct rest|].
    by apply take_limit_nonempty in He.
  - eapply (decode_encoded _ _ _ _ _ _ FetchResponse_reads FetchResponse_encode_append); [|done].
    destruct (log_partition _ _ _ _ _ _ _ _ _ _ _ Hs HLs HL) as [p P]. by apply (fetch_result_wf d p).
Qed.

(** The client that fetches what it has just produced. *)
Definition fetch_back (m : ProduceRequest) (max_bytes max_messages : Z) (resp : ProduceResponse) : FetchRequest :=
  mkFetchRequest (pr_topic m) (prs_partition resp) (prs_base_offset resp) max_bytes max_messages.

Definition produce_then_fetch {N : Winsock} {W : Win32} {F : Fstream W} (env env' : Env) (id id' : Z) (m : ProduceRequest)
    (max_bytes max_messages : Z) (b : Broker) : io FetchResponse :=
  '(f, b) ← MessageHandler_handle_request env
              (request_frame PRODUCE id (bw_buffer (ProduceRequest_encode m empty_writer))) b;
  resp ← io_opt (decode_body ProduceResponse_decode f);
  '(f, b) ← MessageHandler_handle_request env' (request_frame FETCH id'
              (bw_buffer (FetchRequest_encode (fetch_back m max_bytes max_messages resp) empty_writer))) b;
  io_opt (decode_body FetchResponse_decode f).

(** C4: what is produced is what is fetched.  A client that sends a batch the partition
    takes and then fetches from the offset it was given receives exactly the records of
    the batch, with their keys, values and consecutive offsets, and then is at the end of
    the log, provided that the fetch asks for at least as many messages and bytes as the
    batch has and that the batch is not larger than 1048500 bytes, to which the broker
    clamps every answer (a larger batch takes several fetches). *)
Theorem produced_is_fetched {N : Winsock} {W : Win32} {R : Reliable W} {F : Fstream W} {RF : ReliableStreams W F}
    env env' b d logs E0 L0 id id' m Ls max_bytes max_messages :
  store_is d (bk_topics b) (bk_offsets b) logs E0 L0 -> is_i64 (env_now_ms env) -> ProduceRequest_wf m ->
  reserved (pr_topic m) = false -> logs !! pr_topic m = Some Ls -> zlen Ls <= 65536 ->
  -1 <= pr_partition m < zlen Ls -> pr_records m <> [] ->
  let batch := (fun r => (prp_key r, prp_value r)) <$> pr_records m in
  batch_ok batch -> Forall (fun EL => EL.1 + zlen EL.2 + zlen batch < 2 ^ 64) Ls ->
  is_u32 max_bytes -> is_u32 max_messages -> zlen batch <= max_messages ->
  batch_bytes batch <= Z.min max_bytes 1048500 ->
  wp (produce_then_fetch env env' id id' m max_bytes max_messages b)
    (fun resp _ => exists base,
       frs_records resp = fetch_wire <$> batch_records base (env_now_ms env) batch /\
       frs_next_offset resp = base + zlen batch /\ frs_high_watermark resp = base + zlen batch) d.
Proof.
  intros Hs Hnow Hwf Hr HLs Hn Hp Hne batch Hb Hlim Hub Hum Hmm Hmb. unfold produce_then_fetch. apply wp_bind.
  eapply wp_handle_produce; [exact Hs|done|done|exact Hwf|done|done|exact HLs|done|done|done|done|done|].
  intros f b' d' c E L Hc Hcr Hc1 Hid Hty Hdec _ _ Hst. cbn zeta in Hst. fold batch in Hst. apply wp_bind.
  eapply wp_opt; [exact Hdec|]. apply wp_bind.
  set (L' := L ++ batch_records (E + zlen L) (env_now_ms env) batch) in *.
  set (mf := fetch_back m max_bytes max_messages _).
  assert (zlen L' = zlen L + zlen batch) as HL' by (unfold L'; by rewrite zlen_app, zlen_batch_records).
  assert (0 < zlen batch /\ 0 < batch_bytes batch) as [Hpos Hbytes].
  { unfold batch. rewrite zlen_fmap. pose proof (zlen_pos _ Hne). split; [lia|]. apply batch_bytes_pos.
    by destruct (pr_records m). }
  assert (fetched mf E L' = batch_records (E + zlen L) (env_now_ms env) batch) as Hf by (by apply fetched_batch).
  assert (0 <= E /\ E + zlen L + zlen batch < 2 ^ 64) as [HE Hlt].
  { destruct (log_partition _ _ _ _ _ _ _ _ _ _ _ Hs HLs Hc) as [p P].
    destruct (part_is_next _ _ _ _ P) as (_ & ? & _). split; [done|].
    by apply (proj1 (list.Forall_forall _ _) Hlim (E, L)), (list_elem_of_lookup_2 _ (Z.to_nat c)). }
  assert (FetchRequest_wf mf) as Hmf.
  { destruct Hwf as (Ht & _). pose proof (zlen_nonneg L). unfold FetchRequest_wf, is_u16, is_u32, is_u64 in *. cbn. lia. }
  eapply (wp_handle_fetch env' _ b' d' _ E0 L0 mf _ E L'); [exact Hst|done|exact Hmf|done|done| | |..].
  - apply lookup_insert_eq.
  - apply list_lookup_insert_eq. by eapply lookup_lt_Some.
  - cbn. lia.
  - cbn. lia.
  - cbn. pose proof (zlen_nonneg L). lia.
  - apply (wp_opt _ (fetch_result mf E L')).
    + eapply (decode_encoded _ _ _ _ _ _ FetchResponse_reads FetchResponse_encode_append); [|done].
      destruct (log_partition _ _ _ _ _ _ _ _ (Z.to_nat c) E L' Hst (lookup_insert_eq _ _ _)) as [p P].
      { apply list_lookup_insert_eq. by eapply lookup_lt_Some. }
      apply (fetch_result_wf d' p); [done|]. cbn. pose proof (zlen_nonneg L). lia.
    + exists (E + zlen L). unfold fetch_result. cbn. rewrite Hf, zlen_batch_records, HL'. split_and!; [done|done|lia].
Qed.

(** ** A broker to try the claims on *)

Definition demo_produce : ProduceRequest :=
  mkProduceRequest (str "orders") (-1) 2
    [mkProduceRecordPayload (str "k") (str "first"); mkProduceRecordPayload [] (str "second")].

Lemma demo_produce_ok : batch_ok ((fun r => (prp_key r, prp_value r)) <$> pr_records demo_produce).
Proof. repeat constructor; by vm_compute. Qed.

Lemma demo_produce_fits (batch : list (bytes * bytes)) : zlen batch <= 1000 ->
  Forall (fun EL : Z * list Record => EL.1 + zlen EL.2 + zlen batch < 2 ^ 64) (replicate 2 (0, [])).
Proof. intros H. apply Forall_replicate. cbn [fst snd]. change (zlen (@nil Record)) with 0. lia. Qed.

Example produce_request_correct_witness :
  exists d b logs, wp (W := memory_disk) (MessageHandler_handle_request (N := x86_winsock) demo_env
        (request_frame PRODUCE 5 (bw_buffer (ProduceRequest_encode (W := x86_winsock) demo_produce empty_writer))) b)
    (fun '(f, b') d' => request_id f = 5 /\ frame_type f = PRODUCE_OK /\
       exists c, decode_body (ProduceResponse_decode (W := x86_winsock)) f = Some (mkProduceResponse c 0 2) /\
         let L' := batch_records 0 1000 [(str "k", str "first"); ([], str "second")] in
         store_is (N := x86_winsock) d' (bk_topics b') (bk_offsets b')
           (<[str "orders" := <[Z.to_nat c := (0, L')]> (replicate 2 (0, []))]> logs) 0 []) d.
Proof.
  destruct demo_broker as (d & tm & os & logs & Hs & _ & Ho). exists d, (mkBroker tm os None), logs.
  eapply wp_mono; [apply (produce_request_correct (N := x86_winsock) (W := memory_disk) demo_env (mkBroker tm os None) d
    logs 0 [] 5 demo_produce (replicate 2 (0, [])))|].
  - exact Hs.
  - by vm_compute.
  - apply (bool_decide_unpack _). by vm_compute.
  - by vm_compute.
  - exact Ho.
  - by vm_compute.
  - by vm_compute.
  - done.
  - exact demo_produce_ok.
  - by apply demo_produce_fits.
  - intros [f b'] d' (Hid & Hty & c & E & L & Hc & _ & Hdec & Hst). apply lookup_replicate in Hc as [[= -> ->] _].
    split; [exact Hid|]. split; [exact Hty|]. exists c. split; [exact Hdec|exact Hst].
Defined.

Example produced_is_fetched_witness :
  exists d b, wp (W := memory_disk)
    (produce_then_fetch (N := x86_winsock) demo_env demo_env 5 6 demo_produce 4096 100 b)
    (fun resp _ => exists base,
       frs_records resp = fetch_wire <$> batch_records base 1000 [(str "k", str "first"); ([], str "second")] /\
       frs_next_offset resp = base + 2 /\ frs_high_watermark resp = base + 2) d.
Proof.
  destruct demo_broker as (d & tm & os & logs & Hs & _ & Ho). exists d, (mkBroker tm os None).
  apply (produced_is_fetched (N := x86_winsock) (W := memory_disk) demo_env demo_env (mkBroker tm os None) d
    logs 0 [] 5 6 demo_produce (replicate 2 (0, []))).
  - exact Hs.
  - by vm_compute.
  - apply (bool_decide_unpack _). by vm_compute.
  - by vm_compute.
  - exact Ho.
  - by vm_compute.
  - by vm_compute.
  - done.
  - exact demo_produce_ok.
  - by apply demo_produce_fits.
  - by vm_compute.
  - by vm_compute.
  - by vm_compute.
  - by vm_compute.
Defined.

(** An empty partition, read at its end. *)
Example fetch_request_correct_witness :
  let m := mkFetchRequest (str "orders") 1 0 4096 100 in
  exists d b, wp (W := memory_disk) (MessageHandler_handle_request (N := x86_winsock) demo_env
        (request_frame FETCH 6 (bw_buffer (FetchRequest_encode (W := x86_winsock) m empty_writer))) b)
    (fun '(f, b') d' => b' = b /\ d' = d /\ request_id f = 6 /\ frame_type f = FETCH_OK /\
       decode_body (FetchResponse_decode (W := x86_winsock)) f = Some (mkFetchResponse 0 0 0 0 [])) d.
Proof.
  intros m. destruct demo_broker as (d & tm & os & logs & Hs & _ & Ho). exists d, (mkBroker tm os None).
  eapply wp_mono; [apply (fetch_request_correct (N := x86_winsock) (W := memory_disk) demo_env (mkBroker tm os None) d
    logs 0 [] 6 m (replicate 2 (0, [])) 0 [])|].
  - exact Hs.
  - apply (bool_decide_unpack _). by vm_compute.
  - by vm_compute.
  - exact Ho.
  - reflexivity.
  - by vm_compute.
  - by vm_compute.
  - by vm_compute.
  - intros [f b'] d' (Hb & Hd & Hid & Hty & out & rest & Hout & _ & Hdec).
    split; [exact Hb|]. split; [exact Hd|]. split; [exact Hid|]. split; [exact Hty|].
    destruct out as [|x out]; [exact Hdec|discriminate Hout].
Defined.

(** ** An answer that is too long *)

Lemma zlen_fetch_response {N : Winsock} m : FetchResponse_wf m ->
  zlen (bw_buffer (FetchResponse_encode m empty_writer)) =
  26 + foldr (fun r n => 24 + zlen (frw_key r) + zlen (frw_value r) + n) 0 (frs_records m).
Proof.
  intros Hwf. rewrite FetchResponse_encode_append, bw_buffer_append by done. unfold FetchResponse_bytes.
  cbn [concat]. rewrite !zlen_app, !zlen_be_store, zlen_nil. set (l := frs_records m). clearbody l.
  assert (zlen (concat (FetchRecordWire_bytes <$> l)) =
    foldr (fun r n => 24 + zlen (frw_key r) + zlen (frw_value r) + n) 0 l) as ->; [|cbn; lia].
  induction l as [|r l IH]; [done|]. cbn [fmap list_fmap concat foldr]. rewrite zlen_app, <- IH.
  unfold FetchRecordWire_bytes, vec_bytes, i64_bytes. cbn [concat]. rewrite !zlen_app, !zlen_be_store, zlen_nil. cbn. lia.
Qed.

(** A FETCH can answer with a frame longer than the protocol allows.  The byte
    limit is tested after a record was taken: when the first two records of the answer
    are together about 1 MiB or more, and the client asks for that much, the response
    frame is longer than [MAX_FRAME_LENGTH]. *)
Theorem fetch_response_too_long {N : Winsock} {W : Win32} {R : Reliable W} {F : Fstream W} {RF : ReliableStreams W F}
    env b d logs E0 L0 id m Ls E L r1 r2 rest :
  store_is d (bk_topics b) (bk_offsets b) logs E0 L0 -> FetchRequest_wf m ->
  reserved (fr_topic m) = false -> logs !! fr_topic m = Some Ls -> Ls !! Z.to_nat (fr_partition m) = Some (E, L) ->
  1048500 <= fr_max_bytes m -> 2 <= fr_max_messages m -> E <= fr_start_offset m <= E + zlen L ->
  drop (Z.to_nat (fr_start_offset m - E)) L = r1 :: r2 :: rest ->
  record_size r1 < 1048500 -> 1048576 < record_size r1 + record_size r2 + 23 ->
  wp (MessageHandler_handle_request env
        (request_frame FETCH id (bw_buffer (FetchRequest_encode m empty_writer))) b)
    (fun '(f, _) _ => frame_type f = FETCH_OK /\ MAX_FRAME_LENGTH < frame_length f) d.
Proof.
  intros Hs Hwf Hr HLs HL Hmb Hmm Hst Hdrop H1 H2. destruct (log_partition _ _ _ _ _ _ _ _ _ _ _ Hs HLs HL) as [p P].
  eapply wp_handle_fetch; [exact Hs|done|exact Hwf|done|done|exact HLs|exact HL|lia|lia|done|]. split; [done|].
  pose proof (fetch_result_wf _ _ m _ _ P Hst) as Hrw.
  assert (fetched m E L = [r1; r2]) as Hf.
  { unfold fetched. rewrite Hdrop. cbn [take_limit]. rewrite Z.min_r, !Z.add_0_l by lia.
    rewrite (proj2 (Z.leb_gt (fr_max_messages m) _)), (proj2 (Z.leb_gt 1048500 (record_size r1))) by lia. cbn [orb].
    by rewrite (proj2 (Z.leb_le 1048500 _)), orb_true_r by lia. }
  unfold response. cbn [frame_length]. rewrite zlen_fetch_response by done. unfold fetch_result. rewrite Hf.
  cbn [frs_records fmap list_fmap foldr fetch_wire frw_key frw_value].
  assert (forall r, r ∈ [r1; r2] -> 0 <= zlen (key r) + zlen (value r) <= 1048576) as Hsz.
  { intros r Hin. rewrite <- Hf in Hin. apply list_elem_of_lookup in Hin as [i Hi].
    destruct (fetched_lookup _ _ _ _ _ _ _ P (proj1 Hst) Hi) as [_ (_ & _ & Hsz)].
    pose proof (zlen_nonneg (key r)). pose proof (zlen_nonneg (value r)). unfold record_size, MAX_RECORD_SIZE in Hsz. lia. }
  pose proof (Hsz r1 ltac:(set_solver)). pose proof (Hsz r2 ltac:(set_solver)). unfold record_size in *.
  rewrite !u32_id by (unfold is_u32, HEADER_SIZE; try rewrite u32_id; unfold is_u32; lia).
  unfold MAX_FRAME_LENGTH, HEADER_SIZE. lia.
Qed.

(** Two records of 600000 bytes each. *)
Example fetch_response_too_long_witness :
  let m := mkFetchRequest (str "orders") 0 0 1048576 100 in
  exists d b, wp (W := memory_disk) (MessageHandler_handle_request (N := x86_winsock) demo_env
        (request_frame FETCH 6 (bw_buffer (FetchRequest_encode (W := x86_winsock) m empty_writer))) b)
    (fun '(f, _) _ => frame_type f = FETCH_OK /\ MAX_FRAME_LENGTH < frame_length f) d.
Proof.
  intros m. destruct demo_broker as (d & tm & os & logs & Hs & _ & Ho).
  assert (exists v : bytes, zlen v = 600000) as [v Hv].
  { exists (replicate (Z.to_nat 600000) Byte.x00). unfold zlen. rewrite length_replicate. lia. }
  set (mp := mkProduceRequest (str "orders") 0 2 [mkProduceRecordPayload [] v; mkProduceRecordPayload [] v]).
  destruct (wp_handle_produce (N := x86_winsock) (W := memory_disk) demo_env
    (request_frame PRODUCE 5 (bw_buffer (ProduceRequest_encode (W := x86_winsock) mp empty_writer)))
    (mkBroker tm os None) d logs 0 [] mp (replicate 2 (0, []))
    (fun '(_, b') d' => store_is (W := memory_disk) (N := x86_winsock) d' (bk_topics b') (bk_offsets b')
       (<[str "orders" := <[Z.to_nat 0 := (0, [mkRecord 0 1000 [] v; mkRecord 1 1000 [] v])]> (replicate 2 (0, []))]> logs) 0 []))
    as ([f b'] & d' & _ & Hst).
  - exact Hs.
  - by vm_compute.
  - reflexivity.
  - unfold ProduceRequest_wf, mp. cbn [pr_topic pr_partition pr_record_count pr_records].
    split_and!; try by vm_compute. apply list.Forall_cons. rewrite list.Forall_singleton.
    unfold ProduceRecordPayload_wf. cbn. rewrite Hv. by vm_compute.
  - reflexivity.
  - by vm_compute.
  - exact Ho.
  - by vm_compute.
  - by vm_compute.
  - done.
  - unfold mp, batch_ok. cbn [pr_records fmap list_fmap prp_key prp_value]. apply list.Forall_cons.
    rewrite list.Forall_singleton. unfold record_size. cbn [key value]. rewrite Hv. by vm_compute.
  - by apply demo_produce_fits.
  - intros f b' d' c E L Hc Hcr Hc1 _ _ _ _ _ Hst. assert (c = 0) as -> by (apply Hc1; done).
    apply lookup_replicate in Hc as [[= -> ->] _]. exact Hst.
  - exists d', b'.
    apply (fetch_response_too_long (N := x86_winsock) (W := memory_disk) demo_env b' d' _ 0 [] 6 m
      (<[Z.to_nat 0 := (0, [mkRecord 0 1000 [] v; mkRecord 1 1000 [] v])]> (replicate 2 (0, []))) 0
      [mkRecord 0 1000 [] v; mkRecord 1 1000 [] v] (mkRecord 0 1000 [] v) (mkRecord 1 1000 [] v) [] Hst).
    + apply (bool_decide_unpack _). by vm_compute.
    + by vm_compute.
    + apply lookup_insert_eq.
    + reflexivity.
    + by vm_compute.
    + by vm_compute.
    + by vm_compute.
    + reflexivity.
    + unfold record_size. cbn [key value]. rewrite Hv. by vm_compute.
    + unfold record_size. cbn [key value]. rewrite Hv. by vm_compute.
Defined.
