(* ===== verification/ConcurrentFetch.v ===== *)
(** * ConcurrentFetch: a FETCH among appends and retention
    (src/MessageHandler.cpp, src/Partition.cpp)

    [handle_fetch] looks at the partition three times: [next_offset] and [earliest_offset]
    read members without the lock, [read] takes it.  Other workers append in the meantime,
    and the retention thread deletes segments.  The log of a partition only evolves in one
    way, by records added at its end and records removed from its front ([log_evolves]).
    [next_offset] can run in the middle of an [append_batch] and then sees the records that
    are already in.  [earliest_offset] reads the vector of segments: it is undefined while
    the retention thread has moved the first segment out of it ([segments_moved]), or while
    a roll makes it grow; the main theorem is about a FETCH that does not hit these. *)
From S2P Require Import Prelude StdString Status RecordCodec FrameCodec BodyCodec ProtocolMessages FileHandle OffsetIndex.
From S2P Require Import LogSegment Partition PartitionRead PartitionProps Topic TopicManager GroupCoordinator MessageHandler RequestFlow.

(** ** How a log evolves *)

(** A log: its first offset and its records. *)
Definition log_evolves (x y : Z * list Record) : Prop :=
  exists added n, (n <= length (x.2 ++ added))%nat /\ y = (x.1 + Z.of_nat n, drop n (x.2 ++ added)).

#[global] Instance log_evolves_preorder : PreOrder log_evolves.
Proof.
  split.
  - intros [E L]. exists [], 0%nat. rewrite app_nil_r, drop_0, Z.add_0_r. split; [lia|done].
  - intros [E L] y z (a1 & n1 & Hn1 & ->) (a2 & n2 & Hn2 & ->). cbn [fst snd] in *.
    exists (a1 ++ a2), (n1 + n2)%nat. cbn [fst snd]. rewrite length_app, length_drop in Hn2. rewrite app_assoc, length_app.
    split; [lia|]. rewrite <- drop_drop, (drop_app_le (L ++ a1)) by done. f_equal. lia.
Qed.

Lemma evolves_bounds E L E' L' : log_evolves (E, L) (E', L') -> E <= E' /\ E + zlen L <= E' + zlen L'.
Proof.
  intros (added & n & Hn & [= -> ->]). cbn [fst snd] in *. unfold zlen. rewrite length_drop, length_app in *. lia.
Qed.

(** What was in the log and has not been removed is still there, at the same offset. *)
Lemma evolves_keeps E L E' L' start : log_evolves (E, L) (E', L') -> E' <= start <= E + zlen L ->
  drop (Z.to_nat (start - E)) L `prefix_of` drop (Z.to_nat (start - E')) L'.
Proof.
  intros (added & n & Hn & [= -> ->]) Hs. cbn [fst snd] in *. rewrite drop_drop.
  replace (n + Z.to_nat (start - (E + Z.of_nat n)))%nat with (Z.to_nat (start - E)) by lia.
  rewrite drop_app_le by (unfold zlen in Hs; lia). by eexists.
Qed.

(** ** What other threads do to the partition *)

Inductive PartitionOp :=
| op_append_batch (now : Z) (batch : list (bytes * bytes))
| op_retention (now retention_ms retention_bytes : Z).

Section ops.
Context {W : Win32}.

Definition run_op (o : PartitionOp) (p : Partition) : io Partition :=
  match o with
  | op_append_batch now batch => '(_, p) ← Partition_append_batch now p batch; mret p
  | op_retention now ms rb => '(_, p, _) ← Partition_scan_and_delete_segments now p ms rb false; mret p
  end.

Fixpoint run_ops (ops : list PartitionOp) (p : Partition) : io Partition :=
  match ops with
  | [] => mret p
  | o :: ops => p ← run_op o p; run_ops ops p
  end.

(** The batches are ones that [append_batch] takes, and the offsets do not wrap. *)
Definition op_ok (o : PartitionOp) : Prop :=
  match o with op_append_batch now batch => is_i64 now /\ batch <> [] /\ batch_ok batch | _ => True end.

(** [m_next_offset] after [j] records of the operation that is under way, the first of
    [ops]; and the log at that moment. *)
Definition visible_next (ops : list PartitionOp) (j : nat) (p : Partition) : Z :=
  match ops with
  | op_append_batch _ batch :: _ => u64 (pt_next_offset p + Z.of_nat (Nat.min j (length batch)))
  | _ => pt_next_offset p
  end.

Definition visible_log (ops : list PartitionOp) (j : nat) (E : Z) (L : list Record) : list Record :=
  match ops with
  | op_append_batch now batch :: _ => L ++ take j (batch_records (E + zlen L) now batch)
  | _ => L
  end.

(** [m_segments] after the retention thread has moved the first [k] segments out of it and
    before it erases them: these are null pointers. *)
Definition segments_moved (k : nat) (p : Partition) : list (option LogSegment) :=
  replicate k None ++ (Some <$> drop k (pt_segments p)).

(** [earliest_offset] on such a vector; [None]: the null pointer is dereferenced. *)
Definition unlocked_earliest (segments : list (option LogSegment)) : option Z :=
  match segments with
  | [] => Some 0
  | Some s :: _ => Some (m_base_offset s)
  | None :: _ => None
  end.

Lemma unlocked_earliest_quiet p : unlocked_earliest (segments_moved 0 p) = Some (Partition_earliest_offset p).
Proof. unfold segments_moved, Partition_earliest_offset. cbn. by destruct (pt_segments p). Qed.

Definition op_records (o : PartitionOp) : Z := match o with op_append_batch _ batch => zlen batch | _ => 0 end.

Definition ops_ok (ops : list PartitionOp) (next : Z) : Prop :=
  Forall op_ok ops /\ next + foldr (fun o n => op_records o + n) 0 ops < 2 ^ 64.

Context {R : Reliable W}.

Lemma op_records_nonneg ops : 0 <= foldr (fun o n => op_records o + n) 0 ops.
Proof. induction ops as [|o ops IH]; cbn; [lia|]. destruct o as [now batch|]; cbn; [pose proof (zlen_nonneg batch)|]; lia. Qed.

Lemma visible_log_evolves ops j E L E' L' now batch :
  ops = op_append_batch now batch :: tail ops -> log_evolves (E, L ++ batch_records (E + zlen L) now batch) (E', L') ->
  log_evolves (E, visible_log ops j E L) (E', L').
Proof.
  intros -> Hev. etrans; [|exact Hev]. cbn [visible_log]. set (rs := batch_records _ _ _).
  exists (drop j rs), 0%nat. cbn [fst snd]. rewrite drop_0, Z.add_0_r, <- app_assoc, take_drop. split; [lia|done].
Qed.

Lemma visible_next_log ops j d p E L : part_is d p E L -> ops_ok ops (pt_next_offset p) ->
  visible_next ops j p = E + zlen (visible_log ops j E L).
Proof.
  intros P [Hok Hlim]. destruct (part_is_next _ _ _ _ P) as (Hn & HE & _). pose proof (zlen_nonneg L).
  destruct ops as [|[now batch|] ops]; cbn [visible_next visible_log] in *; [lia| |lia].
  pose proof (op_records_nonneg ops). cbn in Hlim. rewrite u64_id by (unfold is_u64, zlen in *; lia).
  pose proof (zlen_batch_records now batch (E + zlen L)) as Hr. unfold zlen in *. rewrite length_app, length_take. lia.
Qed.

Lemma wp_run_op o d p E L : part_is d p E L -> op_ok o -> pt_next_offset p + op_records o < 2 ^ 64 ->
  wp (run_op o p) (fun p' d' => pt_next_offset p' = pt_next_offset p + op_records o /\
    exists E' L', part_is d' p' E' L' /\ log_evolves (E, L) (E', L') /\
      forall j ops, log_evolves (E, visible_log (o :: ops) j E L) (E', L')) d.
Proof.
  intros P Hok Hlim. destruct (part_is_next _ _ _ _ P) as (Hn & HE & _).
  destruct o as [now batch|now ms rb]; cbn [run_op op_records] in *; apply wp_bind.
  - destruct Hok as (Hnow & Hne & Hb). eapply wp_append_batch; [exact P|done..|done|].
    intros d' p' P' _. apply wp_ret. rewrite Hn in P'. destruct (part_is_next _ _ _ _ P') as (Hn' & _ & _). split.
    + rewrite Hn', Hn, zlen_app, zlen_batch_records. lia.
    + do 2 eexists. split; [exact P'|]. split.
      * exists (batch_records (E + zlen L) now batch), 0%nat. rewrite drop_0, Z.add_0_r. split; [lia|done].
      * intros j ops. by eapply (visible_log_evolves (op_append_batch now batch :: ops) j E L _ _ now batch).
  - eapply wp_mono; [by eapply wp_retention_prefix|]. intros [[st p'] out] d' (_ & _ & Hn' & n & P').
    apply wp_ret. split; [lia|]. do 2 eexists. split; [exact P'|].
    destruct (part_is_next _ _ _ _ P') as (Hn2 & _ & _).
    assert (log_evolves (E, L) (E + Z.of_nat n, drop n L)) as Hev.
    { exists [], n. rewrite app_nil_r. split; [|done]. unfold zlen in *. rewrite length_drop in Hn2. cbn. lia. }
    by split.
Qed.

Lemma wp_run_ops ops : forall d p E L, part_is d p E L -> ops_ok ops (pt_next_offset p) ->
  wp (run_ops ops p) (fun p' d' =>
    pt_next_offset p' = pt_next_offset p + foldr (fun o n => op_records o + n) 0 ops /\
    exists E' L', part_is d' p' E' L' /\ log_evolves (E, L) (E', L') /\
      (forall j, log_evolves (E, visible_log ops j E L) (E', L')) /\ (ops = [] -> (E', L') = (E, L))) d.
Proof.
  induction ops as [|o ops IH]; intros d p E L P [Hok Hlim]; cbn [run_ops foldr] in *.
  - apply wp_ret. split; [lia|]. by exists E, L.
  - pose proof (op_records_nonneg ops). apply wp_bind. apply list.Forall_cons in Hok as [Ho Hok].
    eapply wp_mono; [eapply wp_run_op; [exact P|exact Ho|lia]|]. intros p1 d1 (Hn1 & E1 & L1 & P1 & Hev1 & Hv1).
    eapply wp_mono; [eapply IH; [exact P1|split; [exact Hok|lia]]|]. intros p2 d2 (Hn2 & E2 & L2 & P2 & Hev2 & _).
    split; [lia|]. exists E2, L2. split; [exact P2|]. split; [by etrans|]. split; [|done]. intros j. by etrans; [apply Hv1|].
Qed.

End ops.

(** ** The FETCH *)

Section fetch.
Context {N : Winsock} {W : Win32}.

(** [handle_fetch] with the operations of other threads around its three looks at the
    partition: [p] is the partition before the operation that is under way when the next
    offset is read, [j] its progress; the operations [ops1] are over when the earliest
    offset is read, with [k] segments moved out of the vector. *)
Definition fetch_among (req : Frame) (b : Broker) (m : FetchRequest) (p : Partition) (j : nat) (ops1 : list PartitionOp)
    (k : nat) (ops2 : list PartitionOp) : io (Frame * Broker) :=
  let hw := visible_next (ops1 ++ ops2) j p in
  p1 ← run_ops ops1 p;
  earliest ← io_opt (unlocked_earliest (segments_moved k p1));
  p2 ← run_ops ops2 p1;
  fetch_sections req b m hw earliest p2.

Context {R : Reliable W}.

Definition fetch_ok (req : Frame) (resp : FetchResponse) : Frame :=
  response FETCH_OK req (bw_buffer (FetchResponse_encode resp empty_writer)).

(** The answer, given the log and the offsets at the three looks. *)
Definition fetch_answer (req : Frame) (m : FetchRequest) (E : Z) (L : list Record) (E1 E2 : Z) (L2 : list Record)
    (resp : Frame) : Prop :=
  let start := fr_start_offset m in
  let hw := E + zlen L in
  if start =? hw then resp = fetch_ok req (mkFetchResponse hw hw E1 0 [])
  else if (hw <? start) || (start <? E2) then
    exists msg, resp = FrameCodec_create_error_frame (request_id req) OFFSET_OUT_OF_RANGE msg
  else exists out, out <> [] /\ out `prefix_of` drop (Z.to_nat (start - E2)) L2 /\
    drop (Z.to_nat (start - E)) L `prefix_of` drop (Z.to_nat (start - E2)) L2 /\
    resp = fetch_ok req (mkFetchResponse (start + zlen out) hw E1 (zlen out) (fetch_wire <$> out)).

Lemma fetched_nonempty m E L : E <= fr_start_offset m < E + zlen L -> fetched m E L <> [].
Proof.
  intros Hs. unfold fetched. destruct (drop (Z.to_nat (fr_start_offset m - E)) L) as [|r l] eqn:Ed.
  - apply (f_equal length) in Ed. rewrite length_drop in Ed. unfold zlen in Hs. cbn in Ed. lia.
  - apply take_limit_nonempty.
Qed.

Lemma wp_fetch_sections req b m d2 p2 E L E1 E2 L2 :
  part_is d2 p2 E2 L2 -> E1 <= E2 -> log_evolves (E, L) (E2, L2) ->
  is_u32 (fr_max_bytes m) -> is_u32 (fr_max_messages m) ->
  wp (fetch_sections req b m (E + zlen L) E1 p2) (fun '(resp, b') _ => b' = b /\ fetch_answer req m E L E1 E2 L2 resp) d2.
Proof.
  intros P2 HE2 Hev Hmb Hmm. unfold is_u32 in *. unfold fetch_sections, fetch_answer. cbv zeta.
  destruct (evolves_bounds _ _ _ _ Hev) as [_ Hhw].
  destruct (Z.eqb_spec (fr_start_offset m) (E + zlen L)) as [Heq|Hne]; [by apply wp_ret|].
  destruct (Z.ltb_spec (E + zlen L) (fr_start_offset m)) as [?|Hle]; cbn [orb]; [apply wp_ret; by eauto|].
  destruct (Z.ltb_spec (fr_start_offset m) E1) as [?|Hge].
  { rewrite (proj2 (Z.ltb_lt _ _)) by lia. apply wp_ret. by eauto. }
  apply wp_bind. destruct (Z.ltb_spec (fr_start_offset m) E2) as [Hlt|Hge2].
  - eapply wp_mono; [eapply wp_read_refused; [exact P2|lia]|]. intros res d' (_ & _ & Hcode).
    unfold Status_ok. rewrite Hcode. cbn [negb]. unfold MessageHandler_map_status_to_error_code. rewrite Hcode.
    apply wp_ret. by eauto.
  - eapply wp_read; [exact P2|lia|unfold READ_LIMIT; lia|unfold READ_LIMIT; lia|]. fold (fetched m E2 L2).
    cbn [rr_status rr_records]. change (negb (Status_ok Status_OK)) with false. cbv iota. apply wp_ret. split; [done|].
    exists (fetched m E2 L2). split_and!; [by apply fetched_nonempty; lia|apply fetched_prefix|by apply evolves_keeps; [|lia]|].
    pose proof (fetched_count m E2 L2). rewrite (fetched_next d2 p2 m E2 L2 P2) by lia.
    rewrite zlen_fmap, u16_id by (unfold is_u16; lia). done.
Qed.

End fetch.

(** ** Properties *)

(** C15: a FETCH is right while others append and trim.  Whatever batches are appended and
    whatever retention deletes around the three looks of [handle_fetch] at the partition,
    the answer is a run of consecutive records from the offset asked for, as they are in
    the log when it is read, at least one; it starts with the records the log had when its
    end was read, none skipped, even if that was in the middle of a batch.
    OFFSET_OUT_OF_RANGE is answered only for an offset past that end or no longer in the
    log.  The watermarks of the answer are older than the records: its next offset may lie
    past its high watermark.  The theorem supposes that the read of the first segment, for
    which there is no lock, does not come while the vector of segments is being changed. *)
Theorem fetch_interleaved {N : Winsock} {W : Win32} {R : Reliable W} req b m j ops1 ops2 d p E L :
  part_is d p E L -> ops_ok (ops1 ++ ops2) (pt_next_offset p) ->
  is_u32 (fr_max_bytes m) -> is_u32 (fr_max_messages m) ->
  let seen := visible_log (ops1 ++ ops2) j E L in
  wp (fetch_among req b m p j ops1 0 ops2)
    (fun '(resp, b') _ => b' = b /\ exists E1 L1 E2 L2,
       log_evolves (E, L) (E1, L1) /\ log_evolves (E1, L1) (E2, L2) /\ log_evolves (E, seen) (E2, L2) /\
       fetch_answer req m E seen E1 E2 L2 resp) d.
Proof.
  intros P Hops Hmb Hmm seen. pose proof (visible_next_log (ops1 ++ ops2) j d p E L P Hops) as Hhw. fold seen in Hhw.
  destruct Hops as [Hok Hlim]. apply Forall_app in Hok as [Hok1 Hok2]. unfold fetch_among. rewrite Hhw.
  rewrite foldr_app in Hlim. pose proof (op_records_nonneg ops2).
  assert (forall ops k, foldr (fun o n => op_records o + n) k ops = foldr (fun o n => op_records o + n) 0 ops + k) as Hsum
    by (induction ops as [|o ops IH]; intros k; cbn; [lia|rewrite IH; lia]).
  rewrite Hsum in Hlim. apply wp_bind.
  eapply wp_mono; [eapply wp_run_ops; [exact P|split; [exact Hok1|lia]]|]. intros p1 d1 (Hn1 & E1 & L1 & P1 & Hev1 & Hv1 & Hnil).
  apply wp_bind. eapply wp_opt; [apply unlocked_earliest_quiet|]. apply wp_bind.
  eapply wp_mono; [eapply wp_run_ops; [exact P1|split; [exact Hok2|lia]]|]. intros p2 d2 (Hn2 & E2 & L2 & P2 & Hev2 & Hv2 & _).
  assert (Partition_earliest_offset p1 = E1) as -> by (by destruct P1 as (? & ? & ? & _ & H' & _)).
  assert (log_evolves (E, seen) (E2, L2)) as Hs.
  { unfold seen. destruct ops1 as [|o ops1]; [|exact (transitivity (Hv1 j) Hev2)].
    injection (Hnil eq_refl) as <- <-. apply Hv2. }
  eapply wp_mono; [eapply wp_fetch_sections; [exact P2|apply (evolves_bounds _ _ _ _ Hev2)|exact Hs|done|done]|].
  intros [resp b'] d' [-> Ha]. split; [done|]. by exists E1, L1, E2, L2.
Qed.

(** A FETCH can bring the broker down.  [earliest_offset] takes no lock: between the moment
    the retention thread moves the first segment out of the vector and the moment it erases
    it, a FETCH of the partition dereferences a null pointer. *)
Theorem fetch_meets_retention {N : Winsock} {W : Win32} req b m p j k ops2 d :
  (0 < k)%nat -> fetch_among req b m p j [] k ops2 d = None.
Proof. destruct k as [|k]; [lia|]. done. Qed.

(** A client at offset 6 of the log 5, 6; a record is appended after the end of the log
    was read, and a retention pass runs before the read. *)
Definition demo_fetch_request : FetchRequest := mkFetchRequest (str "t") 0 6 1000 10.
Definition demo_fetch_frame : Frame := mkFrame 5 FETCH 9 [].
Definition demo_ops1 : list PartitionOp := [op_append_batch 2000 [([], str "late")]].
Definition demo_ops2 : list PartitionOp := [op_retention 2000 100 0].

(** Next offset, high watermark and record count of the answer. *)
Definition demo_fetch_offsets (b : Broker) : option (Z * Z * Z) :=
  r ← fetch_among (N := x86_winsock) (W := memory_disk) demo_fetch_frame b demo_fetch_request demo_partition
        0 demo_ops1 0 demo_ops2 demo_disk;
  resp ← decode_body (FetchResponse_decode (W := x86_winsock)) r.1.1;
  Some (frs_next_offset resp, frs_high_watermark resp, frs_record_count resp).

(** The answer reaches past its own high watermark. *)
Example next_offset_past_watermark b : demo_fetch_offsets b = Some (8, 7, 2).
Proof. by vm_compute. Qed.

(** The end is read when the first of two records is in, and the rest of the batch and a
    retention pass come before the read. *)
Definition demo_late : list PartitionOp := [op_append_batch 2000 [([], str "late"); ([], str "later")]].

Lemma demo_late_ok : ops_ok ([] ++ demo_late ++ demo_ops2) (pt_next_offset demo_partition).
Proof. split; [|by vm_compute]. repeat constructor; by vm_compute. Qed.

Example fetch_interleaved_witness :
  let seen := visible_log (demo_late ++ demo_ops2) 1 5 demo_records in
  zlen seen = 3 /\
  wp (W := memory_disk) (fetch_among (N := x86_winsock) demo_fetch_frame demo_broker_state demo_fetch_request demo_partition
      1 [] 0 (demo_late ++ demo_ops2))
    (fun '(resp, b') _ => b' = demo_broker_state /\ exists E1 L1 E2 L2,
       log_evolves (5, demo_records) (E1, L1) /\ log_evolves (E1, L1) (E2, L2) /\ log_evolves (5, seen) (E2, L2) /\
       fetch_answer (N := x86_winsock) demo_fetch_frame demo_fetch_request 5 seen E1 E2 L2 resp) demo_disk.
Proof.
  intros seen. split; [by vm_compute|].
  apply (fetch_interleaved (N := x86_winsock) (W := memory_disk) demo_fetch_frame demo_broker_state demo_fetch_request
           1 [] (demo_late ++ demo_ops2)).
  - apply demo_part_is.
  - apply demo_late_ok.
  - by vm_compute.
  - by vm_compute.
Defined.
