(* ===== verification/WakeupChannel.v ===== *)
(** * WakeupChannel: how a worker wakes the I/O thread (src/WakeupChannel.cpp)

    [notify] sets a flag and, if it was not set, sends a byte over a loopback
    connection whose other end the event loop polls; [drain] clears the flag and then
    receives until nothing is left.  The state has the flag, the bytes in the
    connection, and the places where threads can be in the middle of an operation: the
    workers between the exchange and the send of [notify], and the I/O thread between
    the store and the last [recv] of [drain].  A step is one access to the flag or the
    connection, by any thread. *)
From S2P Require Import Prelude.

Record WakeupChannel := mkWakeupChannel {
  wc_wake_pending : bool;    (* std::atomic<bool> *)
  wc_bytes : Z;              (* sent and not received *)
  wc_senders : Z;            (* workers that are about to send *)
  wc_draining : bool;        (* the I/O thread is in the loop of drain *)
}.

Definition WakeupChannel_new : WakeupChannel := mkWakeupChannel false 0 0 false.

(** ** Operations *)

(** [if (!m_wake_pending.exchange(true))] *)
Definition notify_exchange (w : WakeupChannel) : WakeupChannel :=
  if wc_wake_pending w then w
  else mkWakeupChannel true (wc_bytes w) (wc_senders w + 1) (wc_draining w).

Definition notify_send (w : WakeupChannel) : WakeupChannel :=
  mkWakeupChannel (wc_wake_pending w) (wc_bytes w + 1) (wc_senders w - 1) (wc_draining w).

Definition drain_store (w : WakeupChannel) : WakeupChannel :=
  mkWakeupChannel false (wc_bytes w) (wc_senders w) true.

(** A [recv] into the buffer of 256 bytes that delivers [r] bytes, or nothing. *)
Definition drain_recv (r : Z) (w : WakeupChannel) : WakeupChannel :=
  if r <=? 0 then mkWakeupChannel (wc_wake_pending w) (wc_bytes w) (wc_senders w) false
  else mkWakeupChannel (wc_wake_pending w) (wc_bytes w - r) (wc_senders w) (wc_draining w).

(** Whether [WSAPoll] reports the channel readable. *)
Definition wake_readable (w : WakeupChannel) : bool := 0 <? wc_bytes w.

(** The event loop drains when the channel is readable; [wait_until_stopped] ([stopping])
    drains in every round of its wait.  [recv] would block exactly when there is nothing to
    receive. *)
Inductive wake_step (stopping : bool) : WakeupChannel -> WakeupChannel -> Prop :=
| wake_exchange w : wake_step stopping w (notify_exchange w)
| wake_send w : 0 < wc_senders w -> wake_step stopping w (notify_send w)
| wake_drain w : wc_draining w = false -> wake_readable w || stopping = true -> wake_step stopping w (drain_store w)
| wake_recv w r : wc_draining w = true -> 0 < r <= Z.min 256 (wc_bytes w) -> wake_step stopping w (drain_recv r w)
| wake_done w : wc_draining w = true -> wc_bytes w = 0 -> wake_step stopping w (drain_recv (-1) w).

(** ** When a notification is not lost *)

(** A set flag promises that a byte is there or about to be sent. *)
Definition promised (w : WakeupChannel) : Prop :=
  0 <= wc_bytes w /\ 0 <= wc_senders w /\
  (wc_wake_pending w = true -> wc_draining w = false -> 0 < wc_bytes w + wc_senders w) /\
  (wc_draining w = true -> wc_wake_pending w = false).

(** Steps in which no worker sets the flag while the I/O thread drains. *)
Definition undisturbed (w w' : WakeupChannel) : Prop :=
  (exists stopping, wake_step stopping w w') /\ (wc_draining w = true -> wc_wake_pending w' = wc_wake_pending w).

Lemma promised_step w w' : undisturbed w w' -> promised w -> promised w'.
Proof.
  intros [[stopping Hs] Hu] (Hb & Hn & Hp & Hd). unfold promised. destruct Hs; unfold notify_exchange, drain_recv in *; cbn in *.
  - destruct (wc_wake_pending w) eqn:E; [by rewrite E|]. cbn in *.
    split_and!; [lia|lia|intros; lia|intros Hdr; by specialize (Hu Hdr)].
  - split_and!; [lia|lia| |done]. intros Hf Hdr. specialize (Hp Hf Hdr). lia.
  - by split_and!.
  - rewrite (proj2 (Z.leb_gt r 0)) in * by lia. cbn. split_and!; [lia|lia| |done]. intros Hf. by rewrite Hd in Hf.
  - split_and!; [lia|lia| |done]. intros Hf. by rewrite Hd in Hf.
Qed.

(** As long as no worker notifies during a drain, every notification reaches the I/O
    thread: when the flag is set and the I/O thread polls, a byte is there or a worker
    is about to send it. *)
Theorem wakeup_delivered w : rtc undisturbed WakeupChannel_new w ->
  wc_wake_pending w = true -> wc_draining w = false -> 0 < wc_bytes w + wc_senders w.
Proof.
  intros Hr. enough (promised w) as (_ & _ & Hp & _) by exact Hp.
  assert (forall w0, rtc undisturbed w0 w -> promised w0 -> promised w) as Hi
    by (induction 1; eauto using promised_step).
  apply (Hi _ Hr). repeat split; cbn; by try lia.
Qed.

(** ** A lost wake-up *)

(** The flag is set, and nobody will send. *)
Definition dead (w : WakeupChannel) : bool :=
  wc_wake_pending w && (wc_bytes w =? 0) && (wc_senders w =? 0).

Lemma dead_step w w' : wake_step false w w' -> dead w = true -> dead w' = true.
Proof.
  intros Hs Hd. unfold dead in *. apply andb_true_iff in Hd as [[Hp Hb]%andb_true_iff Hn].
  apply Z.eqb_eq in Hb, Hn. destruct Hs; unfold notify_exchange, drain_recv, wake_readable in *; cbn in *.
  - by rewrite Hp, Hp, Hb, Hn.
  - lia.
  - by rewrite Hb in *.
  - lia.
  - by rewrite Hp, Hb, Hn.
Qed.

(** A worker notifies between the store and the [recv] of a drain, and the drain
    receives its byte. *)
Definition lost_state : WakeupChannel := mkWakeupChannel true 0 0 false.

Lemma lost_reachable : rtc (wake_step false) WakeupChannel_new lost_state.
Proof.
  eapply rtc_l; [apply wake_exchange|]. eapply rtc_l; [by apply wake_send|]. eapply rtc_l; [by apply wake_drain|].
  eapply rtc_l; [apply wake_exchange|]. eapply rtc_l; [by apply wake_send|].
  eapply rtc_l; [apply (wake_recv _ _ 2); [done|cbn; lia]|]. eapply rtc_l; [by apply wake_done|]. apply rtc_refl.
Qed.

(** ** Properties *)

(** C36: a wake-up can be lost for as long as the event loop runs.  When a worker notifies
    after [drain] cleared the flag and before it received the last byte, the channel ends
    with the flag set and no byte; from then on, whatever the workers and the event loop
    do, no notification sends a byte and the event loop never sees the channel readable.
    Responses then leave only when a poll times out or a client becomes active.  Only
    [wait_until_stopped], which drains without asking, clears the flag: after its drain
    the next notification sends a byte again. *)
Theorem wakeup_lost_forever :
  exists w, rtc (wake_step false) WakeupChannel_new w /\ wc_draining w = false /\
    forall w', rtc (wake_step false) w w' -> wake_readable w' = false /\ notify_exchange w' = w' /\
      (wc_draining w' = false -> wake_step true w' (drain_store w') /\
         wc_senders (notify_exchange (drain_recv (-1) (drain_store w'))) = wc_senders w' + 1).
Proof.
  exists lost_state. split; [apply lost_reachable|]. split; [done|].
  enough (forall w w', rtc (wake_step false) w w' -> dead w = true -> dead w' = true) as Hd.
  { intros w' Hr. specialize (Hd _ _ Hr eq_refl). unfold dead in Hd.
    apply andb_true_iff in Hd as [[Hp Hb]%andb_true_iff _]. apply Z.eqb_eq in Hb.
    unfold wake_readable, notify_exchange. rewrite Hb, Hp. split_and!; [done..|]. intros Hd. split; [|done].
    apply wake_drain; [done|by rewrite orb_true_r]. }
  induction 1; eauto using dead_step.
Qed.
