(* ===== verification/TcpServer.v ===== *)
(** * TcpServer: the I/O thread, the worker pool and their queues
    (src/TcpServer.cpp, src/ThreadPool.cpp, include/streamforge/TaskQueue.hpp)

    One thread owns the sockets and the connections; the workers take requests from
    the task queue and put responses into the completion queue.  The state is
    [TcpServer]; each operation of a thread between two accesses to a shared queue is
    a function on it, and [step] interleaves the operations of the I/O thread and of
    the workers in any order (also orders the event loop does not use, such as
    closing connections late: what holds for all of them holds for the program).
    What sockets and clocks deliver is an argument of the operations.  A label of a
    step lists what it does on the wire: [ev_request] for a frame taken off a
    connection, [ev_sent] for bytes of responses accepted by [send], [ev_shutdown_ok] and
    [ev_error] for a frame that is sent past the queues: the SHUTDOWN_OK goes to [send]
    and leaves the output buffer alone, the error replaces what is in it.

    The request handler is behind the interface [RequestHandler], which promises that
    a response carries the id of its request; the message handler is an instance. *)
From S2P Require Import Prelude StdString Status RecordCodec FrameCodec FrameAssembler BodyCodec ProtocolMessages.
From S2P Require Import FileHandle TopicManager OffsetStore GroupCoordinator MessageHandler.

(** ** Data *)

Record ServerConfig := mkServerConfig {
  host : bytes;
  port : Z;                        (* uint16_t *)
  workers : Z;                     (* size_t *)
  max_connections : Z;             (* size_t *)
  read_stall_timeout_sec : Z;      (* uint32_t *)
  max_output_buffer_bytes : Z;     (* size_t *)
  max_input_buffer_bytes : Z;      (* size_t *)
  group_min_session_ms : Z;        (* uint32_t *)
  group_max_session_ms : Z;        (* uint32_t *)
  reaper_interval_ms : Z;          (* uint32_t *)
}.

Record Task := mkTask {
  t_conn_id : Z;
  t_request : Frame;
}.

Record Completion := mkCompletion {
  c_conn_id : Z;
  c_response_bytes : bytes;
  c_close_after_send : bool;
}.

(** A request in flight: the task, or what became of it. *)
Inductive item := it_task (t : Task) | it_comp (x : Completion).

Definition item_conn (x : item) : Z := match x with it_task t => t_conn_id t | it_comp x => c_conn_id x end.

(** Without the socket and the peer's address. *)
Record ConnectionState := mkConnectionState {
  cs_conn_id : Z;
  cs_assembler : FrameAssembler;
  cs_pending_requests : list Frame;
  cs_in_flight : bool;
  cs_output_buffer : bytes;
  cs_output_offset : Z;
  cs_close_after_send : bool;
  cs_last_read_time : Z;           (* nanoseconds *)
  cs_has_active_read_stall : bool;
}.

Record TcpServer := mkTcpServer {
  ts_config : ServerConfig;
  ts_next_conn_id : Z;             (* uint64_t *)
  ts_connections : gmap Z ConnectionState;
  ts_shutdown_requested : bool;
  ts_stopped : bool;               (* ThreadPool::m_stopped *)
  ts_tasks : list Task;            (* TaskQueue *)
  ts_busy : list item;             (* a task a worker handles, a completion it is about to queue *)
  ts_comps : list Completion;      (* CompletionQueue *)
  ts_io_comps : list Completion;   (* popped by the I/O thread, not yet processed *)
  ts_to_close : list Z;            (* the local to_close of event_loop *)
}.

(** Assignments. *)
Definition cs_set_assembler (a : FrameAssembler) (c : ConnectionState) : ConnectionState :=
  mkConnectionState (cs_conn_id c) a (cs_pending_requests c) (cs_in_flight c) (cs_output_buffer c)
    (cs_output_offset c) (cs_close_after_send c) (cs_last_read_time c) (cs_has_active_read_stall c).
Definition cs_set_requests (pending : list Frame) (in_flight : bool) (c : ConnectionState) : ConnectionState :=
  mkConnectionState (cs_conn_id c) (cs_assembler c) pending in_flight (cs_output_buffer c)
    (cs_output_offset c) (cs_close_after_send c) (cs_last_read_time c) (cs_has_active_read_stall c).
Definition cs_set_output (buf : bytes) (off : Z) (c : ConnectionState) : ConnectionState :=
  mkConnectionState (cs_conn_id c) (cs_assembler c) (cs_pending_requests c) (cs_in_flight c) buf off
    (cs_close_after_send c) (cs_last_read_time c) (cs_has_active_read_stall c).
Definition cs_set_close (c : ConnectionState) : ConnectionState :=
  mkConnectionState (cs_conn_id c) (cs_assembler c) (cs_pending_requests c) (cs_in_flight c) (cs_output_buffer c)
    (cs_output_offset c) true (cs_last_read_time c) (cs_has_active_read_stall c).
Definition cs_set_read (now : Z) (c : ConnectionState) : ConnectionState :=
  mkConnectionState (cs_conn_id c) (cs_assembler c) (cs_pending_requests c) (cs_in_flight c) (cs_output_buffer c)
    (cs_output_offset c) (cs_close_after_send c) now (cs_has_active_read_stall c).
Definition cs_set_stall (b : bool) (c : ConnectionState) : ConnectionState :=
  mkConnectionState (cs_conn_id c) (cs_assembler c) (cs_pending_requests c) (cs_in_flight c) (cs_output_buffer c)
    (cs_output_offset c) (cs_close_after_send c) (cs_last_read_time c) b.

Definition ts_set_connections (cs : gmap Z ConnectionState) (s : TcpServer) : TcpServer :=
  mkTcpServer (ts_config s) (ts_next_conn_id s) cs (ts_shutdown_requested s) (ts_stopped s) (ts_tasks s)
    (ts_busy s) (ts_comps s) (ts_io_comps s) (ts_to_close s).
Definition ts_set_conn (c : ConnectionState) (s : TcpServer) : TcpServer :=
  ts_set_connections (<[cs_conn_id c := c]> (ts_connections s)) s.
Definition ts_set_queues (tasks : list Task) (busy : list item) (comps io : list Completion) (s : TcpServer) : TcpServer :=
  mkTcpServer (ts_config s) (ts_next_conn_id s) (ts_connections s) (ts_shutdown_requested s) (ts_stopped s) tasks
    busy comps io (ts_to_close s).
Definition ts_set_to_close (l : list Z) (s : TcpServer) : TcpServer :=
  mkTcpServer (ts_config s) (ts_next_conn_id s) (ts_connections s) (ts_shutdown_requested s) (ts_stopped s)
    (ts_tasks s) (ts_busy s) (ts_comps s) (ts_io_comps s) l.

(** What [send] returns for a buffer: the number of bytes taken, or an error.  It
    takes at most the whole buffer, and something of a buffer that is not empty. *)
Inductive SendResult := Sent (n : Z) | SendWouldBlock | SendError.

Definition send_ok (r : SendResult) (buf : bytes) : Prop :=
  match r with Sent n => 0 <= n <= zlen buf /\ (0 < zlen buf -> 0 < n) | _ => True end.

Inductive Event :=
| ev_accept (c : Z)
| ev_request (c : Z) (f : Frame)
| ev_sent (c : Z) (bs : bytes)
| ev_shutdown_ok (c : Z)
| ev_error (c : Z).

#[global] Instance Event_eq_dec : EqDecision Event.
Proof. solve_decision. Defined.

(** ** Operations *)

Definition ThreadPool_enqueue (t : Task) (s : TcpServer) : TcpServer :=
  if ts_stopped s then s else ts_set_queues (ts_tasks s ++ [t]) (ts_busy s) (ts_comps s) (ts_io_comps s) s.

Definition TcpServer_request_stop (s : TcpServer) : TcpServer :=
  mkTcpServer (ts_config s) (ts_next_conn_id s) (ts_connections s) true (ts_stopped s) (ts_tasks s)
    (ts_busy s) (ts_comps s) (ts_io_comps s) (ts_to_close s).

Definition TcpServer_close_connection (conn_id : Z) (s : TcpServer) : TcpServer :=
  ts_set_connections (delete conn_id (ts_connections s)) s.

(** One round of the loop of [accept_new_connections] with an accepted socket. *)
Definition accept_connection (now : Z) (s : TcpServer) : TcpServer * list Event :=
  if max_connections (ts_config s) <=? Z.of_nat (size (ts_connections s)) then (s, []) else
  let conn_id := ts_next_conn_id s in
  let conn := mkConnectionState conn_id empty_assembler [] false [] 0 false now false in
  (mkTcpServer (ts_config s) (u64 (conn_id + 1)) (<[conn_id := conn]> (ts_connections s)) (ts_shutdown_requested s)
     (ts_stopped s) (ts_tasks s) (ts_busy s) (ts_comps s) (ts_io_comps s) (ts_to_close s), [ev_accept conn_id]).

Definition unsent (c : ConnectionState) : bytes := zdrop (cs_output_offset c) (cs_output_buffer c).

(** The send or the buffering of a response; [None] when the connection is closed. *)
Definition queue_response (resp : bytes) (sent : SendResult) (c : ConnectionState)
    : option ConnectionState * list Event :=
  if zlen (unsent c) =? 0 then
    match sent with
    | Sent n =>
        (Some (if (0 <? n) && (n <? zlen resp) then cs_set_output (zdrop n resp) 0 c else c),
         [ev_sent (cs_conn_id c) (ztake n resp)])
    | SendWouldBlock => (Some (cs_set_output resp 0 c), [])
    | SendError => (None, [])
    end
  else (Some (cs_set_output (unsent c ++ resp) 0 c), []).

(** One round of the loop of [process_completions]. *)
Definition process_completion (comp : Completion) (sent : SendResult) (s : TcpServer) : TcpServer * list Event :=
  match ts_connections s !! c_conn_id comp with
  | None => (s, [])
  | Some conn =>
      let conn := cs_set_requests (cs_pending_requests conn) false conn in
      let s := ts_set_conn conn s in
      if max_output_buffer_bytes (ts_config s) <? zlen (unsent conn) + zlen (c_response_bytes comp) then
        (TcpServer_close_connection (cs_conn_id conn) s, [])
      else
        match queue_response (c_response_bytes comp) sent conn with
        | (None, evs) => (TcpServer_close_connection (cs_conn_id conn) s, evs)
        | (Some conn, evs) =>
            match cs_pending_requests conn with
            | [] => (ts_set_conn conn s, evs)
            | next_req :: rest =>
                let conn := cs_set_requests rest true conn in
                (ThreadPool_enqueue (mkTask (cs_conn_id conn) next_req) (ts_set_conn conn s), evs)
            end
        end
  end.

Definition stalled (now timeout_sec : Z) (c : ConnectionState) : bool :=
  cs_has_active_read_stall c && (timeout_sec <=? Z.quot (now - cs_last_read_time c) 1000000000).

Definition TcpServer_check_read_stalls (now : Z) (s : TcpServer) : TcpServer :=
  let to_close := (filter (fun x => stalled now (read_stall_timeout_sec (ts_config s)) x.2 = true)
                     (map_to_list (ts_connections s))).*1 in
  foldl (fun s id => TcpServer_close_connection id s) s to_close.

(** Whether the event loop asks for input and for output on a connection.  Until the
    socket is handled, only completions are processed, which take nothing off the
    output and add no request: what was asked for still is. *)
Definition poll_in (cfg : ServerConfig) (c : ConnectionState) : bool :=
  (FrameAssembler_buffered_bytes (cs_assembler c) <? max_input_buffer_bytes cfg) &&
  (zlen (cs_pending_requests c) <? 1000) && negb (cs_close_after_send c).
Definition poll_out (c : ConnectionState) : bool := cs_output_offset c <? zlen (cs_output_buffer c).

(** Output handling: the connection, and whether it is to be closed. *)
Definition client_output (sent : SendResult) (c : ConnectionState) : ConnectionState * bool * list Event :=
  match sent with
  | Sent n =>
      let evs := [ev_sent (cs_conn_id c) (ztake n (unsent c))] in
      if 0 <? n then
        let off := cs_output_offset c + n in
        if off =? zlen (cs_output_buffer c) then (cs_set_output [] 0 c, cs_close_after_send c, evs)
        else (cs_set_output (cs_output_buffer c) off c, false, evs)
      else (c, false, evs)
  | SendWouldBlock => (c, false, [])
  | SendError => (c, true, [])
  end.

Section input.
Context {N : Winsock}.

(** The loop over the frames of the assembler: the result that ended it. *)
Fixpoint dispatch_frames (fuel : nat) (s : TcpServer) (c : ConnectionState)
    : option (FrameExtractResult * TcpServer * ConnectionState * list Event) :=
  match fuel with
  | O => None
  | S fuel =>
      match FrameAssembler_extract_next_frame (cs_assembler c) empty_Frame with
      | (FrameReady, frame, a) =>
          let c := cs_set_assembler a c in
          if frame_type frame =? SHUTDOWN then
            Some (FrameReady, TcpServer_request_stop s, c, [ev_shutdown_ok (cs_conn_id c)])
          else
            let '(s, c) :=
              if cs_in_flight c then (s, cs_set_requests (cs_pending_requests c ++ [frame]) true c)
              else (ThreadPool_enqueue (mkTask (cs_conn_id c) frame) s,
                    cs_set_requests (cs_pending_requests c) true c) in
            '(res, s, c, evs) ← dispatch_frames fuel s c;
            Some (res, s, c, ev_request (cs_conn_id c) frame :: evs)
      | (res, _, a) => Some (res, s, cs_set_assembler a c, [])
      end
  end.

(** The connection afterwards, or [None] when it was closed and is gone. *)
Definition queue_immediate_error_and_close (err_frame : Frame) (sent : SendResult) (c : ConnectionState)
    : option (option ConnectionState) :=
  encoded ← FrameCodec_encode err_frame;
  let n := match sent with Sent n => n | _ => 0 end in
  if (0 <? n) && (n =? zlen encoded) then Some None
  else Some (Some (cs_set_close (cs_set_output encoded (if 0 <? n then n else 0) c))).

Definition MALFORMED_FRAME_ERROR : Frame :=
  FrameCodec_create_error_frame 0 MALFORMED_FRAME (str "Malformed frame: length less than header size").
Definition FRAME_TOO_LARGE_ERROR : Frame :=
  FrameCodec_create_error_frame 0 FRAME_TOO_LARGE (str "Frame size exceeds maximum limit of 1 MiB").

(** Input handling: the bytes of the [recv] loop, whether it ended with the peer gone,
    and the result of sending an error frame.  The last statement writes through the
    pointer to the connection; when the connection was just closed, that is an access
    to freed memory ([None]). *)
Definition client_input (now : Z) (chunks : list bytes) (disconnected : bool) (sent : SendResult)
    (s : TcpServer) (c : ConnectionState) : option (TcpServer * list Event) :=
  let c := foldl (fun c chunk => cs_set_assembler (FrameAssembler_push_bytes (cs_assembler c) chunk)
                                   (cs_set_read now c)) c chunks in
  if disconnected then Some (ts_set_to_close (ts_to_close s ++ [cs_conn_id c]) (ts_set_conn c s), []) else
  '(res, s, c, evs) ← dispatch_frames (S (length (m_buffer (cs_assembler c)))) s c;
  let stall c := cs_set_stall (FrameAssembler_has_partial_frame (cs_assembler c)) c in
  let fail err :=
    closed ← queue_immediate_error_and_close err sent c;
    c ← closed;
    Some (ts_set_conn (stall c) s, evs ++ [ev_error (cs_conn_id c)]) in
  match res with
  | ErrorLengthTooSmall => fail MALFORMED_FRAME_ERROR
  | ErrorLengthTooLarge => fail FRAME_TOO_LARGE_ERROR
  | _ => Some (ts_set_conn (stall c) s, evs)
  end.

End input.

(** One round of the loop over the polled sockets: [hup] for an error or a hang-up,
    the result of [send] if the socket is writable, the results of [recv] if it is
    readable. *)
Record Revents := mkRevents {
  re_hup : bool;
  re_out : option SendResult;
  re_in : option (list bytes * bool * SendResult);
}.

Definition client_event {N : Winsock} (now : Z) (conn_id : Z) (re : Revents) (s : TcpServer)
    : option (TcpServer * list Event) :=
  match ts_connections s !! conn_id with
  | None => Some (s, [])
  | Some c =>
      if re_hup re then Some (ts_set_to_close (ts_to_close s ++ [conn_id]) s, []) else
      let '(c, close, evs) := match re_out re with Some r => client_output r c | None => (c, false, []) end in
      let s := ts_set_conn c s in
      if (close : bool) then Some (ts_set_to_close (ts_to_close s ++ [conn_id]) s, evs) else
      match re_in re with
      | None => Some (s, evs)
      | Some (chunks, disconnected, sent) =>
          '(s, evs') ← client_input now chunks disconnected sent s c;
          Some (s, evs ++ evs')
      end
  end.

(** ** A round of the event loop *)

(** The completions the I/O thread has popped, with the results of the sends. *)
Fixpoint process_popped (sends : list SendResult) (comps : list Completion) (s : TcpServer) : TcpServer * list Event :=
  match comps with
  | [] => (s, [])
  | comp :: comps =>
      let r := process_completion comp (default SendWouldBlock (head sends))
                 (ts_set_queues (ts_tasks s) (ts_busy s) (ts_comps s) comps s) in
      let r' := process_popped (tail sends) comps r.1 in
      (r'.1, r.2 ++ r'.2)
  end.

Definition TcpServer_process_completions (sends : list SendResult) (s : TcpServer) : TcpServer * list Event :=
  process_popped sends (ts_comps s) (ts_set_queues (ts_tasks s) (ts_busy s) [] (ts_comps s) s).

(** [accept] delivers one socket for each time. *)
Fixpoint TcpServer_accept_new_connections (nows : list Z) (s : TcpServer) : TcpServer * list Event :=
  match nows with
  | [] => (s, [])
  | now :: nows =>
      let r := accept_connection now s in
      let r' := TcpServer_accept_new_connections nows r.1 in
      (r'.1, r.2 ++ r'.2)
  end.

Fixpoint client_events {N : Winsock} (now : Z) (polled : list (Z * Revents)) (s : TcpServer)
    : option (TcpServer * list Event) :=
  match polled with
  | [] => Some (s, [])
  | (id, re) :: polled =>
      '(s, evs) ← client_event now id re s;
      '(s, evs') ← client_events now polled s;
      Some (s, evs ++ evs')
  end.

Definition close_all (s : TcpServer) : TcpServer :=
  ts_set_to_close [] (foldl (fun s id => TcpServer_close_connection id s) s (ts_to_close s)).

(** What the sockets and the clock deliver in a round: the accepted sockets, whether
    the wake-up channel is readable, the events of the clients' sockets, the results of
    the sends of the two calls of [process_completions]. *)
Record Round := mkRound {
  rd_now : Z;
  rd_accepted : list Z;
  rd_wakeup : bool;
  rd_polled : list (Z * Revents);
  rd_sends1 : list SendResult;
  rd_sends2 : list SendResult;
}.

(** The body of the loop of [event_loop] after [WSAPoll], with the workers at rest:
    completions they queue in its middle are those of the next round.  (In [step] the
    workers act between any two operations of a round.) *)
Definition TcpServer_event_round {N : Winsock} (rd : Round) (s : TcpServer) : option (TcpServer * list Event) :=
  let '(s, evs1) := TcpServer_accept_new_connections (rd_accepted rd) s in
  let '(s, evs2) := if rd_wakeup rd then TcpServer_process_completions (rd_sends1 rd) s else (s, []) in
  '(s, evs3) ← client_events (rd_now rd) (rd_polled rd) s;
  let s := close_all s in
  let '(s, evs4) := TcpServer_process_completions (rd_sends2 rd) s in
  Some (TcpServer_check_read_stalls (rd_now rd) s, evs1 ++ evs2 ++ evs3 ++ evs4).

(** ** The request handler *)

Class RequestHandler (St : Type) := {
  handles : St -> Frame -> Frame -> St -> Prop;
  handles_id : forall st req resp st', handles st req resp st' -> request_id resp = request_id req;
}.

Definition MessageHandler_handles {N : Winsock} {W : Win32} {F : Fstream W} (st : Broker * disk) (req resp : Frame)
    (st' : Broker * disk) : Prop :=
  exists env, MessageHandler_handle_request env req st.1 st.2 = Some (resp, st'.1, st'.2).

Lemma MessageHandler_handles_id {N : Winsock} {W : Win32} {F : Fstream W} st req resp st' :
  MessageHandler_handles st req resp st' -> request_id resp = request_id req.
Proof. intros [env E]. exact (proj1 (request_answers env req st.1 _ _ _ E)). Qed.

#[global] Instance MessageHandler_RequestHandler {N : Winsock} {W : Win32} {F : Fstream W} :
  RequestHandler (Broker * disk) :=
  {| handles := MessageHandler_handles; handles_id := MessageHandler_handles_id |}.

(** ** Steps *)

Section steps.
Context {N : Winsock} {St : Type} {H : RequestHandler St}.

(** What the server does on its own: a worker takes a task, answers it or queues the
    answer, the I/O thread takes the completions or processes the next of them. *)
Inductive serve : TcpServer * St -> list Event -> TcpServer * St -> Prop :=
| io_pop_all s st :
    ts_io_comps s = [] -> ts_comps s <> [] ->
    serve (s, st) [] (ts_set_queues (ts_tasks s) (ts_busy s) [] (ts_comps s) s, st)
| io_process s st comp l sent :
    ts_io_comps s = comp :: l -> send_ok sent (c_response_bytes comp) ->
    let r := process_completion comp sent (ts_set_queues (ts_tasks s) (ts_busy s) (ts_comps s) l s) in
    serve (s, st) r.2 (r.1, st)
| worker_pop s st t l :
    ts_tasks s = t :: l -> Z.of_nat (length (ts_busy s)) < workers (ts_config s) ->
    serve (s, st) [] (ts_set_queues l (ts_busy s ++ [it_task t]) (ts_comps s) (ts_io_comps s) s, st)
| worker_handle s st t b1 b2 resp st' bs :
    ts_busy s = b1 ++ it_task t :: b2 -> handles st (t_request t) resp st' -> FrameCodec_encode resp = Some bs ->
    serve (s, st) [] (ts_set_queues (ts_tasks s) (b1 ++ it_comp (mkCompletion (t_conn_id t) bs false) :: b2)
      (ts_comps s) (ts_io_comps s) s, st')
| worker_push s st x b1 b2 :
    ts_busy s = b1 ++ it_comp x :: b2 ->
    serve (s, st) [] (ts_set_queues (ts_tasks s) (b1 ++ b2) (ts_comps s ++ [x]) (ts_io_comps s) s, st).

(** Besides, the I/O thread accepts, handles and closes connections. *)
Inductive step : TcpServer * St -> list Event -> TcpServer * St -> Prop :=
| io_accept s st now :
    step (s, st) (accept_connection now s).2 ((accept_connection now s).1, st)
| io_client s st now id re s' evs :
    (forall c, ts_connections s !! id = Some c ->
       (forall r, re_out re = Some r -> poll_out c = true /\ send_ok r (unsent c)) /\
       (is_Some (re_in re) -> poll_in (ts_config s) c = true)) ->
    client_event now id re s = Some (s', evs) -> step (s, st) evs (s', st)
| io_close s st id l :
    ts_to_close s = id :: l -> step (s, st) [] (TcpServer_close_connection id (ts_set_to_close l s), st)
| io_stalls s st now :
    step (s, st) [] (TcpServer_check_read_stalls now s, st)
| io_serve x evs y : serve x evs y -> step x evs y.

(** A run, with everything that happened on the wire. *)
Inductive run (x : TcpServer * St) : list Event -> TcpServer * St -> Prop :=
| run_start : run x [] x
| run_step tr y evs z : run x tr y -> step y evs z -> run x (tr ++ evs) z.

End steps.

(** The server before its first connection. *)
Definition TcpServer_new (cfg : ServerConfig) : TcpServer :=
  mkTcpServer cfg 1 ∅ false false [] [] [] [] [].
