(* ===== verification/ClientBroker.v ===== *)
(** * ClientBroker: the client's commands against the broker
    (src/cli_main.cpp, src/FrameAssembler.cpp, src/MessageHandler.cpp)

    [Served] joins the two programs: what the client sends goes through the frame
    assembler and the message handler, in order, and the answers wait to be read.  This
    is one connection as [responses_in_order] and [requests_answered] describe it, for a
    client that has no request outstanding when it sends a SHUTDOWN or a frame that cannot
    be (to these the event loop answers past its queues, and a request that waits there is
    overtaken); the threads and queues of the server are left out here.  [Served_machine] makes it an
    instance of the client's surroundings, so that its commands run against the broker. *)
From S2P Require Import Prelude StdString Status RecordCodec FrameCodec FrameAssembler BodyCodec ProtocolMessages.
From S2P Require Import FileHandle OffsetIndex LogSegment Partition PartitionRead PartitionRecovery PartitionFrame.
From S2P Require Import PartitionProps Partitioner Assignor Topic TopicManager OffsetStore GroupCoordinator MessageHandler.
From S2P Require Import RequestFlow TcpServer Client Console ClientCommands.

Record Served {W : Win32} := mkServed {
  sv_disk : disk;
  sv_broker : Broker;
  sv_env : nat -> Env;             (* what the broker sees at its n-th request *)
  sv_requests : nat;
  sv_assembler : FrameAssembler;
  sv_answers : bytes;              (* sent by the server, not yet read *)
  sv_open : bool;
}.

Section served.
Context {N : Winsock} {W : Win32} {F : Fstream W}.

Definition sv_answer (f : Frame) (s : Served) : option Served :=
  enc ← FrameCodec_encode f;
  Some (mkServed _ (sv_disk s) (sv_broker s) (sv_env s) (sv_requests s) (sv_assembler s) (sv_answers s ++ enc) (sv_open s)).

(** One frame off the connection. *)
Definition sv_handle (f : Frame) (s : Served) : option Served :=
  if frame_type f =? SHUTDOWN then sv_answer (mkFrame HEADER_SIZE SHUTDOWN_OK (request_id f) []) s else
  match MessageHandler_handle_request (sv_env s (sv_requests s)) f (sv_broker s) (sv_disk s) with
  | Some (resp, b, d) =>
      sv_answer resp (mkServed _ d b (sv_env s) (S (sv_requests s)) (sv_assembler s) (sv_answers s) (sv_open s))
  | None => None
  end.

Fixpoint sv_handle_all (fs : list Frame) (s : Served) : option Served :=
  match fs with
  | [] => Some s
  | f :: fs => s ← sv_handle f s; sv_handle_all fs s
  end.

Definition sv_set_input (a : FrameAssembler) (open : bool) (s : Served) : Served :=
  mkServed _ (sv_disk s) (sv_broker s) (sv_env s) (sv_requests s) a (sv_answers s) open.

(** The bytes of the client arrive, and its requests are answered; a frame that cannot be
    is answered and ends the connection. *)
Definition sv_receive (data : bytes) (s : Served) : option Served :=
  if negb (sv_open s) then Some s else
  let '(fs, res, a) := receive (sv_assembler s) data in
  s ← sv_handle_all fs (sv_set_input a true s);
  match res with
  | ErrorLengthTooSmall => s ← sv_answer MALFORMED_FRAME_ERROR s; Some (sv_set_input a false s)
  | ErrorLengthTooLarge => s ← sv_answer FRAME_TOO_LARGE_ERROR s; Some (sv_set_input a false s)
  | _ => Some s
  end.

(** The client reads: it waits when the answers do not suffice and the connection is open. *)
Definition sv_read (n : Z) (s : Served) : option (RecvResult * bytes * Served) :=
  let take k := mkServed _ (sv_disk s) (sv_broker s) (sv_env s) (sv_requests s) (sv_assembler s) (zdrop k (sv_answers s))
                  (sv_open s) in
  if n <=? zlen (sv_answers s) then Some (RecvSuccess, ztake n (sv_answers s), take n)
  else if sv_open s then None
  else Some (RecvDisconnected, sv_answers s, take (zlen (sv_answers s))).

#[global] Instance Served_socket : SocketApi Served := {
  recv_exact := sv_read;
  send_all data s := s ← sv_receive data s; Some (SendSuccess, s);
}.

(** A connection that does not break, a clock that stands still, no Ctrl-C. *)
#[global] Instance Served_machine : Machine Served := {
  sk_is_valid _ := true;
  sk_close s := s;
  Console.connect_socket _ _ s := (true, mkServed _ (sv_disk s) (sv_broker s) (sv_env s) (sv_requests s) empty_assembler [] true);
  connect_another _ _ s := (true, s);
  steady_now s := (0, s);
  stop_requested s := (false, s);
  sleep_ms _ s := s;
  timing_text _ s := ((str "0", str "0"), s);
}.

(** Nothing is under way. *)
Definition idle (s : Served) : Prop := sv_assembler s = empty_assembler /\ sv_answers s = [] /\ sv_open s = true.

(** ** One exchange *)

(** After a frame was extracted, an assembler without pending bytes is empty. *)
Lemma compact_empty b : let a := FrameAssembler_compact_if_needed b in
  m_read_offset a = zlen (m_buffer a) -> a = empty_assembler.
Proof.
  cbn zeta. unfold FrameAssembler_compact_if_needed. destruct (Z.eqb_spec (m_read_offset b) (zlen (m_buffer b))); [done|].
  destruct (_ <? _); [|done]. cbn [m_read_offset m_buffer]. intros H. by rewrite (zlen_zero (zdrop _ _)).
Qed.

Lemma extract_empty a f a' : FrameAssembler_extract_next_frame a empty_Frame = (FrameReady, f, a') ->
  assembler_wf a' -> pending a' = [] -> a' = empty_assembler.
Proof.
  intros E Hwf Hp. pose proof (zlen_pending a' Hwf) as Hz. rewrite Hp, zlen_nil in Hz.
  unfold FrameAssembler_extract_next_frame in E. do 4 (destruct (_ <? _); [discriminate E|]).
  injection E as _ <-. apply compact_empty. lia.
Qed.

Lemma receive_frame f : Frame_wf f -> receive empty_assembler (frame_bytes f) = ([f], NeedMoreData, empty_assembler).
Proof.
  intros Hf. unfold receive, extract_all. pose proof (zlen_frame_bytes f) as Hz. pose proof (zlen_nonneg (body f)).
  destruct (push_pending empty_assembler (frame_bytes f)) as [Hp Hwf]; [by vm_compute|
    destruct Hf as (? & ? & _); unfold MAX_FRAME_LENGTH in *; cbn [m_buffer empty_assembler]; rewrite zlen_nil; lia|].
  set (a := FrameAssembler_push_bytes _ _) in *. cbn [app] in Hp. change (pending empty_assembler) with (@nil byte) in Hp.
  pose proof (extract_refines a empty_Frame Hwf) as Hr. rewrite Hp in Hr. cbn [app] in Hr.
  rewrite <- (app_nil_r (frame_bytes f)) in Hr. rewrite parse_step_frame_bytes in Hr by done.
  destruct Hr as (a' & E & Hp' & Hwf' & _). cbn [extract_loop]. rewrite E.
  rewrite (extract_empty a f a' E Hwf' Hp'). by destruct (length (m_buffer a)).
Qed.

Definition sv_after (d : disk) (b : Broker) (s : Served) : Served :=
  mkServed _ d b (sv_env s) (S (sv_requests s)) empty_assembler [] true.

Lemma bind_value {S A B} (m : cli S A) (k : A -> cli S B) w a w' : m w = (Value a, w') -> (m ≫= k) w = k a w'.
Proof. intros E. unfold mbind, cli_bind. by rewrite E. Qed.

Lemma send_frame_ok {T} {K : SocketApi T} f enc (s s1 : T) id tr :
  FrameCodec_encode f = Some enc -> send_all enc s = Some (SendSuccess, s1) ->
  send_frame f (mkWorld s id tr) = (Value true, mkWorld s1 id (tr ++ [Sent f])).
Proof.
  intros He Hs. unfold send_frame. rewrite He. erewrite bind_value by reflexivity. erewrite bind_value by reflexivity.
  unfold send_bytes, on_machine. cbn [w_machine w_req_id w_trace].
  erewrite bind_value by (cbn [w_machine]; rewrite Hs; reflexivity). by rewrite bool_decide_eq_true_2.
Qed.

Definition sv_set_answers (bs : bytes) (s : Served) : Served :=
  mkServed _ (sv_disk s) (sv_broker s) (sv_env s) (sv_requests s) (sv_assembler s) bs (sv_open s).

(** An answer that waits is read, and the ones after it are left. *)
Lemma read_answer_into out f rest (s : Served) id tr : response_wf f ->
  read_response_frame out (mkWorld (sv_set_answers (frame_bytes f ++ rest) s) id tr) =
    (Value (true, received out f), mkWorld (sv_set_answers rest s) id (tr ++ [Received (received out f)])).
Proof.
  intros Hf. pose proof (zlen_nonneg (body f)). pose proof (zlen_nonneg rest).
  rewrite frame_bytes_payload, <- app_assoc.
  apply (read_frame_into out f _ (sv_set_answers (frame_payload f ++ rest) s)); [done|..];
    cbn [recv_exact machine_socket Served_machine Served_socket]; unfold sv_read; cbn [sv_answers sv_set_answers].
  - rewrite !zlen_app, zlen_be_store, zlen_frame_payload. rewrite (proj2 (Z.leb_le _ _)) by lia.
    by rewrite ztake_app_exact, zdrop_app_exact by (by rewrite zlen_be_store).
  - rewrite zlen_app, zlen_frame_payload. rewrite (proj2 (Z.leb_le _ _)) by lia.
    by rewrite ztake_app_exact, zdrop_app_exact by (by rewrite zlen_frame_payload).
Qed.

Lemma read_answer f rest (s : Served) id tr : response_wf f ->
  read_response_frame empty_Frame (mkWorld (sv_set_answers (frame_bytes f ++ rest) s) id tr) =
    (Value (true, f), mkWorld (sv_set_answers rest s) id (tr ++ [Received f])).
Proof. intros Hf. rewrite read_answer_into by done. by rewrite received_new. Qed.

(** The calls of the socket in an exchange: the request is handled as it is sent, and the
    response is there. *)
Lemma served_calls (s : Served) req resp b d :
  idle s -> Frame_wf req -> frame_type req <> SHUTDOWN -> response_wf resp ->
  MessageHandler_handle_request (sv_env s (sv_requests s)) req (sv_broker s) (sv_disk s) = Some (resp, b, d) ->
  exists s1 s2, send_all (frame_bytes req) s = Some (SendSuccess, s1) /\
    recv_exact 4 s1 = Some (RecvSuccess, be_store 4 (5 + zlen (body resp)), s2) /\
    recv_exact (5 + zlen (body resp)) s2 = Some (RecvSuccess, frame_payload resp, sv_after d b s).
Proof.
  intros (Ha & Han & Ho) Hreq Hns Hresp Hh. pose proof Hreq as (Hl & Hm & _ & Hid). unfold MAX_FRAME_LENGTH in Hm.
  pose proof Hresp as (Hl' & Hm' & _ & Hid'). pose proof (zlen_nonneg (body resp)).
  exists (mkServed _ d b (sv_env s) (S (sv_requests s)) empty_assembler (frame_bytes resp) true),
    (mkServed _ d b (sv_env s) (S (sv_requests s)) empty_assembler (frame_payload resp) true).
  cbn [send_all recv_exact Served_socket]. split_and!.
  - unfold sv_receive. rewrite Ho, Ha, receive_frame by done. cbn [negb sv_handle_all]. unfold sv_handle.
    rewrite (proj2 (Z.eqb_neq _ _)) by done. cbn [sv_set_input sv_env sv_requests sv_broker sv_disk]. rewrite Hh.
    unfold sv_answer. rewrite FrameCodec_encode_spec by (done || lia). cbn. by rewrite Han.
  - unfold sv_read. cbn [sv_answers]. rewrite frame_bytes_payload, zlen_app, zlen_be_store, zlen_frame_payload.
    rewrite (proj2 (Z.leb_le _ _)) by lia.
    by rewrite ztake_app_exact, zdrop_app_exact by (by rewrite zlen_be_store).
  - unfold sv_read. cbn [sv_answers]. rewrite zlen_frame_payload, (proj2 (Z.leb_le _ _)) by lia.
    by rewrite ztake_ge, zdrop_ge by (rewrite zlen_frame_payload; lia).
Qed.

(** The request is handled and its response is read. *)
Lemma served_exchange_raw (s : Served) req resp b d id tr :
  idle s -> Frame_wf req -> frame_type req <> SHUTDOWN -> response_wf resp ->
  MessageHandler_handle_request (sv_env s (sv_requests s)) req (sv_broker s) (sv_disk s) = Some (resp, b, d) ->
  exists s1, send_frame req (mkWorld s id tr) = (Value true, mkWorld s1 id (tr ++ [Sent req])) /\
    forall out tr, read_response_frame out (mkWorld s1 id tr) =
      (Value (true, received out resp), mkWorld (sv_after d b s) id (tr ++ [Received (received out resp)])).
Proof.
  intros Hi Hreq Hns Hresp Hh. pose proof Hreq as (Hl & Hm & _ & Hid). unfold MAX_FRAME_LENGTH in Hm.
  destruct (served_calls s req resp b d Hi Hreq Hns Hresp Hh) as (s1 & s2 & E1 & E2 & E3). exists s1. split.
  - eapply send_frame_ok; [rewrite FrameCodec_encode_spec by (done || lia); reflexivity|exact E1].
  - intros out tr'. by apply (read_frame_into out resp s1 s2).
Qed.

(** A small request of the client. *)
Lemma request_wf type body id : 5 + zlen body <= MAX_FRAME_LENGTH -> is_u8 type -> is_u32 id ->
  request_frame_of type body id = request_frame type id body /\ Frame_wf (request_frame_of type body id).
Proof.
  intros Hb Ht Hid. pose proof (zlen_nonneg body). unfold MAX_FRAME_LENGTH, request_frame_of, request_frame, HEADER_SIZE in *.
  rewrite (u32_id (zlen body)), u32_id by (unfold is_u32; lia). split; [done|]. unfold Frame_wf, MAX_FRAME_LENGTH. by split_and!.
Qed.

Lemma served_raw (s : Served) type body resp b d id tr :
  idle s -> 5 + zlen body <= MAX_FRAME_LENGTH -> is_u8 type -> is_u32 id -> type <> SHUTDOWN -> response_wf resp ->
  MessageHandler_handle_request (sv_env s (sv_requests s)) (request_frame type id body) (sv_broker s) (sv_disk s) =
    Some (resp, b, d) ->
  exchange_raw type body (mkWorld s id tr) =
    (Value (true, resp),
     mkWorld (sv_after d b s) (u32 (id + 1)) (tr ++ [Sent (request_frame type id body); Received resp])).
Proof.
  intros Hi Hb Ht Hid Hns Hresp Hh. destruct (request_wf type body id Hb Ht Hid) as [Heq Hwf]. rewrite Heq in Hwf.
  destruct (served_exchange_raw s _ resp b d (u32 (id + 1)) tr Hi Hwf Hns Hresp Hh) as (s1 & E1 & E2).
  unfold exchange_raw. erewrite bind_value by reflexivity. cbn [w_req_id w_machine w_trace]. rewrite Heq.
  erewrite bind_value by exact E1. cbn [negb]. rewrite E2, received_new. by rewrite <- app_assoc.
Qed.

Lemma served_exchange (s : Served) type body resp b d id tr :
  idle s -> 5 + zlen body <= MAX_FRAME_LENGTH -> is_u8 type -> is_u32 id -> type <> SHUTDOWN -> response_wf resp ->
  MessageHandler_handle_request (sv_env s (sv_requests s)) (request_frame type id body) (sv_broker s) (sv_disk s) =
    Some (resp, b, d) ->
  exchange type body (mkWorld s id tr) =
    (Value (negb (frame_type resp =? MSG_ERROR), resp),
     mkWorld (sv_after d b s) (u32 (id + 1)) (tr ++ [Sent (request_frame type id body); Received resp])).
Proof.
  intros Hi Hb Ht Hid Hns Hresp Hh. destruct (request_wf type body id Hb Ht Hid) as [Heq Hwf]. rewrite Heq in Hwf.
  destruct (served_exchange_raw s _ resp b d (u32 (id + 1)) tr Hi Hwf Hns Hresp Hh) as (s1 & E1 & E2).
  unfold exchange. erewrite bind_value by reflexivity. cbn [w_req_id w_machine w_trace]. rewrite Heq.
  unfold send_and_receive. erewrite bind_value by exact E1. cbn [negb]. erewrite bind_value by apply E2. cbn [negb].
  rewrite received_new. by rewrite <- app_assoc.
Qed.

End served.

(** ** The standard output *)

Lemma stdout_app tr es : stdout (tr ++ es) = stdout tr ++ stdout es.
Proof. unfold stdout. by rewrite omap_app, concat_app. Qed.

Lemma for_each_cout {S A} (l : list A) (f : A -> bytes) : forall (w : World S),
  for_each l (fun x => cout (f x)) w =
  (Value tt, mkWorld (w_machine w) (w_req_id w) (w_trace w ++ ((fun x => Printed (Text (f x))) <$> l))).
Proof.
  induction l as [|x l IH]; intros w; cbn [for_each]; [destruct w; cbn; by rewrite app_nil_r|].
  erewrite bind_value by reflexivity. rewrite IH. cbn [w_machine w_req_id w_trace fmap list_fmap]. by rewrite <- app_assoc.
Qed.

Lemma stdout_lines {A} (l : list A) (f : A -> bytes) :
  stdout ((fun x => Printed (Text (f x))) <$> l) = concat (f <$> l).
Proof. unfold stdout. induction l as [|x l IH]; [done|]. cbn in *. by rewrite IH. Qed.

(** ** The answer to a FETCH *)

Definition sizes (l : list Record) : Z := foldr (fun r n => record_size r + n) 0 l.

Lemma take_limit_sizes mm mb M l : forall b m, b < mb -> Forall (fun r => record_size r <= M) l ->
  b + sizes (take_limit mm mb b m l).1.1.1 < mb + M \/ (take_limit mm mb b m l).1.1.1 = [].
Proof.
  induction l as [|r l IH]; intros b m Hb HM; cbn [take_limit]; [by right|]. left.
  apply list.Forall_cons in HM as [Hr HM]. pose proof (record_size_min r).
  destruct ((mm <=? m + 1) || (mb <=? b + record_size r)) eqn:El; [cbn; lia|].
  apply orb_false_iff in El as [_ El]. apply Z.leb_gt in El. specialize (IH (b + record_size r) (m + 1) El HM).
  destruct (take_limit mm mb (b + record_size r) (m + 1) l) as [[[out ?] ?] ?]. cbn [fst sizes foldr] in *.
  unfold sizes in *. destruct IH as [IH| ->]; cbn [foldr]; lia.
Qed.

Section fetch.
Context {N : Winsock} {W : Win32} {R : Reliable W} {F : Fstream W} {RF : ReliableStreams W F}.

(** The answer is a frame a client can read. *)
Lemma fetch_answer_wf d p m E L req :
  part_is d p E L -> E <= fr_start_offset m <= E + zlen L -> 0 < fr_max_bytes m -> is_u32 (request_id req) ->
  response_wf (response FETCH_OK req (bw_buffer (FetchResponse_encode (fetch_result m E L) empty_writer))).
Proof.
  intros P Hst Hmb Hid. set (bs := bw_buffer _).
  assert (zlen bs < 2100000) as Hlen.
  { unfold bs. rewrite zlen_fetch_response by (by eapply fetch_result_wf).
    assert (foldr (fun r n => 24 + zlen (frw_key r) + zlen (frw_value r) + n) 0 (frs_records (fetch_result m E L)) <=
      sizes (fetched m E L)) as Hle.
    { cbn [frs_records fetch_result]. induction (fetched m E L) as [|r l IH]; [done|].
      change (sizes (r :: l)) with (record_size r + sizes l). unfold record_size.
      cbn [fmap list_fmap foldr fetch_wire frw_key frw_value] in *. lia. }
    destruct (take_limit_sizes (fr_max_messages m) (Z.min (fr_max_bytes m) 1048500) 1048580
      (drop (Z.to_nat (fr_start_offset m - E)) L) 0 0) as [Hs|Hs]; [lia| | |].
    - apply Forall_drop, list.Forall_lookup. intros i r Hi. destruct (part_is_offsets _ _ _ _ _ _ P Hi) as [_ (_ & _ & Hsz)].
      unfold MAX_RECORD_SIZE in Hsz. unfold record_size in *. lia.
    - fold (fetched m E L) in Hs. lia.
    - fold (fetched m E L) in Hs. rewrite Hs in Hle. change (sizes []) with 0 in Hle. lia. }
  pose proof (zlen_nonneg bs). unfold response_wf, response, HEADER_SIZE. cbn [frame_length frame_type request_id body].
  rewrite (u32_id (zlen bs)), u32_id by (unfold is_u32; lia). split_and!; try done; lia.
Qed.

End fetch.

(** ** consume *)

Section consume.
Context {N : Winsock} {W : Win32} {R : Reliable W} {F : Fstream W} {RF : ReliableStreams W F}.
Context (o : Options) (topic_name : bytes) (partition : Z).

Definition consumed_text (L : list Record) : bytes := concat ((fun r => consume_line (fetch_wire r)) <$> L).

Lemma consume_loop_served d b logs E0 L0 Ls E L : forall fuel (s : Served) id tr cur_offset,
  sv_disk s = d -> sv_broker s = b -> store_is d (bk_topics b) (bk_offsets b) logs E0 L0 ->
  reserved topic_name = false -> is_u16 (zlen topic_name) -> is_u16 partition ->
  logs !! topic_name = Some Ls -> Ls !! Z.to_nat partition = Some (E, L) ->
  is_u32 (num o max_bytes_arg) -> 0 < num o max_bytes_arg ->
  is_u32 (num o max_messages_arg) -> 0 < num o max_messages_arg -> follow_arg o = false ->
  idle s -> is_u32 id -> E <= cur_offset <= E + zlen L -> E + zlen L - cur_offset < Z.of_nat fuel ->
  exists w', consume_loop fuel o topic_name partition cur_offset (mkWorld s id tr) = (Value 0, w') /\
    sv_disk (w_machine w') = d /\ sv_broker (w_machine w') = b /\
    stdout (w_trace w') = stdout tr ++ consumed_text (drop (Z.to_nat (cur_offset - E)) L).
Proof.
  induction fuel as [|fuel IH]; intros s id tr cur Hd Hb Hs Hr Htl Hp HLs HL Hmb Hmb0 Hmm Hmm0 Hfo Hi Hid Hcur Hfuel; [lia|].
  destruct (log_partition _ _ _ _ _ _ _ _ _ _ _ Hs HLs HL) as [p P]. destruct (part_is_next _ _ _ _ P) as (Hn & HE & Hlt).
  rewrite Hn in Hlt.
  set (m := mkFetchRequest topic_name partition cur (num o max_bytes_arg) (num o max_messages_arg)).
  assert (FetchRequest_wf m) as Hwf by (refine (conj _ (conj _ (conj _ (conj _ _)))); try done; unfold is_u64; cbn; lia).
  set (req := request_frame FETCH id (encoded FetchRequest_encode m)).
  set (resp := response FETCH_OK req (bw_buffer (FetchResponse_encode (fetch_result m E L) empty_writer))).
  destruct (wp_handle_fetch (sv_env s (sv_requests s)) req b d logs E0 L0 m Ls E L
    (fun fb d' => fb = (resp, b) /\ d' = d)) as ([f b'] & d' & Hh & [= -> ->] & ->); [done..|].
  assert (response_wf resp) as Hresp by (apply (fetch_answer_wf d p); done).
  cbn [consume_loop]. erewrite bind_value.
  2: { eapply served_exchange; [done| | |done|done|exact Hresp|rewrite Hd, Hb; exact Hh]; [|by vm_compute].
       unfold encoded. rewrite FetchRequest_encode_append, bw_buffer_append by done. unfold FetchRequest_bytes, string_bytes.
       cbn [concat]. rewrite !zlen_app, !zlen_be_store, zlen_nil. unfold is_u16, MAX_FRAME_LENGTH in *. cbn. lia. }
  change (frame_type resp =? MSG_ERROR) with false. cbn [negb].
  assert (decoded FetchResponse_decode resp = Some (fetch_result m E L)) as ->.
  { eapply (decode_encoded _ _ _ _ _ _ FetchResponse_reads FetchResponse_encode_append); [|done]. by eapply fetch_result_wf. }
  erewrite bind_value by apply for_each_cout. cbn [w_machine w_req_id w_trace frs_records fetch_result].
  destruct (fetched_prefix m E L) as [rest Hrest]. change (fr_start_offset m) with cur in Hrest.
  set (out := fetched m E L) in *.
  assert (stdout ((tr ++ [Sent req; Received resp]) ++
      ((fun x => Printed (Text (consume_line x))) <$> (fetch_wire <$> out))) = stdout tr ++ consumed_text out) as Hout.
  { rewrite stdout_app, stdout_lines, <- list_fmap_compose, stdout_app. unfold consumed_text.
    change (stdout [Sent req; Received resp]) with (@nil byte). by rewrite app_nil_r. }
  destruct (decide (out = [])) as [Eo|Eo].
  - assert (drop (Z.to_nat (cur - E)) L = []) as ->.
    { destruct (drop (Z.to_nat (cur - E)) L) eqn:Ed; [done|]. unfold out, fetched in Eo. cbn [fr_start_offset m] in Eo.
      rewrite Ed in Eo. by apply take_limit_nonempty in Eo. }
    rewrite bool_decide_eq_true_2, Hfo by (by rewrite Eo). cbn [negb].
    eexists. split; [reflexivity|]. cbn [w_machine w_trace sv_after sv_disk sv_broker].
    split_and!; [done|done|]. rewrite Eo in Hout at 2. exact Hout.
  - rewrite bool_decide_eq_false_2 by (by destruct out). cbn [negb].
    pose proof (fetched_length _ _ m _ _ P Hcur) as Hle. cbn [fr_start_offset m] in Hle. fold out in Hle.
    pose proof (zlen_pos out Eo) as Hpos.
    cbn [frs_next_offset fetch_result]. fold out. cbn [fr_start_offset m].
    destruct (IH (sv_after d b s) (u32 (id + 1)) ((tr ++ [Sent req; Received resp]) ++
      ((fun x => Printed (Text (consume_line x))) <$> (fetch_wire <$> out))) (cur + zlen out)) as (w' & Hw & Hd' & Hb' & Ho');
      [done..|apply u32_range|lia|lia|].
    exists w'. split; [exact Hw|]. split_and!; [done|done|]. rewrite Ho', Hout, <- app_assoc. f_equal.
    rewrite Hrest. unfold consumed_text. rewrite fmap_app, concat_app. do 3 f_equal.
    assert (drop (Z.to_nat (cur + zlen out - E)) L = drop (length out) (drop (Z.to_nat (cur - E)) L)) as ->.
    { rewrite drop_drop. f_equal. unfold zlen. lia. }
    rewrite Hrest. by rewrite drop_app_length.
Qed.

(** The command, from a new trace on. *)
Lemma cmd_consume_served p_text rest_args logs E0 L0 Ls E L fuel (s : Served) id :
  args o = topic_name :: p_text :: rest_args -> atoi_u16 p_text = Value partition ->
  store_is (sv_disk s) (bk_topics (sv_broker s)) (bk_offsets (sv_broker s)) logs E0 L0 ->
  reserved topic_name = false -> is_u16 (zlen topic_name) -> is_u16 partition ->
  logs !! topic_name = Some Ls -> Ls !! Z.to_nat partition = Some (E, L) ->
  is_u32 (num o max_bytes_arg) -> 0 < num o max_bytes_arg ->
  is_u32 (num o max_messages_arg) -> 0 < num o max_messages_arg -> follow_arg o = false ->
  idle s -> is_u32 id -> E <= num o from_offset_arg <= E + zlen L ->
  E + zlen L - num o from_offset_arg < Z.of_nat fuel ->
  exists w', cmd_consume fuel o (mkWorld s id []) = (Value 0, w') /\
    sv_disk (w_machine w') = sv_disk s /\ sv_broker (w_machine w') = sv_broker s /\
    stdout (w_trace w') = consume_header o topic_name partition ++
      consumed_text (drop (Z.to_nat (num o from_offset_arg - E)) L).
Proof.
  intros Ha Hp Hs Hr Htl Hpu HLs HL Hmb Hmb0 Hmm Hmm0 Hfo Hi Hid Hcur Hfuel. unfold cmd_consume. rewrite Ha, Hp.
  erewrite bind_value by reflexivity. erewrite bind_value by reflexivity. cbn [w_machine w_req_id w_trace app].
  destruct (consume_loop_served _ _ logs E0 L0 Ls E L fuel s id
    [Printed (Text (consume_header o topic_name partition))] (num o from_offset_arg) eq_refl eq_refl) as (w' & H1 & H2 & H3 & H4);
    [done..|]. exists w'. split_and!; [exact H1|done|done|]. rewrite H4. unfold stdout at 1. cbn. by rewrite app_nil_r.
Qed.

End consume.

(** C16: [consume] prints the log.  Against the broker, with a position within the log of a
    topic and limits above zero, the command ends with exit code 0, has printed exactly
    the records from that position to the end of the log, each once and in order, and has
    changed neither the broker nor its files.  One round more than there are records is
    enough. *)
Theorem consume_prints_log {N : Winsock} {W : Win32} {R : Reliable W} {F : Fstream W} {RF : ReliableStreams W F}
    o topic_name p_text rest_args partition logs E0 L0 Ls E L fuel (s : Served) id :
  args o = topic_name :: p_text :: rest_args -> atoi_u16 p_text = Value partition ->
  store_is (sv_disk s) (bk_topics (sv_broker s)) (bk_offsets (sv_broker s)) logs E0 L0 ->
  reserved topic_name = false -> is_u16 (zlen topic_name) -> is_u16 partition ->
  logs !! topic_name = Some Ls -> Ls !! Z.to_nat partition = Some (E, L) ->
  is_u32 (num o max_bytes_arg) -> 0 < num o max_bytes_arg ->
  is_u32 (num o max_messages_arg) -> 0 < num o max_messages_arg -> follow_arg o = false ->
  idle s -> is_u32 id -> E <= num o from_offset_arg <= E + zlen L ->
  E + zlen L - num o from_offset_arg < Z.of_nat fuel ->
  exists w', cmd_consume fuel o (mkWorld s id []) = (Value 0, w') /\
    sv_disk (w_machine w') = sv_disk s /\ sv_broker (w_machine w') = sv_broker s /\
    stdout (w_trace w') = consume_header o topic_name partition ++
      concat ((fun r => consume_line (fetch_wire r)) <$> drop (Z.to_nat (num o from_offset_arg - E)) L).
Proof. intros. by eapply cmd_consume_served. Qed.

(** ** produce-many *)

Definition kv (r : ProduceRecordPayload) : bytes * bytes := (prp_key r, prp_value r).

Lemma batch_records_kv now l : forall next, (fun r => (key r, value r)) <$> batch_records next now l = l.
Proof. induction l as [|[k v] l IH]; intros next; cbn; [done|]. by rewrite IH. Qed.

Lemma batch_records_offsets now l : forall next, offset <$> batch_records next now l = seqZ next (zlen l).
Proof.
  induction l as [|[k v] l IH]; intros next; cbn [batch_records fmap list_fmap]; [done|].
  rewrite zlen_cons. pose proof (zlen_nonneg l). rewrite seqZ_cons by lia. cbn [offset]. rewrite IH.
  f_equal. f_equal; lia.
Qed.

Section produce_many.
Context {N : Winsock} {W : Win32} {R : Reliable W} {F : Fstream W} {RF : ReliableStreams W F}.
Context (o : Options) (topic_name : bytes) (total_count batch_sz val_bytes : Z).
Let p := num o partition_arg.

(** The records of the command are small enough, and so are its requests. *)
Hypothesis batch_range : 0 < batch_sz < 65536.
Hypothesis topic_ok : reserved topic_name = false /\ is_u16 (zlen topic_name).
Hypothesis records_fit : forall n, 0 <= n < total_count -> record_size (mkRecord 0 0 (many_key o n)
  (prp_value (many_record o val_bytes n))) <= MAX_RECORD_SIZE.
Hypothesis requests_fit : forall produced n, 0 <= produced -> 0 < n <= batch_sz -> produced + n <= total_count ->
  5 + zlen (encoded ProduceRequest_encode (many_request o topic_name val_bytes produced n)) <= MAX_FRAME_LENGTH.

Lemma many_request_ok produced n : is_i32 p -> 0 <= produced -> 0 < n <= batch_sz -> produced + n <= total_count ->
  let m := many_request o topic_name val_bytes produced n in
  ProduceRequest_wf m /\ pr_records m <> [] /\ batch_ok (kv <$> pr_records m) /\ zlen (pr_records m) = n.
Proof.
  intros Hp Hpr Hn Ht m.
  assert (zlen (pr_records m) = n) as Hlen.
  { cbn [pr_records m many_request]. rewrite zlen_fmap. unfold zlen. rewrite length_seqZ. lia. }
  assert (forall P : ProduceRecordPayload -> Prop, (forall i, 0 <= i < total_count -> P (many_record o val_bytes i)) ->
    Forall P (pr_records m)) as Hall.
  { intros P HP. cbn [pr_records m many_request]. apply Forall_fmap, list.Forall_forall. intros i Hi.
    apply elem_of_seqZ in Hi. apply HP. lia. }
  split_and!; [|by intros E; rewrite E, zlen_nil in Hlen; lia| |done].
  - refine (conj _ (conj _ (conj _ (conj _ _)))); [by destruct topic_ok|done| | |].
    + rewrite Hlen. cbn [pr_record_count m many_request]. apply u16_id. unfold is_u16. lia.
    + rewrite Hlen. unfold is_u16. lia.
    + apply Hall. intros i Hi. specialize (records_fit i Hi). unfold record_size, MAX_RECORD_SIZE in records_fit.
      cbn [key value] in records_fit. unfold ProduceRecordPayload_wf, MAX_FRAME_LENGTH. cbn [prp_key many_record].
      pose proof (zlen_nonneg (many_key o i)). pose proof (zlen_nonneg (prp_value (many_record o val_bytes i))).
      cbn [many_record prp_value prp_key] in *. lia.
  - apply Forall_fmap, Hall. intros i Hi. specialize (records_fit i Hi). cbn. split; [|exact records_fit].
    unfold record_size, MAX_RECORD_SIZE in records_fit. cbn [key value prp_value many_record] in records_fit. lia.
Qed.

(** The log of the partition after [produced] records. *)
Definition many_log (E : Z) (L : list Record) (produced : Z) (Rs : list Record) : Prop :=
  (fun r => (key r, value r)) <$> Rs = (fun n => kv (many_record o val_bytes n)) <$> seqZ 0 produced /\
  offset <$> Rs = seqZ (E + zlen L) produced.

Lemma many_log_step E L produced n now Rs : 0 <= produced -> 0 <= n -> many_log E L produced Rs ->
  zlen Rs = produced ->
  let batch := kv <$> (many_record o val_bytes <$> seqZ produced n) in
  many_log E L (produced + n) (Rs ++ batch_records (E + zlen (L ++ Rs)) now batch).
Proof.
  intros Hp Hn [Hkv Hoff] Hlen batch. assert (zlen batch = n) as Hb.
  { unfold batch. rewrite !zlen_fmap. unfold zlen. rewrite length_seqZ. lia. }
  split; rewrite fmap_app.
  - rewrite Hkv, batch_records_kv. unfold batch. rewrite <- list_fmap_compose, seqZ_app by lia.
    rewrite fmap_app. by rewrite Z.add_0_l.
  - rewrite Hoff, batch_records_offsets, Hb, zlen_app, Hlen, seqZ_app by lia. do 2 f_equal. lia.
Qed.

Lemma zlen_many_log E L produced Rs : 0 <= produced -> many_log E L produced Rs -> zlen Rs = produced.
Proof.
  intros Hp [_ Ho]. apply (f_equal length) in Ho. rewrite length_fmap, length_seqZ in Ho. unfold zlen. lia.
Qed.

Lemma produce_many_served logs E0 L0 Ls E L : forall fuel (s : Served) id tr produced Rs,
  let store s Rs := store_is (sv_disk s) (bk_topics (sv_broker s)) (bk_offsets (sv_broker s))
    (<[topic_name := <[Z.to_nat p := (E, L ++ Rs)]> Ls]> logs) E0 L0 in
  Ls !! Z.to_nat p = Some (E, L) -> 0 <= p < zlen Ls -> zlen Ls <= 65536 ->
  Forall (fun EL => EL.1 + zlen EL.2 + total_count < 2 ^ 64) Ls -> (forall n, is_i64 (env_now_ms (sv_env s n))) ->
  idle s -> is_u32 id -> store s Rs -> many_log E L produced Rs ->
  0 <= produced <= total_count -> total_count - produced <= Z.of_nat fuel ->
  exists w' Rs', produce_many_loop fuel o topic_name total_count batch_sz val_bytes produced (mkWorld s id tr) =
      (Value true, w') /\ store (w_machine w') Rs' /\ many_log E L total_count Rs'.
Proof.
  induction fuel as [|fuel IH]; intros s id tr produced Rs store HL Hp Hn Hlim Henv Hi Hid Hs Hlog Hpr Hfuel;
    cbn [produce_many_loop];
    (destruct (Z.ltb_spec produced total_count) as [Hlt|Hge];
      [|exists (mkWorld s id tr), Rs; replace total_count with produced by lia; by split_and!]); [lia|].
  set (n := Z.min batch_sz (total_count - produced)). assert (0 < n <= batch_sz /\ produced + n <= total_count) as [Hn1 Hn2] by lia.
  assert (is_i32 p) as Hpi by (unfold is_i32; lia).
  pose proof (zlen_many_log _ _ _ _ (proj1 Hpr) Hlog) as HRs.
  set (m := many_request o topic_name val_bytes produced n).
  destruct (many_request_ok produced n Hpi (proj1 Hpr) Hn1 Hn2) as (Hwf & Hne & Hbatch & Hlen). fold m in Hwf, Hne, Hbatch, Hlen.
  set (Ls' := <[Z.to_nat p := (E, L ++ Rs)]> Ls) in *.
  assert (zlen Ls' = zlen Ls) as HLs' by (unfold zlen, Ls'; by rewrite length_insert).
  assert (Ls' !! Z.to_nat p = Some (E, L ++ Rs)) as HL' by (apply list_lookup_insert_eq; by eapply lookup_lt_Some).
  set (req := request_frame PRODUCE id (encoded ProduceRequest_encode m)).
  set (now := env_now_ms (sv_env s (sv_requests s))).
  set (Rs' := Rs ++ batch_records (E + zlen (L ++ Rs)) now (kv <$> pr_records m)).
  destruct (wp_handle_produce (sv_env s (sv_requests s)) req (sv_broker s) (sv_disk s) (<[topic_name := Ls']> logs) E0 L0 m Ls'
    (fun '(f, b') d' => response_wf f /\ frame_type f = PRODUCE_OK /\
       store_is d' (bk_topics b') (bk_offsets b') (<[topic_name := <[Z.to_nat p := (E, L ++ Rs')]> Ls]> logs) E0 L0))
    as ([f b'] & d' & Hh & Hf & Hty & Hst); [exact Hs|apply Henv|done|exact Hwf|done|by destruct topic_ok|apply lookup_insert_eq| | |
      exact Hne|exact Hbatch| | |].
  - by rewrite HLs'.
  - rewrite HLs'. change (pr_partition m) with p. lia.
  - rewrite zlen_fmap, Hlen. unfold Ls'. apply Forall_insert.
    + eapply list.Forall_impl; [exact Hlim|]. intros EL H. cbn in *. lia.
    + pose proof (Forall_lookup_1 _ _ _ _ Hlim HL) as H. cbn in *. rewrite zlen_app. lia.
  - intros f b' d' c E' L' Hc Hcr Hc1 Hrid Hty _ Hb12 Hf17 Hst. assert (c = p) as -> by (apply Hc1; change (pr_partition m) with p; lia).
    rewrite HL' in Hc. injection Hc as <- <-. split; [|split; [done|]].
    + split_and!; [rewrite Hf17, Hb12; done|rewrite Hf17; done|rewrite Hty; by vm_compute|].
      rewrite Hrid. exact Hid.
    + cbn zeta in Hst. unfold Ls' in Hst. rewrite list_insert_insert_eq, insert_insert_eq, <- app_assoc in Hst. exact Hst.
  - erewrite bind_value.
    2: { eapply served_exchange; [exact Hi|apply requests_fit; [by destruct Hpr|done|done]|by vm_compute|exact Hid|done|exact Hf|exact Hh]. }
    rewrite Hty. change (PRODUCE_OK =? MSG_ERROR) with false. cbn [negb].
    apply (IH (sv_after d' b' s) (u32 (id + 1)) _ (produced + n) Rs'); try done; [apply u32_range| |lia|lia].
    unfold Rs'. apply many_log_step; [by destruct Hpr|lia|exact Hlog|exact HRs].
Qed.

End produce_many.

(** [produce-many] appends what it announces.  Against the broker, with an existing
    partition and batches whose records and requests are within the limits, the command
    ends with exit code 0; the log of that partition has grown by exactly [total_count]
    records, with the keys and values of the command in order and consecutive offsets,
    and no other log has changed. *)
Theorem produce_many_appends {N : Winsock} {W : Win32} {R : Reliable W} {F : Fstream W} {RF : ReliableStreams W F}
    o topic_name count_text rest_args total_count logs E0 L0 Ls E L (s : Served) id :
  let p := num o partition_arg in let batch_sz := num o batch_arg in let val_bytes := num o size_arg in
  args o = topic_name :: count_text :: rest_args -> stoul count_text = Value total_count -> 0 <= total_count ->
  0 < batch_sz < 65536 -> 0 < val_bytes -> reserved topic_name = false /\ is_u16 (zlen topic_name) ->
  (forall n, 0 <= n < total_count -> record_size (mkRecord 0 0 (many_key o n)
     (prp_value (many_record o val_bytes n))) <= MAX_RECORD_SIZE) ->
  (forall produced n, 0 <= produced -> 0 < n <= batch_sz -> produced + n <= total_count ->
     5 + zlen (encoded ProduceRequest_encode (many_request o topic_name val_bytes produced n)) <= MAX_FRAME_LENGTH) ->
  store_is (sv_disk s) (bk_topics (sv_broker s)) (bk_offsets (sv_broker s)) logs E0 L0 ->
  logs !! topic_name = Some Ls -> Ls !! Z.to_nat p = Some (E, L) -> 0 <= p < zlen Ls -> zlen Ls <= 65536 ->
  Forall (fun EL => EL.1 + zlen EL.2 + total_count < 2 ^ 64) Ls -> (forall n, is_i64 (env_now_ms (sv_env s n))) ->
  idle s -> is_u32 id ->
  exists w' Rs, cmd_produce_many o (mkWorld s id []) = (Value 0, w') /\
    store_is (sv_disk (w_machine w')) (bk_topics (sv_broker (w_machine w'))) (bk_offsets (sv_broker (w_machine w')))
      (<[topic_name := <[Z.to_nat p := (E, L ++ Rs)]> Ls]> logs) E0 L0 /\
    (fun r => (key r, value r)) <$> Rs = (fun n => kv (many_record o val_bytes n)) <$> seqZ 0 total_count /\
    offset <$> Rs = seqZ (E + zlen L) total_count.
Proof.
  intros p batch_sz val_bytes Ha Hc Ht0 Hb Hv Htop Hrec Hreq Hs HLs HL Hp Hn Hlim Henv Hi Hid.
  assert (<[topic_name := <[Z.to_nat p := (E, L ++ [])]> Ls]> logs = logs) as Hsame
    by (rewrite app_nil_r, list_insert_id by done; by apply insert_id).
  destruct (produce_many_served o topic_name total_count batch_sz val_bytes Hb Htop Hrec Hreq logs E0 L0 Ls E L
    (Z.to_nat total_count) s id [] 0 []) as (w' & Rs & Hw & Hst & Hkv & Hoff);
    [done|done|done|done|done|done|done|cbv beta; fold p; by rewrite Hsame|done|lia|lia|].
  unfold cmd_produce_many. rewrite Ha, Hc. erewrite bind_value by reflexivity. cbv zeta.
  fold batch_sz val_bytes. rewrite (proj2 (Z.ltb_lt 0 batch_sz)), (proj2 (Z.ltb_lt 0 val_bytes)) by lia.
  erewrite bind_value by exact Hw. cbn [negb]. eexists _, Rs. split; [reflexivity|]. split; [exact Hst|done].
Qed.

(** ** Examples *)

(** [produce-many orders 3 --partition 1 --batch 2 --size 5] *)
Definition demo_produce_many : Options :=
  set_num size_arg 5 (set_num batch_arg 2 (set_num partition_arg 1
    (mkOptions default_num default_text false (str "produce-many") [str "orders"; str "3"]))).

Definition demo_served (d : disk (Win32 := memory_disk)) (b : Broker) : Served :=
  mkServed memory_disk d b (fun _ => demo_env) 0 empty_assembler [] true.

Example produce_many_appends_witness :
  exists (s : Served (W := memory_disk)) logs w' Rs,
    cmd_produce_many (N := x86_winsock) demo_produce_many (mkWorld s 1000 []) = (Value 0, w') /\
    store_is (N := x86_winsock) (sv_disk (w_machine w')) (bk_topics (sv_broker (w_machine w')))
      (bk_offsets (sv_broker (w_machine w')))
      (<[str "orders" := <[1%nat := (0, Rs)]> (replicate 2 (0, []))]> logs) 0 [] /\
    (fun r => (key r, value r)) <$> Rs = replicate 3 ([], str "XXXXX") /\ offset <$> Rs = [0; 1; 2].
Proof.
  destruct demo_broker as (d & tm & os & logs & Hs & _ & Ho). exists (demo_served d (mkBroker tm os None)), logs.
  destruct (produce_many_appends (N := x86_winsock) demo_produce_many (str "orders") (str "3") [] 3 logs 0 []
    (replicate 2 (0, [])) 0 [] (demo_served d (mkBroker tm os None)) 1000) as (w' & Rs & H1 & H2 & H3 & H4).
  - reflexivity.
  - reflexivity.
  - lia.
  - by vm_compute.
  - by vm_compute.
  - split; [reflexivity|by vm_compute].
  - intros n Hn. assert (n = 0 \/ n = 1 \/ n = 2) as [->|[->| ->]] by lia; by vm_compute.
  - intros k n Hk Hn Ht. change (num demo_produce_many batch_arg) with 2 in Hn.
    assert (k = 0 /\ n = 1 \/ k = 0 /\ n = 2 \/ k = 1 /\ n = 1 \/ k = 1 /\ n = 2 \/ k = 2 /\ n = 1)
      as [[-> ->]|[[-> ->]|[[-> ->]|[[-> ->]|[-> ->]]]]] by lia; by vm_compute.
  - exact Hs.
  - exact Ho.
  - reflexivity.
  - by vm_compute.
  - by vm_compute.
  - by apply (demo_produce_fits (replicate 3 ([], []))).
  - intros n. by vm_compute.
  - by vm_compute.
  - by vm_compute.
  - exists w', Rs. split; [exact H1|]. split; [exact H2|]. split; [exact H3|exact H4].
Defined.

(** [consume orders 1], after two records were produced to the partition. *)
Definition demo_consume : Options := mkOptions default_num default_text false (str "consume") [str "orders"; str "1"].

Definition demo_produce_1 : ProduceRequest :=
  mkProduceRequest (str "orders") 1 2 (pr_records demo_produce).

Example consume_prints_log_witness :
  exists (s : Served (W := memory_disk)) w',
    cmd_consume (N := x86_winsock) 3 demo_consume (mkWorld s 1000 []) = (Value 0, w') /\
    sv_broker (w_machine w') = sv_broker s /\
    stdout (w_trace w') =
      str "Consuming from topic 'orders' P1 starting at offset 0 (follow=false)..." ++ nl ++
      str "[0] key=k val=first" ++ nl ++ str "[1] key=<none> val=second" ++ nl.
Proof.
  destruct demo_broker as (d & tm & os & logs & Hs & _ & Ho).
  destruct (wp_handle_produce (N := x86_winsock) (W := memory_disk) demo_env
    (request_frame PRODUCE 5 (bw_buffer (ProduceRequest_encode (W := x86_winsock) demo_produce_1 empty_writer)))
    (mkBroker tm os None) d logs 0 [] demo_produce_1 (replicate 2 (0, []))
    (fun '(_, b') d' => store_is (W := memory_disk) (N := x86_winsock) d' (bk_topics b') (bk_offsets b')
       (<[str "orders" := <[1%nat := (0, [mkRecord 0 1000 (str "k") (str "first"); mkRecord 1 1000 [] (str "second")])]>
            (replicate 2 (0, []))]> logs) 0 []))
    as ([f b'] & d' & _ & Hst).
  - exact Hs.
  - by vm_compute.
  - reflexivity.
  - apply (bool_decide_unpack _). by vm_compute.
  - reflexivity.
  - by vm_compute.
  - exact Ho.
  - by vm_compute.
  - by vm_compute.
  - done.
  - exact demo_produce_ok.
  - by apply demo_produce_fits.
  - intros f b' d' c E L Hc Hcr Hc1 _ _ _ _ _ Hst. assert (c = 1) as -> by (apply Hc1; done).
    apply lookup_replicate in Hc as [[= -> ->] _]. exact Hst.
  - exists (demo_served d' b'). revert Hst. set (Ls := <[1%nat := _]> _). intros Hst.
    destruct (consume_prints_log (N := x86_winsock) demo_consume (str "orders") (str "1") [] 1 (<[str "orders" := Ls]> logs) 0 []
      Ls 0 [mkRecord 0 1000 (str "k") (str "first"); mkRecord 1 1000 [] (str "second")] 3 (demo_served d' b') 1000)
      as (w' & H1 & _ & H3 & H4).
    + reflexivity.
    + reflexivity.
    + exact Hst.
    + reflexivity.
    + by vm_compute.
    + by vm_compute.
    + apply lookup_insert_eq.
    + reflexivity.
    + by vm_compute.
    + by vm_compute.
    + by vm_compute.
    + by vm_compute.
    + reflexivity.
    + by vm_compute.
    + by vm_compute.
    + by vm_compute.
    + by vm_compute.
    + exists w'. split; [exact H1|]. split; [exact H3|]. rewrite H4. reflexivity.
Defined.
