(* ===== verification/BenchBroker.v ===== *)
(** * BenchBroker: the benchmark against the broker
    (src/bench_main.cpp, src/MessageHandler.cpp, src/GroupCoordinator.cpp)

    The threads of BenchRun.v run against the broker of ClientBroker.v, with the flags and
    the clock given by the number of the call.  The records that the produce benchmark
    counts are in the log.  The consumers of the mixed workload keep the partitions of
    their first assignment, and so read some of them twice. *)
From S2P Require Import Prelude StdString Status RecordCodec FrameCodec FrameAssembler BodyCodec ProtocolMessages SocketSetup.
From S2P Require Import FileHandle OffsetIndex LogSegment Partition PartitionRead PartitionRecovery PartitionFrame.
From S2P Require Import PartitionProps Partitioner Assignor Topic TopicManager OffsetStore GroupCoordinator MessageHandler.
From S2P Require Import RequestFlow TcpServer Client Console ClientCommands Latency BenchRun BenchMain ClientBroker.

(** The flags and the clock, as the thread sees them. *)
Record BenchClock := mkBenchClock {
  bc_stop : nat -> bool;
  bc_measuring : nat -> bool;
  bc_clock : nat -> Z;
  bc_calls : nat;
}.

Definition bc_next (c : BenchClock) : BenchClock := mkBenchClock (bc_stop c) (bc_measuring c) (bc_clock c) (S (bc_calls c)).

Section benched.
Context {N : Winsock} {W : Win32} {F : Fstream W}.

Notation Benched := (Served * BenchClock)%type.

#[global] Instance Benched_socket : SocketApi Benched := {
  recv_exact n x := '(r, buffer, s) ← recv_exact n x.1; Some (r, buffer, (s, x.2));
  send_all data x := '(r, s) ← send_all data x.1; Some (r, (s, x.2));
}.

#[global] Instance Benched_api : BenchApi Benched := {
  bench_connect _ _ x := (true, ((Console.connect_socket [] 0 x.1).2, x.2));
  use_socket _ x := x;
  stop_flag x := (bc_stop x.2 (bc_calls x.2), (x.1, bc_next x.2));
  measurement_started x := (bc_measuring x.2 (bc_calls x.2), (x.1, bc_next x.2));
  clock_ns x := (bc_clock x.2 (bc_calls x.2), (x.1, bc_next x.2));
  system_ms x := (bc_clock x.2 (bc_calls x.2), (x.1, bc_next x.2));
  bench_sleep _ x := x;
  thread_owners x := (None, x);
}.

Lemma benched_send data (s s1 : Served) (c : BenchClock) r :
  send_all data s = Some (r, s1) -> send_all data (s, c) = Some (r, (s1, c)).
Proof.
  intros E. change (send_all data (s, c)) with ('(r, s') ← send_all data s; Some (r, (s', c))). by rewrite E.
Qed.

Lemma benched_recv n (s s1 : Served) (c : BenchClock) r buffer :
  recv_exact n s = Some (r, buffer, s1) -> recv_exact n (s, c) = Some (r, buffer, (s1, c)).
Proof.
  intros E. change (recv_exact n (s, c)) with ('(r, buffer, s') ← recv_exact n s; Some (r, buffer, (s', c))).
  by rewrite E.
Qed.

(** One request of the benchmark. *)
Lemma timed_exchange_served (s : Served) c type body resp b d id tr :
  idle s -> 5 + zlen body <= MAX_FRAME_LENGTH -> is_u8 type -> is_u32 id -> type <> SHUTDOWN -> response_wf resp ->
  MessageHandler_handle_request (sv_env s (sv_requests s)) (request_frame type id body) (sv_broker s) (sv_disk s) =
    Some (resp, b, d) ->
  exists lat tr', timed_exchange (S := Benched) type body (mkWorld (s, c) id tr) =
    (Value (true, resp, lat), mkWorld (sv_after d b s, bc_next (bc_next c)) (u32 (id + 1)) tr').
Proof.
  intros Hi Hb Ht Hid Hns Hresp Hh. destruct (request_wf type body id Hb Ht Hid) as [Heq Hwf]. rewrite Heq in Hwf.
  pose proof Hwf as (Hl & Hm & _ & Hid'). unfold MAX_FRAME_LENGTH in Hm.
  destruct (served_calls s _ resp b d Hi Hwf Hns Hresp Hh) as (s1 & s2 & E1 & E2 & E3).
  eexists _, _. unfold timed_exchange, api. erewrite bind_value by reflexivity. erewrite bind_value by reflexivity.
  cbn [w_req_id w_machine w_trace]. rewrite Heq. unfold bench_send_and_receive, bench_read_response_frame.
  erewrite bind_value.
  2: { erewrite bind_value.
       2: { eapply (send_frame_ok (T := Benched)); [rewrite FrameCodec_encode_spec by (done || lia); reflexivity|].
            by apply benched_send. }
       cbn [negb]. eapply (read_frame_into (S := Benched) _ resp _ (s2, bc_next c) (sv_after d b s, bc_next c)); [done|..];
         by apply benched_recv. }
  cbv beta iota. erewrite bind_value by reflexivity. rewrite received_new. reflexivity.
Qed.

End benched.

Section produce.
Context {N : Winsock} {W : Win32} {R : Reliable W} {F : Fstream W} {RF : ReliableStreams W F}.
Context (topic : bytes) (p record_size batch_size : Z).

Notation Benched := (Served * BenchClock)%type.

Let m := bench_request topic p record_size batch_size.
Let payload : bytes := replicate (Z.to_nat record_size) Byte.x42.

(** The batch and its request are within the limits. *)
Hypothesis batch_range : 0 < batch_size < 65536 /\ 0 <= record_size /\ 28 + record_size <= MAX_RECORD_SIZE.
Hypothesis topic_ok : reserved topic = false /\ is_u16 (zlen topic).
Hypothesis request_fits : 5 + zlen (encoded ProduceRequest_encode m) <= MAX_FRAME_LENGTH.

Lemma bench_batch : kv <$> pr_records m = replicate (Z.to_nat batch_size) ([], payload).
Proof. unfold m, bench_request. cbn [pr_records]. by rewrite fmap_replicate. Qed.

Lemma bench_request_ok : is_i32 p ->
  ProduceRequest_wf m /\ pr_records m <> [] /\ batch_ok (kv <$> pr_records m) /\ zlen (pr_records m) = batch_size.
Proof.
  intros Hp. assert (zlen (pr_records m) = batch_size) as Hlen.
  { unfold m, bench_request, zlen. cbn [pr_records]. rewrite length_replicate. lia. }
  assert (zlen payload = record_size) as Hpay by (unfold payload, zlen; rewrite length_replicate; lia).
  unfold MAX_RECORD_SIZE in *. split_and!; [| | |done].
  - refine (conj _ (conj _ (conj _ (conj _ _)))); [by destruct topic_ok|done| | |].
    + rewrite Hlen. cbn [m bench_request pr_record_count]. apply u32_id. unfold is_u32. lia.
    + rewrite Hlen. unfold is_u16. lia.
    + apply Forall_replicate. unfold ProduceRecordPayload_wf, MAX_FRAME_LENGTH. cbn [prp_key prp_value]. fold payload.
      rewrite Hpay, zlen_nil. lia.
  - intros E. rewrite E, zlen_nil in Hlen. lia.
  - rewrite bench_batch. apply Forall_replicate. unfold RecordCodec.record_size, MAX_RECORD_SIZE. cbn [key value].
    rewrite Hpay, zlen_nil. lia.
Qed.

(** What [k] requests have appended, and what was counted of it. *)
Record bench_log (E : Z) (L Rs : list Record) (k : Z) (r : ThreadResult) : Prop := {
  bl_records : zlen Rs = batch_size * k;
  bl_values : Forall (fun rec => key rec = [] /\ value rec = payload) Rs;
  bl_offsets : offset <$> Rs = seqZ (E + zlen L) (batch_size * k);
  bl_counted : zlen (tr_latencies r) <= k /\ tr_records r = u64 (batch_size * zlen (tr_latencies r)) /\
    tr_bytes r = u64 (batch_size * record_size * zlen (tr_latencies r));
}.

Lemma bench_log_step E L Rs k r now lat (measuring : bool) : 0 <= k ->
  bench_log E L Rs k r ->
  bench_log E L (Rs ++ batch_records (E + zlen (L ++ Rs)) now (kv <$> pr_records m)) (k + 1)
    (if measuring then
       mkThreadResult (u64 (tr_records r + batch_size)) (u64 (tr_bytes r + u64 (batch_size * record_size)))
         (tr_latencies r ++ [lat])
     else r).
Proof.
  intros Hk [Hn Hv Ho (Hc1 & Hc2 & Hc3)]. rewrite bench_batch.
  set (batch := replicate (Z.to_nat batch_size) ([], payload)).
  assert (zlen batch = batch_size) as Hb by (unfold batch, zlen; rewrite length_replicate; lia).
  assert (zlen (batch_records (E + zlen (L ++ Rs)) now batch) = batch_size) as Hbr.
  { rewrite <- (zlen_fmap (fun r => (key r, value r))), batch_records_kv. exact Hb. }
  split.
  - rewrite zlen_app, Hn, Hbr. lia.
  - apply Forall_app. split; [done|].
    assert (Forall (fun x => x = ([], payload)) ((fun r => (key r, value r)) <$> batch_records (E + zlen (L ++ Rs)) now batch)) as H.
    { rewrite batch_records_kv. by apply Forall_replicate. }
    apply Forall_fmap in H. eapply list.Forall_impl; [exact H|]. intros x Hx. by injection Hx.
  - rewrite fmap_app, Ho, batch_records_offsets, Hb, zlen_app, Hn.
    replace (batch_size * (k + 1)) with (batch_size * k + batch_size) by lia. rewrite seqZ_app by lia. do 2 f_equal. lia.
  - destruct measuring; cbn [tr_records tr_bytes tr_latencies]; [|split_and!; [lia|done|done]].
    rewrite zlen_app. change (zlen [lat]) with 1. rewrite Hc2, Hc3. split_and!; [lia| |].
    + unfold u64. rewrite Zplus_mod_idemp_l. f_equal. lia.
    + unfold u64. rewrite <- Zplus_mod. f_equal. lia.
Qed.

Lemma produce_loop_served logs E0 L0 Ls E L : forall J fuel (s : Served) c id tr k Rs r,
  let store s Rs := store_is (sv_disk s) (bk_topics (sv_broker s)) (bk_offsets (sv_broker s))
    (<[topic := <[Z.to_nat p := (E, L ++ Rs)]> Ls]> logs) E0 L0 in
  Ls !! Z.to_nat p = Some (E, L) -> 0 <= p < zlen Ls -> zlen Ls <= 65536 ->
  Forall (fun EL => EL.1 + zlen EL.2 + batch_size * (k + Z.of_nat J) < 2 ^ 64) Ls ->
  (forall n, is_i64 (env_now_ms (sv_env s n))) ->
  idle s -> is_u32 id -> store s Rs -> 0 <= k -> bench_log E L Rs k r ->
  bc_stop c (bc_calls c + 4 * J) = true -> (J < fuel)%nat ->
  exists w' k' Rs' r', produce_loop (S := Benched) fuel (encoded ProduceRequest_encode m) record_size batch_size r
      (mkWorld (s, c) id tr) = (Value r', w') /\
    store (w_machine w').1 Rs' /\ k <= k' <= k + Z.of_nat J /\ bench_log E L Rs' k' r'.
Proof.
  induction J as [|J IH]; intros fuel s c id tr k Rs r store HL Hp Hn Hlim Henv Hi Hid Hs Hk Hlog Hstop Hfuel;
    (destruct fuel as [|fuel]; [lia|]); cbn [produce_loop]; unfold api; erewrite bind_value by reflexivity;
    cbv beta iota; cbn [fst snd w_machine].
  { rewrite Nat.mul_0_r, Nat.add_0_r in Hstop. rewrite Hstop. exists (mkWorld (s, bc_next c) id tr), k, Rs, r.
    split_and!; [done|exact Hs|lia|lia|done]. }
  destruct (bc_stop c (bc_calls c)).
  { exists (mkWorld (s, bc_next c) id tr), k, Rs, r. split_and!; [done|exact Hs|lia|lia|done]. }
  assert (is_i32 p) as Hpi by (unfold is_i32; lia).
  destruct (bench_request_ok Hpi) as (Hwf & Hne & Hbatch & Hlen).
  set (Ls' := <[Z.to_nat p := (E, L ++ Rs)]> Ls) in *.
  assert (zlen Ls' = zlen Ls) as HLs' by (unfold zlen, Ls'; by rewrite length_insert).
  assert (Ls' !! Z.to_nat p = Some (E, L ++ Rs)) as HL' by (apply list_lookup_insert_eq; by eapply lookup_lt_Some).
  set (req := request_frame PRODUCE id (encoded ProduceRequest_encode m)).
  set (now := env_now_ms (sv_env s (sv_requests s))).
  set (Rs' := Rs ++ batch_records (E + zlen (L ++ Rs)) now (kv <$> pr_records m)).
  pose proof (bl_records _ _ _ _ _ Hlog) as HRs.
  destruct (wp_handle_produce (sv_env s (sv_requests s)) req (sv_broker s) (sv_disk s) (<[topic := Ls']> logs) E0 L0 m Ls'
    (fun '(f, b') d' => response_wf f /\ frame_type f = PRODUCE_OK /\
       store_is d' (bk_topics b') (bk_offsets b') (<[topic := <[Z.to_nat p := (E, L ++ Rs')]> Ls]> logs) E0 L0))
    as ([f b'] & d' & Hh & Hf & Hty & Hst); [exact Hs|apply Henv|done|exact Hwf|done|by destruct topic_ok|apply lookup_insert_eq| | |
      exact Hne|exact Hbatch| | |].
  - by rewrite HLs'.
  - rewrite HLs'. change (pr_partition m) with p. lia.
  - rewrite zlen_fmap, Hlen. unfold Ls'. apply Forall_insert.
    + eapply list.Forall_impl; [exact Hlim|]. intros EL H. cbn in *. nia.
    + pose proof (Forall_lookup_1 _ _ _ _ Hlim HL) as H. cbn in *. rewrite zlen_app. nia.
  - intros f b' d' ch E' L' Hc Hcr Hc1 Hrid Hty _ Hb12 Hf17 Hst. assert (ch = p) as -> by (apply Hc1; change (pr_partition m) with p; lia).
    rewrite HL' in Hc. injection Hc as <- <-. split; [|split; [done|]].
    + split_and!; [rewrite Hf17, Hb12; done|rewrite Hf17; done|rewrite Hty; by vm_compute|].
      rewrite Hrid. exact Hid.
    + cbn zeta in Hst. unfold Ls' in Hst. rewrite list_insert_insert_eq, insert_insert_eq, <- app_assoc in Hst. exact Hst.
  - destruct (timed_exchange_served s (bc_next c) PRODUCE (encoded ProduceRequest_encode m) f b' d' id tr) as (lat & tr' & Ex);
      [done|done|by vm_compute|done|done|done|exact Hh|].
    erewrite bind_value by exact Ex. cbv beta iota. rewrite Hty. change (negb true || negb (PRODUCE_OK =? PRODUCE_OK)) with false.
    cbv iota. erewrite bind_value by reflexivity. cbn [fst snd w_machine w_req_id w_trace].
    edestruct (IH fuel (sv_after d' b' s) (bc_next (bc_next (bc_next (bc_next c)))) (u32 (id + 1)) tr' (k + 1) Rs')
      as (w' & k' & Rs2 & r' & Hw & Hst' & Hk' & Hl'); [done|done|done| |done|done|apply u32_range|exact Hst|lia
        |by apply bench_log_step| |lia|].
    + eapply list.Forall_impl; [exact Hlim|]. intros EL H. cbn in *. lia.
    + cbn [bc_stop bc_calls bc_next]. rewrite <- Hstop. f_equal. lia.
    + exists w', k', Rs2, r'. split_and!; [exact Hw|exact Hst'|lia|lia|exact Hl'].
Qed.

End produce.

(** C34: the produce benchmark counts only what is stored.  A thread of it runs against the
    broker until its flag is set, at the latest before its J-th request: it ends, the log
    of its partition has grown by the batches of all its requests, with consecutive
    offsets, and no other log has changed; the records it reports are a whole number of
    batches, one for each latency it reports, and not more than were appended. *)
Theorem bench_counts_stored {N : Winsock} {W : Win32} {R : Reliable W} {F : Fstream W} {RF : ReliableStreams W F}
    host port topic num_partitions record_size batch_size i J fuel (s : Served) c id tr logs E0 L0 Ls E L :
  let p := i mod num_partitions in
  0 < batch_size < 65536 /\ 0 <= record_size /\ 28 + record_size <= MAX_RECORD_SIZE ->
  reserved topic = false /\ is_u16 (zlen topic) ->
  5 + zlen (encoded ProduceRequest_encode (bench_request topic p record_size batch_size)) <= MAX_FRAME_LENGTH ->
  store_is (sv_disk s) (bk_topics (sv_broker s)) (bk_offsets (sv_broker s)) logs E0 L0 ->
  logs !! topic = Some Ls -> Ls !! Z.to_nat p = Some (E, L) -> 0 < num_partitions <= zlen Ls -> zlen Ls <= 65536 ->
  Forall (fun EL => EL.1 + zlen EL.2 + batch_size * Z.of_nat J < 2 ^ 64) Ls ->
  0 <= E -> (forall n, is_i64 (env_now_ms (sv_env s n))) ->
  bc_stop c (bc_calls c + 4 * J) = true -> (J < fuel)%nat ->
  exists w' r Rs k,
    produce_worker (S := Served * BenchClock) fuel host port topic num_partitions record_size batch_size i
      (mkWorld (s, c) id tr) = (Value r, w') /\
    store_is (sv_disk (w_machine w').1) (bk_topics (sv_broker (w_machine w').1)) (bk_offsets (sv_broker (w_machine w').1))
      (<[topic := <[Z.to_nat p := (E, L ++ Rs)]> Ls]> logs) E0 L0 /\
    0 <= k <= Z.of_nat J /\ zlen Rs = batch_size * k /\ offset <$> Rs = seqZ (E + zlen L) (batch_size * k) /\
    tr_records r = batch_size * zlen (tr_latencies r) /\ tr_records r <= zlen Rs.
Proof.
  intros p Hb Ht Hreq Hs HLs HL Hnp Hn Hlim HE Henv Hstop Hfuel.
  assert (0 <= p < num_partitions) as Hp by (apply Z.mod_pos_bound; lia).
  unfold produce_worker, api. erewrite bind_value by reflexivity. cbn [negb fst snd w_machine w_req_id w_trace].
  erewrite bind_value by reflexivity. cbn [w_machine w_req_id w_trace].
  rewrite (proj2 (Z.eqb_neq num_partitions 0)) by lia. fold p. rewrite (u16_id p) by (unfold is_u16; lia).
  erewrite bind_value by reflexivity. cbv beta zeta.
  assert (<[topic := <[Z.to_nat p := (E, L ++ [])]> Ls]> logs = logs) as Hsame
    by (rewrite app_nil_r, list_insert_id by done; by apply insert_id).
  set (s0 := mkServed W (sv_disk s) (sv_broker s) (sv_env s) (sv_requests s) empty_assembler [] true).
  destruct (produce_loop_served topic p record_size batch_size Hb Ht Hreq logs E0 L0 Ls E L J fuel s0 c
    (u32 (i * 1000000 + 1)) tr 0 [] empty_result) as (w' & k & Rs & r & Hw & Hst & Hk & Hl); try done.
  - lia.
  - apply u32_range.
  - by rewrite Hsame.
  - split; [rewrite zlen_nil; lia|constructor|by rewrite Z.mul_0_r|].
    cbn [empty_result tr_latencies tr_records tr_bytes]. rewrite zlen_nil, !Z.mul_0_r. done.
  - exists w', r, Rs, k. destruct Hl as [Hn' _ Ho (Hc1 & Hc2 & _)].
    pose proof (Forall_lookup_1 _ _ _ _ Hlim HL) as HEL. cbn in HEL. pose proof (zlen_nonneg L).
    pose proof (zlen_nonneg (tr_latencies r)).
    assert (tr_records r = batch_size * zlen (tr_latencies r)) as Hr.
    { rewrite Hc2. apply u64_id. unfold is_u64. nia. }
    split_and!; [exact Hw|exact Hst|lia|lia|done|done|done|]. rewrite Hr, Hn'. nia.
Qed.

(** Two requests, of which the second is measured. *)
Definition demo_clock : BenchClock :=
  mkBenchClock (fun n => bool_decide (8 <= n)%nat) (fun n => bool_decide (4 <= n)%nat) (fun n => 1000 * Z.of_nat n) 0.

Example bench_counts_stored_witness :
  exists (s : Served (W := memory_disk)) logs w' r Rs k,
    produce_worker (N := x86_winsock) (S := Served (W := memory_disk) * BenchClock) 5 [] 9092 (str "orders") 2 10 3 1
      (mkWorld (s, demo_clock) 0 []) = (Value r, w') /\
    store_is (N := x86_winsock) (sv_disk (w_machine w').1) (bk_topics (sv_broker (w_machine w').1))
      (bk_offsets (sv_broker (w_machine w').1))
      (<[str "orders" := <[Z.to_nat (1 mod 2) := (0, [] ++ Rs)]> (replicate 2 (0, []))]> logs) 0 [] /\
    0 <= k <= Z.of_nat 2 /\ zlen Rs = 3 * k /\ offset <$> Rs = seqZ (0 + zlen (@nil Record)) (3 * k) /\
    tr_records r = 3 * zlen (tr_latencies r) /\ tr_records r <= zlen Rs.
Proof.
  destruct demo_broker as (d & tm & os & logs & Hs & _ & Ho). exists (demo_served d (mkBroker tm os None)), logs.
  apply (bench_counts_stored (N := x86_winsock) [] 9092 (str "orders") 2 10 3 1 2 5 (demo_served d (mkBroker tm os None))
    demo_clock 0 [] logs 0 [] (replicate 2 (0, [])) 0 []).
  - by vm_compute.
  - split; [reflexivity|by vm_compute].
  - by vm_compute.
  - exact Hs.
  - exact Ho.
  - reflexivity.
  - by vm_compute.
  - by vm_compute.
  - repeat constructor; by vm_compute.
  - done.
  - intros n. by vm_compute.
  - reflexivity.
  - lia.
Defined.

(** ** What the benchmark does not do right *)

(** With no partitions (also 65536, which is cast to uint16_t) every thread that connects divides by
    zero. *)
Lemma produce_worker_zero {N : Winsock} {S} {B : BenchApi S} fuel host port topic record_size batch_size i (w : World S) s :
  bench_connect host port (w_machine w) = (true, s) ->
  (produce_worker fuel host port topic 0 record_size batch_size i w).1 = Undefined.
Proof.
  intros E. unfold produce_worker, api, on_machine, mbind, cli_bind. rewrite E. reflexivity.
Qed.

Example zero_partitions :
  (fun o => bnum o b_partitions) <$> match parse_bench_options [str "--partitions"; str "65536"] (default_bench_options [])
    with Value o => Some o | _ => None end = Some 0.
Proof. reflexivity. Qed.

(** The two consumers of a mixed workload on a topic with two partitions, as they join. *)
Definition demo_mixed_joins : list TopicPartition * list TopicPartition :=
  let '(r1, gc) := GroupCoordinator_join demo_tm (mkGroupCoordinator default_CoordinatorConfig 1 ∅) 1000000 1
                     (str "bench_cg") [] 10000 [str "orders"] 0 in
  let '(r2, _) := GroupCoordinator_join demo_tm gc 1000000 2 (str "bench_cg") [] 10000 [str "orders"] 0 in
  (jr_assignment r1, jr_assignment r2).

(** The first consumer is given every partition, the second one a part of them; the first one
    never hears of the new assignment, since it sends no heartbeats and does not join again
    ([mixed_consumer]). *)
Example mixed_consumers_overlap :
  let '(first, second) := demo_mixed_joins in
  length first = 2%nat /\ second <> [] /\ Forall (fun tp => tp ∈ first) second.
Proof. vm_compute. split_and!; [done|done|]. repeat constructor. Qed.
