(* ===== verification/CliMain.v ===== *)
(** * CliMain: the console client as a whole
    (the end of [main] in src/cli_main.cpp)

    [cli_main] parses the command line, connects and runs the command; an exception of a
    command ends the program with exit code 1.  [self_tests_pass] runs its tests of the
    protocol against the broker. *)
From S2P Require Import Prelude StdString Status RecordCodec FrameCodec FrameAssembler BodyCodec ProtocolMessages.
From S2P Require Import FileHandle OffsetIndex LogSegment Partition PartitionRead PartitionRecovery PartitionFrame.
From S2P Require Import PartitionProps Partitioner Assignor Topic TopicManager OffsetStore GroupCoordinator MessageHandler.
From S2P Require Import RequestFlow TcpServer Client Console ClientCommands GroupConsumer ClientBroker.

Section main.
Context {N : Winsock} {S : Type} {M : Machine S}.

(** The chain of comparisons, after the connection is there. *)
Definition run_command (fuel : nat) (o : Options) : cli S Z :=
  let named (name : bytes) := bytes_eqb (command o) name in
  if named (str "stall-frame") then cmd_stall_frame else
  if named (str "slow-reader") then cmd_slow_reader fuel o else
  if named (str "pipeline") then cmd_pipeline o else
  if named (str "shutdown") then cmd_shutdown else
  if named (str "ping") then cmd_ping else
  if named (str "echo") then cmd_echo o else
  if named (str "slow-echo") then cmd_slow_echo o else
  if named (str "big-frame") then cmd_big_frame o else
  if named (str "garbage") then cmd_garbage else
  if named (str "malformed-produce") then cmd_malformed_produce else
  if named (str "produce-oversized") then cmd_produce_oversized o else
  if named (str "unknown-type") then cmd_unknown_type else
  if named (str "create-topic") then cmd_create_topic o else
  if named (str "produce") then cmd_produce o else
  if named (str "produce-many") || named (str "produce-batch") then cmd_produce_many o else
  if named (str "fetch") then cmd_fetch o else
  if named (str "consume") then cmd_consume fuel o else
  if named (str "topics") then cmd_topics else
  if named (str "describe") || named (str "describe-topic") then cmd_describe o else
  if named (str "join-group") then cmd_join_group o else
  if named (str "heartbeat") then cmd_heartbeat o else
  if named (str "leave-group") then cmd_leave_group o else
  if named (str "commit-offset") then cmd_commit_offset o else
  if named (str "fetch-offsets") then cmd_fetch_offsets o else
  if named (str "describe-group") then cmd_describe_group o else
  if named (str "group-lag") then cmd_group_lag o else
  if named (str "consume-group") then cmd_consume_group fuel o else
  mret 1.

(** [catch (const std::exception&) { return 1; }] *)
Definition catch_1 (m : cli S Z) : cli S Z := fun w =>
  match m w with
  | (Thrown, w) => (Value 1, w)
  | r => r
  end.

(** [uint32_t req_id = 1000;] *)
Definition start_req_id : cli S unit := fun w => (Value tt, mkWorld (w_machine w) 1000 (w_trace w)).

Definition cli_main (fuel : nat) (argv : list bytes) : cli S Z :=
  o ← of_outcome (parse_options argv default_options);
  if bytes_eqb (command o) [] then mret 1 else
  catch_1 (
    if bytes_eqb (command o) (str "hold-connections") then cmd_hold_connections o else
    ok ← connected o;
    if negb ok then mret 1 else
    _ ← start_req_id;
    run_command fuel o).

End main.

(** ** The tests of the protocol *)

Section tests.
Context {N : Winsock} {W : Win32} {F : Fstream W}.

(** The connection of a command is new. *)
Definition sv_connected (s : Served) : Served :=
  mkServed _ (sv_disk s) (sv_broker s) (sv_env s) (sv_requests s) empty_assembler [] true.

Lemma sv_connected_idle s : idle (sv_connected s).
Proof. done. Qed.

(** The command reaches its branch with a new connection. *)
Lemma cli_main_runs fuel argv (o : Options) (s : Served) id tr code w' :
  parse_options argv default_options = Value o -> command o <> [] -> command o <> str "hold-connections" ->
  run_command fuel o (mkWorld (sv_connected s) 1000 tr) = (Value code, w') ->
  cli_main fuel argv (mkWorld s id tr) = (Value code, w').
Proof.
  intros Hp Hc Hh Hr. unfold cli_main. rewrite Hp. erewrite bind_value by reflexivity. unfold bytes_eqb.
  rewrite !bool_decide_eq_false_2 by done. unfold catch_1. erewrite bind_value by reflexivity. cbn [negb].
  erewrite bind_value by reflexivity. cbn [w_machine w_trace]. fold (sv_connected s). by rewrite Hr.
Qed.

Lemma error_frame_wf id code msg : is_u32 id -> is_u16 code -> zlen msg < 1000000 ->
  response_wf (FrameCodec_create_error_frame id code msg).
Proof.
  intros Hid Hc Hm. pose proof (zlen_nonneg msg). unfold response_wf, FrameCodec_create_error_frame, HEADER_SIZE.
  cbn [frame_length frame_type request_id body]. rewrite FrameCodec_write_u16_be, zlen_app, zlen_be_store by done.
  rewrite (u32_id (Z.of_nat 2 + zlen msg)), u32_id by (unfold is_u32; lia). split_and!; try done; lia.
Qed.

Lemma expected_error_frame id code msg : is_u16 code ->
  expected_error (FrameCodec_create_error_frame id code msg) code = Some msg.
Proof. intros Hc. unfold expected_error. rewrite parse_create_error_frame by done. by rewrite Z.eqb_refl. Qed.

Lemma pong_wf id : is_u32 id -> response_wf (FrameCodec_create_pong_frame id).
Proof. intros Hid. by split_and!. Qed.

Lemma exchange_ping (s : Served) id tr : idle s -> is_u32 id ->
  exchange PING [] (mkWorld s id tr) =
    (Value (true, FrameCodec_create_pong_frame id), mkWorld (sv_after (sv_disk s) (sv_broker s) s) (u32 (id + 1))
      (tr ++ [Sent (request_frame PING id []); Received (FrameCodec_create_pong_frame id)])).
Proof.
  intros Hi Hid.
  exact (served_exchange s PING [] (FrameCodec_create_pong_frame id) (sv_broker s) (sv_disk s) id tr Hi
    ltac:(by vm_compute) ltac:(by vm_compute) Hid ltac:(done) (pong_wf id Hid) eq_refl).
Qed.

Lemma ping_passes fuel (s : Served) id tr : exists w', cli_main fuel [str "ping"] (mkWorld s id tr) = (Value 0, w').
Proof.
  eexists. eapply cli_main_runs; [reflexivity|done|done|].
  change (run_command fuel _) with (cmd_ping (S := Served)). unfold cmd_ping.
  erewrite bind_value by (by apply exchange_ping). reflexivity.
Qed.

(** Frames that cannot be. *)
Lemma receive_error bs res : parse_step bs = (res, None) -> res <> FrameReady -> zlen bs < 2 ^ 32 ->
  exists a, receive empty_assembler bs = ([], res, a).
Proof.
  intros Hp Hr Hl. destruct (receive_parses empty_assembler bs [] res bs) as (a & E & _).
  - by vm_compute.
  - cbn [m_buffer empty_assembler]. rewrite zlen_nil. lia.
  - change (pending empty_assembler) with (@nil byte). cbn [app]. by apply parses_stop.
  - by exists a.
Qed.

(** The client sends bytes that make no frame; the error waits and the connection is
    closed. *)
Lemma send_bad_frame bs res err (s : Served) id tr :
  parse_step bs = (res, None) -> zlen bs < 2 ^ 32 ->
  (res = ErrorLengthTooSmall /\ err = MALFORMED_FRAME_ERROR \/ res = ErrorLengthTooLarge /\ err = FRAME_TOO_LARGE_ERROR) ->
  idle s -> response_wf err ->
  exists s1, cli_send_all bs (mkWorld s id tr) =
      (Value true, mkWorld (sv_set_answers (frame_bytes err) s1) id (tr ++ [SentRaw bs])) /\ sv_open s1 = false.
Proof.
  intros Hp Hl Herr (Ha & Han & Ho) Hwf. destruct (receive_error bs res Hp) as [a Hr]; [by destruct Herr as [[-> _]|[-> _]]|done|].
  exists (sv_set_input a false s). split; [|done]. unfold cli_send_all. erewrite bind_value by reflexivity.
  assert (FrameCodec_encode err = Some (frame_bytes err)) as He
    by (apply FrameCodec_encode_spec; destruct Hwf as (? & ? & ? & ?); [done|lia]).
  assert (sv_receive bs s = Some (sv_set_answers (frame_bytes err) (sv_set_input a false s))) as Hrecv.
  { unfold sv_receive. rewrite Ho, Ha, Hr. cbn [negb sv_handle_all mbind option_bind].
    destruct Herr as [[-> ->]|[-> ->]]; unfold sv_answer; rewrite He; cbn; by rewrite Han. }
  unfold send_bytes, on_machine. cbn [w_machine w_req_id w_trace].
  erewrite bind_value by (cbn [w_machine send_all machine_socket Served_machine Served_socket]; rewrite Hrecv; reflexivity).
  by rewrite bool_decide_eq_true_2.
Qed.

Lemma bad_frame_errors : response_wf MALFORMED_FRAME_ERROR /\ response_wf FRAME_TOO_LARGE_ERROR.
Proof. split; by apply error_frame_wf. Qed.

Lemma garbage_passes fuel (s : Served) id tr : exists w', cli_main fuel [str "garbage"] (mkWorld s id tr) = (Value 0, w').
Proof.
  destruct bad_frame_errors as [Hwf _].
  destruct (send_bad_frame (be_store 4 2) ErrorLengthTooSmall MALFORMED_FRAME_ERROR (sv_connected s) 1000 tr) as (s1 & E1 & Ho);
    [by vm_compute|by vm_compute|by left|done|done|].
  eexists. eapply cli_main_runs; [reflexivity|done|done|].
  change (run_command fuel _) with (cmd_garbage (S := Served)). unfold cmd_garbage.
  rewrite FrameCodec_write_u32_be by done. erewrite bind_value by exact E1. cbn [negb].
  erewrite bind_value.
  2: { unfold cli_send_all. erewrite bind_value by reflexivity. unfold send_bytes, on_machine.
       erewrite bind_value; [reflexivity|]. cbn [w_machine w_req_id w_trace send_all machine_socket Served_machine Served_socket].
       unfold sv_receive. cbn [sv_set_answers sv_open]. rewrite Ho. reflexivity. }
  rewrite bool_decide_eq_true_2 by done. cbn [negb]. rewrite <- (app_nil_r (frame_bytes _)).
  erewrite bind_value by (by apply read_answer). cbn [negb]. unfold MALFORMED_FRAME_ERROR at 1.
  rewrite expected_error_frame by done. reflexivity.
Qed.

Lemma big_frame_passes fuel (s : Served) id tr : exists w', cli_main fuel [str "big-frame"] (mkWorld s id tr) = (Value 0, w').
Proof.
  destruct bad_frame_errors as [_ Hwf].
  destruct (send_bad_frame (be_store 4 2097152) ErrorLengthTooLarge FRAME_TOO_LARGE_ERROR (sv_connected s) 1000 tr)
    as (s1 & E1 & Ho); [by vm_compute|by vm_compute|by right|done|done|].
  eexists. eapply cli_main_runs; [reflexivity|done|done|].
  match goal with |- run_command _ ?o _ = _ => change (run_command fuel o) with (cmd_big_frame (S := Served) o) end.
  unfold cmd_big_frame. erewrite bind_value by reflexivity. rewrite u32_id, FrameCodec_write_u32_be by done.
  erewrite bind_value by exact E1. cbn [negb]. rewrite <- (app_nil_r (frame_bytes _)).
  erewrite bind_value by (by apply read_answer). cbn [negb]. unfold FRAME_TOO_LARGE_ERROR at 1.
  rewrite expected_error_frame by done. reflexivity.
Qed.

Lemma unknown_type_passes fuel (s : Served) id tr :
  exists w', cli_main fuel [str "unknown-type"] (mkWorld s id tr) = (Value 0, w').
Proof.
  set (resp := FrameCodec_create_error_frame 1000 UNKNOWN_TYPE (str "Unknown message type: 0x" ++ std_to_string 0x7E)).
  eexists. eapply cli_main_runs; [reflexivity|done|done|].
  change (run_command fuel _) with (cmd_unknown_type (S := Served)). unfold cmd_unknown_type.
  erewrite bind_value by (apply (served_raw _ 0x7E [] resp (sv_broker s) (sv_disk s));
    [done|by vm_compute|by vm_compute|done|done|by apply error_frame_wf|reflexivity]).
  cbn [negb]. unfold resp at 1. rewrite expected_error_frame by done.
  erewrite bind_value by (apply (served_raw _ PING [] (FrameCodec_create_pong_frame 1001) (sv_broker s) (sv_disk s));
    [done|by vm_compute|by vm_compute|done|done|by apply pong_wf|reflexivity]).
  reflexivity.
Qed.

(** The body says 10000 bytes of key follow, and one does. *)
Lemma malformed_body_undecodable req : body req = malformed_produce_body -> decode_body ProduceRequest_decode req = None.
Proof.
  intros Hb. unfold decode_body. rewrite Hb. unfold malformed_produce_body.
  rewrite write_u8_append, write_u32_append, write_u16_append, write_i32_append, write_string_append by done.
  unfold BodyWriter_append. cbn [bw_buffer empty_writer app]. rewrite <- !app_assoc.
  set (t := be_store 4 10000 ++ [byte_of_Z 65]). unfold BodyReader_of.
  pose proof (reads_string (str "orders") ltac:(done) [] (be_store 4 (u32 0) ++ be_store 2 1 ++ t)) as H1.
  pose proof (reads_i32 0 ltac:(done) (string_bytes (str "orders")) (be_store 2 1 ++ t)) as H2.
  pose proof (reads_u16 1 ltac:(done) (string_bytes (str "orders") ++ be_store 4 (u32 0)) t) as H3.
  pose proof (reads_u32 10000 ltac:(done) ((string_bytes (str "orders") ++ be_store 4 (u32 0)) ++ be_store 2 1) [byte_of_Z 65]) as H4.
  fold t in H4. change (zlen (@nil byte)) with 0 in H1. cbn [app] in H1. rewrite <- !app_assoc in *.
  unfold ProduceRequest_decode, mbind at 1, reader_bind at 1. rewrite H1.
  unfold mbind at 1, reader_bind at 1. rewrite H2. unfold mbind at 1, reader_bind at 1. rewrite H3.
  unfold mbind at 1, reader_bind at 1. change (Z.to_nat 1) with 1%nat. cbn [read_n].
  unfold mbind at 1, reader_bind at 1. unfold ProduceRecordPayload_read, mbind at 1, reader_bind at 1.
  unfold BodyReader_read_bytes, mbind at 1, reader_bind at 1. rewrite H4. by vm_compute.
Qed.

Lemma malformed_produce_passes fuel (s : Served) id tr :
  exists w', cli_main fuel [str "malformed-produce"] (mkWorld s id tr) = (Value 0, w').
Proof.
  set (resp := FrameCodec_create_error_frame 1000 MALFORMED_BODY (str "Malformed PRODUCE body")).
  eexists. eapply cli_main_runs; [reflexivity|done|done|].
  change (run_command fuel _) with (cmd_malformed_produce (S := Served)). unfold cmd_malformed_produce.
  assert (zlen malformed_produce_body = 19) as Hlen.
  { unfold malformed_produce_body.
    rewrite write_u8_append, write_u32_append, write_u16_append, write_i32_append, write_string_append by done. by vm_compute. }
  erewrite bind_value.
  2: { apply (served_raw _ PRODUCE malformed_produce_body resp (sv_broker s) (sv_disk s));
         [done|by rewrite Hlen|by vm_compute|done|done|by apply error_frame_wf|].
       rewrite dispatch_produce by done. unfold MessageHandler_handle_produce. by rewrite malformed_body_undecodable. }
  cbn [negb]. unfold resp at 1. rewrite expected_error_frame by done. erewrite bind_value by reflexivity.
  cbn [w_machine w_req_id w_trace]. set (s1 := sv_after _ _ _). set (tr1 := tr ++ _).
  destruct (served_exchange_raw s1 (request_frame PING (u32 (1000 + 1)) []) (FrameCodec_create_pong_frame (u32 (1000 + 1)))
    (sv_broker s1) (sv_disk s1) (u32 (u32 (1000 + 1) + 1)) tr1) as (s2 & E1 & E2);
    [done|by split_and!|done|by apply pong_wf|reflexivity|].
  unfold send_and_receive. erewrite bind_value; [|erewrite bind_value by exact E1; cbn [negb];
    erewrite bind_value by apply E2; reflexivity]. reflexivity.
Qed.

(** ** pipeline *)

(** The ids of [n] requests. *)
Fixpoint pipeline_ids (n : nat) (id : Z) : list Z :=
  match n with O => [] | Datatypes.S n => id :: pipeline_ids n (u32 (id + 1)) end.

Lemma pipeline_ids_u32 n : forall id, is_u32 id -> Forall is_u32 (pipeline_ids n id).
Proof. induction n as [|n IH]; intros id Hid; constructor; [done|]. apply IH, u32_range. Qed.

Lemma pipeline_requests_spec n : forall (s : Served) id tr, is_u32 id -> exists id',
  pipeline_requests n (mkWorld s id tr) =
    (Value (pipeline_ids n id, concat (frame_bytes <$> (ping_frame <$> pipeline_ids n id))), mkWorld s id' tr).
Proof.
  induction n as [|n IH]; intros s id tr Hid; cbn [pipeline_requests pipeline_ids]; [by exists id|].
  destruct (IH s (u32 (id + 1)) tr (u32_range _)) as [id' E]. exists id'.
  erewrite bind_value by reflexivity. change (request_frame_of PING [] (w_req_id (mkWorld s id tr))) with (ping_frame id).
  rewrite FrameCodec_encode_spec by (done || by vm_compute). erewrite bind_value by reflexivity.
  erewrite bind_value by exact E. reflexivity.
Qed.

Lemma sv_handle_pings ids : forall (s : Served), Forall is_u32 ids -> exists s1,
  sv_handle_all (ping_frame <$> ids) s =
    Some (sv_set_answers (sv_answers s ++ concat (frame_bytes <$> (FrameCodec_create_pong_frame <$> ids))) s1).
Proof.
  induction ids as [|id ids IH]; intros s Hids; cbn [fmap list_fmap sv_handle_all concat].
  { exists s. rewrite app_nil_r. by destruct s. }
  apply list.Forall_cons in Hids as [Hid Hids]. unfold sv_handle at 1.
  change (frame_type (ping_frame id) =? SHUTDOWN) with false. cbn iota.
  change (MessageHandler_handle_request _ (ping_frame id) (sv_broker s) (sv_disk s))
    with (Some (FrameCodec_create_pong_frame id, sv_broker s, sv_disk s)).
  unfold sv_answer. rewrite FrameCodec_encode_spec by (done || by vm_compute). cbn [mbind option_bind].
  destruct (IH (mkServed _ (sv_disk s) (sv_broker s) (sv_env s) (S (sv_requests s)) (sv_assembler s)
    (sv_answers s ++ frame_bytes (FrameCodec_create_pong_frame id)) (sv_open s)) Hids) as [s1 E].
  exists s1. rewrite app_assoc. exact E.
Qed.

Lemma pipeline_responses_spec ids : forall (s : Served) id tr, Forall is_u32 ids -> exists w',
  pipeline_responses ids (mkWorld (sv_set_answers (concat (frame_bytes <$> (FrameCodec_create_pong_frame <$> ids))) s) id tr) =
    (Value true, w').
Proof.
  induction ids as [|i ids IH]; intros s id tr Hids; cbn [pipeline_responses fmap list_fmap concat]; [by eexists|].
  apply list.Forall_cons in Hids as [Hi Hids].
  erewrite bind_value by (by apply read_answer, pong_wf). cbn [negb frame_type request_id FrameCodec_create_pong_frame].
  rewrite !Z.eqb_refl. cbn [negb orb]. by apply IH.
Qed.

(** A number is no option. *)
Lemma number_no_option n : 0 <= n -> value_option (std_to_string n) = None /\ bytes_eqb (std_to_string n) (str "--follow") = false.
Proof.
  intros Hn. destruct (to_string_spec n Hn) as (Hd & _ & Hne). destruct (std_to_string n) as [|b l]; [done|].
  apply list.Forall_cons in Hd as [Hb _].
  assert (forall l', bytes_eqb (b :: l) (Byte.x2d :: l') = false) as Hno.
  { intros l'. apply bool_decide_eq_false_2. intros [= -> _]. discriminate Hb. }
  unfold value_option. split; [|apply Hno].
  repeat match goal with |- context [bytes_eqb (b :: l) ?t] =>
    replace (bytes_eqb (b :: l) t) with false by (symmetry; apply Hno) end. reflexivity.
Qed.

Lemma pipeline_sent ids (s : Served) id tr : Forall is_u32 ids -> zlen ids < 2 ^ 32 -> idle s -> exists s1,
  let bs := concat (frame_bytes <$> (ping_frame <$> ids)) in
  cli_send_all bs (mkWorld s id tr) =
    (Value true, mkWorld (sv_set_answers (concat (frame_bytes <$> (FrameCodec_create_pong_frame <$> ids))) s1) id
       (tr ++ [SentRaw bs])).
Proof.
  intros Hids Hlen (Ha & Han & Ho). set (bs := concat _).
  assert (zlen bs = 9 * zlen ids) as Hz.
  { unfold bs. clear. induction ids as [|i ids IH]; [done|]. cbn [fmap list_fmap concat].
    rewrite zlen_app, zlen_cons, IH, zlen_frame_bytes. cbn [body ping_frame request_frame]. rewrite zlen_nil. lia. }
  destruct (receive_parses empty_assembler bs (ping_frame <$> ids) NeedMoreData []) as (a & Hr & _).
  { by vm_compute. }
  { cbn [m_buffer empty_assembler]. rewrite zlen_nil. lia. }
  { change (pending empty_assembler) with (@nil byte). cbn [app]. rewrite <- (app_nil_r bs).
    apply parses_frames; [|done]. apply Forall_fmap. eapply list.Forall_impl; [exact Hids|]. intros i Hi. by split_and!. }
  destruct (sv_handle_pings ids (sv_set_input a true s) Hids) as [s1 E]. exists s1. cbn zeta. fold bs.
  unfold cli_send_all. erewrite bind_value by reflexivity. unfold send_bytes, on_machine.
  erewrite bind_value; [by rewrite bool_decide_eq_true_2|].
  cbn [w_machine w_req_id w_trace send_all machine_socket Served_machine Served_socket].
  unfold sv_receive. rewrite Ho, Ha, Hr. cbn [negb]. rewrite E. cbn [sv_set_input sv_answers]. rewrite Han. reflexivity.
Qed.

Lemma length_pipeline_ids n : forall id, length (pipeline_ids n id) = n.
Proof. induction n as [|n IH]; intros id; cbn; [done|]. by rewrite IH. Qed.

Lemma pipeline_passes fuel (s : Served) id tr count : is_u32 count ->
  exists w', cli_main fuel [str "pipeline"; std_to_string count] (mkWorld s id tr) = (Value 0, w').
Proof.
  intros Hc. assert (0 <= count) as H0 by (unfold is_u32 in Hc; lia). destruct (number_no_option count H0) as [Hv Hf].
  set (o := mkOptions default_num default_text false (str "pipeline") [std_to_string count]).
  assert (parse_options [str "pipeline"; std_to_string count] default_options = Value o) as Hparse.
  { cbn [parse_options]. change (value_option (str "pipeline")) with (@None assignment). cbn iota.
    rewrite Hv. unfold plain_argument at 1. rewrite Hf. reflexivity. }
  destruct (pipeline_requests_spec (Z.to_nat count) (sv_connected s) 1000
    (tr ++ [Printed (Text (str "Pipelining " ++ num_text count ++ str " PING requests back-to-back..." ++ nl))])) as [id1 E1]; [done|].
  pose proof (pipeline_ids_u32 (Z.to_nat count) 1000 ltac:(done)) as Hids.
  edestruct (pipeline_sent (pipeline_ids (Z.to_nat count) 1000) (sv_connected s) id1) as [s1 E2];
    [exact Hids|unfold zlen; rewrite length_pipeline_ids; unfold is_u32 in Hc; lia|done|].
  edestruct (pipeline_responses_spec (pipeline_ids (Z.to_nat count) 1000) s1 id1) as [w' E3]; [exact Hids|].
  eexists. eapply cli_main_runs; [exact Hparse|done|done|].
  change (run_command fuel o) with (cmd_pipeline (S := Served) o). unfold cmd_pipeline.
  change (args o) with [std_to_string count]. cbn iota.
  erewrite bind_value by (unfold stoul; rewrite stoul_to_string by done; reflexivity). erewrite bind_value by reflexivity. cbn [w_machine w_req_id w_trace fst].
  erewrite bind_value by exact E1. cbn iota beta. erewrite bind_value by exact E2. cbn [negb]. erewrite bind_value by exact E3.
  cbn [negb]. reflexivity.
Qed.

End tests.

(** The client's tests of the protocol pass against the broker.  Whatever topics,
    groups and offsets the broker has, the commands that check its answers end with exit
    code 0: PING is answered; a frame shorter than its header, a frame longer than 1 MiB,
    an unknown type and a malformed PRODUCE get the documented error, and after the last
    two the connection still answers a PING; any number of pipelined PINGs is answered in
    order with matching ids. *)
Theorem self_tests_pass {N : Winsock} {W : Win32} {F : Fstream W} fuel (s : Served) id tr :
  (forall command, command ∈ [str "ping"; str "garbage"; str "big-frame"; str "unknown-type"; str "malformed-produce"] ->
     exists w', cli_main fuel [command] (mkWorld s id tr) = (Value 0, w')) /\
  (forall count, is_u32 count ->
     exists w', cli_main fuel [str "pipeline"; std_to_string count] (mkWorld s id tr) = (Value 0, w')).
Proof.
  split; [|intros count; apply pipeline_passes]. intros command Hin.
  apply elem_of_cons in Hin as [->|Hin]; [apply ping_passes|].
  apply elem_of_cons in Hin as [->|Hin]; [apply garbage_passes|].
  apply elem_of_cons in Hin as [->|Hin]; [apply big_frame_passes|].
  apply elem_of_cons in Hin as [->|Hin]; [apply unknown_type_passes|].
  apply list_elem_of_singleton in Hin as ->. apply malformed_produce_passes.
Qed.
