(* ===== verification/ConnectionRun.v ===== *)
(** * ConnectionRun: the blocking connection
    (src/Connection.cpp)

    [Connection_run] serves one client with blocking calls: the length, the payload, the
    handler, the reply.  It is the connection of a server with a thread per client, which the
    event loop of [TcpServer] has replaced.  [connection_run_correct] compares it with a
    reference: the frames of the whole stream, as the reference parser of FrameAssembler.v
    finds them, are handled one after the other, and the error that ends the stream, if one
    does, is sent last.  (In that the event loop differs: it sends the error at once, past
    the requests it has not answered yet.) *)
From S2P Require Import Prelude StdString Status RecordCodec FrameCodec FrameAssembler BodyCodec ProtocolMessages.
From S2P Require Import FileHandle OffsetIndex LogSegment Partition Partitioner Assignor Topic TopicManager OffsetStore.
From S2P Require Import GroupCoordinator MessageHandler TcpServer Client.

Section connection.
Context {N : Winsock} {W : Win32} {F : Fstream W} {S : Type} {K : SocketApi S}.

(** [std::vector<uint8_t> encoded = FrameCodec::encode(frame); m_socket->send_all(...)] *)
Definition send_reply (frame : Frame) (s : S) : option (SendStatus * S) :=
  encoded ← FrameCodec_encode frame; send_all encoded s.

(** The request in a payload. *)
Definition payload_frame (length : Z) (payload : bytes) : Frame :=
  mkFrame length (byte_to_Z (hd Byte.x00 payload)) (FrameCodec_read_u32 (drop 1 payload))
    (if HEADER_SIZE <? length then drop 5 payload else []).

(** The loop, at its [k]-th test of [shutdown_requested]; [env k] is what the handler sees
    then.  [None]: a call does not return, undefined behaviour, or [fuel] rounds. *)
Fixpoint Connection_run (fuel : nat) (shutdown_requested : nat -> bool) (env : nat -> Env) (k : nat)
    (s : S) (b : Broker) (d : disk) : option (S * Broker * disk) :=
  match fuel with
  | O => None
  | Datatypes.S fuel =>
      if shutdown_requested k then Some (s, b, d) else
      '(res, length_buf, s) ← recv_exact 4 s;
      if negb (bool_decide (res = RecvSuccess)) then Some (s, b, d) else
      let length := FrameCodec_read_u32 length_buf in
      if length <? HEADER_SIZE then
        '(_, s) ← send_reply MALFORMED_FRAME_ERROR s; Some (s, b, d)
      else if MAX_FRAME_LENGTH <? length then
        '(_, s) ← send_reply FRAME_TOO_LARGE_ERROR s; Some (s, b, d)
      else
        '(res, payload, s) ← recv_exact length s;
        if negb (bool_decide (res = RecvSuccess)) then Some (s, b, d) else
        '(resp, b, d) ← MessageHandler_handle_request (env k) (payload_frame length payload) b d;
        '(res, s) ← send_reply resp s;
        if negb (bool_decide (res = SendSuccess)) then Some (s, b, d) else
        Connection_run fuel shutdown_requested env (Datatypes.S k) s b d
  end.

End connection.

(** ** A reference *)

(** A client that sends all it has, and closes its side. *)
Record Pipe := mkPipe {
  pi_in : bytes;
  pi_out : bytes;
}.

#[global] Instance Pipe_socket : SocketApi Pipe := {
  recv_exact n s :=
    if n <=? zlen (pi_in s) then Some (RecvSuccess, ztake n (pi_in s), mkPipe (zdrop n (pi_in s)) (pi_out s))
    else Some (RecvDisconnected, pi_in s, mkPipe [] (pi_out s));
  send_all data s := Some (SendSuccess, mkPipe (pi_in s) (pi_out s ++ data));
}.

Section reference.
Context {N : Winsock} {W : Win32} {F : Fstream W}.

(** The requests [fs] are handled in order, the first of them in [env k]: the bytes of the
    replies, and the broker and the files afterwards. *)
Fixpoint answer_all (env : nat -> Env) (k : nat) (fs : list Frame) (b : Broker) (d : disk)
    : option (bytes * Broker * disk) :=
  match fs with
  | [] => Some ([], b, d)
  | f :: fs =>
      '(resp, b, d) ← MessageHandler_handle_request (env k) f b d;
      bs ← FrameCodec_encode resp;
      '(out, b, d) ← answer_all env (S k) fs b d;
      Some (bs ++ out, b, d)
  end.

(** What is sent when the stream ends with [res]. *)
Definition closing_error (res : FrameExtractResult) : bytes :=
  match res with
  | ErrorLengthTooSmall => frame_bytes MALFORMED_FRAME_ERROR
  | ErrorLengthTooLarge => frame_bytes FRAME_TOO_LARGE_ERROR
  | _ => []
  end.

Definition serve_stream (env : nat -> Env) (k : nat) (fs : list Frame) (res : FrameExtractResult) (b : Broker) (d : disk)
    : option (bytes * Broker * disk) :=
  '(out, b, d) ← answer_all env k fs b d; Some (out ++ closing_error res, b, d).

Lemma closing_error_sent err (s : Pipe) : err = MALFORMED_FRAME_ERROR \/ err = FRAME_TOO_LARGE_ERROR ->
  send_reply err s = Some (SendSuccess, mkPipe (pi_in s) (pi_out s ++ frame_bytes err)).
Proof.
  intros Herr. unfold send_reply.
  rewrite FrameCodec_encode_spec; [done|by destruct Herr as [-> | ->]|].
  destruct Herr as [-> | ->]; unfold MALFORMED_FRAME_ERROR, FRAME_TOO_LARGE_ERROR, FrameCodec_create_error_frame; cbn [body];
    rewrite zlen_app, FrameCodec_write_u16_be, zlen_be_store by done; by vm_compute.
Qed.

(** ** The blocking loop *)

Lemma payload_frame_spec p len : 4 <= zlen p -> len = be_load (take 4 p) -> 5 <= len -> 4 + len <= zlen p ->
  payload_frame len (ztake len (zdrop 4 p)) =
  mkFrame len (byte_to_Z (hd Byte.x00 (drop 4 p))) (be_load (take 4 (drop 5 p))) (ztake (len - 5) (drop 9 p)).
Proof.
  intros H4 Hl H5 Hp. change (zdrop 4 p) with (drop 4 p). unfold payload_frame, HEADER_SIZE.
  assert (length (drop 4 p) = Z.to_nat (zlen p - 4)) as Hd by (unfold zlen in *; rewrite length_drop; lia).
  f_equal.
  - unfold ztake. destruct (drop 4 p) as [|b l]; [cbn in Hd; lia|]. by destruct (Z.to_nat len) as [|n] eqn:E; [lia|].
  - unfold ztake. rewrite skipn_firstn_comm, drop_drop.
    rewrite FrameCodec_read_u32_be by (rewrite length_take, length_drop; unfold zlen in *; lia).
    by rewrite take_take, Nat.min_l by lia.
  - destruct (Z.ltb_spec 5 len) as [|]; unfold ztake.
    + rewrite skipn_firstn_comm, drop_drop. f_equal. lia.
    + by replace (Z.to_nat (len - 5)) with 0%nat by lia.
Qed.

Lemma read_length p : 4 <= zlen p -> FrameCodec_read_u32 (ztake 4 p) = be_load (take 4 p).
Proof.
  intros H. change (ztake 4 p) with (take 4 p).
  rewrite FrameCodec_read_u32_be by (rewrite length_take; unfold zlen in *; lia). by rewrite take_take.
Qed.

Lemma pipe_recv n p out : 0 <= n -> recv_exact n (mkPipe p out) =
  if n <=? zlen p then Some (RecvSuccess, ztake n p, mkPipe (zdrop n p) out)
  else Some (RecvDisconnected, p, mkPipe [] out).
Proof. done. Qed.

Definition pipe_visible (r : Pipe * Broker * disk) : bytes * Broker * disk := (pi_out r.1.1, r.1.2, r.2).

Lemma run_stream p fs res rest : parses p fs res rest -> forall fuel env k out b d, (length fs < fuel)%nat ->
  pipe_visible <$> Connection_run fuel (fun _ => false) env k (mkPipe p out) b d =
  (fun r => (out ++ r.1.1, r.1.2, r.2)) <$> serve_stream env k fs res b d.
Proof.
  induction 1 as [p res E|p f p' fs res rest E H IH]; intros fuel env k out b d Hf; (destruct fuel as [|fuel]; [lia|]);
    cbn [Connection_run]; rewrite pipe_recv by done; unfold parse_step in E; set (len := be_load (take 4 p)) in *.
  - unfold serve_stream. cbn [answer_all mbind option_bind fmap option_fmap option_map fst snd app].
    destruct (Z.ltb_spec (zlen p) 4) as [|H4].
    { injection E as <-. rewrite (proj2 (Z.leb_gt _ _)) by lia. cbn. by rewrite app_nil_r. }
    rewrite (proj2 (Z.leb_le _ _)) by lia. cbn [mbind option_bind]. rewrite bool_decide_eq_true_2 by done. cbn [negb].
    rewrite read_length by done. fold len. unfold HEADER_SIZE. destruct (Z.ltb_spec len 5).
    { injection E as <-. rewrite closing_error_sent by auto. done. }
    destruct (Z.ltb_spec MAX_FRAME_LENGTH len).
    { injection E as <-. rewrite closing_error_sent by auto. done. }
    destruct (Z.ltb_spec (zlen p) (4 + len)); [|discriminate E]. injection E as <-.
    rewrite pipe_recv by lia. rewrite zlen_zdrop by lia. rewrite (proj2 (Z.leb_gt _ _)) by lia. cbn. by rewrite app_nil_r.
  - destruct (Z.ltb_spec (zlen p) 4) as [|H4]; [discriminate E|].
    rewrite (proj2 (Z.leb_le _ _)) by lia. cbn [mbind option_bind]. rewrite bool_decide_eq_true_2 by done. cbn [negb].
    rewrite read_length by done. fold len. unfold HEADER_SIZE. destruct (Z.ltb_spec len 5); [discriminate E|].
    destruct (Z.ltb_spec MAX_FRAME_LENGTH len); [discriminate E|].
    destruct (Z.ltb_spec (zlen p) (4 + len)); [discriminate E|]. injection E as Ef Ep.
    rewrite pipe_recv by lia. rewrite zlen_zdrop by lia. rewrite (proj2 (Z.leb_le _ _)) by lia.
    cbn [mbind option_bind]. rewrite bool_decide_eq_true_2 by done. cbn [negb].
    rewrite payload_frame_spec by (done || lia). rewrite Ef, zdrop_zdrop by lia. rewrite Ep.
    unfold serve_stream. cbn [answer_all].
    destruct (MessageHandler_handle_request _ _ _ _) as [[[resp b1] d1]|]; [|done]. cbn [mbind option_bind].
    unfold send_reply. destruct (FrameCodec_encode resp) as [enc|]; [|done]. cbn [mbind option_bind].
    cbn [send_all Pipe_socket pi_in pi_out mbind option_bind]. rewrite bool_decide_eq_true_2 by done. cbn [negb].
    cbn [length] in Hf. rewrite IH by lia. unfold serve_stream.
    destruct (answer_all env (S k) fs b1 d1) as [[[o b2] d2]|]; [|done]. cbn. by rewrite <- !app_assoc.
Qed.

End reference.

(** C26: the blocking connection implements the reference.  Whatever bytes a client sends
    before it closes its side (every stream parses in exactly one way: [parses_total],
    [parses_det]), while sends succeed and no shutdown is requested, [Connection::run] handles the frames they consist of, in
    order, and sends the reply to each, then the error frame if they end in a length that
    cannot be; it leaves the broker and the files as handling these requests one after the
    other does.  One round per request, and one more, is enough. *)
Theorem connection_run_correct {N : Winsock} {W : Win32} {F : Fstream W} stream fs res rest fuel env b d :
  parses stream fs res rest -> (length fs < fuel)%nat ->
  pipe_visible <$> Connection_run fuel (fun _ => false) env 0 (mkPipe stream []) b d = serve_stream env 0 fs res b d.
Proof.
  intros Hp Hf. rewrite (run_stream _ _ _ _ Hp) by done. by destruct (serve_stream env 0 fs res b d) as [[[o b1] d1]|].
Qed.

(** A PING, then a length that cannot be. *)
Definition demo_ping : Frame := mkFrame 5 PING 7 [].
Definition demo_stream : bytes := frame_bytes demo_ping ++ be_store 4 2.

Lemma demo_stream_parses : parses demo_stream [demo_ping] ErrorLengthTooSmall (be_store 4 2).
Proof. apply (parses_frame _ _ (be_store 4 2)); [by vm_compute|]. apply parses_stop. by vm_compute. Qed.

Definition demo_run : option (Pipe * Broker * disk (Win32 := memory_disk)) :=
  Connection_run (N := x86_winsock) 2 (fun _ => false) (fun _ => demo_env) 0 (mkPipe demo_stream []) demo_broker_state ∅.

Example connection_run_correct_witness :
  pipe_visible <$> demo_run =
  Some (frame_bytes (FrameCodec_create_pong_frame 7) ++ frame_bytes MALFORMED_FRAME_ERROR, demo_broker_state, ∅).
Proof.
  unfold demo_run.
  rewrite (connection_run_correct (N := x86_winsock) demo_stream [demo_ping] ErrorLengthTooSmall (be_store 4 2));
    [reflexivity|exact demo_stream_parses|cbn; lia].
Defined.
