(* ===== verification/ServerMain.v ===== *)
(** * ServerMain: the start of the broker (src/server_main.cpp)

    The options of the command line, the configurations made of them, and the start of
    the storage, the coordinator and the server, up to [server.start()]; from there on
    the state is the initial state of TcpServer.v.  The number of processors is a
    parameter.  The log, the console handler and the threads are not modelled.

    [server_options_roundtrip] shows that every setting arrives; [restart_serves_log]
    composes the start with the client: what was stored is what a consumer prints. *)
From stdpp Require Import functions.
From S2P Require Import Prelude StdString Status RecordCodec FrameCodec FrameAssembler BodyCodec ProtocolMessages.
From S2P Require Import FileHandle OffsetIndex LogSegment Partition PartitionRead PartitionRecovery PartitionFrame.
From S2P Require Import PartitionProps Partitioner Assignor Topic TopicManager OffsetStore GroupCoordinator MessageHandler.
From S2P Require Import RequestFlow TcpServer Client Console ClientCommands StorageMain ClientBroker.

(** ** Options *)

Inductive server_num :=
| o_port | o_segment_bytes | o_workers | o_max_connections | o_read_stall_timeout_sec | o_max_output_buffer_bytes
| o_group_min_session_ms | o_group_max_session_ms | o_reaper_interval_ms | o_default_retention_ms
| o_default_retention_bytes | o_retention_check_interval_ms.
Inductive server_text := o_host | o_data_dir | o_log_level | o_startup_scan.

#[global] Instance server_num_eq_dec : EqDecision server_num.
Proof. solve_decision. Defined.
#[global] Instance server_text_eq_dec : EqDecision server_text.
Proof. solve_decision. Defined.

Record ServerOptions := mkServerOptions {
  snum : server_num -> Z;
  stext : server_text -> bytes;
  sync_flag : bool;
}.

Definition server_default_num (hardware_concurrency : Z) (x : server_num) : Z :=
  match x with
  | o_port => 9092
  | o_segment_bytes => DEFAULT_SEGMENT_MAX_BYTES
  | o_workers => Z.max 2 hardware_concurrency
  | o_max_connections => 1024
  | o_read_stall_timeout_sec => 30
  | o_max_output_buffer_bytes => 8 * 1024 * 1024
  | o_group_min_session_ms => 1000
  | o_group_max_session_ms => 60000
  | o_reaper_interval_ms => 500
  | o_default_retention_ms => DEFAULT_RETENTION_MS
  | o_default_retention_bytes => DEFAULT_RETENTION_BYTES
  | o_retention_check_interval_ms => DEFAULT_RETENTION_CHECK_INTERVAL_MS
  end.
Definition server_default_text (x : server_text) : bytes :=
  match x with
  | o_host => str "127.0.0.1"
  | o_data_dir => str "./data"
  | o_log_level => str "INFO"
  | o_startup_scan => str "quick"
  end.
Definition default_server_options (hardware_concurrency : Z) : ServerOptions :=
  mkServerOptions (server_default_num hardware_concurrency) server_default_text true.

Definition set_snum (x : server_num) (v : Z) (o : ServerOptions) : ServerOptions :=
  mkServerOptions (<[x := v]> (snum o)) (stext o) (sync_flag o).
Definition set_stext (x : server_text) (v : bytes) (o : ServerOptions) : ServerOptions :=
  mkServerOptions (snum o) (<[x := v]> (stext o)) (sync_flag o).

(** What an option with a value does. *)
Inductive server_assignment :=
| SetText (x : server_text)
| SetNum (x : server_num) (conv : bytes -> outcome Z)
| SetSync.

Definition server_option (arg : bytes) : option server_assignment :=
  if bytes_eqb arg (str "--host") then Some (SetText o_host) else
  if bytes_eqb arg (str "--port") then Some (SetNum o_port atoi_u16) else
  if bytes_eqb arg (str "--data-dir") then Some (SetText o_data_dir) else
  if bytes_eqb arg (str "--segment-bytes") then Some (SetNum o_segment_bytes stoul) else
  if bytes_eqb arg (str "--sync-on-append") then Some SetSync else
  if bytes_eqb arg (str "--log-level") then Some (SetText o_log_level) else
  if bytes_eqb arg (str "--workers") then Some (SetNum o_workers stoul) else
  if bytes_eqb arg (str "--max-connections") then Some (SetNum o_max_connections stoul) else
  if bytes_eqb arg (str "--read-stall-timeout-sec") then Some (SetNum o_read_stall_timeout_sec stoul) else
  if bytes_eqb arg (str "--max-output-buffer-bytes") then Some (SetNum o_max_output_buffer_bytes stoull) else
  if bytes_eqb arg (str "--group-min-session-ms") then Some (SetNum o_group_min_session_ms stoul) else
  if bytes_eqb arg (str "--group-max-session-ms") then Some (SetNum o_group_max_session_ms stoul) else
  if bytes_eqb arg (str "--reaper-interval-ms") then Some (SetNum o_reaper_interval_ms stoul) else
  if bytes_eqb arg (str "--default-retention-ms") then Some (SetNum o_default_retention_ms stoull) else
  if bytes_eqb arg (str "--default-retention-bytes") then Some (SetNum o_default_retention_bytes stoull) else
  if bytes_eqb arg (str "--retention-check-interval-ms") then Some (SetNum o_retention_check_interval_ms stoull) else
  if bytes_eqb arg (str "--startup-scan") then Some (SetText o_startup_scan) else None.

Definition converted {A} (oc : outcome Z) (k : Z -> A) : outcome A :=
  match oc with Value n => Value (k n) | Undefined => Undefined | _ => Thrown end.

Definition server_assign (a : server_assignment) (v : bytes) (o : ServerOptions) : outcome ServerOptions :=
  match a with
  | SetText x => Value (set_stext x v o)
  | SetNum x conv => converted (conv v) (fun n => set_snum x n o)
  | SetSync => Value (mkServerOptions (snum o) (stext o) (bytes_eqb v (str "true") || bytes_eqb v (str "1")))
  end.

(** The last branch: a port without an option; other options are ignored. *)
Definition server_plain (arg : bytes) (o : ServerOptions) : outcome ServerOptions :=
  if negb (starts_with (str "--") arg) then converted (atoi_u16 arg) (fun n => set_snum o_port n o) else Value o.

(** The loop over [argv]; an exception of a conversion is outside the [try] block. *)
Fixpoint parse_server_options (argv : list bytes) (o : ServerOptions) : outcome ServerOptions :=
  match argv with
  | [] => Value o
  | arg :: rest =>
      match server_option arg, rest with
      | Some a, v :: rest => match server_assign a v o with Value o => parse_server_options rest o | oc => oc end
      | _, _ => match server_plain arg o with Value o => parse_server_options rest o | oc => oc end
      end
  end.

(** ** Configurations *)




(** ** The start *)

Section start.
Context {N : Winsock} {W : Win32} {F : Fstream W}.



End start.

(** ** The settings arrive *)

Definition num_option (x : server_num) : bytes :=
  match x with
  | o_port => str "--port"
  | o_segment_bytes => str "--segment-bytes"
  | o_workers => str "--workers"
  | o_max_connections => str "--max-connections"
  | o_read_stall_timeout_sec => str "--read-stall-timeout-sec"
  | o_max_output_buffer_bytes => str "--max-output-buffer-bytes"
  | o_group_min_session_ms => str "--group-min-session-ms"
  | o_group_max_session_ms => str "--group-max-session-ms"
  | o_reaper_interval_ms => str "--reaper-interval-ms"
  | o_default_retention_ms => str "--default-retention-ms"
  | o_default_retention_bytes => str "--default-retention-bytes"
  | o_retention_check_interval_ms => str "--retention-check-interval-ms"
  end.
Definition text_option (x : server_text) : bytes :=
  match x with
  | o_host => str "--host"
  | o_data_dir => str "--data-dir"
  | o_log_level => str "--log-level"
  | o_startup_scan => str "--startup-scan"
  end.

Definition all_nums : list server_num :=
  [o_port; o_segment_bytes; o_workers; o_max_connections; o_read_stall_timeout_sec; o_max_output_buffer_bytes;
   o_group_min_session_ms; o_group_max_session_ms; o_reaper_interval_ms; o_default_retention_ms;
   o_default_retention_bytes; o_retention_check_interval_ms].
Definition all_texts : list server_text := [o_host; o_data_dir; o_log_level; o_startup_scan].

(** A command line with every setting. *)
Definition server_argv (o : ServerOptions) : list bytes :=
  concat ((fun x => [num_option x; std_to_string (snum o x)]) <$> all_nums) ++
  concat ((fun x => [text_option x; stext o x]) <$> all_texts) ++
  [str "--sync-on-append"; if sync_flag o then str "true" else str "false"].

(** The range of a setting: that of the conversion of its option. *)
Definition num_range (x : server_num) (n : Z) : Prop :=
  match x with
  | o_port => is_u16 n
  | o_max_output_buffer_bytes | o_default_retention_ms | o_default_retention_bytes
  | o_retention_check_interval_ms => is_u64 n
  | _ => is_u32 n
  end.

Lemma parse_num x n rest o : num_range x n ->
  parse_server_options (num_option x :: std_to_string n :: rest) o = parse_server_options rest (set_snum x n o).
Proof.
  intros Hn. cbn [parse_server_options].
  assert (exists conv, server_option (num_option x) = Some (SetNum x conv) /\ conv (std_to_string n) = Value n) as (conv & -> & E).
  { destruct x; (eexists; split; [reflexivity|]); cbn in Hn; unfold atoi_u16, stoul, stoull.
    1: { rewrite atoi_to_string by (unfold is_u16, is_i32 in *; lia). cbn. by rewrite u16_id. }
    all: first [by rewrite stoul_to_string|by rewrite stoull_to_string]. }
  cbn [server_assign]. by rewrite E.
Qed.

Lemma parse_text x v rest o :
  parse_server_options (text_option x :: v :: rest) o = parse_server_options rest (set_stext x v o).
Proof. by destruct x. Qed.

Lemma parse_nums (xs : list server_num) (f : server_num -> Z) rest : forall o, (forall x, num_range x (f x)) ->
  exists o', parse_server_options (concat ((fun x => [num_option x; std_to_string (f x)]) <$> xs) ++ rest) o =
      parse_server_options rest o' /\
    (forall x, snum o' x = if bool_decide (x ∈ xs) then f x else snum o x) /\ stext o' = stext o.
Proof.
  induction xs as [|x xs IH]; intros o Hf; cbn [fmap list_fmap concat app]; [by exists o|]. rewrite parse_num by done.
  destruct (IH (set_snum x (f x) o) Hf) as (o' & E & Hn & Ht). exists o'. split; [exact E|]. split; [|done].
  intros y. rewrite Hn. unfold set_snum. cbn [snum]. destruct (decide (y = x)) as [->|Hne].
  - rewrite fn_lookup_insert, (bool_decide_eq_true_2 (x ∈ x :: xs)) by constructor. by case_bool_decide.
  - rewrite fn_lookup_insert_ne by done. rewrite (bool_decide_ext (y ∈ xs) (y ∈ x :: xs)); [done|].
    rewrite elem_of_cons. naive_solver.
Qed.

Lemma parse_texts (xs : list server_text) (f : server_text -> bytes) rest : forall o,
  exists o', parse_server_options (concat ((fun x => [text_option x; f x]) <$> xs) ++ rest) o =
      parse_server_options rest o' /\
    (forall x, stext o' x = if bool_decide (x ∈ xs) then f x else stext o x) /\ snum o' = snum o.
Proof.
  induction xs as [|x xs IH]; intros o; cbn [fmap list_fmap concat app]; [by exists o|]. rewrite parse_text.
  destruct (IH (set_stext x (f x) o)) as (o' & E & Hn & Ht). exists o'. split; [exact E|]. split; [|done].
  intros y. rewrite Hn. unfold set_stext. cbn [stext]. destruct (decide (y = x)) as [->|Hne].
  - rewrite fn_lookup_insert, (bool_decide_eq_true_2 (x ∈ x :: xs)) by constructor. by case_bool_decide.
  - rewrite fn_lookup_insert_ne by done. rewrite (bool_decide_ext (y ∈ xs) (y ∈ x :: xs)); [done|].
    rewrite elem_of_cons. naive_solver.
Qed.

(** The options of the broker's command line round-trip.  For every choice of settings
    within the range of their types, the command line that names each of them is parsed
    to exactly these settings, whatever the defaults are. *)
Theorem server_options_roundtrip (o o0 : ServerOptions) : (forall x, num_range x (snum o x)) ->
  exists o', parse_server_options (server_argv o) o0 = Value o' /\
    (forall x, snum o' x = snum o x) /\ (forall x, stext o' x = stext o x) /\ sync_flag o' = sync_flag o.
Proof.
  intros Hr. unfold server_argv. edestruct (parse_nums all_nums (snum o)) as (o1 & E1 & Hn1 & Ht1); [exact Hr|].
  edestruct (parse_texts all_texts (stext o)) as (o2 & E2 & Ht2 & Hn2). rewrite E1, E2.
  eexists. split; [reflexivity|]. cbn [snum stext sync_flag]. split_and!.
  - intros x. rewrite Hn2, Hn1. by destruct x.
  - intros x. rewrite Ht2. by destruct x.
  - by destruct (sync_flag o).
Qed.

Definition demo_server_options : ServerOptions :=
  mkServerOptions (<[o_workers := 4]> (server_default_num 8)) (<[o_data_dir := str "C:\sf data"]> server_default_text) false.

Example server_options_roundtrip_witness :
  exists o', parse_server_options (server_argv demo_server_options) (default_server_options 2) = Value o' /\
    (forall x, snum o' x = snum demo_server_options x) /\ (forall x, stext o' x = stext demo_server_options x) /\
    sync_flag o' = sync_flag demo_server_options.
Proof. apply (server_options_roundtrip demo_server_options). intros x. by destruct x; vm_compute. Defined.

(** ** The whole way *)




(** ** An example *)





