(* ===== verification/ServerOrder.v ===== *)
(** * ServerOrder: responses leave in the order of the requests
    (src/TcpServer.cpp, src/ThreadPool.cpp)

    The invariant of the server, by induction over its runs.  For every connection:
    the requests taken off it are those already answered, then the one in flight (if
    any; it is in exactly one of the queues or with one worker), then the pending
    ones; the bytes sent and those buffered are the encoded responses of the answered
    ones, in that order. *)
From S2P Require Import Prelude StdString Status RecordCodec FrameCodec FrameAssembler BodyCodec ProtocolMessages.
From S2P Require Import FileHandle TopicManager OffsetStore GroupCoordinator MessageHandler TcpServer.

(** ** What happened on one connection *)

Definition event_conn (e : Event) : Z :=
  match e with ev_accept c | ev_request c _ | ev_sent c _ | ev_shutdown_ok c | ev_error c => c end.

Definition requests (c : Z) (tr : list Event) : list Frame :=
  omap (fun e => match e with ev_request c' f => if decide (c' = c) then Some f else None | _ => None end) tr.

Definition sent_bytes (c : Z) (tr : list Event) : bytes :=
  concat (omap (fun e => match e with ev_sent c' bs => if decide (c' = c) then Some bs else None | _ => None end) tr).

Lemma requests_app c tr1 tr2 : requests c (tr1 ++ tr2) = requests c tr1 ++ requests c tr2.
Proof. apply omap_app. Qed.

Lemma sent_app c tr1 tr2 : sent_bytes c (tr1 ++ tr2) = sent_bytes c tr1 ++ sent_bytes c tr2.
Proof. unfold sent_bytes. by rewrite omap_app, concat_app. Qed.

Lemma quiet c evs : Forall (fun e => event_conn e <> c) evs -> requests c evs = [] /\ sent_bytes c evs = [].
Proof.
  unfold requests, sent_bytes. induction 1 as [|e evs He _ [IH1 IH2]]; [done|]. cbn [omap list_omap].
  destruct e; cbn in He; rewrite ?decide_False by done; split; done.
Qed.

(** The run up to the first error frame that was sent to [c]. *)
Fixpoint before_error (c : Z) (tr : list Event) : list Event :=
  match tr with
  | [] => []
  | e :: tr => if decide (e = ev_error c) then [] else e :: before_error c tr
  end.

Lemma before_error_all c tr : ev_error c ∉ tr -> before_error c tr = tr.
Proof.
  induction tr as [|e tr IH]; cbn; [done|]. rewrite not_elem_of_cons. intros [He Htr].
  rewrite decide_False by congruence. by rewrite IH.
Qed.

Lemma before_error_past c tr evs : ev_error c ∈ tr -> before_error c (tr ++ evs) = before_error c tr.
Proof.
  induction tr as [|e tr IH]; cbn; [by intros ?%not_elem_of_nil|]. intros [<-|Hin]%elem_of_cons; [by rewrite !decide_True by done|].
  destruct (decide _); [done|]. by rewrite IH.
Qed.

Lemma before_error_here c tr evs : ev_error c ∉ tr -> before_error c (tr ++ ev_error c :: evs) = tr.
Proof.
  induction tr as [|e tr IH]; cbn; [by rewrite decide_True by done|]. rewrite not_elem_of_cons. intros [He Htr].
  rewrite decide_False by congruence. by rewrite IH.
Qed.

Lemma own_no_error c evs : Forall (fun e => event_conn e = c /\ e <> ev_error c) evs -> ev_error c ∉ evs.
Proof. intros Hf Hin. rewrite list.Forall_forall in Hf. by destruct (Hf _ Hin). Qed.

Lemma no_error c evs : Forall (fun e => event_conn e <> c) evs -> ev_error c ∉ evs.
Proof. intros Hf Hin. rewrite list.Forall_forall in Hf. by apply (Hf _ Hin). Qed.

(** ** Where a request in flight can be *)

Definition items (s : TcpServer) : list item :=
  (it_task <$> ts_tasks s) ++ ts_busy s ++ (it_comp <$> ts_comps s) ++ (it_comp <$> ts_io_comps s).

Definition outstanding (s : TcpServer) (c : Z) : list item := filter (fun x => item_conn x = c) (items s).

Section order.
Context {N : Winsock} {St : Type} {H : RequestHandler St}.

(** [bs] encodes what the handler answers to [req], in the state it is in then. *)
Definition reply (req : Frame) (bs : bytes) : Prop :=
  exists st resp st', handles st req resp st' /\ FrameCodec_encode resp = Some bs.

Definition item_answers (x : item) (req : Frame) : Prop :=
  match x with it_task t => t_request t = req | it_comp x => reply req (c_response_bytes x) end.

(** All requests but [rest] are answered, and [out] of the answers is still unsent. *)
Definition served (tr : list Event) (c : Z) (rest : list Frame) (out : bytes) : Prop :=
  exists done bss, requests c tr = done ++ rest /\ Forall2 reply done bss /\ sent_bytes c tr ++ out = concat bss.

Definition flight_ok (s : TcpServer) (c : Z) (fl : list Frame) (in_flight : bool) : Prop :=
  match fl with
  | [] => in_flight = false /\ outstanding s c = []
  | [req] => in_flight = true /\ exists x, outstanding s c = [x] /\ item_answers x req
  | _ => False
  end.

(** The requests and the request in flight of a connection. *)
Definition view (s : TcpServer) (tr : list Event) (c : Z) (conn : ConnectionState) : Prop :=
  (cs_in_flight conn = false -> cs_pending_requests conn = []) /\
  exists fl, served tr c (fl ++ cs_pending_requests conn) (unsent conn) /\ flight_ok s c fl (cs_in_flight conn).

Definition offset_ok (c : ConnectionState) : Prop := 0 <= cs_output_offset c <= zlen (cs_output_buffer c).

Definition conn_inv (s : TcpServer) (tr : list Event) (c : Z) (conn : ConnectionState) : Prop :=
  offset_ok conn /\ view s tr c conn.

(** After an error frame nothing more is claimed than what held before it. *)
Definition local_past (tr : list Event) (c : Z) : Prop :=
  exists rest out, served (before_error c tr) c rest out.

Definition local_now (s : TcpServer) (tr : list Event) (c : Z) : Prop :=
  match ts_connections s !! c with
  | Some conn => conn_inv s tr c conn
  | None => exists rest out, served tr c rest out
  end.

Definition local_inv (s : TcpServer) (tr : list Event) (c : Z) : Prop :=
  (ev_error c ∈ tr /\ local_past tr c) \/ ((ev_error c ∉ tr) /\ local_now s tr c).

Record global_inv (s : TcpServer) (tr : list Event) : Prop := {
  gi_next : 1 <= ts_next_conn_id s <= 1 + zlen tr;
  gi_ids : map_Forall (fun c conn => cs_conn_id conn = c /\ c < ts_next_conn_id s) (ts_connections s);
  gi_items : Forall (fun x => item_conn x < ts_next_conn_id s) (items s);
  gi_events : Forall (fun e => event_conn e < ts_next_conn_id s) tr;
  gi_running : ts_stopped s = false;
  gi_size : Z.of_nat (size (ts_connections s)) <= Z.max 0 (max_connections (ts_config s));
}.

Definition server_inv (s : TcpServer) (tr : list Event) : Prop :=
  global_inv s tr /\ forall c, local_inv s tr c.

Lemma local_after_error s tr evs c : ev_error c ∈ tr -> local_past tr c -> local_inv s (tr ++ evs) c.
Proof.
  intros He Hp. left. unfold local_past. rewrite before_error_past by done. split; [by apply elem_of_app; left|done].
Qed.

Lemma local_before_error s tr evs c :
  ev_error c ∉ tr -> ev_error c ∉ evs -> local_now s (tr ++ evs) c -> local_inv s (tr ++ evs) c.
Proof. intros H1 H2 Hn. right. by rewrite not_elem_of_app. Qed.

(** ** Other connections *)

Lemma served_quiet tr evs c rest out : Forall (fun e => event_conn e <> c) evs ->
  served tr c rest out -> served (tr ++ evs) c rest out.
Proof.
  intros Hq (dn & bss & H1 & H2 & H3). apply quiet in Hq as [Hr Hs]. exists dn, bss.
  rewrite requests_app, sent_app, Hr, Hs, !app_nil_r. done.
Qed.

Lemma flight_perm s s' c fl b : outstanding s' c ≡ₚ outstanding s c -> flight_ok s c fl b -> flight_ok s' c fl b.
Proof.
  intros Hp Hf. unfold flight_ok in *. destruct fl as [|req [|]]; [|..|done].
  - destruct Hf as [? Ho]. rewrite Ho in Hp. apply Permutation_nil_r in Hp. done.
  - destruct Hf as (? & x & Ho & Hx). rewrite Ho in Hp. apply Permutation_singleton_r in Hp. by eauto.
Qed.

Lemma local_frame s s' tr evs c :
  ts_connections s' !! c = ts_connections s !! c -> outstanding s' c ≡ₚ outstanding s c ->
  Forall (fun e => event_conn e <> c) evs -> local_inv s tr c -> local_inv s' (tr ++ evs) c.
Proof.
  intros Hc Ho Hq [[He Hp]|[He Hl]]; [by apply local_after_error|]. apply local_before_error; [done|by apply no_error|].
  unfold local_now in *. rewrite Hc. destruct (ts_connections s !! c) as [conn|].
  - destruct Hl as (H1 & H2 & fl & Hs & Hf). split; [done|]. split; [done|]. exists fl.
    split; [by apply served_quiet|]. by eapply flight_perm.
  - destruct Hl as (rest & out & Hs). exists rest, out. by apply served_quiet.
Qed.

(** A connection that is gone keeps what was sent. *)
Lemma local_closed s s' tr evs c :
  ts_connections s' !! c = None -> Forall (fun e => event_conn e <> c) evs ->
  local_inv s tr c -> local_inv s' (tr ++ evs) c.
Proof.
  intros Hc Hq [[He Hp]|[He Hl]]; [by apply local_after_error|]. apply local_before_error; [done|by apply no_error|].
  unfold local_now in *. rewrite Hc. destruct (ts_connections s !! c) as [conn|].
  - destruct Hl as (_ & _ & fl & Hs & _). do 2 eexists. by apply served_quiet.
  - destruct Hl as (rest & out & Hs). exists rest, out. by apply served_quiet.
Qed.

(** ** Sending *)

Lemma served_sent tr c rest out n :
  0 <= n <= zlen out -> served tr c rest out -> served (tr ++ [ev_sent c (ztake n out)]) c rest (zdrop n out).
Proof.
  intros Hn (dn & bss & H1 & H2 & H3). exists dn, bss. rewrite requests_app, sent_app.
  cbn. rewrite decide_True by done. cbn. rewrite !app_nil_r, <- app_assoc, ztake_zdrop. done.
Qed.

Lemma served_answer tr c req rest out bs :
  served tr c (req :: rest) out -> reply req bs -> served tr c rest (out ++ bs).
Proof.
  intros (dn & bss & H1 & H2 & H3) Hr. exists (dn ++ [req]), (bss ++ [bs]). split_and!.
  - by rewrite <- app_assoc.
  - apply Forall2_app; [done|]. by constructor.
  - rewrite concat_app, app_assoc, H3. cbn. by rewrite app_nil_r.
Qed.

Definition same_requests (c c' : ConnectionState) : Prop :=
  cs_conn_id c' = cs_conn_id c /\ cs_pending_requests c' = cs_pending_requests c /\ cs_in_flight c' = cs_in_flight c.

Lemma queue_response_served tr c conn resp sent conn' evs rest :
  cs_conn_id conn = c -> offset_ok conn -> send_ok sent resp ->
  served tr c rest (unsent conn ++ resp) -> queue_response resp sent conn = (Some conn', evs) ->
  served (tr ++ evs) c rest (unsent conn') /\ offset_ok conn' /\ same_requests conn conn' /\
  ev_error c ∉ evs.
Proof.
  intros Hid Ho Hok Hs Hq. unfold queue_response in Hq. pose proof (zlen_nonneg resp).
  destruct (Z.eqb_spec (zlen (unsent conn)) 0) as [E0|_].
  - apply zlen_zero in E0. rewrite E0 in Hs. cbn in Hs. destruct sent as [n| |]; [|injection Hq as <- <-|done].
    + injection Hq as <- <-. cbn in Hok. destruct Hok as [Hn Hpos]. rewrite Hid.
      split_and!; [| | |set_solver].
      * apply (served_sent tr c rest resp n) in Hs; [|lia].
        destruct (Z.ltb_spec 0 n); cbn [andb].
        -- destruct (Z.ltb_spec n (zlen resp)); [unfold unsent; cbn; by rewrite zdrop_0|].
           by rewrite zdrop_ge, <- E0 in Hs by lia.
        -- assert (zlen resp = 0) as Hz by lia. apply zlen_zero in Hz. subst resp. rewrite E0.
           by rewrite zdrop_ge in Hs by (cbn; lia).
      * destruct (_ && _); [unfold offset_ok; cbn; pose proof (zlen_nonneg (zdrop n resp)); lia|done].
      * by destruct (_ && _).
    + rewrite app_nil_r. unfold unsent, offset_ok. cbn. rewrite zdrop_0. split_and!; [done|lia|lia|done|set_solver].
  - injection Hq as <- <-. rewrite app_nil_r. unfold unsent at 1, offset_ok. cbn. rewrite zdrop_0.
    pose proof (zlen_nonneg (unsent conn ++ resp)). split_and!; [done|lia|lia|done|set_solver].
Qed.

Lemma client_output_served tr c conn sent conn' close evs rest :
  cs_conn_id conn = c -> offset_ok conn -> send_ok sent (unsent conn) ->
  served tr c rest (unsent conn) -> client_output sent conn = (conn', close, evs) ->
  served (tr ++ evs) c rest (unsent conn') /\ offset_ok conn' /\ same_requests conn conn'.
Proof.
  intros Hid Ho Hok Hs Hq. unfold client_output in Hq. unfold offset_ok in *.
  destruct sent as [n| |]; [|by injection Hq as <- <- <-; rewrite app_nil_r..].
  destruct Hok as [Hn _]. apply (served_sent tr c rest (unsent conn) n) in Hs; [|lia].
  assert (zlen (unsent conn) = zlen (cs_output_buffer conn) - cs_output_offset conn) as Hl
    by (unfold unsent; rewrite zlen_zdrop by lia; lia).
  assert (zdrop n (unsent conn) = zdrop (cs_output_offset conn + n) (cs_output_buffer conn)) as Hd
    by (unfold unsent; rewrite zdrop_zdrop by lia; done).
  assert (zlen (@nil byte) = 0) as Hz by done.
  rewrite Hid in Hq. destruct (Z.ltb_spec 0 n) as [Hp|Hp].
  - destruct (Z.eqb_spec (cs_output_offset conn + n) (zlen (cs_output_buffer conn))) as [E|E];
      injection Hq as <- <- <-; (split_and!; [|cbn; lia..|done]).
    + by rewrite Hd, zdrop_ge in Hs by lia.
    + by rewrite Hd in Hs.
  - injection Hq as <- <- <-. assert (n = 0) as -> by lia. rewrite zdrop_0 in Hs. split_and!; [done|lia|lia|done].
Qed.

(** ** Taking requests *)

(** [s'] is [s] with tasks of connection [c] added. *)
Definition enqueued (c : Z) (s s' : TcpServer) : Prop :=
  ts_connections s' = ts_connections s /\ ts_config s' = ts_config s /\ ts_next_conn_id s' = ts_next_conn_id s /\
  ts_stopped s' = ts_stopped s /\ ts_busy s' = ts_busy s /\ ts_comps s' = ts_comps s /\
  ts_io_comps s' = ts_io_comps s /\ ts_to_close s' = ts_to_close s /\
  exists l, ts_tasks s' = ts_tasks s ++ l /\ Forall (fun t => t_conn_id t = c) l.

Lemma enqueued_refl c s : enqueued c s s.
Proof. repeat split. exists []. by rewrite app_nil_r. Qed.

Lemma enqueued_trans c s1 s2 s3 : enqueued c s1 s2 -> enqueued c s2 s3 -> enqueued c s1 s3.
Proof.
  intros (?&?&?&?&?&?&?&?&l&Hl&Hf) (?&?&?&?&?&?&?&?&l'&Hl'&Hf'). repeat split; try congruence.
  exists (l ++ l'). rewrite Hl', Hl, <- app_assoc. split; [done|]. by apply Forall_app.
Qed.

Lemma enqueued_other c s s' c' : enqueued c s s' -> c' <> c -> outstanding s' c' = outstanding s c'.
Proof.
  intros (_&_&_&_&Hb&Hc&Hi&_&l&Hl&Hf) Hne. unfold outstanding, items. rewrite Hb, Hc, Hi, Hl, fmap_app.
  rewrite !list.filter_app, (filter_none _ (it_task <$> l)), app_nil_r; [done|].
  apply list.Forall_fmap. eapply list.Forall_impl; [exact Hf|]. cbn. congruence.
Qed.

Lemma enqueued_items c s s' (P : item -> Prop) : enqueued c s s' -> Forall P (items s) ->
  (forall t, t_conn_id t = c -> P (it_task t)) -> Forall P (items s').
Proof.
  intros (_&_&_&_&Hb&Hc&Hi&_&l&Hl&Hf) Hall Ht. unfold items in *. rewrite Hb, Hc, Hi, Hl, fmap_app.
  apply Forall_app in Hall as [H1 H2]. rewrite <- app_assoc. repeat (apply Forall_app; split); try done.
  - apply list.Forall_fmap. eapply list.Forall_impl; [exact Hf|]. auto.
  - apply Forall_app in H2 as [? _]. done.
  - apply Forall_app in H2 as [_ [? _]%Forall_app]. done.
  - apply Forall_app in H2 as [_ [_ ?]%Forall_app]. done.
Qed.

Lemma enqueue_enqueued t s : enqueued (t_conn_id t) s (ThreadPool_enqueue t s).
Proof.
  unfold ThreadPool_enqueue. destruct (ts_stopped s) eqn:E; [apply enqueued_refl|]. repeat split. exists [t]. by repeat constructor.
Qed.

Lemma enqueue_outstanding t s : ts_stopped s = false -> outstanding s (t_conn_id t) = [] ->
  outstanding (ThreadPool_enqueue t s) (t_conn_id t) = [it_task t].
Proof.
  intros Hs Ho. unfold ThreadPool_enqueue. rewrite Hs. unfold outstanding, items in *. cbn.
  rewrite fmap_app, <- app_assoc. rewrite !list.filter_app in *. cbn [fmap list_fmap].
  apply app_eq_nil in Ho as [-> Ho]. apply app_eq_nil in Ho as [-> Ho]. apply app_eq_nil in Ho as [-> ->].
  cbn. by rewrite decide_True.
Qed.

Lemma served_request tr c f rest out : served tr c rest out -> served (tr ++ [ev_request c f]) c (rest ++ [f]) out.
Proof.
  intros (dn & bss & H1 & H2 & H3). exists dn, bss. rewrite requests_app, sent_app, H1. cbn.
  rewrite decide_True by done. by rewrite app_nil_r, <- app_assoc.
Qed.

(** The request just extracted is put in flight, or behind the pending ones. *)
Lemma view_request s tr c conn f :
  ts_stopped s = false -> cs_conn_id conn = c -> view s tr c conn ->
  let r := if cs_in_flight conn then (s, cs_set_requests (cs_pending_requests conn ++ [f]) true conn)
           else (ThreadPool_enqueue (mkTask (cs_conn_id conn) f) s, cs_set_requests (cs_pending_requests conn) true conn) in
  view r.1 (tr ++ [ev_request c f]) c r.2.
Proof.
  intros Hst Hid (Hp & fl & Hs & Hf). apply (served_request _ _ f) in Hs. cbn zeta.
  destruct (cs_in_flight conn) eqn:Ef; cbn [fst snd]; (split; [done|]).
  - exists fl. rewrite <- app_assoc in Hs. split; [exact Hs|done].
  - rewrite Hp in Hs by done. destruct fl as [|req [|]]; cbn in Hf; [|by destruct Hf|done]. destruct Hf as [_ Ho].
    exists [f]. unfold unsent. cbn. rewrite Hp by done. split; [exact Hs|]. split; [done|].
    exists (it_task (mkTask (cs_conn_id conn) f)). split; [|done]. rewrite Hid in *.
    by apply (enqueue_outstanding (mkTask c f)).
Qed.

Lemma dispatch_structure fuel : forall s conn res s' conn' evs,
  dispatch_frames fuel s conn = Some (res, s', conn', evs) ->
  enqueued (cs_conn_id conn) s s' /\ cs_conn_id conn' = cs_conn_id conn /\
  cs_output_buffer conn' = cs_output_buffer conn /\ cs_output_offset conn' = cs_output_offset conn /\
  Forall (fun e => event_conn e = cs_conn_id conn /\ e <> ev_error (cs_conn_id conn)) evs.
Proof.
  induction fuel as [|fuel IH]; intros s conn res s' conn' evs E; cbn [dispatch_frames] in E; [done|].
  destruct (FrameAssembler_extract_next_frame _ _) as [[r f] a].
  destruct r; [|injection E as <- <- <- <-; split_and!; try done; apply enqueued_refl..].
  destruct (frame_type f =? SHUTDOWN).
  { injection E as <- <- <- <-. split_and!; try done; [|by repeat constructor].
    repeat split. exists []. by rewrite app_nil_r. }
  set (r := if cs_in_flight _ then _ else _) in E.
  assert (enqueued (cs_conn_id conn) s r.1 /\ cs_conn_id r.2 = cs_conn_id conn /\
    cs_output_buffer r.2 = cs_output_buffer conn /\ cs_output_offset r.2 = cs_output_offset conn) as (H1 & H2 & H3 & H4).
  { subst r. cbn [cs_in_flight cs_set_assembler]. destruct (cs_in_flight conn); cbn; split_and!; try done;
      [apply enqueued_refl|apply enqueue_enqueued]. }
  destruct r as [s1 c1]. cbn [fst snd] in *.
  destruct (dispatch_frames fuel s1 c1) as [[[[r2 s2] c2] evs2]|] eqn:Ed; [|done]. injection E as <- <- <- <-.
  apply IH in Ed as (G1 & G2 & G3 & G4 & G5). rewrite H2 in *. split_and!; try congruence.
  - by eapply enqueued_trans.
  - constructor; [split; [cbn; congruence|done]|done].
Qed.

(** A SHUTDOWN request leaves the requests and the output of its connection alone. *)
Lemma view_shutdown s tr c conn a :
  view s tr c conn -> view (TcpServer_request_stop s) (tr ++ [ev_shutdown_ok (cs_conn_id conn)]) c (cs_set_assembler a conn).
Proof.
  intros (Hp & fl & (dn & bss & H1 & H2 & H3) & Hf). split; [done|]. exists fl. split; [|done].
  exists dn, bss. rewrite requests_app, sent_app. cbn. by rewrite !app_nil_r.
Qed.

Lemma dispatch_view fuel : forall s conn res s' conn' evs tr c,
  dispatch_frames fuel s conn = Some (res, s', conn', evs) ->
  ts_stopped s = false -> cs_conn_id conn = c -> view s tr c conn -> view s' (tr ++ evs) c conn'.
Proof.
  induction fuel as [|fuel IH]; intros s conn res s' conn' evs tr c E Hst Hid Hv; cbn [dispatch_frames] in E; [done|].
  destruct (FrameAssembler_extract_next_frame _ _) as [[r f] a].
  destruct r; [|injection E as <- <- <- <-; by rewrite app_nil_r..].
  destruct (frame_type f =? SHUTDOWN).
  { injection E as <- <- <- <-. by apply view_shutdown. }
  pose proof (view_request s tr c (cs_set_assembler a conn) f Hst Hid Hv) as Hr. cbn zeta in Hr.
  set (r := if cs_in_flight _ then _ else _) in E, Hr.
  assert (ts_stopped r.1 = false /\ cs_conn_id r.2 = c) as [Hst1 Hid1].
  { subst r. destruct (cs_in_flight _); cbn; [done|]. unfold ThreadPool_enqueue. by rewrite Hst. }
  destruct r as [s1 c1]. cbn [fst snd] in *.
  destruct (dispatch_frames fuel s1 c1) as [[[[r2 s2] c2] evs2]|] eqn:Ed; [|done]. injection E as <- <- <- <-.
  pose proof (dispatch_structure _ _ _ _ _ _ _ Ed) as (_ & G2 & _). rewrite Hid1 in G2. rewrite G2.
  eapply IH in Ed as Hv2; [|done|done|exact Hr]. by rewrite <- app_assoc in Hv2.
Qed.

(** ** Steps on one connection *)

(** [s'] is [s] with connection [c] set to [conn'] (or gone), and queues that differ in
    items of [c] only. *)
Record touched (c : Z) (conn' : option ConnectionState) (s s' : TcpServer) : Prop := {
  to_conns : ts_connections s' = partial_alter (fun _ => conn') c (ts_connections s);
  to_config : ts_config s' = ts_config s;
  to_next : ts_next_conn_id s' = ts_next_conn_id s;
  to_stopped : ts_stopped s' = ts_stopped s;
  to_other : forall c', c' <> c -> outstanding s' c' ≡ₚ outstanding s c';
  to_items : forall P : item -> Prop, Forall P (items s) -> (forall t, t_conn_id t = c -> P (it_task t)) ->
    Forall P (items s');
}.

Lemma enqueued_touched c conn' s s1 s2 :
  enqueued c s s1 -> ts_connections s2 = partial_alter (fun _ => conn') c (ts_connections s) ->
  ts_config s2 = ts_config s1 -> ts_next_conn_id s2 = ts_next_conn_id s1 -> ts_stopped s2 = ts_stopped s1 ->
  items s2 = items s1 -> touched c conn' s s2.
Proof.
  intros He Hc Hcf Hn Hst Hi. pose proof He as (_ & Hcf1 & Hn1 & Hst1 & _). split; try congruence.
  - intros c' Hne. unfold outstanding. rewrite Hi. fold (outstanding s1 c'). by rewrite (enqueued_other _ _ _ _ He).
  - intros P HP Ht. rewrite Hi. by eapply enqueued_items.
Qed.

Lemma touched_inv c conn' s s' tr evs :
  server_inv s tr -> touched c conn' s s' -> is_Some (ts_connections s !! c) ->
  (forall x, conn' = Some x -> cs_conn_id x = c) -> Forall (fun e => event_conn e = c) evs ->
  local_inv s' (tr ++ evs) c -> server_inv s' (tr ++ evs).
Proof.
  intros [[] Hl] [] [conn Hc] Hid Hev Hloc. destruct (gi_ids0 _ _ Hc) as [_ Hlt]. split; [split|].
  - rewrite to_next0, zlen_app. pose proof (zlen_nonneg evs). lia.
  - rewrite to_conns0, to_next0. intros c' x Hx. destruct (decide (c' = c)) as [->|Hne].
    + rewrite lookup_partial_alter_eq in Hx. split; [by apply Hid|done].
    + rewrite lookup_partial_alter_ne in Hx by done. by apply gi_ids0.
  - rewrite to_next0. apply to_items0; [done|]. intros t Ht. cbn. lia.
  - rewrite to_next0. apply Forall_app. split; [done|]. eapply list.Forall_impl; [exact Hev|]. cbn. lia.
  - congruence.
  - rewrite to_conns0, to_config0. destruct conn' as [x|].
    + change (partial_alter _ c _) with (<[c := x]> (ts_connections s)). by rewrite map_size_insert_Some.
    + change (partial_alter _ c _) with (delete c (ts_connections s)). rewrite map_size_delete_Some by done. lia.
  - intros c'. destruct (decide (c' = c)) as [->|Hne]; [done|]. eapply local_frame; [|by apply to_other0| |apply Hl].
    + rewrite to_conns0. by apply lookup_partial_alter_ne.
    + eapply list.Forall_impl; [exact Hev|]. cbn. congruence.
Qed.

(** An operation that leaves the queues alone. *)
Lemma set_conn_touched c x s s' : cs_conn_id x = c ->
  ts_connections s' = ts_connections (ts_set_conn x s) -> ts_config s' = ts_config s ->
  ts_next_conn_id s' = ts_next_conn_id s -> ts_stopped s' = ts_stopped s -> items s' = items s ->
  touched c (Some x) s s'.
Proof.
  intros <- Hc Hcf Hn Hst Hi. eapply enqueued_touched; [apply enqueued_refl|by rewrite Hc|done..].
Qed.

Lemma close_touched c s s' :
  ts_connections s' = delete c (ts_connections s) -> ts_config s' = ts_config s ->
  ts_next_conn_id s' = ts_next_conn_id s -> ts_stopped s' = ts_stopped s -> items s' = items s -> touched c None s s'.
Proof. intros Hc Hcf Hn Hst Hi. eapply enqueued_touched; [apply enqueued_refl|by rewrite Hc|done..]. Qed.

Lemma local_touched c x s s' tr :
  touched c (Some x) s s' -> offset_ok x -> view s' tr c x -> local_now s' tr c.
Proof.
  intros Ht Ho Hv. unfold local_now. rewrite (to_conns _ _ _ _ Ht), lookup_partial_alter_eq. by split.
Qed.

(** Moving items between the queues. *)
Lemma moved_inv s s' tr :
  server_inv s tr -> ts_connections s' = ts_connections s -> ts_config s' = ts_config s ->
  ts_next_conn_id s' = ts_next_conn_id s -> ts_stopped s' = ts_stopped s -> items s' ≡ₚ items s -> server_inv s' tr.
Proof.
  intros [[] Hl] Hc Hcf Hn Hst Hi. split; [split|]; rewrite ?Hc, ?Hcf, ?Hn, ?Hst; try done; [by rewrite Hi|].
  intros c. rewrite <- (app_nil_r tr). eapply local_frame; [by rewrite Hc| |constructor|apply Hl].
  unfold outstanding. by rewrite Hi.
Qed.

Lemma close_inv c s s' tr :
  server_inv s tr -> ts_connections s' = delete c (ts_connections s) -> ts_config s' = ts_config s ->
  ts_next_conn_id s' = ts_next_conn_id s -> ts_stopped s' = ts_stopped s -> items s' = items s -> server_inv s' tr.
Proof.
  intros Hinv Hc Hcf Hn Hst Hi. destruct (ts_connections s !! c) as [conn|] eqn:Ec.
  - rewrite <- (app_nil_r tr). pose proof (close_touched c s s' Hc Hcf Hn Hst Hi) as Ht.
    eapply (touched_inv c None); [exact Hinv|done|by eexists|done|constructor|].
    eapply local_closed; [|constructor|apply Hinv]. rewrite Hc. apply lookup_delete_eq.
  - eapply moved_inv; [exact Hinv| |done..|by rewrite Hi]. by rewrite Hc, delete_id.
Qed.

(** ** Every step preserves the invariant *)

Lemma stalls_inv now s tr : server_inv s tr -> server_inv (TcpServer_check_read_stalls now s) tr.
Proof.
  unfold TcpServer_check_read_stalls. generalize (filter (fun x => stalled now (read_stall_timeout_sec (ts_config s)) x.2 = true)
    (map_to_list (ts_connections s))).*1. intros l. revert s. induction l as [|c l IH]; intros s Hinv; [done|].
  cbn [foldl]. apply IH. by eapply (close_inv c s).
Qed.

Lemma accept_inv now s tr : server_inv s tr -> 1 + zlen tr < 2 ^ 64 - 1 ->
  server_inv (accept_connection now s).1 (tr ++ (accept_connection now s).2).
Proof.
  intros Hinv Hlen. unfold accept_connection. destruct (Z.leb_spec (max_connections (ts_config s)) (Z.of_nat (size (ts_connections s)))) as [|Hsz];
    cbn [fst snd]; [by rewrite app_nil_r|].
  destruct Hinv as [[] Hl]. set (c := ts_next_conn_id s) in *.
  assert (ts_connections s !! c = None) as Hc.
  { destruct (ts_connections s !! c) as [x|] eqn:Ex; [|done]. destruct (gi_ids0 _ _ Ex). lia. }
  assert (Forall (fun e => event_conn e <> c) tr) as Hq by (eapply list.Forall_impl; [exact gi_events0|]; cbn; lia).
  assert (u64 (c + 1) = c + 1) as Hu by (apply u64_id; unfold is_u64; lia). rewrite Hu.
  split; [split|]; cbn.
  - rewrite zlen_app. change (zlen [ev_accept c]) with 1. lia.
  - intros c' x Hx. destruct (decide (c' = c)) as [->|Hne].
    + rewrite lookup_insert_eq in Hx. injection Hx as <-. split; [done|lia].
    + rewrite lookup_insert_ne in Hx by done. destruct (gi_ids0 _ _ Hx). split; [done|lia].
  - eapply list.Forall_impl; [exact gi_items0|]. cbn. lia.
  - apply Forall_app. split; [eapply list.Forall_impl; [exact gi_events0|]; cbn; lia|]. repeat constructor. cbn. lia.
  - done.
  - rewrite map_size_insert_None by done. lia.
  - intros c'. destruct (decide (c' = c)) as [->|Hne].
    + apply local_before_error; [by apply no_error|set_solver|]. unfold local_now. cbn. rewrite lookup_insert_eq.
      split; [done|]. split; [done|]. exists []. split.
      * exists [], []. destruct (quiet c tr Hq) as [Hr Hs]. rewrite requests_app, sent_app, Hr, Hs. done.
      * split; [done|]. unfold outstanding. apply filter_none. eapply list.Forall_impl; [exact gi_items0|]. cbn. lia.
    + eapply local_frame; [cbn; by rewrite lookup_insert_ne|done| |apply Hl]. by repeat constructor.
Qed.

(** A worker turns a request into a response to it. *)
Lemma replaced_inv s s' tr x x' R :
  server_inv s tr -> ts_connections s' = ts_connections s -> ts_config s' = ts_config s ->
  ts_next_conn_id s' = ts_next_conn_id s -> ts_stopped s' = ts_stopped s ->
  items s ≡ₚ x :: R -> items s' ≡ₚ x' :: R -> item_conn x' = item_conn x ->
  (forall req, item_answers x req -> item_answers x' req) -> server_inv s' tr.
Proof.
  intros [[] Hl] Hc Hcf Hn Hst Hi Hi' Hx Ha. split; [split|]; rewrite ?Hc, ?Hcf, ?Hn, ?Hst; try done.
  - rewrite Hi'. rewrite Hi in gi_items0. apply list.Forall_cons in gi_items0 as [? ?].
    apply list.Forall_cons. split; [lia|done].
  - intros c. destruct (decide (c = item_conn x)) as [->|Hne].
    + destruct (Hl (item_conn x)) as [Hd|[He Hlc]]; [by left|]. right. split; [done|]. unfold local_now in *. rewrite Hc.
      destruct (ts_connections s !! item_conn x) as [conn|]; [|done]. destruct Hlc as (Ho & Hp & fl & Hs & Hf).
      split; [done|]. split; [done|]. exists fl. split; [done|].
      assert (outstanding s (item_conn x) ≡ₚ x :: filter (fun y => item_conn y = item_conn x) R) as Hos
        by (unfold outstanding; by rewrite Hi, filter_cons_True).
      assert (outstanding s' (item_conn x) ≡ₚ x' :: filter (fun y => item_conn y = item_conn x) R) as Hos'
        by (unfold outstanding; by rewrite Hi', filter_cons_True).
      unfold flight_ok in *. destruct fl as [|req [|]]; [destruct Hf as [_ Hf]; rewrite Hf in Hos; by apply Permutation_nil_cons in Hos| |done].
      destruct Hf as (Hfl & y & Hy & Hans). rewrite Hy in Hos. split; [done|]. exists x'.
      apply Permutation_singleton_l in Hos. injection Hos as <- Hnil. rewrite <- Hnil in Hos'.
      apply Permutation_singleton_r in Hos'. split; [done|]. by apply Ha.
    + rewrite <- (app_nil_r tr). eapply local_frame; [by rewrite Hc| |constructor|apply Hl].
      unfold outstanding. rewrite Hi, Hi', !filter_cons_False by congruence. done.
Qed.

(** ** Processing a completion *)

(** [s0] is [s] without the item [x] of connection [c]. *)
Lemma removed_touched c conn' x s s0 s1 s2 :
  items s ≡ₚ x :: items s0 -> item_conn x = c -> ts_connections s0 = ts_connections s ->
  ts_config s0 = ts_config s -> ts_next_conn_id s0 = ts_next_conn_id s -> ts_stopped s0 = ts_stopped s ->
  enqueued c s0 s1 -> ts_connections s2 = partial_alter (fun _ => conn') c (ts_connections s0) ->
  ts_config s2 = ts_config s1 -> ts_next_conn_id s2 = ts_next_conn_id s1 -> ts_stopped s2 = ts_stopped s1 ->
  items s2 = items s1 -> touched c conn' s s2.
Proof.
  intros Hi Hx Hc0 Hcf0 Hn0 Hst0 He Hc Hcf Hn Hst Hi2.
  destruct (enqueued_touched c conn' s0 s1 s2 He Hc Hcf Hn Hst Hi2). split; try congruence.
  - intros c' Hne. rewrite to_other0 by done. unfold outstanding. rewrite Hi, filter_cons_False by congruence. done.
  - intros P HP Ht. apply to_items0; [|done]. rewrite Hi in HP. by apply list.Forall_cons in HP as [_ ?].
Qed.

Lemma removed_inv x s s0 tr :
  server_inv s tr -> items s ≡ₚ x :: items s0 -> ts_connections s !! item_conn x = None ->
  ts_connections s0 = ts_connections s -> ts_config s0 = ts_config s -> ts_next_conn_id s0 = ts_next_conn_id s ->
  ts_stopped s0 = ts_stopped s -> server_inv s0 tr.
Proof.
  intros [[] Hl] Hi Hx Hc Hcf Hn Hst. split; [split|]; rewrite ?Hc, ?Hcf, ?Hn, ?Hst; try done.
  - rewrite Hi in gi_items0. by apply list.Forall_cons in gi_items0 as [_ ?].
  - intros c. rewrite <- (app_nil_r tr). destruct (decide (c = item_conn x)) as [->|Hne].
    + eapply local_closed; [by rewrite Hc|constructor|apply Hl].
    + eapply local_frame; [by rewrite Hc| |constructor|apply Hl].
      unfold outstanding. rewrite Hi, filter_cons_False by congruence. done.
Qed.

(** The completion at hand is the answer to the request in flight. *)
Lemma view_completion s s0 tr c conn comp :
  view s tr c conn -> items s ≡ₚ it_comp comp :: items s0 -> c_conn_id comp = c ->
  exists req, reply req (c_response_bytes comp) /\ outstanding s0 c = [] /\
    served tr c (req :: cs_pending_requests conn) (unsent conn).
Proof.
  intros (_ & fl & Hs & Hf) Hi Hc.
  assert (outstanding s c ≡ₚ it_comp comp :: outstanding s0 c) as Ho by (unfold outstanding; by rewrite Hi, filter_cons_True).
  unfold flight_ok in Hf. destruct fl as [|req [|]]; [destruct Hf as [_ Hf]; rewrite Hf in Ho; by apply Permutation_nil_cons in Ho| |done].
  destruct Hf as (_ & y & Hy & Hans). rewrite Hy in Ho. apply Permutation_singleton_l in Ho. injection Ho as Hy' Hnil. subst y.
  exists req. by split_and!.
Qed.

Lemma queue_response_events resp sent conn r evs : queue_response resp sent conn = (r, evs) ->
  Forall (fun e => event_conn e = cs_conn_id conn) evs /\ (r = None -> evs = []).
Proof.
  unfold queue_response. destruct (_ =? 0); [destruct sent|]; intros [= <- <-]; split; try done; by repeat constructor.
Qed.

(** The request after the one that is answered, if there is one, goes in flight. *)
Lemma next_request_view s0 tr c conn rest req :
  ts_stopped s0 = false -> cs_conn_id conn = c -> outstanding s0 c = [] ->
  served tr c (req :: rest) (unsent conn) ->
  view (ThreadPool_enqueue (mkTask c req) s0) tr c (cs_set_requests rest true conn).
Proof.
  intros Hst Hid Ho Hs. split; [done|]. exists [req]. split; [exact Hs|]. split; [done|].
  exists (it_task (mkTask c req)). split; [|done]. by apply (enqueue_outstanding (mkTask c req)).
Qed.

(** The connection after its response was sent or buffered. *)
Lemma answered_local s s0 s2 tr c conn conn2 comp sent evs :
  local_inv s tr c -> ts_connections s !! c = Some conn -> cs_conn_id conn = c -> ts_stopped s0 = false ->
  items s ≡ₚ it_comp comp :: items s0 -> c_conn_id comp = c -> send_ok sent (c_response_bytes comp) ->
  queue_response (c_response_bytes comp) sent (cs_set_requests (cs_pending_requests conn) false conn) = (Some conn2, evs) ->
  let r := match cs_pending_requests conn2 with
           | [] => (s0, conn2)
           | next :: rest => (ThreadPool_enqueue (mkTask c next) s0, cs_set_requests rest true conn2)
           end in
  touched c (Some r.2) s s2 -> items s2 = items r.1 -> local_inv s2 (tr ++ evs) c.
Proof.
  intros [[He Hl]|[He Hl]] Hc Hid Hst Hi Hcc Hok Hq; [by intros; apply local_after_error|]. unfold local_now in Hl.
  rewrite Hc in Hl. destruct Hl as [Ho Hv]. destruct (view_completion _ _ _ _ _ _ Hv Hi Hcc) as (req & Hr & Hos & Hs).
  apply (served_answer _ _ _ _ _ _ Hs) in Hr.
  destruct (queue_response_served tr c (cs_set_requests (cs_pending_requests conn) false conn) _ _ _ _ _ Hid Ho Hok Hr Hq) as (Hs2 & Ho2 & (Hid2 & Hp2 & Hf2) & Hne).
  cbn in Hid2, Hp2, Hf2. intros r Ht Hit. apply local_before_error; [done..|]. eapply local_touched; [exact Ht| |].
  - unfold r. by destruct (cs_pending_requests conn2).
  - assert (view r.1 (tr ++ evs) c r.2) as Hv2.
    { unfold r. rewrite <- Hp2 in Hs2. destruct (cs_pending_requests conn2) as [|next rest] eqn:Ep; cbn [fst snd].
      - split; [done|]. exists []. rewrite Ep. split; [exact Hs2|done].
      - apply next_request_view; congruence. }
    destruct Hv2 as (H1 & fl & H2 & H3). split; [done|]. exists fl. split; [done|].
    eapply flight_perm; [|exact H3]. unfold outstanding. by rewrite Hit.
Qed.

Lemma process_inv s tr comp l sent :
  server_inv s tr -> ts_io_comps s = comp :: l -> send_ok sent (c_response_bytes comp) ->
  let r := process_completion comp sent (ts_set_queues (ts_tasks s) (ts_busy s) (ts_comps s) l s) in
  server_inv r.1 (tr ++ r.2).
Proof.
  intros Hinv Hio Hok. set (s0 := ts_set_queues _ _ _ _ _). set (c := c_conn_id comp).
  assert (items s ≡ₚ it_comp comp :: items s0) as Hi.
  { unfold items, s0. cbn. rewrite Hio. cbn [fmap list_fmap]. by rewrite <- !Permutation_middle. }
  assert (ts_stopped s0 = false) as Hst by apply Hinv.
  cbn zeta. unfold process_completion. cbn [ts_connections ts_set_queues s0]. fold s0 c.
  destruct (ts_connections s !! c) as [conn|] eqn:Ec; [|cbn; rewrite app_nil_r; by eapply removed_inv].
  destruct (gi_ids _ _ (proj1 Hinv) _ _ Ec) as [Hid _]. set (conn1 := cs_set_requests _ _ _).
  assert (forall evs, evs = [] -> server_inv (TcpServer_close_connection (cs_conn_id conn1) (ts_set_conn conn1 s0)) (tr ++ evs)) as Hclose.
  { intros evs ->. eapply (touched_inv c None); [exact Hinv| |by eexists|done|constructor|].
    - eapply (removed_touched c None (it_comp comp) s s0 s0); try done; [apply enqueued_refl|].
      cbn. by rewrite Hid, delete_insert_eq.
    - eapply local_closed; [|constructor|apply Hinv]. cbn. rewrite Hid. apply lookup_delete_eq. }
  destruct (_ <? _); [by apply Hclose|].
  destruct (queue_response _ _ _) as [[conn2|] evs] eqn:Hq; pose proof (queue_response_events _ _ _ _ _ Hq) as [Hev Hn];
    [|by apply Hclose, Hn].
  assert (cs_conn_id conn2 = c) as Hid2.
  { unfold queue_response in Hq. destruct (_ =? 0); [destruct sent|]; simplify_eq; try done. by destruct (_ && _). }
  set (r := match cs_pending_requests conn2 with
           | [] => (s0, conn2)
           | next :: rest => (ThreadPool_enqueue (mkTask c next) s0, cs_set_requests rest true conn2)
           end).
  set (g := match cs_pending_requests conn2 with [] => _ | _ => _ end).
  assert (g.2 = evs) as -> by (unfold g; by destruct (cs_pending_requests conn2)).
  assert (items g.1 = items r.1 /\ cs_conn_id r.2 = c /\ enqueued c s0 r.1 /\
    ts_connections g.1 = partial_alter (fun _ => Some r.2) c (ts_connections s0)) as (Hit & Hidr & Her & Hcr).
  { unfold g, r. destruct (cs_pending_requests conn2) as [|next rest]; cbn [fst snd].
    - split_and!; try done; [apply enqueued_refl|]. cbn. rewrite Hid, Hid2. by rewrite insert_insert_eq.
    - unfold ThreadPool_enqueue. cbn [ts_stopped ts_set_conn ts_set_connections]. rewrite Hst. cbn [cs_conn_id cs_set_requests].
      rewrite Hid2. split_and!; try done; [repeat split; exists [mkTask c next]; by repeat constructor|].
      cbn. rewrite Hid, Hid2. by rewrite insert_insert_eq. }
  assert (touched c (Some r.2) s g.1) as Ht.
  { eapply (removed_touched c (Some r.2) (it_comp comp) s s0 r.1); try done.
    all: unfold g, r, ThreadPool_enqueue; cbn [ts_stopped ts_set_conn ts_set_connections]; rewrite ?Hst;
      by destruct (cs_pending_requests conn2). }
  eapply (touched_inv c (Some r.2)); [exact Hinv|exact Ht|by eexists|by intros x [= <-]| |].
  - eapply list.Forall_impl; [exact Hev|]. cbn. congruence.
  - eapply (answered_local s s0); try done. apply Hinv.
Qed.

(** ** Handling a socket *)

Lemma view_same s tr c conn conn' :
  same_requests conn conn' -> cs_output_buffer conn' = cs_output_buffer conn ->
  cs_output_offset conn' = cs_output_offset conn -> view s tr c conn -> view s tr c conn'.
Proof.
  intros (_ & Hp & Hf) Hb Ho (H1 & fl & H2 & H3). unfold view, unsent. rewrite Hp, Hf, Hb, Ho. split; [done|]. by exists fl.
Qed.

Lemma pushed_same now chunks : forall conn,
  let conn' := foldl (fun c chunk => cs_set_assembler (FrameAssembler_push_bytes (cs_assembler c) chunk)
                                       (cs_set_read now c)) conn chunks in
  same_requests conn conn' /\ cs_output_buffer conn' = cs_output_buffer conn /\
  cs_output_offset conn' = cs_output_offset conn.
Proof.
  induction chunks as [|x chunks IH]; intros conn; cbn [foldl]; [done|].
  exact (IH (cs_set_assembler (FrameAssembler_push_bytes (cs_assembler conn) x) (cs_set_read now conn))).
Qed.

(** A connection whose requests, output and items in the queues did not change. *)
Lemma same_local s s' tr c conn conn' :
  local_inv s tr c -> ts_connections s !! c = Some conn -> same_requests conn conn' ->
  cs_output_buffer conn' = cs_output_buffer conn -> cs_output_offset conn' = cs_output_offset conn ->
  ts_connections s' !! c = Some conn' -> items s' = items s -> local_inv s' (tr ++ []) c.
Proof.
  intros [[He Hl]|[He Hl]] Hc Hsr Hb Ho Hc' Hi; [by apply local_after_error|].
  apply local_before_error; [done|set_solver|]. unfold local_now in *. rewrite Hc'. rewrite Hc in Hl.
  destruct Hl as [Hok Hv]. rewrite app_nil_r. split; [unfold offset_ok; by rewrite Hb, Ho|].
  apply (view_same _ _ _ conn conn') in Hv; [|done..]. destruct Hv as (H1 & fl & H2 & H3). split; [done|].
  exists fl. split; [done|]. eapply flight_perm; [|exact H3]. unfold outstanding. by rewrite Hi.
Qed.

Lemma client_input_inv now chunks disconnected sent s tr c conn s' evs :
  server_inv s tr -> ts_connections s !! c = Some conn ->
  client_input now chunks disconnected sent s conn = Some (s', evs) -> server_inv s' (tr ++ evs).
Proof.
  intros Hinv Hc E. destruct (gi_ids _ _ (proj1 Hinv) _ _ Hc) as [Hid _]. unfold client_input in E.
  pose proof (pushed_same now chunks conn) as (Hsr & Hb & Ho). set (conn1 := foldl _ conn chunks) in *.
  assert (cs_conn_id conn1 = c) as Hid1 by (destruct Hsr; congruence).
  destruct disconnected.
  { injection E as <- <-. eapply (touched_inv c (Some conn1)); [exact Hinv|by eapply set_conn_touched|by eexists| |constructor|].
    - by intros x [= <-].
    - eapply same_local; [apply Hinv|exact Hc|done|done|done| |done]. cbn. rewrite Hid1. apply lookup_insert_eq. }
  destruct (dispatch_frames _ s conn1) as [[[[res s1] conn2] evs1]|] eqn:Ed; [|done]. cbn [mbind option_bind] in E.
  pose proof (dispatch_structure _ _ _ _ _ _ _ Ed) as (He & Hid2 & Hb2 & Ho2 & Hev0). rewrite Hid1 in *.
  pose proof (own_no_error _ _ Hev0) as Hne. assert (Forall (fun e => event_conn e = c) evs1) as Hev
    by (eapply list.Forall_impl; [exact Hev0|]; cbn; tauto).
  assert ((ev_error c ∈ tr /\ local_past tr c) \/ (ev_error c ∉ tr) /\ offset_ok conn2 /\ view s1 (tr ++ evs1) c conn2) as Hview.
  { destruct (proj2 Hinv c) as [Hd|[Hd Hl]]; [by left|right]. split; [done|]. unfold local_now in Hl. rewrite Hc in Hl.
    destruct Hl as [Hok Hv]. split; [unfold offset_ok in *; by rewrite Hb2, Ho2, Hb, Ho|].
    apply (view_same _ _ _ conn conn1) in Hv; [|done..].
    by eapply dispatch_view; [exact Ed|apply Hinv| |]. }
  assert (forall conn3 evs2, cs_conn_id conn3 = c -> Forall (fun e => event_conn e = c) evs2 ->
    local_inv (ts_set_conn conn3 s1) (tr ++ evs1 ++ evs2) c -> server_inv (ts_set_conn conn3 s1) (tr ++ evs1 ++ evs2)) as Hset.
  { intros conn3 evs2 Hid3 Hev2 Hloc. eapply (touched_inv c (Some conn3)); [exact Hinv| |by eexists|by intros x [= <-]| |done].
    - eapply (enqueued_touched c (Some conn3) s s1); [done| |done..]. cbn. rewrite Hid3. by destruct He as (-> & _).
    - by apply Forall_app. }
  assert (forall err, (closed ← queue_immediate_error_and_close err sent conn2; c0 ← closed;
      Some (ts_set_conn (cs_set_stall (FrameAssembler_has_partial_frame (cs_assembler c0)) c0) s1,
            evs1 ++ [ev_error (cs_conn_id c0)])) = Some (s', evs) -> server_inv s' (tr ++ evs)) as Hfail.
  { intros err Ef. unfold queue_immediate_error_and_close in Ef.
    destruct (FrameCodec_encode err) as [encoded|]; [|done]. cbn [mbind option_bind] in Ef.
    destruct ((0 <? _) && _); [done|]. injection Ef as <- <-. cbn [cs_conn_id cs_set_close cs_set_output]. rewrite Hid2.
    apply Hset; [done|by repeat constructor|]. destruct Hview as [[Hd Hp]|(Hd & _ & _ & fl & Hs & _)]; [by apply local_after_error|].
    left. unfold local_past. rewrite app_assoc, before_error_here by set_solver. split; [set_solver|by eauto]. }
  assert (server_inv (ts_set_conn (cs_set_stall (FrameAssembler_has_partial_frame (cs_assembler conn2)) conn2) s1)
    (tr ++ evs1)) as Hgood.
  { rewrite <- (app_nil_r evs1). apply Hset; [done|constructor|]. rewrite app_nil_r.
    destruct Hview as [[Hd Hp]|(Hd & Hok & Hv2)]; [by apply local_after_error|]. apply local_before_error; [done..|].
    unfold local_now. cbn. rewrite Hid2, lookup_insert_eq. split; [done|].
    exact Hv2. }
  destruct res; [injection E as <- <-; exact Hgood|injection E as <- <-; exact Hgood|by eapply Hfail|by eapply Hfail].
Qed.

Lemma client_output_structure sent conn conn' close evs : client_output sent conn = (conn', close, evs) ->
  cs_conn_id conn' = cs_conn_id conn /\ Forall (fun e => event_conn e = cs_conn_id conn) evs /\
  ev_error (cs_conn_id conn) ∉ evs.
Proof.
  unfold client_output. intros E. repeat case_match; simplify_eq; split_and!; try done; try set_solver; by repeat constructor.
Qed.

Lemma client_output_inv s tr c conn sent conn' close evs :
  server_inv s tr -> ts_connections s !! c = Some conn -> send_ok sent (unsent conn) ->
  client_output sent conn = (conn', close, evs) -> server_inv (ts_set_conn conn' s) (tr ++ evs).
Proof.
  intros Hinv Hc Hok E. destruct (gi_ids _ _ (proj1 Hinv) _ _ Hc) as [Hid _].
  destruct (client_output_structure _ _ _ _ _ E) as (Hid' & Hev & Hne). rewrite Hid in *.
  assert (touched c (Some conn') s (ts_set_conn conn' s)) as Ht by (by eapply set_conn_touched).
  eapply touched_inv; [exact Hinv|exact Ht|by eexists|by intros x [= <-]|done|].
  destruct (proj2 Hinv c) as [[Hd Hp]|[Hd Hl]]; [by apply local_after_error|]. apply local_before_error; [done..|].
  unfold local_now in Hl. rewrite Hc in Hl. destruct Hl as (Ho & Hp & fl & Hs & Hf).
  destruct (client_output_served _ _ _ _ _ _ _ _ Hid Ho Hok Hs E) as (Hs' & Ho' & (_ & Hp' & Hf')).
  eapply local_touched; [exact Ht|done|]. split; [by rewrite Hp', Hf'|]. exists fl. rewrite Hp', Hf'. by split.
Qed.

Lemma client_event_inv now id re s tr s' evs :
  server_inv s tr ->
  (forall c r, ts_connections s !! id = Some c -> re_out re = Some r -> send_ok r (unsent c)) ->
  client_event now id re s = Some (s', evs) -> server_inv s' (tr ++ evs).
Proof.
  intros Hinv Hok E. unfold client_event in E.
  assert (forall s1 tr1, server_inv s1 tr1 -> server_inv (ts_set_to_close (ts_to_close s1 ++ [id]) s1) tr1) as Hclose
    by (intros s1 tr1 H1; by eapply moved_inv).
  destruct (ts_connections s !! id) as [conn|] eqn:Ec; [|injection E as <- <-; by rewrite app_nil_r].
  destruct (re_hup re); [injection E as <- <-; rewrite app_nil_r; by apply Hclose|].
  destruct (gi_ids _ _ (proj1 Hinv) _ _ Ec) as [Hid _].
  destruct (match re_out re with Some r => _ | None => _ end) as [[conn1 close] evs1] eqn:Eo.
  assert (cs_conn_id conn1 = id /\ server_inv (ts_set_conn conn1 s) (tr ++ evs1)) as [Hid1 Hinv1].
  { destruct (re_out re) as [r|] eqn:Er.
    - split; [destruct (client_output_structure _ _ _ _ _ Eo) as (? & _); congruence|]. eapply client_output_inv; eauto.
    - injection Eo as <- <- <-. split; [done|]. rewrite app_nil_r. eapply moved_inv; [exact Hinv| |done..].
      cbn. rewrite Hid. by apply insert_id. }
  destruct close; [injection E as <- <-; exact (Hclose _ _ Hinv1)|].
  destruct (re_in re) as [[[chunks disc] sent]|]; [|by injection E as <- <-].
  destruct (client_input _ _ _ _ _ _) as [[s2 evs2]|] eqn:Ei; [|done]. injection E as <- <-.
  rewrite app_assoc. eapply (client_input_inv now chunks disc sent _ _ id conn1); [exact Hinv1| |exact Ei].
  cbn. rewrite Hid1. apply lookup_insert_eq.
Qed.

Lemma handles_reply st req resp st' bs :
  handles st req resp st' -> FrameCodec_encode resp = Some bs -> reply req bs.
Proof. intros Hh Hb. by exists st, resp, st'. Qed.

Lemma serve_inv x evs y tr : serve x evs y -> server_inv x.1 tr -> server_inv y.1 (tr ++ evs).
Proof.
  intros Hs Hinv. destruct Hs; cbn [fst] in *.
  - rewrite app_nil_r. eapply moved_inv; [exact Hinv|done..|]. unfold items. cbn. by rewrite H0, app_nil_r.
  - by apply process_inv.
  - rewrite app_nil_r. eapply moved_inv; [exact Hinv|done..|]. unfold items. cbn. rewrite H0. cbn.
    rewrite <- !app_assoc. cbn. by rewrite <- !Permutation_middle.
  - rewrite app_nil_r. eapply (replaced_inv s _ tr (it_task t) (it_comp (mkCompletion (t_conn_id t) bs false))
      ((it_task <$> ts_tasks s) ++ (b1 ++ b2) ++ (it_comp <$> ts_comps s) ++ (it_comp <$> ts_io_comps s)));
      [exact Hinv|done..| | |done|].
    + unfold items. rewrite H0. cbn. rewrite <- !app_assoc. cbn. by rewrite <- !Permutation_middle.
    + unfold items. cbn. rewrite <- !app_assoc. cbn. by rewrite <- !Permutation_middle.
    + intros req <-. by eapply handles_reply.
  - rewrite app_nil_r. eapply moved_inv; [exact Hinv|done..|]. unfold items. cbn. rewrite H0, fmap_app. cbn.
    rewrite <- !app_assoc. cbn. by rewrite <- !Permutation_middle.
Qed.

Lemma step_inv x evs y tr :
  step x evs y -> server_inv x.1 tr -> 1 + zlen tr < 2 ^ 64 - 1 -> server_inv y.1 (tr ++ evs).
Proof.
  intros Hs Hinv Hlen. destruct Hs; cbn [fst] in *.
  - by apply accept_inv.
  - eapply client_event_inv; [exact Hinv| |done]. intros c r Hc Hr. by apply H0.
  - rewrite app_nil_r. by eapply (close_inv id s).
  - rewrite app_nil_r. by apply stalls_inv.
  - by eapply serve_inv.
Qed.

Lemma run_inv cfg st tr y :
  run (TcpServer_new cfg, st) tr y -> zlen tr < 2 ^ 63 -> server_inv y.1 tr.
Proof.
  induction 1 as [|tr y evs z Hrun IH Hs]; intros Hlen.
  - split; [split|]; cbn; try done.
    + rewrite map_size_empty. lia.
    + intros c. right. split; [set_solver|]. unfold local_now. cbn. rewrite lookup_empty. exists [], []. exists [], []. done.
  - rewrite zlen_app in Hlen. pose proof (zlen_nonneg evs). eapply step_inv; [exact Hs|apply IH; lia|lia].
Qed.

End order.

(** ** The frame loop ends *)

Section total.
Context {N : Winsock}.

Lemma dispatch_total fuel : forall s conn,
  assembler_wf (cs_assembler conn) -> (length (pending (cs_assembler conn)) < fuel)%nat ->
  is_Some (dispatch_frames fuel s conn).
Proof.
  induction fuel as [|fuel IH]; intros s conn Hwf Hf; [lia|]. cbn [dispatch_frames].
  pose proof (extract_refines (cs_assembler conn) empty_Frame Hwf) as He.
  destruct (parse_step (pending (cs_assembler conn))) as [res [[f rest]|]] eqn:Ep.
  - destruct (parse_step_frame _ _ _ _ Ep) as (-> & Hlt & _). destruct He as (a & -> & Hp & Hwf' & _).
    destruct (_ =? SHUTDOWN); [by eexists|].
    set (r := if cs_in_flight _ then _ else _).
    assert (cs_assembler r.2 = a) as Ha by (unfold r; by destruct (cs_in_flight _)).
    destruct r as [s1 c1]. cbn [snd] in Ha.
    destruct (IH s1 c1) as [[[[r2 s2] c2] e2] ->]; [by rewrite Ha|rewrite Ha, Hp; lia|by eexists].
  - destruct res; destruct He as [Hr ->]; [done|by eexists..].
Qed.

Lemma pushed_wf now chunks : forall conn,
  assembler_wf (cs_assembler conn) -> zlen (m_buffer (cs_assembler conn)) + zlen (concat chunks) < 2 ^ 64 ->
  assembler_wf (cs_assembler (foldl (fun c chunk => cs_set_assembler (FrameAssembler_push_bytes (cs_assembler c) chunk)
                                       (cs_set_read now c)) conn chunks)).
Proof.
  induction chunks as [|x chunks IH]; intros conn Hwf Hl; cbn [foldl concat] in *; [done|]. rewrite zlen_app in Hl.
  pose proof (zlen_nonneg (concat chunks)). destruct (push_pending (cs_assembler conn) x Hwf ltac:(lia)) as [_ Hwf'].
  apply IH; cbn [cs_assembler cs_set_assembler cs_set_read]; [done|].
  unfold FrameAssembler_push_bytes. destruct (_ =? 0) eqn:E; cbn [m_buffer]; [|rewrite zlen_app; lia].
  apply Z.eqb_eq in E. lia.
Qed.

Lemma error_frame_encodes code msg : is_u16 code -> zlen msg <= 1000 ->
  FrameCodec_encode (FrameCodec_create_error_frame 0 code msg) =
  Some (frame_bytes (FrameCodec_create_error_frame 0 code msg)).
Proof.
  intros Hc Hm. pose proof (zlen_nonneg msg). apply FrameCodec_encode_spec; [by vm_compute|].
  unfold FrameCodec_create_error_frame. cbn [body].
  rewrite zlen_app, FrameCodec_write_u16_be, zlen_be_store by done. lia.
Qed.

Lemma frame_bytes_pos f : 0 < zlen (frame_bytes f).
Proof. rewrite zlen_frame_bytes. pose proof (zlen_nonneg (body f)). lia. Qed.

Lemma fail_undefined err sent conn (k : ConnectionState -> TcpServer * list Event) bs :
  FrameCodec_encode err = Some bs -> 0 < zlen bs ->
  (closed ← queue_immediate_error_and_close err sent conn; c ← closed; Some (k c)) = None <-> sent = Sent (zlen bs).
Proof.
  intros He Hb. unfold queue_immediate_error_and_close. rewrite He. cbn [mbind option_bind].
  destruct sent as [n| |]; cbn; [|split; done..].
  destruct (Z.ltb_spec 0 n), (Z.eqb_spec n (zlen bs)); cbn; split; try done; try congruence; intros [= ->]; lia.
Qed.

End total.

(** ** Concrete runs *)

(** One worker, one connection at a time. *)
Definition demo_server_config : ServerConfig :=
  mkServerConfig (str "127.0.0.1") 9092 1 1 30 (8 * 1024 * 1024) (2 * 1024 * 1024) 1000 60000 500.
Definition demo_s0 : TcpServer := TcpServer_new demo_server_config.
Definition demo_accept (s : TcpServer) : TcpServer := (accept_connection 0 s).1.

(** A PING arrives on a connection, or its peer goes away. *)
Definition ping_event (id : Z) : Revents :=
  mkRevents false None (Some ([frame_bytes (mkFrame 5 PING id [])], false, SendWouldBlock)).
Definition gone_event : Revents := mkRevents false None (Some ([], true, SendWouldBlock)).
Definition demo_client (c : Z) (re : Revents) (s : TcpServer) : TcpServer :=
  default s (fst <$> client_event (N := x86_winsock) 0 c re s).
Definition demo_close (s : TcpServer) : TcpServer :=
  match ts_to_close s with id :: l => TcpServer_close_connection id (ts_set_to_close l s) | [] => s end.

Definition demo_s2 : TcpServer := demo_client 1 (ping_event 7) (demo_accept demo_s0).
Definition demo_s4 : TcpServer := demo_close (demo_client 1 gone_event demo_s2).
Definition demo_s6 : TcpServer := demo_client 2 (ping_event 8) (demo_accept demo_s4).

Lemma client_step {St} {H : RequestHandler St} (st : St) c re s evs :
  snd <$> client_event (N := x86_winsock) 0 c re s = Some evs ->
  poll_in (ts_config s) <$> ts_connections s !! c = Some true -> re_out re = None ->
  step (N := x86_winsock) (s, st) evs (demo_client c re s, st).
Proof.
  intros E Hp Ho. unfold demo_client. destruct (client_event 0 c re s) as [[s' evs']|] eqn:Ec; [|done].
  injection E as ->. eapply io_client; [|exact Ec]. intros conn Hc. rewrite Hc in Hp. injection Hp as Hp.
  split; [|done]. intros r Hr. congruence.
Qed.

Lemma demo_ping_events :
  snd <$> client_event (N := x86_winsock) 0 1 (ping_event 7) (demo_accept demo_s0) =
    Some [ev_request 1 (mkFrame 5 PING 7 [])] /\
  snd <$> client_event (N := x86_winsock) 0 1 gone_event demo_s2 = Some [] /\
  snd <$> client_event (N := x86_winsock) 0 2 (ping_event 8) (demo_accept demo_s4) =
    Some [ev_request 2 (mkFrame 5 PING 8 [])] /\ ts_to_close (demo_client 1 gone_event demo_s2) = [1].
Proof. by vm_compute. Qed.

Lemma demo_polls :
  poll_in (ts_config (demo_accept demo_s0)) <$> ts_connections (demo_accept demo_s0) !! 1 = Some true /\
  poll_in (ts_config demo_s2) <$> ts_connections demo_s2 !! 1 = Some true /\
  poll_in (ts_config (demo_accept demo_s4)) <$> ts_connections (demo_accept demo_s4) !! 2 = Some true.
Proof. by vm_compute. Qed.

Lemma demo_run2 {St} {H : RequestHandler St} (st : St) :
  run (N := x86_winsock) (demo_s0, st) [ev_accept 1; ev_request 1 (mkFrame 5 PING 7 [])] (demo_s2, st).
Proof.
  apply (run_step _ [ev_accept 1] (demo_accept demo_s0, st)).
  - apply (run_step _ [] (demo_s0, st)); [apply run_start|apply (io_accept demo_s0 st 0)].
  - apply client_step; [apply demo_ping_events|apply demo_polls|done].
Qed.

Lemma demo_close_step {St} {H : RequestHandler St} (st : St) :
  step (N := x86_winsock) (demo_client 1 gone_event demo_s2, st) [] (demo_s4, st).
Proof.
  unfold demo_s4, demo_close. destruct demo_ping_events as (_ & _ & _ & E). rewrite E.
  by apply (io_close _ _ 1 []).
Qed.

Lemma demo_run6 {St} {H : RequestHandler St} (st : St) : exists tr, run (N := x86_winsock) (demo_s0, st) tr (demo_s6, st).
Proof.
  eexists. eapply run_step; [eapply run_step; [eapply run_step; [eapply run_step; [apply demo_run2|]|]|]|].
  - apply (client_step st 1 gone_event demo_s2); [apply demo_ping_events|apply demo_polls|done].
  - apply demo_close_step.
  - apply (io_accept demo_s4 st 0).
  - apply client_step; [apply demo_ping_events|apply demo_polls|done].
Qed.

(** The worker answers the PING, and the I/O thread sends the answer. *)
Definition demo_ping_task : Task := mkTask 1 (mkFrame 5 PING 7 []).
Definition demo_pong : bytes := frame_bytes (mkFrame 5 PONG 7 []).
Definition demo_t3 : TcpServer := ts_set_queues [] [it_task demo_ping_task] [] [] demo_s2.
Definition demo_t4 : TcpServer := ts_set_queues [] [it_comp (mkCompletion 1 demo_pong false)] [] [] demo_s2.
Definition demo_t5 : TcpServer := ts_set_queues [] [] [] [mkCompletion 1 demo_pong false] demo_s2.
Definition demo_t6 : TcpServer * list Event :=
  process_completion (mkCompletion 1 demo_pong false) (Sent 9) (ts_set_queues [] [] [] [] demo_t5).

#[local] Instance demo_handler : RequestHandler (Broker * @disk memory_disk) :=
  MessageHandler_RequestHandler (N := x86_winsock) (W := memory_disk).

Lemma demo_tasks : ts_tasks demo_s2 = [demo_ping_task] /\ ts_busy demo_s2 = [] /\ ts_comps demo_s2 = [] /\ ts_io_comps demo_s2 = [].
Proof. by vm_compute. Qed.

Lemma demo_t6_events : demo_t6.2 = [ev_sent 1 demo_pong].
Proof. by vm_compute. Qed.

Lemma demo_pong_run (st : Broker * @disk memory_disk) :
  run (N := x86_winsock) (demo_s0, st)
    ((((([ev_accept 1; ev_request 1 (mkFrame 5 PING 7 [])] ++ []) ++ []) ++ []) ++ []) ++ [ev_sent 1 demo_pong]) (demo_t6.1, st).
Proof.
  destruct demo_tasks as (Ht & Hb & Hc & Hi). rewrite <- demo_t6_events.
  eapply run_step; [eapply run_step; [eapply run_step; [eapply run_step; [eapply run_step; [apply demo_run2|]|]|]|]|].
  - apply io_serve, (worker_pop demo_s2 st demo_ping_task []); [exact Ht|by rewrite Hb].
  - rewrite Hb, Hc, Hi. apply io_serve, (worker_handle demo_t3 st demo_ping_task [] [] (mkFrame 5 PONG 7 []) st demo_pong).
    + done.
    + exists demo_env. by destruct st.
    + by vm_compute.
  - by apply io_serve, (worker_push demo_t4 st (mkCompletion 1 demo_pong false) [] []).
  - by apply io_serve, io_pop_all.
  - apply io_serve, (io_process demo_t5 st (mkCompletion 1 demo_pong false) [] (Sent 9)); [done|by vm_compute].
Qed.

(** ** Properties *)

(** C5: responses leave a connection in the order of its requests.  Whatever the
    interleaving of the I/O thread and the workers, what a connection was sent and has
    still buffered is the concatenation of the handler's encoded answers to its first
    requests, one for each and in their order; the requests that are left are the one in
    flight, if there is one, and the pending ones.  If the server answered malformed input
    with an error frame, this holds of what was sent before it; a SHUTDOWN_OK, which goes
    to [send] past the output buffer, is not among these bytes. *)
Theorem responses_in_order {N : Winsock} {St : Type} {H : RequestHandler St} cfg (st : St) tr s st' c :
  run (TcpServer_new cfg, st) tr (s, st') -> zlen tr < 2 ^ 63 ->
  exists answered rest bss out, requests c (before_error c tr) = answered ++ rest /\
    Forall2 (fun req bs => exists st1 resp st2, handles st1 req resp st2 /\ FrameCodec_encode resp = Some bs) answered bss /\
    sent_bytes c (before_error c tr) ++ out = concat bss /\
    (ev_error c ∉ tr -> forall conn, ts_connections s !! c = Some conn -> out = unsent conn /\
       exists fl, rest = fl ++ cs_pending_requests conn /\ length fl = (if cs_in_flight conn then 1%nat else 0%nat)).
Proof.
  intros Hrun Hlen. destruct (run_inv _ _ _ _ Hrun Hlen) as [_ Hl].
  destruct (Hl c) as [[He (rest & out & dn & bss & H1 & H2 & H3)]|[He Hc]]; [by exists dn, rest, bss, out|].
  rewrite before_error_all by done. unfold local_now in Hc. cbn [fst] in Hc. destruct (ts_connections s !! c) as [conn|].
  - destruct Hc as (_ & _ & fl & (dn & bss & H1 & H2 & H3) & Hf). exists dn, (fl ++ cs_pending_requests conn), bss, (unsent conn).
    split_and!; [done|done|done|]. intros _ conn' [= <-]. split; [done|]. exists fl. split; [done|].
    unfold flight_ok in Hf. by destruct fl as [|? [|]]; [destruct Hf as [-> _]|destruct Hf as [-> _]|].
  - destruct Hc as (rest & out & dn & bss & H1 & H2 & H3). by exists dn, rest, bss, out.
Qed.

Example responses_in_order_witness :
  exists tr s st answered rest bss out,
    run (N := x86_winsock) (H := demo_handler) (demo_s0, (demo_broker_state, ∅)) tr (s, st) /\
    before_error 1 tr = tr /\ sent_bytes 1 tr = demo_pong /\ requests 1 tr = answered ++ rest /\
    Forall2 (fun req bs => exists st1 resp st2, handles (RequestHandler := demo_handler) st1 req resp st2 /\
      FrameCodec_encode (W := x86_winsock) resp = Some bs) answered bss /\ sent_bytes 1 tr ++ out = concat bss.
Proof.
  pose proof (demo_pong_run (demo_broker_state, ∅)) as Hr.
  destruct (responses_in_order (N := x86_winsock) demo_server_config (demo_broker_state, ∅) _ _ _ 1 Hr)
    as (answered & rest & bss & out & H1 & H2 & H3 & _).
  - by vm_compute.
  - eexists _, _, (demo_broker_state, ∅), answered, rest, bss, out. split; [exact Hr|]. split; [reflexivity|].
    split; [reflexivity|]. split; [exact H1|]. split; [exact H2|exact H3].
Defined.

(** The server never has more connections than configured, and none of them more
    than one request outside its own queue: as a task, with a worker or as a
    completion.  (Of a connection that was sent an error frame the second is not
    claimed.) *)
Theorem connections_bounded {N : Winsock} {St : Type} {H : RequestHandler St} cfg (st : St) tr s st' :
  run (TcpServer_new cfg, st) tr (s, st') -> zlen tr < 2 ^ 63 ->
  Z.of_nat (size (ts_connections s)) <= Z.max 0 (max_connections (ts_config s)) /\
  forall c conn, ts_connections s !! c = Some conn -> ev_error c ∉ tr ->
    length (outstanding s c) = (if cs_in_flight conn then 1%nat else 0%nat).
Proof.
  intros Hrun Hlen. destruct (run_inv _ _ _ _ Hrun Hlen) as [Hg Hl]. split; [apply Hg|]. intros c conn Hc Hd.
  destruct (Hl c) as [[? _]|[_ Hv]]; [done|]. unfold local_now in Hv. cbn [fst] in Hv. rewrite Hc in Hv.
  destruct Hv as (_ & _ & fl & _ & Hf).
  unfold flight_ok in Hf. destruct fl as [|? [|]]; [destruct Hf as [-> ->]|destruct Hf as (-> & x & -> & _)|]; done.
Qed.

Example connections_bounded_witness :
  exists tr s, run (N := x86_winsock) (H := demo_handler) (demo_s0, (demo_broker_state, ∅)) tr (s, (demo_broker_state, ∅)) /\
    Z.of_nat (size (ts_connections s)) <= 1 /\
    (forall conn, ts_connections s !! 1 = Some conn -> ev_error 1 ∉ tr ->
       length (outstanding s 1) = (if cs_in_flight conn then 1%nat else 0%nat)).
Proof.
  pose proof (demo_run2 (demo_broker_state, ∅)) as Hr. eexists _, _. split; [exact Hr|].
  destruct (connections_bounded (N := x86_winsock) demo_server_config (demo_broker_state, ∅) _ _ _ Hr) as [Hs Ho].
  - by vm_compute.
  - split; [exact Hs|]. intros conn. apply Ho.
Defined.

(** C38: handling input ends, and its only undefined case is an answered malformed
    frame.  The loop over the buffered frames ends; the handler is undefined exactly
    when it ends with a bad length field and [send] takes the whole error frame at
    once: the connection is freed and then written to. *)
Theorem input_undefined_iff {N : Winsock} now chunks disconnected sent s conn :
  assembler_wf (cs_assembler conn) -> zlen (m_buffer (cs_assembler conn)) + zlen (concat chunks) < 2 ^ 64 ->
  let conn1 := foldl (fun c chunk => cs_set_assembler (FrameAssembler_push_bytes (cs_assembler c) chunk)
                                       (cs_set_read now c)) conn chunks in
  exists res s1 conn2 evs,
    dispatch_frames (S (length (m_buffer (cs_assembler conn1)))) s conn1 = Some (res, s1, conn2, evs) /\
    (client_input now chunks disconnected sent s conn = None <->
     disconnected = false /\
     match res with
     | ErrorLengthTooSmall => sent = Sent (zlen (frame_bytes MALFORMED_FRAME_ERROR))
     | ErrorLengthTooLarge => sent = Sent (zlen (frame_bytes FRAME_TOO_LARGE_ERROR))
     | _ => False
     end).
Proof.
  intros Hwf Hl conn1.
  destruct (dispatch_total (S (length (m_buffer (cs_assembler conn1)))) s conn1) as [[[[res s1] conn2] evs] Ed].
  { by apply pushed_wf. }
  { pose proof (length_pending (cs_assembler conn1)). lia. }
  exists res, s1, conn2, evs. split; [done|]. unfold client_input. fold conn1.
  destruct disconnected; [split; [done|by intros [? _]]|]. rewrite Ed. cbn [mbind option_bind].
  destruct res; [split; [done|by intros [_ ?]]|split; [done|by intros [_ ?]]|..].
  all: rewrite fail_undefined; [|by apply error_frame_encodes|apply frame_bytes_pos];
    naive_solver.
Qed.

(** Four bytes with the length 3; the error frame is sent at once. *)
Example input_undefined_iff_witness :
  let conn := mkConnectionState 1 empty_assembler [] false [] 0 false 0 false in
  client_input (N := x86_winsock) 0 [[Byte.x00; Byte.x00; Byte.x00; Byte.x03]] false (Sent 56) demo_s0 conn = None.
Proof.
  intros conn.
  destruct (input_undefined_iff (N := x86_winsock) 0 [[Byte.x00; Byte.x00; Byte.x00; Byte.x03]] false (Sent 56) demo_s0 conn)
    as (res & s1 & conn2 & evs & Ed & Hiff).
  - by vm_compute.
  - by vm_compute.
  - assert (res = ErrorLengthTooSmall) as ->.
    { assert ((fun r => r.1.1.1) <$> Some (res, s1, conn2, evs) = Some ErrorLengthTooSmall) as Hv
        by (rewrite <- Ed; vm_compute; reflexivity).
      by injection Hv as ->. }
    apply Hiff. split; [reflexivity|by vm_compute].
Defined.

(** The task queue can hold more requests than the server may have connections.
    (A comment on the queue says it never does.)  With a limit of one connection, a
    client that sends a request and disconnects leaves its task behind; the next client
    adds another. *)
Theorem task_queue_exceeds_connections {St : Type} {H : RequestHandler St} (st : St) :
  exists tr s, run (N := x86_winsock) (TcpServer_new demo_server_config, st) tr (s, st) /\
    max_connections (ts_config s) = 1 /\ length (ts_tasks s) = 2%nat.
Proof.
  destruct (demo_run6 st) as [tr Hr]. exists tr, demo_s6. split; [exact Hr|]. by vm_compute.
Qed.
