(* ===== verification/ServerProgress.v ===== *)
(** * ServerProgress: every request is answered (src/TcpServer.cpp, src/ThreadPool.cpp)

    A request that was taken off a connection moves from the pending requests to the
    task queue, to a worker, to the completion queue, to the I/O thread and out.  Every
    step of [serve] moves one along, so that [work] decreases; when no step is left,
    the queues are empty and, by the invariant of ServerOrder, nothing is in flight -
    unless a worker is in a request that the handler does not answer.
    Neither the order in which the threads run nor the wake-up of the I/O thread plays
    a role: the event loop also processes the completions at the end of every round. *)
From S2P Require Import Prelude StdString Status RecordCodec FrameCodec FrameAssembler BodyCodec ProtocolMessages.
From S2P Require Import FileHandle TopicManager OffsetStore GroupCoordinator MessageHandler TcpServer ServerOrder.

(** ** Work left *)

Definition pending_total (m : gmap Z ConnectionState) : nat :=
  map_fold (fun _ conn n => length (cs_pending_requests conn) + n)%nat 0%nat m.

Lemma pending_total_delete m c conn : m !! c = Some conn ->
  pending_total m = (length (cs_pending_requests conn) + pending_total (delete c m))%nat.
Proof. intros Hc. unfold pending_total. rewrite (map_fold_delete_L _ _ c conn m); [done|lia|done]. Qed.

Lemma pending_total_insert m c conn conn' : m !! c = Some conn ->
  (pending_total (<[c := conn']> m) + length (cs_pending_requests conn) =
   length (cs_pending_requests conn') + pending_total m)%nat.
Proof.
  intros Hc. rewrite (pending_total_delete m c conn Hc).
  rewrite (pending_total_delete (<[c := conn']> m) c conn') by apply lookup_insert_eq.
  rewrite delete_insert_eq. lia.
Qed.

Definition item_weight (x : item) : nat := match x with it_task _ => 4 | it_comp _ => 3 end.

(** A request moves from weight 6 to 0. *)
Definition work (s : TcpServer) : nat :=
  (6 * pending_total (ts_connections s) + 5 * length (ts_tasks s) + sum_list_with item_weight (ts_busy s) +
   2 * length (ts_comps s) + length (ts_io_comps s))%nat.

Section progress.
Context {N : Winsock} {St : Type} {H : RequestHandler St}.

Lemma queue_response_same resp sent conn conn' evs :
  queue_response resp sent conn = (Some conn', evs) -> same_requests conn conn'.
Proof.
  unfold queue_response. intros E. destruct (_ =? 0); [destruct sent|]; simplify_eq; try done. by destruct (_ && _).
Qed.

Lemma enqueue_work t s : (work (ThreadPool_enqueue t s) <= work s + 5)%nat.
Proof. unfold ThreadPool_enqueue. destruct (ts_stopped s); unfold work; cbn; rewrite ?length_app; cbn; lia. Qed.

Lemma set_conn_work s conn0 conn : ts_connections s !! cs_conn_id conn = Some conn0 ->
  (work (ts_set_conn conn s) + 6 * length (cs_pending_requests conn0) =
   work s + 6 * length (cs_pending_requests conn))%nat.
Proof.
  intros Hc. pose proof (pending_total_insert _ _ _ conn Hc). unfold work. cbn. lia.
Qed.

Lemma close_work c s : (work (TcpServer_close_connection c s) <= work s)%nat.
Proof.
  unfold work. cbn. destruct (ts_connections s !! c) as [conn|] eqn:E; [rewrite (pending_total_delete _ _ _ E); lia|].
  rewrite delete_id by done. lia.
Qed.

Lemma process_work comp sent s :
  map_Forall (fun c conn => cs_conn_id conn = c) (ts_connections s) ->
  (work (process_completion comp sent s).1 <= work s)%nat.
Proof.
  intros Hids. unfold process_completion. destruct (ts_connections s !! c_conn_id comp) as [conn|] eqn:Ec; [|done].
  pose proof (Hids _ _ Ec) as Hid. cbn beta in Hid. set (conn1 := cs_set_requests _ false conn).
  assert (work (ts_set_conn conn1 s) = work s) as Hw1
    by (pose proof (set_conn_work s conn conn1 ltac:(cbn; by rewrite Hid)); cbn in *; lia).
  assert (ts_connections (ts_set_conn conn1 s) !! cs_conn_id conn = Some conn1) as Hc1 by (cbn; apply lookup_insert_eq).
  destruct (_ <? _); [cbn [fst]; pose proof (close_work (cs_conn_id conn1) (ts_set_conn conn1 s)); lia|].
  destruct (queue_response _ _ _) as [[conn2|] evs] eqn:Eq;
    [|cbn [fst]; pose proof (close_work (cs_conn_id conn1) (ts_set_conn conn1 s)); lia].
  apply queue_response_same in Eq as (Hid2 & Hp2 & _). change (cs_conn_id conn1) with (cs_conn_id conn) in Hid2.
  destruct (cs_pending_requests conn2) as [|next rest] eqn:Ep; cbn [fst].
  - pose proof (set_conn_work _ conn1 conn2 ltac:(by rewrite Hid2)). rewrite Ep, <- Hp2 in *. cbn in *. lia.
  - pose proof (set_conn_work (ts_set_conn conn1 s) conn1 (cs_set_requests rest true conn2) ltac:(cbn [cs_conn_id cs_set_requests]; by rewrite Hid2)) as Hw2.
    rewrite <- Hp2 in Hw2. cbn [cs_pending_requests cs_set_requests length] in Hw2.
    pose proof (enqueue_work (mkTask (cs_conn_id (cs_set_requests rest true conn2)) next)
                  (ts_set_conn (cs_set_requests rest true conn2) (ts_set_conn conn1 s))). lia.
Qed.

Lemma serve_decreases x evs y tr : server_inv x.1 tr -> serve x evs y -> (work y.1 < work x.1)%nat.
Proof.
  intros [Hg _] Hs. destruct Hs; cbn [fst] in *.
  - unfold work. cbn. destruct (ts_comps s); [done|]. rewrite H0. cbn. lia.
  - assert (work (ts_set_queues (ts_tasks s) (ts_busy s) (ts_comps s) l s) < work s)%nat by (unfold work; cbn; rewrite H0; cbn; lia).
    pose proof (process_work comp sent (ts_set_queues (ts_tasks s) (ts_busy s) (ts_comps s) l s)
      ltac:(intros c conn Hc; by apply (gi_ids _ _ Hg))) as Hp. subst r. lia.
  - unfold work. cbn. rewrite H0, sum_list_with_app. cbn. lia.
  - unfold work. cbn. rewrite H0, !sum_list_with_app. cbn. lia.
  - unfold work. cbn. rewrite H0, !sum_list_with_app, length_app. cbn. lia.
Qed.

(** ** Either a step is left, or nothing is outstanding *)

(** The handler has no answer to the request, or none that can be encoded: it is undefined,
    or ends with an exception that nobody catches. *)
Definition unanswerable (st : St) (req : Frame) : Prop :=
  forall resp st' bs, handles st req resp st' -> FrameCodec_encode resp <> Some bs.

(** A worker is in such a request. *)
Definition worker_fails (x : TcpServer * St) : Prop :=
  exists t, it_task t ∈ ts_busy x.1 /\ unanswerable x.2 (t_request t).

(** Every request of a connection is answered, and the answers are sent or in its
    output buffer, in order. *)
Definition all_answered (tr : list Event) (s : TcpServer) : Prop :=
  forall c conn, ts_connections s !! c = Some conn -> ev_error c ∉ tr ->
    exists bss, Forall2 reply (requests c tr) bss /\ sent_bytes c tr ++ unsent conn = concat bss.

Lemma idle_answered s tr : server_inv s tr -> items s = [] -> all_answered tr s.
Proof.
  intros [_ Hl] Hi c conn Hc Hd. destruct (Hl c) as [[? _]|[_ Hv]]; [done|]. unfold local_now in Hv. rewrite Hc in Hv.
  destruct Hv as (_ & Hp & fl & (dn & bss & H1 & H2 & H3) & Hf).
  assert (outstanding s c = []) as Ho by (unfold outstanding; by rewrite Hi).
  unfold flight_ok in Hf. destruct fl as [|req [|]]; [|destruct Hf as (_ & x & Hx & _); congruence|done].
  destruct Hf as [Hf _]. rewrite (Hp Hf), !app_nil_r in H1. rewrite H1. by exists bss.
Qed.

(** Whatever steps of [serve] are taken from [x], they come to an end, and [P] holds when
    none is left. *)
Inductive inevitable (P : list Event -> TcpServer * St -> Prop) (tr : list Event) (x : TcpServer * St) : Prop :=
| inevitable_intro : ((forall evs y, ~ serve x evs y) -> P tr x) ->
    (forall evs y, serve x evs y -> inevitable P (tr ++ evs) y) -> inevitable P tr x.

Lemma rest_idle s st : (forall evs y, ~ serve (s, st) evs y) -> 0 < workers (ts_config s) ->
  items s = [] \/ worker_fails (s, st).
Proof.
  intros Hno Hw. destruct (ts_busy s) as [|t l] eqn:Eb.
  - left. destruct (ts_tasks s) as [|t l] eqn:Et.
    + destruct (ts_io_comps s) as [|x l] eqn:Ei.
      * destruct (ts_comps s) as [|x l] eqn:Ec; [unfold items; by rewrite Eb, Et, Ei, Ec|].
        edestruct Hno. by apply (io_pop_all s st Ei); rewrite Ec.
      * edestruct Hno. exact (io_process s st x l SendWouldBlock Ei I).
    + edestruct Hno. apply (worker_pop s st t l Et). rewrite Eb. cbn. lia.
  - destruct t as [t|x].
    + right. exists t. cbn. rewrite Eb. split; [set_solver|]. intros resp st' bs Hh He.
      edestruct Hno. exact (worker_handle s st t [] l resp st' bs Eb Hh He).
    + edestruct Hno. exact (worker_push s st x [] l Eb).
Qed.

Lemma serve_config x evs y : serve x evs y -> ts_config y.1 = ts_config x.1.
Proof.
  intros Hs. destruct Hs; try done. subst r. cbn [fst]. unfold process_completion.
  destruct (ts_connections _ !! _); [|done]. destruct (_ <? _); [done|].
  destruct (queue_response _ _ _) as [[conn2|] ?]; [|done]. destruct (cs_pending_requests conn2); [done|].
  unfold ThreadPool_enqueue. by destruct (ts_stopped _).
Qed.

Lemma serve_inevitable : forall n s st tr,
  (work s <= n)%nat -> server_inv s tr -> 0 < workers (ts_config s) ->
  inevitable (fun tr x => all_answered tr x.1 \/ worker_fails x) tr (s, st).
Proof.
  intros n. induction n as [|n IH]; intros s st tr Hn Hinv Hw.
  all: apply inevitable_intro;
    [intros Hno; destruct (rest_idle s st Hno Hw); [left; by apply idle_answered|by right]|].
  all: intros evs [s' st'] Hy; pose proof (serve_decreases (s, st) _ _ tr Hinv Hy) as Hd; cbn [fst] in Hd; try lia.
  apply IH; [lia|exact (serve_inv (s, st) _ _ _ Hy Hinv)|].
  pose proof (serve_config _ _ _ Hy) as Hcf. cbn [fst] in Hcf. by rewrite Hcf.
Qed.

End progress.

(** ** A round of the event loop is made of steps *)

(** The results of [send] are possible ones for the responses. *)
Definition sends_ok (sends : list SendResult) (comps : list Completion) : Prop :=
  forall i comp, comps !! i = Some comp -> send_ok (default SendWouldBlock (sends !! i)) (c_response_bytes comp).

Lemma sends_ok_cons sends comp comps : sends_ok sends (comp :: comps) ->
  send_ok (default SendWouldBlock (head sends)) (c_response_bytes comp) /\ sends_ok (tail sends) comps.
Proof.
  intros H. split; [pose proof (H 0%nat comp eq_refl) as H0; by destruct sends|].
  intros i x Hx. pose proof (H (S i) x Hx) as Hi. by destruct sends.
Qed.

(** What the operations on connections leave alone. *)
Record same_queues (s s' : TcpServer) : Prop := {
  sq_comps : ts_comps s' = ts_comps s;
  sq_io : ts_io_comps s' = ts_io_comps s;
  sq_busy : ts_busy s' = ts_busy s;
}.

Lemma same_queues_refl s : same_queues s s.
Proof. done. Qed.

Lemma same_queues_trans s1 s2 s3 : same_queues s1 s2 -> same_queues s2 s3 -> same_queues s1 s3.
Proof. intros [] []. split; congruence. Qed.

Lemma enqueued_queues c s s' : enqueued c s s' -> same_queues s s'.
Proof. intros (_ & _ & _ & _ & Hb & Hc & Hi & _). done. Qed.

Lemma process_queues comp sent s :
  same_queues s (process_completion comp sent s).1 /\ ts_to_close (process_completion comp sent s).1 = ts_to_close s.
Proof.
  unfold process_completion. destruct (ts_connections s !! _) as [conn|]; [|done]. destruct (_ <? _); [done|].
  destruct (queue_response _ _ _) as [[conn2|] evs]; [|done]. destruct (cs_pending_requests conn2); [done|].
  unfold ThreadPool_enqueue. by destruct (ts_stopped _).
Qed.

Lemma accept_queues nows : forall s, same_queues s (TcpServer_accept_new_connections nows s).1 /\
  ts_to_close (TcpServer_accept_new_connections nows s).1 = ts_to_close s.
Proof.
  induction nows as [|now nows IH]; intros s; cbn [TcpServer_accept_new_connections fst]; [done|].
  destruct (IH (accept_connection now s).1) as [H1 ->].
  assert (same_queues s (accept_connection now s).1 /\ ts_to_close (accept_connection now s).1 = ts_to_close s) as [H2 ->]
    by (unfold accept_connection; by destruct (_ <=? _)).
  split; [by eapply same_queues_trans|done].
Qed.

Section rounds.
Context {N : Winsock}.

Lemma client_input_queues now chunks disc sent s conn s' evs :
  client_input now chunks disc sent s conn = Some (s', evs) -> same_queues s s'.
Proof.
  unfold client_input. intros E. destruct disc; [by injection E as <- <-|].
  destruct (dispatch_frames _ _ _) as [[[[res s1] c1] evs1]|] eqn:Ed; [|done]. cbn [mbind option_bind] in E.
  apply dispatch_structure in Ed as (He & _). apply enqueued_queues in He.
  assert (forall x, same_queues s (ts_set_conn x s1)) as Hset by (intros x; by destruct He).
  destruct res; [injection E as <- <-; apply Hset|injection E as <- <-; apply Hset|..].
  all: destruct (queue_immediate_error_and_close _ _ _) as [[c2|]|]; try done;
    cbn [mbind option_bind] in E; injection E as <- <-; apply Hset.
Qed.

Lemma client_event_queues now id re s s' evs : client_event now id re s = Some (s', evs) -> same_queues s s'.
Proof.
  unfold client_event. intros E. destruct (ts_connections s !! id) as [c|]; [|by injection E as <- <-].
  destruct (re_hup re); [by injection E as <- <-|].
  destruct (match re_out re with Some r => _ | None => _ end) as [[c1 close] evs1].
  destruct close; [by injection E as <- <-|]. destruct (re_in re) as [[[chunks disc] sent]|]; [|by injection E as <- <-].
  destruct (client_input _ _ _ _ _ _) as [[s1 evs2]|] eqn:Ei; [|done]. injection E as <- <-.
  apply client_input_queues in Ei as []. by split.
Qed.

(** The events are possible for the sockets as they were polled. *)
Fixpoint events_ok (now : Z) (polled : list (Z * Revents)) (s : TcpServer) : Prop :=
  match polled with
  | [] => True
  | (id, re) :: polled =>
      (forall c, ts_connections s !! id = Some c ->
         (forall r, re_out re = Some r -> poll_out c = true /\ send_ok r (unsent c)) /\
         (is_Some (re_in re) -> poll_in (ts_config s) c = true)) /\
      forall s' evs, client_event now id re s = Some (s', evs) -> events_ok now polled s'
  end.

Context {St : Type} {H : RequestHandler St}.

Lemma run_one x evs y : step x evs y -> run x evs y.
Proof. intros Hs. apply (run_step x [] x evs y); [apply run_start|done]. Qed.

Lemma run_trans x tr1 y tr2 z : run x tr1 y -> run y tr2 z -> run x (tr1 ++ tr2) z.
Proof.
  intros H1. induction 1 as [|tr2 y2 evs z _ IH Hs]; [by rewrite app_nil_r|]. rewrite app_assoc. by eapply run_step.
Qed.

Lemma popped_run (st : St) comps : forall sends s, ts_io_comps s = comps -> sends_ok sends comps ->
  let r := process_popped sends comps s in
  run (s, st) r.2 (r.1, st) /\ ts_comps r.1 = ts_comps s /\ ts_io_comps r.1 = [] /\ ts_to_close r.1 = ts_to_close s.
Proof.
  induction comps as [|comp comps IH]; intros sends s Hio Hok; cbn [process_popped fst snd]; [by split_and!; [apply run_start|..]|].
  apply sends_ok_cons in Hok as [Hs Hok]. set (s0 := ts_set_queues (ts_tasks s) (ts_busy s) (ts_comps s) comps s).
  set (r := process_completion comp _ s0). destruct (process_queues comp (default SendWouldBlock (head sends)) s0) as [[Hc Hi _] Ht].
  fold r in Hc, Hi, Ht. destruct (IH (tail sends) r.1 Hi Hok) as (IH1 & -> & IH3 & ->). split_and!; [|done..].
  eapply run_trans; [|exact IH1]. apply run_one, io_serve. exact (io_process s st comp comps _ Hio Hs).
Qed.

Lemma completions_run (st : St) sends s : ts_io_comps s = [] -> sends_ok sends (ts_comps s) ->
  let r := TcpServer_process_completions sends s in
  run (s, st) r.2 (r.1, st) /\ ts_comps r.1 = [] /\ ts_io_comps r.1 = [] /\ ts_to_close r.1 = ts_to_close s.
Proof.
  intros Hio Hok. unfold TcpServer_process_completions.
  destruct (popped_run st (ts_comps s) sends (ts_set_queues (ts_tasks s) (ts_busy s) [] (ts_comps s) s) eq_refl Hok)
    as (Hr & Hc & Hi & Ht). split_and!; [|done..]. destruct (decide (ts_comps s = [])) as [E|E].
  - rewrite E in *. cbn [process_popped fst snd] in *. replace (ts_set_queues _ _ [] [] s) with s; [apply run_start|].
    destruct s; cbn in *. by subst.
  - rewrite <- (app_nil_l (snd _)). eapply run_trans; [apply run_one, io_serve; by apply io_pop_all|exact Hr].
Qed.

Lemma accepts_run (st : St) nows : forall s,
  let r := TcpServer_accept_new_connections nows s in run (s, st) r.2 (r.1, st).
Proof.
  induction nows as [|now nows IH]; intros s; cbn [TcpServer_accept_new_connections fst snd]; [apply run_start|].
  eapply run_trans; [apply run_one, io_accept|apply IH].
Qed.

Lemma client_events_run (st : St) now polled : forall s s' evs,
  events_ok now polled s -> client_events now polled s = Some (s', evs) ->
  run (s, st) evs (s', st) /\ same_queues s s'.
Proof.
  induction polled as [|[id re] polled IH]; intros s s' evs Hok E; cbn [client_events] in E.
  { injection E as <- <-. split; [apply run_start|apply same_queues_refl]. }
  destruct Hok as [Hok Hnext]. destruct (client_event now id re s) as [[s1 evs1]|] eqn:E1; [|done]. cbn [mbind option_bind] in E.
  destruct (client_events now polled s1) as [[s2 evs2]|] eqn:E2; [|done]. injection E as <- <-.
  destruct (IH _ _ _ (Hnext _ _ eq_refl) E2) as [Hr Hq]. split.
  - eapply run_trans; [|exact Hr]. apply run_one. by eapply io_client.
  - eapply same_queues_trans; [by eapply client_event_queues|done].
Qed.

Lemma close_all_run (st : St) s : run (s, st) [] (close_all s, st) /\ same_queues s (close_all s).
Proof.
  unfold close_all. remember (ts_to_close s) as l eqn:El. revert s El. induction l as [|id l IH]; intros s El; cbn [foldl].
  - replace (ts_set_to_close [] s) with s; [split; [apply run_start|done]|]. destruct s; cbn in *. by subst.
  - set (s1 := TcpServer_close_connection id (ts_set_to_close l s)).
    destruct (IH s1 eq_refl) as [Hr Hq].
    assert (ts_set_to_close [] (foldl (fun s id => TcpServer_close_connection id s) s1 l) =
            ts_set_to_close [] (foldl (fun s id => TcpServer_close_connection id s) (TcpServer_close_connection id s) l)) as Heq.
    { assert (forall l1 l2 a, ts_set_to_close [] (foldl (fun s id => TcpServer_close_connection id s) (ts_set_to_close l2 a) l1) =
        ts_set_to_close [] (foldl (fun s id => TcpServer_close_connection id s) a l1)) as Hg.
      { intros l1 l2. induction l1 as [|j l1 IH1]; intros a; cbn [foldl]; [done|]. exact (IH1 (TcpServer_close_connection j a)). }
      exact (Hg l l (TcpServer_close_connection id s)). }
    rewrite <- Heq. split; [|by destruct Hq].
    apply (run_trans _ [] (s1, st) []); [|exact Hr]. apply run_one. by apply io_close.
Qed.

Lemma stalls_queues now s : same_queues s (TcpServer_check_read_stalls now s) /\
  ts_to_close (TcpServer_check_read_stalls now s) = ts_to_close s.
Proof.
  unfold TcpServer_check_read_stalls. generalize (filter (fun x => stalled now (read_stall_timeout_sec (ts_config s)) x.2 = true)
    (map_to_list (ts_connections s))).*1. intros l. revert s. induction l as [|c l IH]; intros s; cbn [foldl]; [done|].
  destruct (IH (TcpServer_close_connection c s)) as [[] Ht]. by split.
Qed.

(** What the environment of a round delivers is possible. *)
Definition round_ok (rd : Round) (s : TcpServer) : Prop :=
  let s1 := (TcpServer_accept_new_connections (rd_accepted rd) s).1 in
  let s2 := if rd_wakeup rd then (TcpServer_process_completions (rd_sends1 rd) s1).1 else s1 in
  (rd_wakeup rd = true -> sends_ok (rd_sends1 rd) (ts_comps s)) /\
  events_ok (rd_now rd) (rd_polled rd) s2 /\
  (rd_wakeup rd = false -> sends_ok (rd_sends2 rd) (ts_comps s)).

End rounds.

(** ** Properties *)

(** C6: every request is answered.  From any state the server can reach, with at least one
    worker, whatever order the threads run in, their steps come to an end, and then every
    request taken so far off a connection that is still open (and was not sent an error
    frame for malformed input) has the handler's answer, sent or in the output buffer, in
    order; the only other end is a worker in a request that the handler does not answer at
    all. *)
Theorem requests_answered {N : Winsock} {St : Type} {H : RequestHandler St} cfg (st : St) tr s st' :
  run (TcpServer_new cfg, st) tr (s, st') -> zlen tr < 2 ^ 63 -> 0 < workers (ts_config s) ->
  inevitable (fun tr' x => all_answered tr' x.1 \/ worker_fails x) tr (s, st').
Proof.
  intros Hrun Hlen Hw. pose proof (run_inv _ _ _ _ Hrun Hlen) as Hinv.
  by apply (serve_inevitable (work s) s st' tr).
Qed.

(** A PING has arrived at the broker. *)
Example requests_answered_witness :
  ts_tasks demo_s2 = [demo_ping_task] /\
  inevitable (N := x86_winsock) (H := demo_handler)
    (fun tr' x => all_answered (N := x86_winsock) (H := demo_handler) tr' x.1 \/
                  worker_fails (N := x86_winsock) (H := demo_handler) x)
    [ev_accept 1; ev_request 1 (mkFrame 5 PING 7 [])] (demo_s2, (demo_broker_state, ∅)).
Proof.
  split; [apply demo_tasks|].
  apply (requests_answered (N := x86_winsock) demo_server_config (demo_broker_state, ∅)); [apply demo_run2|by vm_compute..].
Defined.

(** A PING is never such a request: the broker answers it in every state. *)
Example ping_answerable st : ~ unanswerable (N := x86_winsock) (H := demo_handler) st (mkFrame 5 PING 7 []).
Proof.
  intros Hu. apply (Hu (FrameCodec_create_pong_frame 7) st demo_pong); [|by vm_compute].
  exists demo_env. by destruct st.
Qed.

(** C25: a round of the event loop works off the completions.  With any possible events
    of the sockets, the body of [event_loop] is a run of the steps above, so that what
    holds for every run holds for the loop; and it leaves none of the completions that
    were queued when it started, even if the wake-up channel was not readable. *)
Theorem event_round_refines {N : Winsock} {St : Type} {H : RequestHandler St} (st : St) rd s s' evs :
  ts_io_comps s = [] -> ts_to_close s = [] -> round_ok rd s -> TcpServer_event_round rd s = Some (s', evs) ->
  run (s, st) evs (s', st) /\ ts_comps s' = [] /\ ts_io_comps s' = [] /\ ts_to_close s' = [].
Proof.
  intros Hio Htc (Hok1 & Hok2 & Hok3) E. unfold TcpServer_event_round in E.
  pose proof (accepts_run st (rd_accepted rd) s) as R1. destruct (accept_queues (rd_accepted rd) s) as [[Q1 Q2 _] Q3].
  destruct (TcpServer_accept_new_connections _ s) as [s1 evs1]. cbn [fst snd] in *. rewrite Hio in Q2. rewrite Htc in Q3.
  set (r2 := if rd_wakeup rd then TcpServer_process_completions (rd_sends1 rd) s1 else (s1, [])) in E.
  assert (run (s1, st) r2.2 (r2.1, st) /\ ts_io_comps r2.1 = [] /\
    ts_comps r2.1 = (if rd_wakeup rd then [] else ts_comps s)) as (R2 & Q4 & Q6).
  { subst r2. destruct (rd_wakeup rd); [|split_and!; [apply run_start|done..]].
    destruct (completions_run st (rd_sends1 rd) s1 Q2) as (? & ? & ? & _); [rewrite Q1; by apply Hok1|done]. }
  assert (events_ok (rd_now rd) (rd_polled rd) r2.1) as Hev by (subst r2; by destruct (rd_wakeup rd)).
  destruct r2 as [s2 evs2]. cbn [fst snd] in *.
  destruct (client_events _ _ s2) as [[s3 evs3]|] eqn:Ec; [|done]. cbn [mbind option_bind] in E.
  destruct (client_events_run st _ _ _ _ _ Hev Ec) as [R3 [C1 C2 _]].
  destruct (close_all_run st s3) as [R4 [D1 D2 _]].
  destruct (completions_run st (rd_sends2 rd) (close_all s3)) as (R5 & P1 & P2 & P3); [congruence| |].
  { rewrite D1, C1, Q6. destruct (rd_wakeup rd); [by intros i x Hx|by apply Hok3]. }
  destruct (TcpServer_process_completions (rd_sends2 rd) (close_all s3)) as [s5 evs5]. cbn [fst snd] in *. injection E as <- <-.
  destruct (stalls_queues (rd_now rd) s5) as [[S1 S2 _] S3].
  change (ts_to_close (close_all s3)) with (@nil Z) in P3. split_and!; [|congruence..].
  eapply run_trans; [exact R1|]. eapply run_trans; [exact R2|]. eapply run_trans; [exact R3|].
  rewrite <- (app_nil_l evs5). eapply run_trans; [exact R4|].
  rewrite <- (app_nil_r evs5). eapply run_trans; [exact R5|]. apply run_one, io_stalls.
Qed.

(** The answer to the PING is queued, the wake-up is lost, and the poll times out. *)
Definition demo_queued : TcpServer := ts_set_queues [] [] [mkCompletion 1 demo_pong false] [] demo_s2.
Definition demo_round : Round := mkRound 0 [] false [] [] [Sent 9].

Example event_round_refines_witness : exists s' evs,
  TcpServer_event_round (N := x86_winsock) demo_round demo_queued = Some (s', evs) /\ evs = [ev_sent 1 demo_pong] /\
  run (N := x86_winsock) (H := demo_handler) (demo_queued, (demo_broker_state, ∅)) evs (s', (demo_broker_state, ∅)) /\ ts_comps s' = [].
Proof.
  assert (snd <$> TcpServer_event_round (N := x86_winsock) demo_round demo_queued = Some [ev_sent 1 demo_pong]) as E by (by vm_compute).
  destruct (TcpServer_event_round _ _) as [[s' evs]|] eqn:Er; [|discriminate E]. injection E as ->.
  destruct (event_round_refines (N := x86_winsock) (H := demo_handler) (demo_broker_state, ∅) demo_round demo_queued s' [ev_sent 1 demo_pong])
    as (Hr & Hc & _).
  - reflexivity.
  - by vm_compute.
  - split; [discriminate|]. split; [exact I|]. intros _ [|i] comp Hx; [|discriminate Hx]. injection Hx as <-. by vm_compute.
  - exact Er.
  - exists s', [ev_sent 1 demo_pong]. split_and!; [reflexivity|reflexivity|exact Hr|exact Hc].
Defined.
