(* ===== verification/ServerShutdown.v ===== *)
(** * ServerShutdown: how the server stops (src/TcpServer.cpp)

    [wait_until_stopped] runs after the event loop has ended: it waits until no request
    is in flight or pending (at most five seconds), sends what is left in the output
    buffers, closes the connections and stops the workers.  While it waits, only the
    steps of [serve] happen.  [reaper_loop] is the thread that expires group members. *)
From S2P Require Import Prelude StdString Status RecordCodec FrameCodec FrameAssembler BodyCodec ProtocolMessages.
From S2P Require Import FileHandle TopicManager OffsetStore GroupCoordinator MessageHandler TcpServer ServerOrder ServerProgress.

(** ** Waiting *)

Definition any_in_flight (s : TcpServer) : bool :=
  existsb (fun x => cs_in_flight x.2 || negb (bool_decide (cs_pending_requests x.2 = []))) (map_to_list (ts_connections s)).

Section wait.
Context {N : Winsock} {St : Type} {H : RequestHandler St}.

Inductive serves (x : TcpServer * St) : list Event -> TcpServer * St -> Prop :=
| serves_refl : serves x [] x
| serves_step tr y evs z : serves x tr y -> serve y evs z -> serves x (tr ++ evs) z.

(** The loop, with whether it ended by the timeout. *)
Inductive shutdown_wait : TcpServer * St -> bool -> list Event -> TcpServer * St -> Prop :=
| wait_idle s st : any_in_flight s = false -> shutdown_wait (s, st) false [] (s, st)
| wait_timeout s st : any_in_flight s = true -> shutdown_wait (s, st) true [] (s, st)
| wait_round s st evs y timeout evs' z :
    any_in_flight s = true -> serves (s, st) evs y -> shutdown_wait y timeout evs' z ->
    shutdown_wait (s, st) timeout (evs ++ evs') z.

End wait.

(** ** Closing *)

(** The last send of a connection; its result is not looked at. *)
Definition flush_output (sends : Z -> SendResult) (x : Z * ConnectionState) : option Event :=
  if cs_output_offset x.2 <? zlen (cs_output_buffer x.2) then
    Some (ev_sent x.1 (ztake (match sends x.1 with Sent n => n | _ => 0 end) (unsent x.2)))
  else None.

(** After the wait: flush, close everything, stop the workers (which still handle the
    tasks left in the queue, for nobody). *)
Definition TcpServer_stop (sends : Z -> SendResult) (s : TcpServer) : TcpServer * list Event :=
  (mkTcpServer (ts_config s) (ts_next_conn_id s) ∅ (ts_shutdown_requested s) true (ts_tasks s)
     (ts_busy s) (ts_comps s) (ts_io_comps s) (ts_to_close s),
   omap (flush_output sends) (map_to_list (ts_connections s))).

(** ** The reaper *)

(** The thread from the [k]-th load of the flag on; [tms] and [now] are the topics and
    the time at each round.  The wait in between ends early when the flag is set. *)
Fixpoint TcpServer_reaper_loop (fuel : nat) (shutdown : nat -> bool) (tms : nat -> TopicManager) (now : nat -> Z)
    (k : nat) (gc : GroupCoordinator) : option GroupCoordinator :=
  match fuel with
  | O => None
  | S fuel =>
      if shutdown k then Some gc else
      if shutdown (S k) then Some gc else
      TcpServer_reaper_loop fuel shutdown tms now (S (S k)) (GroupCoordinator_expire_members (tms (S k)) gc (now (S k))).2
  end.

(** ** Lemmas *)

Section lemmas.
Context {N : Winsock} {St : Type} {H : RequestHandler St}.

Lemma serves_inv x tr0 tr y : serves x tr y -> server_inv x.1 tr0 -> server_inv y.1 (tr0 ++ tr).
Proof.
  intros Hs Hinv. induction Hs as [|tr y evs z _ IH Hs]; [by rewrite app_nil_r|].
  rewrite app_assoc. by eapply serve_inv.
Qed.

Lemma wait_inv x b evs y tr : shutdown_wait x b evs y -> server_inv x.1 tr -> server_inv y.1 (tr ++ evs).
Proof.
  intros Hw. revert tr. induction Hw as [s st|s st|s st evs y b evs' z _ Hs _ IH]; intros tr Hinv.
  - by rewrite app_nil_r.
  - by rewrite app_nil_r.
  - rewrite app_assoc. apply IH. by apply (serves_inv (s, st)).
Qed.

Lemma wait_ends_idle x evs y : shutdown_wait x false evs y -> any_in_flight y.1 = false.
Proof.
  intros Hw. remember false as b eqn:Eb. induction Hw; [done|done|auto].
Qed.

Lemma not_in_flight s c conn : any_in_flight s = false -> ts_connections s !! c = Some conn ->
  cs_in_flight conn = false /\ cs_pending_requests conn = [].
Proof.
  intros Ha Hc. unfold any_in_flight in Ha.
  assert (~ (cs_in_flight conn || negb (bool_decide (cs_pending_requests conn = [])) = true)) as Hn.
  { intros Ht. apply not_true_iff_false in Ha. apply Ha, existsb_exists. exists (c, conn). split; [|done].
    by apply list_elem_of_In, elem_of_map_to_list. }
  apply not_true_iff_false, orb_false_iff in Hn as [Hf Hp]. split; [done|]. by case_bool_decide.
Qed.

(** A connection with nothing in flight has all its answers. *)
Lemma idle_conn_answered s tr c conn :
  server_inv s tr -> ts_connections s !! c = Some conn -> ev_error c ∉ tr ->
  cs_in_flight conn = false -> cs_pending_requests conn = [] ->
  offset_ok conn /\ exists bss, Forall2 reply (requests c tr) bss /\ sent_bytes c tr ++ unsent conn = concat bss.
Proof.
  intros [_ Hl] Hc Hd Hf Hp. destruct (Hl c) as [[? _]|[_ Hv]]; [done|]. unfold local_now in Hv. rewrite Hc in Hv.
  destruct Hv as (Ho & _ & fl & (dn & bss & H1 & H2 & H3) & Hfl). split; [done|].
  unfold flight_ok in Hfl. destruct fl as [|req [|]]; [|destruct Hfl; congruence|done].
  rewrite Hp, !app_nil_r in H1. rewrite H1. by exists bss.
Qed.

End lemmas.

Lemma flush_other sends c l : c ∉ l.*1 -> sent_bytes c (omap (flush_output sends) l) = [].
Proof.
  intros Hc. apply quiet. apply list.Forall_forall. intros e He. apply list_elem_of_omap in He as ([k conn] & Hx & Hf).
  unfold flush_output in Hf. cbn in Hf. destruct (_ <? _); [|done]. injection Hf as <-. cbn. intros ->.
  apply Hc, list_elem_of_fmap. by exists (c, conn).
Qed.

Lemma flush_sent sends c conn l : NoDup l.*1 -> (c, conn) ∈ l -> sends c = Sent (zlen (unsent conn)) -> offset_ok conn ->
  sent_bytes c (omap (flush_output sends) l) = unsent conn.
Proof.
  intros Hnd Hin Hs Ho. induction l as [|[k x] l IH]; [by apply not_elem_of_nil in Hin|]. cbn [fmap list_fmap fst] in Hnd.
  apply list.NoDup_cons in Hnd as [Hk Hnd]. replace ((k, x) :: l) with ([(k, x)] ++ l) by done. rewrite omap_app, sent_app.
  apply elem_of_cons in Hin as [[= <- <-]|Hin].
  - rewrite (flush_other _ _ _ Hk), app_nil_r. unfold sent_bytes. cbn. unfold flush_output. cbn. unfold offset_ok in Ho.
    destruct (Z.ltb_spec (cs_output_offset conn) (zlen (cs_output_buffer conn))).
    + cbn. rewrite decide_True, Hs by done. cbn. rewrite app_nil_r. by rewrite ztake_ge by lia.
    + cbn. unfold unsent. by rewrite zdrop_ge by lia.
  - rewrite IH by done. replace (sent_bytes c (omap (flush_output sends) [(k, x)])) with (@nil byte); [done|].
    symmetry. apply flush_other. cbn. rewrite list_elem_of_singleton. intros ->. apply Hk, list_elem_of_fmap. by exists (k, conn).
Qed.

Lemma reaper_ends shutdown tms now fuel : forall n k gc,
  (forall j, (n <= j)%nat -> shutdown j = true) -> (n - k < fuel)%nat ->
  (forall j, counts_fit (tms j) /\ topics_grow (tms j) (tms (S j))) -> coordinator_ok (tms k) gc ->
  exists gc' j, TcpServer_reaper_loop fuel shutdown tms now k gc = Some gc' /\ coordinator_ok (tms j) gc'.
Proof.
  induction fuel as [|fuel IH]; intros n k gc Hst Hf Htm Hok; [lia|]. cbn [TcpServer_reaper_loop].
  destruct (shutdown k) eqn:E1; [by exists gc, k|]. destruct (shutdown (S k)) eqn:E2; [by exists gc, k|].
  assert (S (S k) <= n)%nat.
  { destruct (decide (n <= S k)%nat) as [Hle|]; [|lia]. apply Hst in Hle. congruence. }
  assert (forall a b, gc_step a b -> coordinator_ok a.1 a.2 /\ counts_fit a.1 -> coordinator_ok b.1 b.2) as Hstep
    by (intros a b Hs Ha; by apply (gc_step_ok a b Hs)).
  assert (coordinator_ok (tms (S k)) gc) as H1
    by (apply (Hstep _ _ (step_topics (tms k) (tms (S k)) gc (proj2 (Htm k)) (proj1 (Htm (S k))))); split; [done|apply Htm]).
  apply (IH n); [done|lia|done|].
  set (gc1 := (GroupCoordinator_expire_members (tms (S k)) gc (now (S k))).2).
  assert (coordinator_ok (tms (S k)) gc1) as H2
    by (apply (Hstep _ _ (step_expire (tms (S k)) gc (now (S k)))); split; [done|apply Htm]).
  apply (Hstep _ _ (step_topics (tms (S k)) (tms (S (S k))) gc1 (proj2 (Htm (S k))) (proj1 (Htm (S (S k))))));
    split; [done|apply Htm].
Qed.

(** ** Properties *)

(** C22: a graceful shutdown loses no response.  If the wait of [wait_until_stopped] ends
    because nothing is in flight (and not by its timeout), and the last sends take what
    they are given, then a connection that is still open when it is closed, and was not
    sent an error frame for malformed input, has received the handler's answers to all
    its requests, in order.  That includes the connection that sent the SHUTDOWN request;
    its SHUTDOWN_OK was sent past the output buffer and is not among these bytes. *)
Theorem shutdown_loses_nothing {N : Winsock} {St : Type} {H : RequestHandler St} cfg (st : St) tr s st1 evs s2 st2 sends c conn :
  run (TcpServer_new cfg, st) tr (s, st1) -> zlen tr < 2 ^ 63 -> shutdown_wait (s, st1) false evs (s2, st2) ->
  ts_connections s2 !! c = Some conn -> ev_error c ∉ tr ++ evs -> sends c = Sent (zlen (unsent conn)) ->
  exists bss, Forall2 reply (requests c (tr ++ evs)) bss /\
    sent_bytes c (tr ++ evs ++ (TcpServer_stop sends s2).2) = concat bss.
Proof.
  intros Hrun Hlen Hw Hc Hd Hs. pose proof (run_inv _ _ _ _ Hrun Hlen) as Hinv.
  pose proof (wait_inv _ _ _ _ _ Hw Hinv) as Hinv2. pose proof (wait_ends_idle _ _ _ Hw) as Hi. cbn [fst] in *.
  destruct (not_in_flight _ _ _ Hi Hc) as [Hf Hp].
  destruct (idle_conn_answered _ _ _ _ Hinv2 Hc Hd Hf Hp) as [Ho (bss & Hb & Hcat)].
  exists bss. split; [done|]. rewrite app_assoc, sent_app, <- Hcat. f_equal. cbn [TcpServer_stop snd].
  apply flush_sent; [apply NoDup_fst_map_to_list|by apply elem_of_map_to_list|done|done].
Qed.

(** A client sends a PING and a SHUTDOWN; the PING is answered during the wait, and its
    response is sent by the last flush. *)
Definition ping_shutdown_event : Revents :=
  mkRevents false None (Some ([frame_bytes (mkFrame 5 PING 7 []); frame_bytes (mkFrame 5 SHUTDOWN 8 [])], false, SendWouldBlock)).
Definition demo_v2 : TcpServer := demo_client 1 ping_shutdown_event (demo_accept demo_s0).
Definition demo_v3 : TcpServer := ts_set_queues [] [it_task demo_ping_task] [] [] demo_v2.
Definition demo_v4 : TcpServer := ts_set_queues [] [it_comp (mkCompletion 1 demo_pong false)] [] [] demo_v2.
Definition demo_v5 : TcpServer := ts_set_queues [] [] [] [mkCompletion 1 demo_pong false] demo_v2.
Definition demo_v6 : TcpServer * list Event :=
  process_completion (mkCompletion 1 demo_pong false) SendWouldBlock (ts_set_queues [] [] [] [] demo_v5).
Definition demo_shutdown_events : list Event := [ev_accept 1; ev_request 1 (mkFrame 5 PING 7 []); ev_shutdown_ok 1].

Lemma demo_shutdown_run : run (N := x86_winsock) (H := demo_handler) (demo_s0, (demo_broker_state, ∅))
  demo_shutdown_events (demo_v2, (demo_broker_state, ∅)).
Proof.
  apply (run_step _ [ev_accept 1] (demo_accept demo_s0, (demo_broker_state, ∅))).
  - apply (run_step _ [] (demo_s0, (demo_broker_state, ∅))); [apply run_start|].
    apply (io_accept demo_s0 (demo_broker_state, ∅) 0).
  - apply client_step; [by vm_compute|apply demo_polls|done].
Qed.

Lemma demo_v2_tasks : ts_tasks demo_v2 = [demo_ping_task] /\ ts_busy demo_v2 = [] /\ ts_comps demo_v2 = [] /\
  ts_io_comps demo_v2 = [] /\ ts_shutdown_requested demo_v2 = true.
Proof. by vm_compute. Qed.

Lemma demo_wait : shutdown_wait (N := x86_winsock) (H := demo_handler) (demo_v2, (demo_broker_state, ∅)) false []
  (demo_v6.1, (demo_broker_state, ∅)).
Proof.
  destruct demo_v2_tasks as (Ht & Hb & Hc & Hi & _).
  replace (@nil Event) with (((((([] ++ []) ++ []) ++ []) ++ []) ++ demo_v6.2) ++ []) by (by vm_compute).
  eapply wait_round; [by vm_compute| |apply wait_idle; by vm_compute].
  eapply serves_step; [eapply serves_step; [eapply serves_step; [eapply serves_step; [eapply serves_step; [apply serves_refl|]|]|]|]|].
  - apply (worker_pop demo_v2 _ demo_ping_task []); [exact Ht|by rewrite Hb].
  - rewrite Hb, Hc, Hi.
    apply (worker_handle demo_v3 _ demo_ping_task [] [] (mkFrame 5 PONG 7 []) (demo_broker_state, ∅) demo_pong); [done| |by vm_compute].
    by exists demo_env.
  - by apply (worker_push demo_v4 _ (mkCompletion 1 demo_pong false) [] []).
  - by apply io_pop_all.
  - by apply (io_process demo_v5 _ (mkCompletion 1 demo_pong false) [] SendWouldBlock).
Qed.

Example shutdown_loses_nothing_witness : exists bss,
  Forall2 (reply (N := x86_winsock) (H := demo_handler)) [mkFrame 5 PING 7 []] bss /\
  sent_bytes 1 (TcpServer_stop (fun _ => Sent 9) demo_v6.1).2 = concat bss.
Proof.
  destruct (ts_connections demo_v6.1 !! 1) as [conn|] eqn:Ec; [|exfalso; revert Ec; by vm_compute].
  destruct (shutdown_loses_nothing (N := x86_winsock) (H := demo_handler) demo_server_config (demo_broker_state, ∅)
    demo_shutdown_events demo_v2 (demo_broker_state, ∅) [] demo_v6.1 (demo_broker_state, ∅) (fun _ => Sent 9) 1 conn)
    as (bss & Hb & Hs).
  - apply demo_shutdown_run.
  - by vm_compute.
  - apply demo_wait.
  - exact Ec.
  - apply (bool_decide_unpack _). by vm_compute.
  - assert (Some 9 = (fun c => zlen (unsent c)) <$> ts_connections demo_v6.1 !! 1) as E by (by vm_compute).
    rewrite Ec in E. by injection E as <-.
  - exists bss. split; [exact Hb|exact Hs].
Defined.

(** The expiry thread stops.  When [m_shutdown_requested] reads true from the [n]-th load
    on (as after [request_stop]), [reaper_loop] returns, and the coordinator satisfies
    its invariant. *)
Theorem reaper_stops shutdown tms now n cfg :
  (forall j, (n <= j)%nat -> shutdown j = true) ->
  (forall j, counts_fit (tms j) /\ topics_grow (tms j) (tms (S j))) ->
  exists gc' j, TcpServer_reaper_loop (S n) shutdown tms now 0 (mkGroupCoordinator cfg 1 ∅) = Some gc' /\
    coordinator_ok (tms j) gc'.
Proof. intros Hs Ht. apply (reaper_ends _ _ _ _ n); [done|lia|done|]. by intros id g Hg. Qed.
