(* ===== verification/ServerLifecycle.v ===== *)
(** * ServerLifecycle: start, stop and destruction of the server across its threads
    (src/TcpServer.cpp, src/RetentionManager.cpp, src/server_main.cpp)

    The threads of the server process and what they share for starting and stopping: the
    main thread ([main] from the construction of the server on, [TcpServer::start], the
    event loop, [wait_until_stopped] and the destructors), the thread of [reaper_loop], the
    thread of the retention manager, and the threads in which the operating system runs
    [console_ctrl_handler].  One step is one access to the state the threads share (the
    [request_stop] of the destructor is one step); any thread may take the next one.  What a
    round of the event loop does to the connections is the subject of TcpServer.v, how the
    workers end that of WorkerPool.v; here the joining of the workers is one step, and so is
    a round without SHUTDOWN requests. *)
From S2P Require Import Prelude.

(** ** The threads *)

(** The main thread, named by what it does next.  The argument of the states of
    [wait_until_stopped] is whether it was called by the destructor. *)
Inductive MainPc :=
| M_publish                       (* g_server_instance = &server *)
| M_listen                        (* start: create_listener, set_non_blocking *)
| M_set_running                   (* m_running = true *)
| M_reset                         (* m_shutdown_requested = false *)
| M_spawn                         (* m_reaper_thread = std::thread(...) *)
| M_loop                          (* event_loop: while (!m_shutdown_requested.load()) *)
| M_poll                          (* WSAPoll(..., 250) *)
| M_round                         (* the rest of the round *)
| M_round_notify                  (* in its request_stop, for a SHUTDOWN frame: notify *)
| M_wait (dtor : bool)            (* wait_until_stopped: if (!m_running.load()) return *)
| M_drain (dtor : bool) (elapsed : Z)  (* the wait for requests in flight, in milliseconds *)
| M_close (dtor : bool)           (* the last sends; close every connection *)
| M_pool (dtor : bool)            (* m_thread_pool->stop_and_join() *)
| M_notify (dtor : bool)          (* if joinable: m_reaper_cv.notify_all() *)
| M_join (dtor : bool)            (* m_reaper_thread.join() *)
| M_stopped (dtor : bool)         (* m_running = false *)
| M_retention_stop                (* retention_mgr.stop(): m_running.store(false) *)
| M_retention_join                (* m_thread.join() *)
| M_clear                         (* g_server_instance = nullptr *)
| M_destroy                       (* ~TcpServer: request_stop() *)
| M_destroyed                     (* the server is gone; ~RetentionManager: stop() *)
| M_destroyed_join                (* its join *)
| M_return                        (* return 0, or the catch block and return 1 *)
| M_exited (code : Z).

(** [reaper_loop]. *)
Inductive ReaperPc :=
| R_none                          (* no thread *)
| R_test                          (* while (!m_shutdown_requested.load()) *)
| R_pred                          (* wait_for: the predicate *)
| R_blocked                       (* wait_for: asleep *)
| R_check                         (* if (m_shutdown_requested.load()) break *)
| R_expire                        (* m_coordinator->expire_members() *)
| R_done                          (* returned *)
| R_joined.

(** [RetentionManager::thread_loop]. *)
Inductive RetentionPc :=
| T_outer                         (* while (m_running.load()) *)
| T_sleep (elapsed : Z)           (* the inner loop *)
| T_check                         (* if (!m_running.load()) break *)
| T_pass                          (* run_one_pass(false) *)
| T_done
| T_joined.

(** [console_ctrl_handler], and the [request_stop] it calls. *)
Inductive ConsolePc :=
| H_read                          (* if (g_server_instance) *)
| H_set                           (* m_shutdown_requested = true *)
| H_notify                        (* m_reaper_cv.notify_all() *)
| H_wakeup                        (* m_wakeup.notify() *)
| H_done.

Record Lifecycle := mkLifecycle {
  lc_main : MainPc;
  lc_reaper : ReaperPc;
  lc_retention : RetentionPc;
  lc_console : list ConsolePc;
  lc_published : bool;            (* g_server_instance is not null *)
  lc_running : bool;              (* TcpServer::m_running *)
  lc_shutdown : bool;             (* m_shutdown_requested *)
  lc_retention_running : bool;    (* RetentionManager::m_running *)
  lc_thrown : bool;               (* an exception unwinds the stack of main *)
  lc_dangling : bool;             (* a handler has used a server that is gone *)
}.

Definition set_main (p : MainPc) (s : Lifecycle) : Lifecycle :=
  mkLifecycle p (lc_reaper s) (lc_retention s) (lc_console s) (lc_published s) (lc_running s) (lc_shutdown s)
    (lc_retention_running s) (lc_thrown s) (lc_dangling s).
Definition set_reaper (r : ReaperPc) (s : Lifecycle) : Lifecycle :=
  mkLifecycle (lc_main s) r (lc_retention s) (lc_console s) (lc_published s) (lc_running s) (lc_shutdown s)
    (lc_retention_running s) (lc_thrown s) (lc_dangling s).
Definition set_retention (t : RetentionPc) (s : Lifecycle) : Lifecycle :=
  mkLifecycle (lc_main s) (lc_reaper s) t (lc_console s) (lc_published s) (lc_running s) (lc_shutdown s)
    (lc_retention_running s) (lc_thrown s) (lc_dangling s).
Definition set_console (h : list ConsolePc) (s : Lifecycle) : Lifecycle :=
  mkLifecycle (lc_main s) (lc_reaper s) (lc_retention s) h (lc_published s) (lc_running s) (lc_shutdown s)
    (lc_retention_running s) (lc_thrown s) (lc_dangling s).
Definition set_published (b : bool) (s : Lifecycle) : Lifecycle :=
  mkLifecycle (lc_main s) (lc_reaper s) (lc_retention s) (lc_console s) b (lc_running s) (lc_shutdown s)
    (lc_retention_running s) (lc_thrown s) (lc_dangling s).
Definition set_running (b : bool) (s : Lifecycle) : Lifecycle :=
  mkLifecycle (lc_main s) (lc_reaper s) (lc_retention s) (lc_console s) (lc_published s) b (lc_shutdown s)
    (lc_retention_running s) (lc_thrown s) (lc_dangling s).
Definition set_shutdown (b : bool) (s : Lifecycle) : Lifecycle :=
  mkLifecycle (lc_main s) (lc_reaper s) (lc_retention s) (lc_console s) (lc_published s) (lc_running s) b
    (lc_retention_running s) (lc_thrown s) (lc_dangling s).
Definition set_retention_running (b : bool) (s : Lifecycle) : Lifecycle :=
  mkLifecycle (lc_main s) (lc_reaper s) (lc_retention s) (lc_console s) (lc_published s) (lc_running s) (lc_shutdown s)
    b (lc_thrown s) (lc_dangling s).
Definition set_thrown (s : Lifecycle) : Lifecycle :=
  mkLifecycle (lc_main s) (lc_reaper s) (lc_retention s) (lc_console s) (lc_published s) (lc_running s) (lc_shutdown s)
    (lc_retention_running s) true (lc_dangling s).

(** A thread of the handler uses the server. *)
Definition server_gone (s : Lifecycle) : bool :=
  match lc_main s with
  | M_destroyed | M_destroyed_join | M_return | M_exited _ => true
  | _ => false
  end.
Definition use_server (s : Lifecycle) : Lifecycle :=
  mkLifecycle (lc_main s) (lc_reaper s) (lc_retention s) (lc_console s) (lc_published s) (lc_running s) (lc_shutdown s)
    (lc_retention_running s) (lc_thrown s) (lc_dangling s || server_gone s).

(** [RetentionManager::start]; a thread that was never started is like one that was joined. *)
Definition retention_start (s : Lifecycle) : Lifecycle :=
  if lc_retention_running s then s else set_retention T_outer (set_retention_running true s).

(** When main has constructed the server, the retention thread runs. *)
Definition lc_init : Lifecycle :=
  retention_start (mkLifecycle M_publish R_none T_joined [] false false false false false false).

(** ** Steps *)

(** [m_reaper_cv.notify_all()] wakes the reaper if it sleeps; a notification that comes
    earlier has no effect. *)
Definition notify_reaper (s : Lifecycle) : Lifecycle :=
  match lc_reaper s with R_blocked => set_reaper R_pred s | _ => s end.

Inductive Step :=
| main_step                       (* the calls of the main thread succeed *)
| main_throws                     (* create_listener or std::thread throws *)
| poll_fails                      (* WSAPoll returns an error *)
| shutdown_frame                  (* a SHUTDOWN request arrived: m_shutdown_requested = true *)
| drain_idle                      (* no request is in flight or pending *)
| drain_round (ms : Z)            (* a round of the wait, with the time it takes *)
| reaper_step
| reaper_timeout                  (* reaper_interval_ms have passed *)
| reaper_spurious                 (* the reaper wakes without a notification *)
| retention_step
| console_signal                  (* Ctrl-C, Ctrl-Break or the window is closed *)
| console_step (i : nat).

Section steps.
(** Whether there is a coordinator, and [retention_check_interval_ms]. *)
Context (coordinator : bool) (interval_ms : Z).

(** What follows [wait_until_stopped]. *)
Definition after_wait (dtor : bool) : MainPc := if dtor then M_destroyed else M_retention_stop.

(** [TcpServer::start], up to the event loop. *)
Definition start_next (s : Lifecycle) : option Lifecycle :=
  match lc_main s with
  | M_listen => Some (set_main M_set_running s)
  | M_set_running => Some (set_main M_reset (set_running true s))
  | M_reset => Some (set_main M_spawn (set_shutdown false s))
  | M_spawn => Some (set_main M_loop (if coordinator then set_reaper R_test s else s))
  | _ => None
  end.

(** A round with SHUTDOWN requests: [request_stop] sets the flag and notifies the reaper.
    (Further ones of the same round do that again, which changes nothing.) *)
Definition round_shutdown (s : Lifecycle) : option Lifecycle :=
  match lc_main s with M_round => Some (set_main M_round_notify (set_shutdown true s)) | _ => None end.

Definition event_loop_next (s : Lifecycle) : option Lifecycle :=
  match lc_main s with
  | M_loop => Some (set_main (if lc_shutdown s then M_wait false else M_poll) s)
  | M_poll => Some (set_main M_round s)
  | M_round => Some (set_main M_loop s)
  | M_round_notify => Some (set_main M_loop (notify_reaper s))
  | _ => None
  end.

(** [wait_until_stopped]. *)
Definition wait_next (s : Lifecycle) : option Lifecycle :=
  match lc_main s with
  | M_wait dtor => Some (set_main (if lc_running s then M_drain dtor 0 else after_wait dtor) s)
  | M_drain dtor elapsed => if 5000 <=? elapsed then Some (set_main (M_close dtor) s) else None
  | M_close dtor => Some (set_main (M_pool dtor) s)
  | M_pool dtor => Some (set_main (M_notify dtor) s)
  | M_notify dtor =>
      match lc_reaper s with
      | R_none | R_joined => Some (set_main (M_stopped dtor) s)
      | _ => Some (set_main (M_join dtor) (notify_reaper s))
      end
  | M_join dtor =>
      match lc_reaper s with
      | R_done => Some (set_main (M_stopped dtor) (set_reaper R_joined s))
      | _ => None
      end
  | M_stopped dtor => Some (set_main (after_wait dtor) (set_running false s))
  | _ => None
  end.

(** [RetentionManager::stop], by what comes after the call and during the join. *)
Definition retention_stop (joining after : MainPc) (s : Lifecycle) : option Lifecycle :=
  if lc_retention_running s then Some (set_main joining (set_retention_running false s))
  else Some (set_main after s).

Definition retention_join (after : MainPc) (s : Lifecycle) : option Lifecycle :=
  match lc_retention s with
  | T_done => Some (set_main after (set_retention T_joined s))
  | _ => None
  end.

(** [main], and the destructors at its end. *)
Definition main_next (s : Lifecycle) : option Lifecycle :=
  match lc_main s with
  | M_publish => Some (set_main M_listen (set_published true s))
  | M_listen | M_set_running | M_reset | M_spawn => start_next s
  | M_loop | M_poll | M_round | M_round_notify => event_loop_next s
  | M_wait _ | M_drain _ _ | M_close _ | M_pool _ | M_notify _ | M_join _ | M_stopped _ => wait_next s
  | M_retention_stop => retention_stop M_retention_join M_clear s
  | M_retention_join => retention_join M_clear s
  | M_clear => Some (set_main M_destroy (set_published false s))
  | M_destroy => Some (set_main (M_wait true) (notify_reaper (set_shutdown true s)))
  | M_destroyed => retention_stop M_destroyed_join M_return s
  | M_destroyed_join => retention_join M_return s
  | M_return => Some (set_main (M_exited (if lc_thrown s then 1 else 0)) s)
  | M_exited _ => None
  end.

(** An exception in [start] goes to the destructors, and then to the handler in [main];
    the pointer stays. *)
Definition main_throw (s : Lifecycle) : option Lifecycle :=
  match lc_main s with
  | M_listen | M_spawn => Some (set_main M_destroy (set_thrown s))
  | _ => None
  end.

Definition reaper_next (s : Lifecycle) : option Lifecycle :=
  match lc_reaper s with
  | R_test => Some (set_reaper (if lc_shutdown s then R_done else R_pred) s)
  | R_pred => Some (set_reaper (if lc_shutdown s then R_check else R_blocked) s)
  | R_check => Some (set_reaper (if lc_shutdown s then R_done else R_expire) s)
  | R_expire => Some (set_reaper R_test s)
  | _ => None
  end.

Definition retention_next (s : Lifecycle) : option Lifecycle :=
  match lc_retention s with
  | T_outer => Some (set_retention (if lc_retention_running s then T_sleep 0 else T_done) s)
  | T_sleep elapsed =>
      if (elapsed <? interval_ms) && lc_retention_running s
      then Some (set_retention (T_sleep (elapsed + Z.min 100 (interval_ms - elapsed))) s)
      else Some (set_retention T_check s)
  | T_check => Some (set_retention (if lc_retention_running s then T_pass else T_done) s)
  | T_pass => Some (set_retention T_outer s)
  | _ => None
  end.

Definition console_next (i : nat) (s : Lifecycle) : option Lifecycle :=
  match lc_console s !! i with
  | Some H_read => Some (set_console (<[i := if lc_published s then H_set else H_done]> (lc_console s)) s)
  | Some H_set => Some (set_console (<[i := H_notify]> (lc_console s)) (set_shutdown true (use_server s)))
  | Some H_notify => Some (set_console (<[i := H_wakeup]> (lc_console s)) (notify_reaper (use_server s)))
  | Some H_wakeup => Some (set_console (<[i := H_done]> (lc_console s)) (use_server s))
  | _ => None
  end.

(** After [main] has returned the process is gone. *)
Definition lc_step (e : Step) (s : Lifecycle) : option Lifecycle :=
  match lc_main s with
  | M_exited _ => None
  | pc =>
      match e with
      | main_step => main_next s
      | main_throws => main_throw s
      | poll_fails => match pc with M_poll => Some (set_main (M_wait false) s) | _ => None end
      | shutdown_frame => round_shutdown s
      | drain_idle => match pc with M_drain dtor _ => Some (set_main (M_close dtor) s) | _ => None end
      | drain_round ms =>
          match pc with
          | M_drain dtor elapsed =>
              if (elapsed <? 5000) && (20 <=? ms) then Some (set_main (M_drain dtor (elapsed + ms)) s) else None
          | _ => None
          end
      | reaper_step => reaper_next s
      | reaper_timeout => match lc_reaper s with R_blocked => Some (set_reaper R_check s) | _ => None end
      | reaper_spurious => match lc_reaper s with R_blocked => Some (set_reaper R_pred s) | _ => None end
      | retention_step => retention_next s
      | console_signal => Some (set_console (lc_console s ++ [H_read]) s)
      | console_step i => console_next i s
      end
  end.

Fixpoint lc_run (es : list Step) (s : Lifecycle) : option Lifecycle :=
  match es with
  | [] => Some s
  | e :: es => s' ← lc_step e s; lc_run es s'
  end.

End steps.

(** ** Which threads are left *)

Definition reaper_over (s : Lifecycle) : Prop := lc_reaper s = R_none \/ lc_reaper s = R_joined.

Definition reaper_phase (s : Lifecycle) : Prop :=
  match lc_main s with
  | M_publish | M_listen | M_set_running => lc_reaper s = R_none
  | M_reset | M_spawn => lc_reaper s = R_none /\ lc_running s = true
  | M_loop | M_poll | M_round | M_round_notify | M_drain _ _ | M_close _ | M_pool _ | M_notify _ => lc_running s = true
  | M_wait _ | M_destroy => lc_running s = true \/ reaper_over s
  | M_join _ => ~ reaper_over s
  | _ => reaper_over s
  end.

Definition retention_phase (s : Lifecycle) : Prop :=
  match lc_main s with
  | M_retention_join | M_destroyed_join => lc_retention_running s = false /\ lc_retention s <> T_joined
  | M_return | M_exited _ => lc_retention s = T_joined
  | _ => if lc_retention_running s then lc_retention s <> T_done /\ lc_retention s <> T_joined
         else lc_retention s = T_joined
  end.

Ltac lc_hyp E :=
  repeat match type of E with
  | Some _ = Some _ => injection E as E
  | None = Some _ => discriminate E
  | context [match ?x with _ => _ end] => destruct x eqn:?
  end.

Section invariant.
Context (coordinator : bool) (interval_ms : Z).

(** What the threads other than the main one change. *)
Lemma reaper_next_frame s s' : reaper_next s = Some s' ->
  exists r, s' = set_reaper r s /\ ~ reaper_over s /\ r <> R_none /\ r <> R_joined.
Proof.
  unfold reaper_next, reaper_over. destruct (lc_reaper s); intros [= <-]; eexists; (split; [done|]);
    repeat split; try destruct (lc_shutdown s); naive_solver.
Qed.

Lemma retention_next_frame s s' : retention_next interval_ms s = Some s' ->
  exists t, s' = set_retention t s /\ lc_retention s <> T_done /\ lc_retention s <> T_joined /\ t <> T_joined /\
    (lc_retention_running s = true -> t <> T_done).
Proof.
  unfold retention_next. destruct (lc_retention s) as [|e| | | |]; [| |..|done|done].
  2: destruct (_ && _).
  all: intros [= <-]; eexists; (split; [done|]); repeat split; try destruct (lc_retention_running s); naive_solver.
Qed.

Lemma console_next_frame i s s' : console_next i s = Some s' ->
  lc_main s' = lc_main s /\ lc_retention s' = lc_retention s /\ lc_retention_running s' = lc_retention_running s /\
  lc_running s' = lc_running s /\ (lc_reaper s' = lc_reaper s \/ lc_reaper s = R_blocked /\ lc_reaper s' = R_pred) /\
  (lc_shutdown s = true -> lc_shutdown s' = true).
Proof.
  unfold console_next, notify_reaper, use_server. destruct (lc_console s !! i) as [[]|]; intros [= <-]; cbn.
  all: try destruct (lc_reaper s); cbn; naive_solver.
Qed.

Lemma reaper_alive_keeps s r : ~ reaper_over s -> r <> R_none -> r <> R_joined ->
  reaper_phase s -> reaper_phase (set_reaper r s).
Proof.
  unfold reaper_phase, reaper_over. cbn. intros Ho H1 H2. destruct (lc_main s); naive_solver.
Qed.

Lemma reaper_phase_main s s' : main_next coordinator s = Some s' -> reaper_phase s -> reaper_phase s'.
Proof.
  destruct s as [m r t h pu ru sh rr th da]. unfold reaper_phase, reaper_over.
  unfold main_next, start_next, event_loop_next, wait_next, retention_stop, retention_join, after_wait, notify_reaper. intros E. destruct m; cbn in *; lc_hyp E; subst; cbn in *; naive_solver.
Qed.

Lemma retention_phase_main s s' : main_next coordinator s = Some s' -> retention_phase s -> retention_phase s'.
Proof.
  destruct s as [m r t h pu ru sh rr th da]. unfold retention_phase.
  unfold main_next, start_next, event_loop_next, wait_next, retention_stop, retention_join, after_wait, notify_reaper. intros E. destruct m; cbn in *; lc_hyp E; subst; cbn in *; naive_solver.
Qed.

(** The steps other than [main_step], by the thread that takes them. *)
Lemma lc_step_inv e s s' : lc_step coordinator interval_ms e s = Some s' ->
  match e with
  | main_step => main_next coordinator s = Some s'
  | main_throws => (lc_main s = M_listen \/ lc_main s = M_spawn) /\ s' = set_main M_destroy (set_thrown s)
  | poll_fails => lc_main s = M_poll /\ s' = set_main (M_wait false) s
  | shutdown_frame => lc_main s = M_round /\ s' = set_main M_round_notify (set_shutdown true s)
  | drain_idle => exists dtor e, lc_main s = M_drain dtor e /\ s' = set_main (M_close dtor) s
  | drain_round ms => exists dtor e, lc_main s = M_drain dtor e /\ e < 5000 /\ 20 <= ms /\
      s' = set_main (M_drain dtor (e + ms)) s
  | reaper_step => reaper_next s = Some s'
  | reaper_timeout => lc_reaper s = R_blocked /\ s' = set_reaper R_check s
  | reaper_spurious => lc_reaper s = R_blocked /\ s' = set_reaper R_pred s
  | retention_step => retention_next interval_ms s = Some s'
  | console_signal => s' = set_console (lc_console s ++ [H_read]) s
  | console_step i => console_next i s = Some s'
  end.
Proof.
  unfold lc_step, main_throw, round_shutdown. destruct e.
  6: { destruct (lc_main s) as [| | | | | | | | | |b e| | | | | | | | | | | | |]; try done.
       destruct (e <? 5000) eqn:E1, (20 <=? ms) eqn:E2; intros [= <-]. zbool. by eexists _, _. }
  7, 8: destruct (lc_reaper s) eqn:Hr.
  all: destruct (lc_main s); try done; intros H; simplify_eq; naive_solver.
Qed.

Lemma reaper_phase_step e s s' : lc_step coordinator interval_ms e s = Some s' -> reaper_phase s -> reaper_phase s'.
Proof.
  intros E HP. apply lc_step_inv in E. destruct e.
  - by eapply reaper_phase_main.
  - destruct E as [Hm ->]. unfold reaper_phase, reaper_over in *. cbn. destruct Hm as [Hm|Hm]; rewrite Hm in HP; naive_solver.
  - destruct E as [Hm ->]. unfold reaper_phase in *. cbn. rewrite Hm in HP. by left.
  - destruct E as [Hm ->]. unfold reaper_phase in *. cbn. by rewrite Hm in HP.
  - destruct E as (b & e & Hm & ->). unfold reaper_phase in *. cbn. by rewrite Hm in HP.
  - destruct E as (b & e & Hm & _ & _ & ->). unfold reaper_phase in *. cbn. by rewrite Hm in HP.
  - apply reaper_next_frame in E as (r & -> & ? & ? & ?). by apply reaper_alive_keeps.
  - destruct E as [Hr ->]. apply reaper_alive_keeps; [|done..]. unfold reaper_over. rewrite Hr. naive_solver.
  - destruct E as [Hr ->]. apply reaper_alive_keeps; [|done..]. unfold reaper_over. rewrite Hr. naive_solver.
  - apply retention_next_frame in E as (t & -> & _). done.
  - by subst s'.
  - apply console_next_frame in E as (Hm & _ & _ & Hr & Hre & _). unfold reaper_phase, reaper_over in *.
    rewrite Hm, Hr. destruct Hre as [->|[He He']]; [done|]. rewrite He in HP. rewrite He'.
    destruct (lc_main s); naive_solver.
Qed.

Lemma retention_phase_step e s s' :
  lc_step coordinator interval_ms e s = Some s' -> retention_phase s -> retention_phase s'.
Proof.
  intros E HP. apply lc_step_inv in E. destruct e.
  - by eapply retention_phase_main.
  - destruct E as [Hm ->]. unfold retention_phase in *. cbn. by destruct Hm as [Hm|Hm]; rewrite Hm in HP.
  - destruct E as [Hm ->]. unfold retention_phase in *. cbn. by rewrite Hm in HP.
  - destruct E as [Hm ->]. unfold retention_phase in *. cbn. by rewrite Hm in HP.
  - destruct E as (b & e & Hm & ->). unfold retention_phase in *. cbn. by rewrite Hm in HP.
  - destruct E as (b & e & Hm & _ & _ & ->). unfold retention_phase in *. cbn. by rewrite Hm in HP.
  - by apply reaper_next_frame in E as (r & -> & _).
  - by destruct E as [_ ->].
  - by destruct E as [_ ->].
  - apply retention_next_frame in E as (t & -> & H1 & H2 & H3 & H4). unfold retention_phase in *. cbn.
    destruct (lc_main s), (lc_retention_running s); naive_solver.
  - by subst s'.
  - apply console_next_frame in E as (Hm & Ht & Hrr & _). unfold retention_phase in *. by rewrite Hm, Ht, Hrr.
Qed.

(** An invariant of the steps holds along a run. *)
Lemma lc_run_inv (P : Lifecycle -> Prop) (ok : Step -> Prop) :
  (forall e s s', ok e -> lc_step coordinator interval_ms e s = Some s' -> P s -> P s') ->
  forall es s s', Forall ok es -> lc_run coordinator interval_ms es s = Some s' -> P s -> P s'.
Proof.
  intros Hstep es. induction es as [|e es IH]; intros s s' Hok Hr HP; cbn in Hr; [by simplify_eq|].
  apply list.Forall_cons in Hok as [He Hok]. destruct (lc_step coordinator interval_ms e s) as [s1|] eqn:E; [|done].
  eapply IH; [done|exact Hr|]. by eapply Hstep.
Qed.

(** The wait for requests in flight has lasted for some time. *)
Definition lc_elapsed_ok (s : Lifecycle) : Prop :=
  match lc_main s with M_drain _ elapsed => 0 <= elapsed | _ => True end.

Lemma elapsed_ok_step e s s' : lc_step coordinator interval_ms e s = Some s' -> lc_elapsed_ok s -> lc_elapsed_ok s'.
Proof.
  intros E HP. apply lc_step_inv in E. destruct e.
  - unfold main_next, start_next, event_loop_next, wait_next, retention_stop, retention_join, after_wait, notify_reaper in E. unfold lc_elapsed_ok in *.
    destruct (lc_main s); lc_hyp E; subst; cbn; done.
  - by destruct E as [_ ->].
  - by destruct E as [_ ->].
  - by destruct E as [_ ->].
  - by destruct E as (b & e & _ & ->).
  - destruct E as (b & e & Hm & _ & Hms & ->). unfold lc_elapsed_ok in *. rewrite Hm in HP. cbn. lia.
  - by apply reaper_next_frame in E as (r & -> & _).
  - by destruct E as [_ ->].
  - by destruct E as [_ ->].
  - by apply retention_next_frame in E as (t & -> & _).
  - by subst s'.
  - apply console_next_frame in E as (Hm & _). unfold lc_elapsed_ok. by rewrite Hm.
Qed.

Definition lc_inv (s : Lifecycle) : Prop := reaper_phase s /\ retention_phase s /\ lc_elapsed_ok s.

Lemma lc_inv_step e s s' : lc_step coordinator interval_ms e s = Some s' -> lc_inv s -> lc_inv s'.
Proof.
  intros E (? & ? & ?).
  split_and!; [by eapply reaper_phase_step|by eapply retention_phase_step|by eapply elapsed_ok_step].
Qed.

Lemma lc_inv_run es s s' : lc_run coordinator interval_ms es s = Some s' -> lc_inv s -> lc_inv s'.
Proof.
  intros Hr. eapply (lc_run_inv lc_inv (fun _ => True)); [|by apply list.Forall_forall|exact Hr].
  intros e s1 s2 _. apply lc_inv_step.
Qed.

Lemma lc_inv_init : lc_inv lc_init.
Proof. done. Qed.

End invariant.

(** ** The end *)

(** The stop was requested, and [start] will not take it back. *)
Definition stopping (s : Lifecycle) : bool :=
  lc_shutdown s &&
  match lc_main s with M_publish | M_listen | M_set_running | M_reset => false | _ => true end.

(** Steps that bring the end nearer: not the passes of the retention thread before it is told
    to stop, and not the threads of the console. *)
Definition productive (e : Step) (s : Lifecycle) : bool :=
  match e with
  | console_signal | console_step _ => false
  | retention_step => negb (lc_retention_running s)
  | _ => true
  end.

(** Rounds of the wait that are left: each sleeps for 20 ms. *)
Definition rounds_left (elapsed : Z) : nat := Z.to_nat ((5000 - elapsed + 19) / 20).

Definition main_rank (m : MainPc) : nat :=
  match m with
  | M_publish | M_listen | M_set_running | M_reset | M_spawn => 530
  | M_poll => 525 | M_round => 524 | M_round_notify => 523 | M_loop => 522 | M_wait false => 521
  | M_drain false e => 270 + rounds_left e
  | M_close false => 269 | M_pool false => 268 | M_notify false => 267 | M_join false => 266 | M_stopped false => 265
  | M_retention_stop => 264 | M_retention_join => 263 | M_clear => 262 | M_destroy => 261 | M_wait true => 260
  | M_drain true e => 9 + rounds_left e
  | M_close true => 8 | M_pool true => 7 | M_notify true => 6 | M_join true => 5 | M_stopped true => 4
  | M_destroyed => 3 | M_destroyed_join => 2 | M_return => 1 | M_exited _ => 0
  end.

Definition reaper_rank (r : ReaperPc) : nat :=
  match r with
  | R_blocked => 3 | R_pred => 2 | R_expire => 2 | R_test => 1 | R_check => 1 | _ => 0
  end.

Definition retention_rank (running : bool) (t : RetentionPc) : nat :=
  if running then 3 else
  match t with T_sleep _ => 2 | T_pass => 2 | T_outer => 1 | T_check => 1 | _ => 0 end.

Definition shutdown_rank (s : Lifecycle) : nat :=
  main_rank (lc_main s) + reaper_rank (lc_reaper s) + retention_rank (lc_retention_running s) (lc_retention s).

Lemma rounds_left_0 : rounds_left 0 = 250%nat.
Proof. reflexivity. Qed.

Lemma rounds_left_round e ms : e < 5000 -> 20 <= ms -> (rounds_left (e + ms) + 1 <= rounds_left e)%nat.
Proof. intros He Hm. unfold rounds_left. Z.to_euclidean_division_equations. lia. Qed.

Lemma retention_rank_stopped t : (retention_rank false t <= 2)%nat.
Proof. destruct t; cbn; lia. Qed.

Section stop.
Context (coordinator : bool) (interval_ms : Z).

Lemma stopping_main s s' : main_next coordinator s = Some s' -> lc_inv s -> stopping s = true ->
  stopping s' = true /\ (shutdown_rank s' + 1 <= shutdown_rank s)%nat.
Proof.
  intros E [HP _] Hs. unfold stopping in Hs. apply andb_true_iff in Hs as [Hsh Hm].
  destruct s as [m r t h pu ru sh rr th da]. cbn in Hsh. subst sh. unfold stopping, shutdown_rank.
  pose proof (retention_rank_stopped t) as Ht. pose proof rounds_left_0 as H0.
  unfold reaper_phase, main_next, start_next, event_loop_next, wait_next, retention_stop, retention_join, after_wait, notify_reaper in *.
  destruct m as [| | | | | | | | |b|b e|b|b|b|b|b| | | | | | | |]; cbn [lc_main lc_reaper lc_retention lc_running lc_shutdown
    lc_retention_running lc_thrown] in *; try done; try destruct b.
  all: lc_hyp E; subst; cbn - [retention_rank rounds_left Nat.add] in *; (split; [done|]); rewrite ?H0.
  all: try lia; try destruct rr; cbn in *; lia.
Qed.

(** Every step of a run that is being stopped keeps it so, and the productive ones bring it
    nearer to the end. *)
Lemma stopping_step e s s' : lc_step coordinator interval_ms e s = Some s' -> lc_inv s -> stopping s = true ->
  stopping s' = true /\ (shutdown_rank s' + (if productive e s then 1 else 0) <= shutdown_rank s)%nat.
Proof.
  intros E HI Hs. apply lc_step_inv in E. pose proof Hs as Hs0. unfold stopping in Hs.
  apply andb_true_iff in Hs as [Hsh Hm]. destruct e; cbn [productive].
  - by apply stopping_main.
  - destruct E as [Hm' ->]. unfold stopping, shutdown_rank. cbn. rewrite Hsh. split; [done|].
    destruct Hm' as [Hm'|Hm']; rewrite Hm' in Hm |- *; [done|]. cbn. lia.
  - destruct E as [Hm' ->]. unfold stopping, shutdown_rank. cbn. rewrite Hsh, Hm'. cbn. split; [done|lia].
  - destruct E as [Hm' ->]. unfold stopping, shutdown_rank. cbn. rewrite Hm'. cbn. split; [done|lia].
  - destruct E as (b & e & Hm' & ->). unfold stopping, shutdown_rank. cbn. rewrite Hsh, Hm'. cbn.
    split; [done|]. destruct b; lia.
  - destruct E as (b & e & Hm' & He & Hms & ->). unfold stopping, shutdown_rank.
    pose proof (rounds_left_round e ms He Hms). cbn - [rounds_left Nat.add]. rewrite Hsh, Hm'. cbn - [rounds_left Nat.add].
    split; [done|]. destruct b; lia.
  - unfold reaper_next in E. rewrite Hsh in E. unfold stopping, shutdown_rank.
    destruct (lc_reaper s) eqn:Hr; simplify_eq; cbn; rewrite Hsh; (split; [done|lia]).
  - destruct E as [Hr ->]. unfold stopping, shutdown_rank. cbn. rewrite Hsh, Hr. cbn. split; [done|lia].
  - destruct E as [Hr ->]. unfold stopping, shutdown_rank. cbn. rewrite Hsh, Hr. cbn. split; [done|lia].
  - destruct (lc_retention_running s) eqn:Hrr.
    + apply retention_next_frame in E as (t & -> & _). unfold stopping, shutdown_rank. cbn.
      rewrite Hsh, Hrr. cbn. split; [done|lia].
    + unfold retention_next in E. rewrite Hrr in E. unfold stopping, shutdown_rank.
      destruct (lc_retention s); rewrite ?andb_false_r in E; simplify_eq; cbn; rewrite Hsh, Hrr; cbn; (split; [done|lia]).
  - subst s'. unfold stopping, shutdown_rank. cbn. rewrite Hsh. split; [done|lia].
  - apply console_next_frame in E as (Hm' & Ht & Hrr & _ & Hr & Hs'). unfold stopping, shutdown_rank.
    rewrite Hm', Ht, Hrr, Hs' by done. split; [done|]. destruct Hr as [->|[-> ->]]; cbn; lia.
Qed.

(** A run that is being stopped is never stuck. *)
Lemma stopping_enabled s : lc_inv s -> stopping s = true -> (forall code, lc_main s <> M_exited code) ->
  exists e s', productive e s = true /\ lc_step coordinator interval_ms e s = Some s'.
Proof.
  intros (HR & HT & _) Hs Hx. unfold stopping in Hs. apply andb_true_iff in Hs as [Hsh Hm].
  unfold reaper_phase, retention_phase, reaper_over in *.
  destruct (main_next coordinator s) as [s'|] eqn:E.
  { exists main_step, s'. split; [done|]. unfold lc_step. destruct (lc_main s); naive_solver. }
  unfold main_next, start_next, event_loop_next, wait_next, retention_stop, retention_join in E.
  destruct (lc_main s) as [| | | | | | | | |b|b e|b|b|b|b|b| | | | | | | |] eqn:Em; try done.
  - destruct (5000 <=? e) eqn:Ee; [done|]. exists (drain_round 20). eexists. split; [done|].
    unfold lc_step. rewrite Em. zbool. replace (e <? 5000) with true by (symmetry; by apply Z.ltb_lt). done.
  - by destruct (lc_reaper s).
  - destruct (lc_reaper s) eqn:Er; try done; try (exfalso; apply HR; by auto).
    all: try by (exists reaper_step; eexists; split; [done|]; unfold lc_step, reaper_next; rewrite Em, Er).
    exists reaper_timeout. eexists. split; [done|]. unfold lc_step. by rewrite Em, Er.
  - by destruct (lc_retention_running s).
  - destruct HT as [Hrr HT]. exists retention_step. unfold productive, lc_step, retention_next. rewrite Em, Hrr.
    destruct (lc_retention s); try done; rewrite ?andb_false_r; by eexists.
  - by destruct (lc_retention_running s).
  - destruct HT as [Hrr HT]. exists retention_step. unfold productive, lc_step, retention_next. rewrite Em, Hrr.
    destruct (lc_retention s); try done; rewrite ?andb_false_r; by eexists.
  - by destruct (Hx code).
Qed.

(** The productive steps of a run. *)
Fixpoint productive_steps (es : list Step) (s : Lifecycle) : nat :=
  match es with
  | [] => 0
  | e :: es =>
      match lc_step coordinator interval_ms e s with
      | Some s' => (if productive e s then 1 else 0) + productive_steps es s'
      | None => 0
      end
  end.

Lemma stopping_run es : forall s s', lc_run coordinator interval_ms es s = Some s' -> lc_inv s -> stopping s = true ->
  lc_inv s' /\ stopping s' = true /\ (shutdown_rank s' + productive_steps es s <= shutdown_rank s)%nat.
Proof.
  induction es as [|e es IH]; intros s s' Hr HI Hs; cbn in Hr |- *; [simplify_eq; split_and!; [done|done|lia]|].
  destruct (lc_step coordinator interval_ms e s) as [s1|] eqn:E; [|done].
  destruct (stopping_step e s s1 E HI Hs) as [Hs1 Hr1].
  destruct (IH s1 s' Hr (lc_inv_step _ _ _ _ _ E HI) Hs1) as (? & ? & ?). split_and!; [done|done|lia].
Qed.

(** The sum of the largest ranks of the three threads. *)
Lemma shutdown_rank_max s : lc_elapsed_ok s -> (shutdown_rank s <= 536)%nat.
Proof.
  intros He. unfold shutdown_rank.
  assert (main_rank (lc_main s) <= 530)%nat.
  { unfold lc_elapsed_ok in He. destruct (lc_main s) as [| | | | | | | | |[]|[] e|[]|[]|[]|[]|[]| | | | | | | |]; cbn - [rounds_left Nat.add Nat.le].
    all: try (assert (rounds_left e <= 250)%nat by (unfold rounds_left; Z.to_euclidean_division_equations; lia)). all: lia. }
  assert (reaper_rank (lc_reaper s) <= 3)%nat by (destruct (lc_reaper s); cbn; lia).
  assert (retention_rank (lc_retention_running s) (lc_retention s) <= 3)%nat
    by (destruct (lc_retention_running s), (lc_retention s); cbn; lia).
  lia.
Qed.

End stop.

(** ** Theorems *)

(** C20: the server stops.  Once a stop was requested (by a control event or a SHUTDOWN
    request) and [start] is past the point where it clears the flag, in whatever order the
    threads run: at most 536 steps of the main thread, of the reaper and of the retention
    thread once it was told to stop remain, 250 of them for each wait for requests in
    flight; and until [main] returns one of these steps can always be taken.  Not counted
    are the passes that the retention thread makes before it is told, and the threads of
    further control events: the main thread does not wait for them, but nothing here says
    that the scheduler lets it run. *)
Theorem shutdown_bounded coordinator interval_ms es0 s es s' :
  lc_run coordinator interval_ms es0 lc_init = Some s -> stopping s = true ->
  lc_run coordinator interval_ms es s = Some s' ->
  (productive_steps coordinator interval_ms es s <= 536)%nat /\
  ((exists code, lc_main s' = M_exited code) \/
   exists e s'', productive e s' = true /\ lc_step coordinator interval_ms e s' = Some s'').
Proof.
  intros H0 Hs Hr. pose proof (lc_inv_run _ _ _ _ _ H0 lc_inv_init) as HI.
  destruct (stopping_run _ _ _ _ _ Hr HI Hs) as (HI' & Hs' & Hrank). split.
  - pose proof (shutdown_rank_max s (proj2 (proj2 HI))). lia.
  - destruct (lc_main s') eqn:Em; try (right; apply stopping_enabled; [done|done|congruence]). left. by eexists.
Qed.

(** Ctrl-C in the event loop, with the reaper asleep. *)
Definition demo_stop : list Step :=
  [main_step; main_step; main_step; main_step; main_step; main_step; reaper_step; reaper_step;
   console_signal; console_step 0; console_step 0].

(** From there to the end. *)
Definition demo_end : list Step :=
  [console_step 0; main_step; main_step; main_step; main_step; drain_round 20; drain_idle; main_step; main_step;
   main_step; reaper_step; console_step 0; reaper_step; main_step; main_step; main_step; retention_step; main_step;
   main_step; main_step; main_step; main_step; main_step].

Example shutdown_bounded_witness :
  exists s s', lc_run true 60000 demo_stop lc_init = Some s /\ lc_run true 60000 demo_end s = Some s' /\
  lc_main s' = M_exited 0 /\
  (productive_steps true 60000 demo_end s <= 536)%nat /\
  ((exists code, lc_main s' = M_exited code) \/
   exists e s'', productive e s' = true /\ lc_step true 60000 e s' = Some s'').
Proof.
  destruct (lc_run true 60000 demo_stop lc_init) as [s|] eqn:E; [|by vm_compute in E].
  destruct (lc_run true 60000 demo_end s) as [s'|] eqn:E'; [|by vm_compute in E; injection E as <-; vm_compute in E'].
  exists s, s'. split; [done|]. split; [done|]. split.
  - vm_compute in E. injection E as <-. vm_compute in E'. by injection E' as <-.
  - apply (shutdown_bounded true 60000 demo_stop s demo_end s'); [exact E| |exact E'].
    vm_compute in E. by injection E as <-.
Defined.

(** C21: no thread outlives what it uses.  In every state the process can reach, when the server
    is gone the reaper has ended and was joined, or was never started; and when [main]
    returns, the retention thread was joined. *)
Theorem threads_joined coordinator interval_ms es s :
  lc_run coordinator interval_ms es lc_init = Some s ->
  (server_gone s = true -> reaper_over s) /\
  (forall code, lc_main s = M_exited code -> lc_retention s = T_joined).
Proof.
  intros Hr. destruct (lc_inv_run _ _ _ _ _ Hr lc_inv_init) as (HR & HT & _).
  unfold reaper_phase, retention_phase, server_gone in *. split.
  - by destruct (lc_main s).
  - intros code Hm. by rewrite Hm in HT.
Qed.

Example threads_joined_witness :
  exists s, lc_run true 60000 (demo_stop ++ demo_end) lc_init = Some s /\ server_gone s = true /\
  (server_gone s = true -> reaper_over s) /\
  (forall code, lc_main s = M_exited code -> lc_retention s = T_joined).
Proof.
  destruct (lc_run true 60000 (demo_stop ++ demo_end) lc_init) as [s|] eqn:E; [|by vm_compute in E].
  exists s. split; [done|]. split.
  - vm_compute in E. by injection E as <-.
  - exact (threads_joined true 60000 (demo_stop ++ demo_end) s E).
Defined.

(** The server is in its event loop, and no stop was requested or is under way. *)
Definition serving (s : Lifecycle) : Prop :=
  (lc_main s = M_loop \/ lc_main s = M_poll \/ lc_main s = M_round) /\ lc_shutdown s = false /\
  Forall (fun h => h = H_done) (lc_console s).

(** Nothing happens from outside. *)
Definition undisturbed (e : Step) : Prop := e <> console_signal /\ e <> poll_fails /\ e <> shutdown_frame.

Lemma console_over i s s' : Forall (fun h => h = H_done) (lc_console s) -> console_next i s <> Some s'.
Proof.
  intros Hf. unfold console_next. destruct (lc_console s !! i) as [h|] eqn:E; [|done].
  rewrite list.Forall_forall in Hf. by rewrite (Hf h (list_elem_of_lookup_2 _ _ _ E)).
Qed.

Lemma serving_step coordinator interval_ms e s s' : undisturbed e ->
  lc_step coordinator interval_ms e s = Some s' -> serving s -> serving s'.
Proof.
  intros (Hc & Hp & Hf) E (Hm & Hsh & Hh). apply lc_step_inv in E. destruct e; try done.
  - unfold main_next, event_loop_next in E. rewrite Hsh in E. unfold serving.
    destruct Hm as [Hm|[Hm|Hm]]; rewrite !Hm in E; injection E as <-; cbn; auto.
  - destruct E as [[E|E] _], Hm as [Hm|[Hm|Hm]]; congruence.
  - destruct E as (? & ? & E & _), Hm as [Hm|[Hm|Hm]]; congruence.
  - destruct E as (? & ? & E & _), Hm as [Hm|[Hm|Hm]]; congruence.
  - by apply reaper_next_frame in E as (r & -> & _).
  - by destruct E as [_ ->].
  - by destruct E as [_ ->].
  - by apply retention_next_frame in E as (t & -> & _).
  - by apply console_over in E.
Qed.

(** A Ctrl-C between the publication of the pointer and the reset in [start]. *)
Definition early_stop : list Step :=
  [main_step; main_step; main_step; console_signal; console_step 0; console_step 0; console_step 0; console_step 0;
   main_step; main_step].

Definition early_stopped : Lifecycle :=
  mkLifecycle M_loop R_test T_outer [H_done] true true false true false false.

(** A stop requested too early is lost.  [start] creates the listener and then clears the
    flag: a Ctrl-C whose handler ran in between, to its end and without an error, has no
    effect.  The server serves, and without another control event, a SHUTDOWN request or an
    error of WSAPoll it does so for ever. *)
Theorem early_stop_lost interval_ms :
  exists s, lc_run true interval_ms early_stop lc_init = Some s /\ lc_console s = [H_done] /\ lc_dangling s = false /\
    forall es s', Forall undisturbed es -> lc_run true interval_ms es s = Some s' -> serving s'.
Proof.
  exists early_stopped. split_and!; [by vm_compute|done|done|]. intros es s' Hes Hr.
  assert (serving early_stopped) as H0 by (split; [by left|]; split; [done|]; by repeat constructor).
  revert Hes Hr H0. apply (lc_run_inv true interval_ms serving undisturbed). intros e s1 s2. apply serving_step.
Qed.

(** The main thread is in [wait_until_stopped] and the reaper goes on. *)
Definition hanging (s : Lifecycle) : Prop :=
  match lc_main s with
  | M_wait false | M_drain false _ | M_close false | M_pool false | M_notify false | M_join false => True
  | _ => False
  end /\ lc_running s = true /\ lc_shutdown s = false /\ Forall (fun h => h = H_done) (lc_console s) /\
  lc_reaper s <> R_done /\ ~ reaper_over s.

Lemma hanging_main coordinator s s' : main_next coordinator s = Some s' -> hanging s -> hanging s'.
Proof.
  intros E (Hm & Hru & Hsh & Hh & Hd & Ho). unfold hanging, reaper_over, main_next, wait_next, notify_reaper in *.
  destruct (lc_main s) as [| | | | | | | | |[]|[] e|[]|[]|[]|[]|[]| | | | | | | |]; try done; rewrite ?Hru in E.
  - injection E as <-. cbn. naive_solver.
  - destruct (5000 <=? e); [|done]. injection E as <-. cbn. naive_solver.
  - injection E as <-. cbn. naive_solver.
  - injection E as <-. cbn. naive_solver.
  - destruct (lc_reaper s) eqn:Er; try naive_solver; injection E as <-; cbn; rewrite ?Er; naive_solver.
  - destruct (lc_reaper s); naive_solver.
Qed.

Lemma hanging_step coordinator interval_ms e s s' : e <> console_signal ->
  lc_step coordinator interval_ms e s = Some s' -> hanging s -> hanging s'.
Proof.
  intros Hc E H. apply lc_step_inv in E. pose proof H as (Hm & Hru & Hsh & Hh & Hd & Ho). destruct e; try done.
  - by eapply hanging_main.
  - destruct E as [[E|E] _]; by rewrite E in Hm.
  - destruct E as [E _]; by rewrite E in Hm.
  - destruct E as [E _]; by rewrite E in Hm.
  - destruct E as (b & e & E & ->). rewrite E in Hm. unfold hanging, reaper_over in *. cbn. by destruct b.
  - destruct E as (b & e & E & _ & _ & ->). rewrite E in Hm. unfold hanging, reaper_over in *. cbn. by destruct b.
  - unfold reaper_next in E. rewrite Hsh in E. unfold hanging, reaper_over in *.
    destruct (lc_reaper s); try done; injection E as <-; cbn; naive_solver.
  - destruct E as [_ ->]. unfold hanging, reaper_over in *. cbn. naive_solver.
  - destruct E as [_ ->]. unfold hanging, reaper_over in *. cbn. naive_solver.
  - apply retention_next_frame in E as (t & -> & _). done.
  - by apply console_over in E.
Qed.

(** An error of WSAPoll in the first round. *)
Definition poll_error : list Step :=
  [main_step; main_step; main_step; main_step; main_step; main_step; poll_fails].

Definition poll_failed : Lifecycle :=
  mkLifecycle (M_wait false) R_test T_outer [] true true false true false false.

(** An error of WSAPoll leaves a process that serves nobody and does not end.  The event
    loop ends without a stop request, [wait_until_stopped] closes the listener and the
    connections and then joins the reaper, which waits for a flag that nobody sets: without
    a control event the main thread never gets past the join. *)
Theorem poll_error_never_stops interval_ms :
  exists s, lc_run true interval_ms poll_error lc_init = Some s /\ lc_console s = [] /\
    forall es s', Forall (fun e => e <> console_signal) es -> lc_run true interval_ms es s = Some s' -> hanging s'.
Proof.
  exists poll_failed. split_and!; [by vm_compute|done|]. intros es s' Hes Hr.
  assert (hanging poll_failed) as H0 by (unfold hanging, reaper_over; cbn; naive_solver).
  revert Hes Hr H0. apply (lc_run_inv true interval_ms hanging (fun e => e <> console_signal)).
  intros e s1 s2. apply hanging_step.
Qed.

(** The handler can use a server that is gone.  The pointer is cleared only when [start]
    returns, so that it still points to the destroyed server when [start] throws (the port is
    in use); and a handler that has read it can be overtaken by the end of a normal
    shutdown. *)
Theorem handler_uses_destroyed_server interval_ms :
  (exists es s, lc_run true interval_ms es lc_init = Some s /\ lc_thrown s = true /\ lc_dangling s = true) /\
  (exists es s, lc_run true interval_ms es lc_init = Some s /\ lc_thrown s = false /\ lc_dangling s = true).
Proof.
  split.
  - exists [main_step; main_throws; main_step; main_step; console_signal; console_step 0; console_step 0].
    eexists. split; [vm_compute; reflexivity|]. done.
  - exists (demo_stop ++ console_signal :: console_step 1 :: take 22 demo_end ++ [console_step 1]).
    eexists. split; [vm_compute; reflexivity|]. done.
Qed.
