(* ===== verification/WorkerPool.v ===== *)
(** * WorkerPool: the worker threads and their queue
    (include/streamforge/TaskQueue.hpp, src/ThreadPool.cpp)

    TcpServer models the pool by what it does: a worker takes the first task, handles
    it, queues the completion.  Here is how the code does it: the task queue is guarded
    by a mutex, idle workers block on a condition variable, [push] and [stop] change the
    queue and notify afterwards, outside the lock.  A state has a position for every
    thread; a step is one critical section, one notification or one access to a shared
    flag, of any thread.  A blocked worker may also wake up by itself.

    The theorems: no wake-up is lost, so that the pool works off its queue and
    [stop_and_join] returns whatever the scheduling is; and every step of the pool is a
    step of the server's relation [serve], or invisible to it. *)
From S2P Require Import Prelude FrameCodec FileHandle MessageHandler TcpServer WakeupChannel ServerOrder ServerProgress.

(** ** The queues *)

Record TaskQueue := mkTaskQueue {
  tq_queue : list Task;
  tq_stop : bool;
}.

(** The critical section of [push]. *)
Definition TaskQueue_push (t : Task) (q : TaskQueue) : TaskQueue :=
  mkTaskQueue (tq_queue q ++ [t]) (tq_stop q).

(** The critical section of [stop]. *)
Definition TaskQueue_stop (q : TaskQueue) : TaskQueue := mkTaskQueue (tq_queue q) true.

Definition TaskQueue_size (q : TaskQueue) : Z := zlen (tq_queue q).

Definition queue_empty (q : TaskQueue) : bool := bool_decide (tq_queue q = []).

(** What [pop] does once it has the lock: it blocks again, returns false, or returns
    true with a task. *)
Inductive PopResult := pop_blocked | pop_stopped | pop_task (t : Task).

(** [None] would be [front] of an empty queue. *)
Definition TaskQueue_pop (q : TaskQueue) : option (PopResult * TaskQueue) :=
  if negb (tq_stop q || negb (queue_empty q)) then Some (pop_blocked, q)
  else if tq_stop q && queue_empty q then Some (pop_stopped, q)
  else match tq_queue q with
       | t :: l => Some (pop_task t, mkTaskQueue l (tq_stop q))
       | [] => None
       end.

Definition CompletionQueue_push (c : Completion) (q : list Completion) : list Completion := q ++ [c].

(** The loop of [pop_all], with the vector it fills. *)
Fixpoint pop_all_loop (result q : list Completion) : list Completion * list Completion :=
  match q with
  | [] => (result, [])
  | c :: q => pop_all_loop (result ++ [c]) q
  end.

Definition CompletionQueue_pop_all (q : list Completion) : list Completion * list Completion := pop_all_loop [] q.

Lemma pop_all_everything q : CompletionQueue_pop_all q = (q, []).
Proof.
  enough (forall r, pop_all_loop r q = (r ++ q, [])) as E by exact (E []).
  induction q as [|c q IH]; intros r; cbn; [by rewrite app_nil_r|]. by rewrite IH, <- app_assoc.
Qed.

(** ** Threads *)

(** A worker: about to lock the queue in [pop] (on entry, or woken); blocked in [wait];
    in [handle_request]; about to push the completion; about to exchange the flag of the
    wake-up channel; about to send its byte; returned from [worker_loop]. *)
Inductive Worker :=
  Popping | Waiting | Handling (t : Task) | Answering (c : Completion) | Notifying | Sending | Ended.

(** The I/O thread, the only caller of the pool: outside; past the test of [m_stopped]
    in [enqueue]; after the push; past the exchange of [stop_and_join]; after setting
    [m_stop]; waiting for the worker [k] to end. *)
Inductive Caller := Outside | Pushing (t : Task) | NotifyOne | Exchanged | NotifyAll | Joining (k : nat).

Record Pool := mkPool {
  p_tasks : TaskQueue;
  p_comps : list Completion;
  p_wakeup : WakeupChannel;
  p_stopped : bool;            (* m_stopped *)
  p_workers : list Worker;
  p_caller : Caller;
}.

Definition p_set_tasks (q : TaskQueue) (p : Pool) : Pool :=
  mkPool q (p_comps p) (p_wakeup p) (p_stopped p) (p_workers p) (p_caller p).
Definition p_set_comps (l : list Completion) (p : Pool) : Pool :=
  mkPool (p_tasks p) l (p_wakeup p) (p_stopped p) (p_workers p) (p_caller p).
Definition p_set_wakeup (w : WakeupChannel) (p : Pool) : Pool :=
  mkPool (p_tasks p) (p_comps p) w (p_stopped p) (p_workers p) (p_caller p).
Definition p_set_stopped (b : bool) (p : Pool) : Pool :=
  mkPool (p_tasks p) (p_comps p) (p_wakeup p) b (p_workers p) (p_caller p).
Definition p_set_workers (l : list Worker) (p : Pool) : Pool :=
  mkPool (p_tasks p) (p_comps p) (p_wakeup p) (p_stopped p) l (p_caller p).
Definition p_set_caller (c : Caller) (p : Pool) : Pool :=
  mkPool (p_tasks p) (p_comps p) (p_wakeup p) (p_stopped p) (p_workers p) c.

Definition p_set_worker (i : nat) (w : Worker) (p : Pool) : Pool := p_set_workers (<[i := w]> (p_workers p)) p.

(** The constructor starts [num_workers] threads. *)
Definition ThreadPool_new (num_workers : nat) : Pool :=
  mkPool (mkTaskQueue [] false) [] WakeupChannel_new false (replicate num_workers Popping) Outside.

(** A notification of the condition variable. *)
Definition wake (w : Worker) : Worker := match w with Waiting => Popping | _ => w end.

(** ** Calls of the I/O thread *)

(** [enqueue] up to the push. *)
Definition enqueue_call (t : Task) (p : Pool) : Pool := if p_stopped p then p else p_set_caller (Pushing t) p.

(** [stop_and_join] up to [m_task_queue.stop()]. *)
Definition stop_call (p : Pool) : Pool := if p_stopped p then p else p_set_caller Exchanged (p_set_stopped true p).

Inductive Call := call_enqueue (t : Task) | call_stop_and_join | call_pop_all.

Definition pool_call (c : Call) (p : Pool) : Pool :=
  match c with
  | call_enqueue t => enqueue_call t p
  | call_stop_and_join => stop_call p
  | call_pop_all => p_set_comps (CompletionQueue_pop_all (p_comps p)).2 p
  end.

(** ** Steps *)

Section steps.
Context {N : Winsock} {St : Type} {H : RequestHandler St}.

(** What a worker does next, when it is not blocked and has not ended. *)
Inductive worker_step (i : nat) : Pool * St -> Pool * St -> Prop :=
| worker_blocks p st q :
    p_workers p !! i = Some Popping -> TaskQueue_pop (p_tasks p) = Some (pop_blocked, q) ->
    worker_step i (p, st) (p_set_worker i Waiting (p_set_tasks q p), st)
| worker_ends p st q :
    p_workers p !! i = Some Popping -> TaskQueue_pop (p_tasks p) = Some (pop_stopped, q) ->
    worker_step i (p, st) (p_set_worker i Ended (p_set_tasks q p), st)
| worker_takes p st t q :
    p_workers p !! i = Some Popping -> TaskQueue_pop (p_tasks p) = Some (pop_task t, q) ->
    worker_step i (p, st) (p_set_worker i (Handling t) (p_set_tasks q p), st)
| worker_handles p st t resp st' bs :
    p_workers p !! i = Some (Handling t) -> handles st (t_request t) resp st' -> FrameCodec_encode resp = Some bs ->
    worker_step i (p, st) (p_set_worker i (Answering (mkCompletion (t_conn_id t) bs false)) p, st')
| worker_answers p st c :
    p_workers p !! i = Some (Answering c) ->
    worker_step i (p, st) (p_set_worker i Notifying (p_set_comps (CompletionQueue_push c (p_comps p)) p), st)
| worker_exchanges p st :
    p_workers p !! i = Some Notifying ->
    worker_step i (p, st)
      (p_set_worker i (if wc_wake_pending (p_wakeup p) then Popping else Sending)
         (p_set_wakeup (notify_exchange (p_wakeup p)) p), st)
| worker_sends p st :
    p_workers p !! i = Some Sending ->
    worker_step i (p, st) (p_set_worker i Popping (p_set_wakeup (notify_send (p_wakeup p)) p), st).

(** The rest of a call. *)
Inductive caller_step : Pool -> Pool -> Prop :=
| caller_pushes p t :
    p_caller p = Pushing t -> caller_step p (p_set_caller NotifyOne (p_set_tasks (TaskQueue_push t (p_tasks p)) p))
| caller_notifies p i :
    p_caller p = NotifyOne -> p_workers p !! i = Some Waiting ->
    caller_step p (p_set_caller Outside (p_set_worker i (wake Waiting) p))
| caller_notifies_nobody p :
    p_caller p = NotifyOne -> Waiting ∉ p_workers p -> caller_step p (p_set_caller Outside p)
| caller_stops p :
    p_caller p = Exchanged -> caller_step p (p_set_caller NotifyAll (p_set_tasks (TaskQueue_stop (p_tasks p)) p))
| caller_notifies_all p :
    p_caller p = NotifyAll -> caller_step p (p_set_caller (Joining 0) (p_set_workers (wake <$> p_workers p) p))
| caller_joins p k :
    p_caller p = Joining k -> p_workers p !! k = Some Ended -> caller_step p (p_set_caller (Joining (S k)) p)
| caller_clears p :
    p_caller p = Joining (length (p_workers p)) -> caller_step p (p_set_caller Outside (p_set_workers [] p)).

(** The pool on its own. *)
Inductive pool_step : Pool * St -> Pool * St -> Prop :=
| step_worker i x y : worker_step i x y -> pool_step x y
| step_caller p p' st : caller_step p p' -> pool_step (p, st) (p', st).

(** A blocked worker wakes up without a notification. *)
Inductive spurious_step : Pool * St -> Pool * St -> Prop :=
| step_spurious p st i :
    p_workers p !! i = Some Waiting -> spurious_step (p, st) (p_set_worker i (wake Waiting) p, st).

(** The I/O thread reads the wake-up channel, in the event loop or in [wait_until_stopped]. *)
Inductive drain_step : Pool * St -> Pool * St -> Prop :=
| step_drain p st w stopping : wake_step stopping (p_wakeup p) w -> wc_senders w = wc_senders (p_wakeup p) ->
    drain_step (p, st) (p_set_wakeup w p, st).

(** All of it. *)
Inductive any_step : Pool * St -> Pool * St -> Prop :=
| any_pool x y : pool_step x y -> any_step x y
| any_spurious x y : spurious_step x y -> any_step x y
| any_drain x y : drain_step x y -> any_step x y
| any_call p st c : p_caller p = Outside -> any_step (p, st) (pool_call c p, st).

End steps.

(** ** What the threads hold *)

Definition worker_item (w : Worker) : option item :=
  match w with Handling t => Some (it_task t) | Answering c => Some (it_comp c) | _ => None end.

Definition jobs (l : list Worker) : list item := omap worker_item l.

Definition pushing (c : Caller) : list Task := match c with Pushing t => [t] | _ => [] end.

(** Every request the pool has: queued or about to be, with a worker, answered. *)
Definition pool_items (p : Pool) : list item :=
  (it_task <$> tq_queue (p_tasks p) ++ pushing (p_caller p)) ++ jobs (p_workers p) ++ (it_comp <$> p_comps p).

Definition popping_one (w : Worker) : nat := match w with Popping => 1 | _ => 0 end.

Definition popping (l : list Worker) : nat := sum_list_with popping_one l.

Lemma sum_insert (f : Worker -> nat) l i x y : l !! i = Some x ->
  (sum_list_with f (<[i := y]> l) + f x = sum_list_with f l + f y)%nat.
Proof.
  intros Hi. rewrite <- (take_drop_middle l i x Hi) at 2. rewrite (insert_take_drop l i y) by (by eapply lookup_lt_Some).
  rewrite !sum_list_with_app. cbn. lia.
Qed.

Lemma jobs_split l i x : l !! i = Some x ->
  jobs l = jobs (take i l) ++ option_list (worker_item x) ++ jobs (drop (S i) l).
Proof.
  intros Hi. rewrite <- (take_drop_middle l i x Hi) at 1. unfold jobs. rewrite omap_app. cbn.
  by destruct (worker_item x).
Qed.

Lemma jobs_insert l i x y : l !! i = Some x ->
  jobs (<[i := y]> l) = jobs (take i l) ++ option_list (worker_item y) ++ jobs (drop (S i) l).
Proof.
  intros Hi. pose proof (lookup_lt_Some _ _ _ Hi) as Hl. rewrite (jobs_split (<[i := y]> l) i y).
  - by rewrite take_insert_ge, drop_insert_lt by lia.
  - by apply list_lookup_insert_eq.
Qed.

(** A worker that holds the same before and after. *)
Lemma jobs_same l i x y : l !! i = Some x -> worker_item y = worker_item x -> jobs (<[i := y]> l) = jobs l.
Proof. intros Hi Hy. by rewrite (jobs_insert l i x y Hi), Hy, <- (jobs_split l i x Hi). Qed.

Lemma jobs_wake l : jobs (wake <$> l) = jobs l.
Proof. induction l as [|w l IH]; [done|]. unfold jobs in *. cbn. rewrite IH. by destruct w. Qed.

Lemma jobs_idle l : Forall (fun w => w = Ended \/ w = Waiting) l -> jobs l = [].
Proof. induction 1 as [|w l [-> | ->] _ IH]; done. Qed.

(** ** The invariant *)

Definition caller_ok (p : Pool) : Prop :=
  match p_caller p with
  | Outside => p_stopped p = tq_stop (p_tasks p) /\ (p_stopped p = true -> p_workers p = [])
  | Pushing _ | NotifyOne => p_stopped p = false /\ tq_stop (p_tasks p) = false
  | Exchanged => p_stopped p = true /\ tq_stop (p_tasks p) = false
  | NotifyAll => p_stopped p = true /\ tq_stop (p_tasks p) = true
  | Joining k => p_stopped p = true /\ tq_stop (p_tasks p) = true /\ (k <= length (p_workers p))%nat /\
                 Forall (eq Ended) (take k (p_workers p)) /\ Waiting ∉ p_workers p
  end.

Definition notifying (c : Caller) : nat := match c with NotifyOne => 1 | _ => 0 end.

(** While a worker is blocked, every queued task has a worker of its own that is on its
    way to the queue, or the notification that will wake one. *)
Record pool_inv (p : Pool) : Prop := {
  pi_caller : caller_ok p;
  pi_waiting : Waiting ∈ p_workers p ->
    (length (tq_queue (p_tasks p)) <= popping (p_workers p) + notifying (p_caller p))%nat;
  pi_ended : Ended ∈ p_workers p -> tq_stop (p_tasks p) = true /\ tq_queue (p_tasks p) = [];
  pi_cleared : p_workers p = [] -> p_stopped p = true /\ tq_queue (p_tasks p) = [] /\ p_caller p = Outside;
}.

Lemma pop_total q : is_Some (TaskQueue_pop q).
Proof.
  unfold TaskQueue_pop, queue_empty. destruct (tq_stop q), (tq_queue q); cbn; by eexists.
Qed.

Lemma pop_inv q r q' : TaskQueue_pop q = Some (r, q') ->
  match r with
  | pop_blocked => tq_stop q = false /\ tq_queue q = [] /\ q' = q
  | pop_stopped => tq_stop q = true /\ tq_queue q = [] /\ q' = q
  | pop_task t => exists l, tq_queue q = t :: l /\ q' = mkTaskQueue l (tq_stop q)
  end.
Proof.
  unfold TaskQueue_pop, queue_empty. destruct q as [[|t l] [|]]; cbn; intros E; injection E as <- <-; try done;
    by exists l.
Qed.

Lemma elem_insert (l : list Worker) i x y z : l !! i = Some x -> z ∈ <[i := y]> l -> z = y \/ z ∈ l.
Proof.
  intros Hi (j & Hj)%list_elem_of_lookup. destruct (decide (i = j)) as [<-|Hne].
  - rewrite list_lookup_insert_eq in Hj by (by eapply lookup_lt_Some). injection Hj as ->. by left.
  - rewrite list_lookup_insert_ne in Hj by done. right. by eapply list_elem_of_lookup_2.
Qed.

(** One worker moves from [x] to [y], with [p_tasks p'] left in the queue. *)
Lemma worker_moves p p' i x y :
  pool_inv p -> p_workers p !! i = Some x -> x <> Ended ->
  p_workers p' = <[i := y]> (p_workers p) -> p_stopped p' = p_stopped p -> p_caller p' = p_caller p ->
  tq_stop (p_tasks p') = tq_stop (p_tasks p) ->
  (tq_queue (p_tasks p) = [] -> tq_queue (p_tasks p') = []) ->
  tq_queue (p_tasks p') = [] \/
    (length (tq_queue (p_tasks p')) + popping_one x <= length (tq_queue (p_tasks p)) + popping_one y)%nat ->
  (y = Waiting -> tq_stop (p_tasks p) = false /\ tq_queue (p_tasks p') = []) ->
  (y = Ended -> tq_stop (p_tasks p) = true /\ tq_queue (p_tasks p') = []) -> pool_inv p'.
Proof.
  intros [Hc Hw He Hn] Hi Hx Hws Hst Hca Hs Hq Hl Hyw Hye.
  pose proof (lookup_lt_Some _ _ _ Hi) as Hlt.
  pose proof (sum_insert popping_one _ _ _ y Hi) as Hsum.
  assert (p_workers p' <> []) as Hne by (rewrite Hws; intros E%(f_equal length); rewrite length_insert in E; cbn in E; lia).
  assert (p_workers p <> []) as Hne0 by (intros E; by rewrite E in Hi).
  split; [| | |done].
  - unfold caller_ok in *. rewrite Hca, Hst, Hs, Hws. destruct (p_caller p) as [| | | | |k]; try done.
    + destruct Hc as [H1 H2]. split; [done|]. intros E. by rewrite H2 in Hi.
    + destruct Hc as (H1 & H2 & H3 & H4 & H5). rewrite length_insert. split_and!; try done.
      * destruct (decide (i < k)%nat) as [Hk|Hk].
        -- rewrite Forall_lookup in H4. exfalso. apply Hx. symmetry. apply (H4 i). by rewrite lookup_take_lt.
        -- by rewrite take_insert_ge by lia.
      * intros [<-|?]%(elem_insert _ _ _ _ _ Hi); [destruct Hyw; congruence|done].
  - intros Hin. rewrite Hws in *. rewrite Hca. destruct Hl as [->|Hl]; [cbn; lia|].
    destruct (elem_insert _ _ _ _ _ Hi Hin) as [<-|Hold]; [destruct Hyw as [_ ->]; [done|cbn; lia]|].
    specialize (Hw Hold). unfold popping in *. lia.
  - intros Hin. rewrite Hws in Hin. rewrite Hs. destruct (elem_insert _ _ _ _ _ Hi Hin) as [<-|Hold]; [by apply Hye|].
    destruct (He Hold). auto.
Qed.

Ltac worker_move p i := eapply (worker_moves p _ i); eauto; try done; try (right; cbn; lia).

Section invariant.
Context {N : Winsock} {St : Type} {H : RequestHandler St}.

Lemma worker_step_inv i (x y : Pool * St) : worker_step i x y -> pool_inv x.1 -> pool_inv y.1.
Proof.
  intros Hs Hinv. destruct Hs as [p st q Hi E|p st q Hi E|p st t q Hi E|p st t resp st' bs Hi|p st c Hi|p st Hi|p st Hi];
    cbn [fst] in *; try (apply pop_inv in E).
  - destruct E as (E1 & E2 & ->). worker_move p i.
  - destruct E as (E1 & E2 & ->). worker_move p i.
  - destruct E as (l & E1 & ->). worker_move p i; cbn; rewrite ?E1; try done. right. cbn. lia.
  - worker_move p i.
  - worker_move p i.
  - worker_move p i; by destruct (wc_wake_pending _).
  - worker_move p i.
Qed.

Lemma spurious_step_inv (x y : Pool * St) : spurious_step x y -> pool_inv x.1 -> pool_inv y.1.
Proof.
  intros Hs Hinv. destruct Hs as [p st i Hi]. worker_move p i.
Qed.

Lemma wake_waiting (l : list Worker) : Waiting ∉ wake <$> l.
Proof. intros ([] & E & _)%list_elem_of_fmap; done. Qed.

Lemma joined_all_ended p : pool_inv p -> p_caller p = Joining (length (p_workers p)) ->
  Forall (eq Ended) (p_workers p) /\ tq_stop (p_tasks p) = true /\ tq_queue (p_tasks p) = [].
Proof.
  intros [Hc _ He Hn] Hca. unfold caller_ok in Hc. rewrite Hca, firstn_all in Hc.
  destruct Hc as (_ & Hs & _ & Hall & _). split; [done|].
  destruct (p_workers p) as [|w l] eqn:El; [destruct Hn as (_ & _ & Hn); congruence|].
  apply He. rewrite <- (Forall_inv Hall). by left.
Qed.

Lemma caller_step_inv p p' : caller_step p p' -> pool_inv p -> pool_inv p'.
Proof.
  intros Hs Hinv. pose proof (joined_all_ended p Hinv) as Hja. destruct Hinv as [Hc Hw He Hn].
  assert (p_caller p <> Outside -> p_workers p <> []) as Hne by (intros Hca E; by destruct (Hn E) as (_ & _ & ?)).
  unfold caller_ok in Hc. destruct Hs as [p t Hca|p i Hca Hi|p Hca Hnw|p Hca|p Hca|p k Hca Hk|p Hca]; rewrite Hca in *.
  - destruct Hc as [H1 H2]. split; cbn; [done| | |].
    + intros Hin. rewrite length_app. specialize (Hw Hin). unfold popping in *. cbn in *. lia.
    + intros Hin. destruct (He Hin); congruence.
    + intros E. by destruct Hne.
  - destruct Hc as [H1 H2]. pose proof (sum_insert popping_one _ _ _ Popping Hi) as Hsum. cbn in Hsum. split; cbn.
    + split; [congruence|]. rewrite H1. done.
    + intros _. specialize (Hw (list_elem_of_lookup_2 _ _ _ Hi)). unfold popping in *. cbn in *. lia.
    + intros [E|Hin]%(elem_insert _ _ _ _ _ Hi); [done|auto].
    + intros E%(f_equal length). rewrite length_insert in E. apply lookup_lt_Some in Hi. cbn in E. lia.
  - destruct Hc as [H1 H2]. split; cbn; [split; [congruence|by rewrite H1]|done|done|]. intros E. by destruct Hne.
  - destruct Hc as [H1 H2]. split; cbn; [done|done| |]; [intros Hin; destruct (He Hin); congruence|intros E; by destruct Hne].
  - destruct Hc as [H1 H2]. split; cbn.
    + split_and!; [done|done|lia|constructor|apply wake_waiting].
    + intros Hin. by apply wake_waiting in Hin.
    + intros ([] & E & Hin)%list_elem_of_fmap; try discriminate E. auto.
    + intros E%fmap_nil_inv. by destruct Hne.
  - destruct Hc as (H1 & H2 & H3 & H4 & H5). pose proof (lookup_lt_Some _ _ _ Hk). split; cbn; [|done|done|intros E; by destruct Hne].
    split_and!; [done|done|lia| |done]. rewrite (take_S_r _ _ _ Hk). apply Forall_app. by repeat constructor.
  - destruct Hc as (H1 & H2 & _), (Hja eq_refl) as (_ & _ & Hq). split; cbn; [split; [congruence|done]|by intros ?%elem_of_nil..|done].
Qed.

Lemma call_inv c p : p_caller p = Outside -> pool_inv p -> pool_inv (pool_call c p).
Proof.
  intros Hca Hinv. destruct c as [t| |]; cbn; unfold enqueue_call, stop_call.
  - destruct (p_stopped p) eqn:Est; [done|]. destruct Hinv as [Hc Hw He Hn]. unfold caller_ok in Hc. rewrite Hca in *.
    split; cbn; [split; [done|destruct Hc; congruence]|done|done|]. intros E. destruct (Hn E); congruence.
  - destruct (p_stopped p) eqn:Est; [done|]. destruct Hinv as [Hc Hw He Hn]. unfold caller_ok in Hc. rewrite Hca in *.
    split; cbn; [split; [done|destruct Hc; congruence]|done|done|]. intros E. destruct (Hn E); congruence.
  - by destruct Hinv.
Qed.

Lemma any_step_inv (x y : Pool * St) : any_step x y -> pool_inv x.1 -> pool_inv y.1.
Proof.
  intros [x1 y1 [i x2 y2 Hw|p p' st Hc]|x1 y1 Hs|x1 y1 [p st w _ _]|p st c Hca] Hinv.
  - by eapply worker_step_inv.
  - by eapply caller_step_inv.
  - by eapply spurious_step_inv.
  - by destruct Hinv.
  - by apply call_inv.
Qed.

Lemma new_inv n : (1 <= n)%nat -> pool_inv (ThreadPool_new n).
Proof.
  intros Hn. split; cbn; [done|lia| |].
  - by intros (? & _)%elem_of_replicate.
  - destruct n; [lia|done].
Qed.

(** The pools that the program can reach. *)
Definition pool_reachable (n : nat) (st0 : St) (x : Pool * St) : Prop :=
  (1 <= n)%nat /\ rtc any_step (ThreadPool_new n, st0) x.

Lemma reachable_inv n st0 x : pool_reachable n st0 x -> pool_inv x.1.
Proof.
  intros [Hn Hr]. enough (forall y, rtc any_step y x -> pool_inv y.1 -> pool_inv x.1) as Hall.
  { eapply Hall; [exact Hr|]. by apply new_inv. }
  clear Hr. induction 1; eauto using any_step_inv.
Qed.

(** ** The pool comes to rest *)

Definition worker_weight (w : Worker) : nat :=
  match w with Popping => 1 | Handling _ => 5 | Answering _ => 4 | Notifying => 3 | Sending => 2 | Waiting | Ended => 0 end.

Definition caller_weight (n : nat) (c : Caller) : nat :=
  match c with
  | Outside => 0 | Pushing _ => 8 | NotifyOne => 2 | Exchanged => 2 * n + 3 | NotifyAll => 2 * n + 2
  | Joining k => n - k + 1
  end.

Definition pool_weight (p : Pool) : nat :=
  (5 * length (tq_queue (p_tasks p)) + sum_list_with worker_weight (p_workers p) +
   caller_weight (length (p_workers p)) (p_caller p))%nat.

Lemma worker_step_weight i (x y : Pool * St) : worker_step i x y -> (pool_weight y.1 < pool_weight x.1)%nat.
Proof.
  intros Hs. unfold pool_weight.
  destruct Hs as [p st q Hi E|p st q Hi E|p st t q Hi E|p st t resp st' bs Hi|p st c Hi|p st Hi|p st Hi];
    cbn [fst p_set_worker p_set_workers p_set_tasks p_set_comps p_set_wakeup p_workers p_tasks p_caller];
    rewrite length_insert; try (apply pop_inv in E).
  - destruct E as (_ & _ & ->). pose proof (sum_insert worker_weight _ _ _ Waiting Hi). cbn in *. lia.
  - destruct E as (_ & _ & ->). pose proof (sum_insert worker_weight _ _ _ Ended Hi). cbn in *. lia.
  - destruct E as (l & E & ->). pose proof (sum_insert worker_weight _ _ _ (Handling t) Hi). rewrite E. cbn in *. lia.
  - pose proof (sum_insert worker_weight _ _ _ (Answering (mkCompletion (t_conn_id t) bs false)) Hi). cbn in *. lia.
  - pose proof (sum_insert worker_weight _ _ _ Notifying Hi). cbn in *. lia.
  - pose proof (sum_insert worker_weight _ _ _ (if wc_wake_pending (p_wakeup p) then Popping else Sending) Hi).
    destruct (wc_wake_pending _); cbn in *; lia.
  - pose proof (sum_insert worker_weight _ _ _ Popping Hi). cbn in *. lia.
Qed.

Lemma wake_weight l : (sum_list_with worker_weight (wake <$> l) <= sum_list_with worker_weight l + length l)%nat.
Proof. induction l as [|w l IH]; cbn in *; [lia|]. destruct w; cbn; lia. Qed.

Lemma caller_step_weight p p' : pool_inv p -> caller_step p p' -> (pool_weight p' < pool_weight p)%nat.
Proof.
  intros Hinv Hs. unfold pool_weight. destruct Hs as [p t Hca|p i Hca Hi|p Hca Hnw|p Hca|p Hca|p k Hca Hk|p Hca]; rewrite Hca; cbn.
  - rewrite length_app. cbn. lia.
  - pose proof (sum_insert worker_weight _ _ _ Popping Hi). cbn in *. lia.
  - lia.
  - lia.
  - pose proof (wake_weight (p_workers p)). rewrite length_fmap. lia.
  - apply lookup_lt_Some in Hk. lia.
  - lia.
Qed.

Lemma pool_step_weight (x y : Pool * St) : pool_inv x.1 -> pool_step x y -> (pool_weight y.1 < pool_weight x.1)%nat.
Proof.
  intros Hinv Hstep. destruct Hstep as [i x1 y1 Hs|p p' st Hs]; [by eapply worker_step_weight|exact (caller_step_weight p p' Hinv Hs)].
Qed.

Lemma spurious_step_weight (x y : Pool * St) : spurious_step x y -> (pool_weight y.1 = pool_weight x.1 + 1)%nat.
Proof.
  intros [p st i Hi]. pose proof (sum_insert worker_weight _ _ _ Popping Hi). unfold pool_weight. cbn in *.
  rewrite length_insert. lia.
Qed.

(** [n] steps without a new call, [k] of them spurious wake-ups. *)
Inductive pool_run : nat -> nat -> Pool * St -> Pool * St -> Prop :=
| pool_run_start x : pool_run 0 0 x x
| pool_run_step n k x y z : pool_step x y -> pool_run n k y z -> pool_run (S n) k x z
| pool_run_spurious n k x y z : spurious_step x y -> pool_run n k y z -> pool_run (S n) (S k) x z.

Lemma pool_run_bound n k x y : pool_run n k x y -> pool_inv x.1 ->
  (n + pool_weight y.1 <= pool_weight x.1 + 2 * k)%nat /\ pool_inv y.1.
Proof.
  induction 1 as [x|n k x y z Hs _ IH|n k x y z Hs _ IH]; intros Hinv; [by split; [lia|]|..].
  - pose proof (pool_step_weight x y Hinv Hs). destruct IH; [|split; [lia|done]].
    eapply any_step_inv; [by apply any_pool|done].
  - pose proof (spurious_step_weight x y Hs). destruct IH; [by eapply spurious_step_inv|]. split; [lia|done].
Qed.

(** The pool at rest: nothing is queued or in work; the workers are blocked, or gone
    when the pool was stopped. *)
Definition settled (p : Pool) : Prop :=
  tq_queue (p_tasks p) = [] /\ jobs (p_workers p) = [] /\ p_caller p = Outside /\
  if p_stopped p then p_workers p = [] else Forall (eq Waiting) (p_workers p).

(** A worker is in a request that the handler does not answer. *)
Definition pool_fails (x : Pool * St) : Prop :=
  exists i t, p_workers x.1 !! i = Some (Handling t) /\ unanswerable x.2 (t_request t).

Definition at_rest (x : Pool * St) : Prop := forall y, ~ pool_step x y.

(** A worker that has no step is blocked, has ended, or is in such a request. *)
Lemma worker_rests i w (p : Pool) (st : St) : at_rest (p, st) -> p_workers p !! i = Some w ->
  (w = Ended \/ w = Waiting) \/ pool_fails (p, st).
Proof.
  intros Hno Hi. assert (forall y, ~ worker_step i (p, st) y) as Hw by (intros y Hy; by eapply Hno, step_worker).
  destruct w as [| |t|c| | |]; [|by auto| | | | |by auto]; [exfalso|right|exfalso..].
  - destruct (pop_total (p_tasks p)) as [[[| |t] q] Eq]; eapply Hw; [by apply worker_blocks|by apply worker_ends|by eapply worker_takes].
  - exists i, t. split; [done|]. intros resp st' bs Hh He. by eapply Hw, worker_handles.
  - eapply Hw. by apply worker_answers.
  - eapply Hw. by apply worker_exchanges.
  - eapply Hw. by apply worker_sends.
Qed.

Lemma workers_idle (p : Pool) (st : St) : at_rest (p, st) ->
  Forall (fun w => w = Ended \/ w = Waiting) (p_workers p) \/ pool_fails (p, st).
Proof.
  intros Hno.
  assert (forall l, Forall (fun w => exists i, p_workers p !! i = Some w) l ->
    Forall (fun w => w = Ended \/ w = Waiting) l \/ pool_fails (p, st)) as Hall.
  { induction 1 as [|w l [i Hi] _ IH]; [by left|].
    destruct (worker_rests i w p st Hno Hi) as [Hw|?]; [|by right]. destruct IH; [left; by constructor|by right]. }
  apply Hall, list.Forall_forall. intros w Hw. by apply list_elem_of_lookup.
Qed.

Lemma popping_idle l : Forall (fun w => w = Ended \/ w = Waiting) l -> popping l = 0%nat.
Proof. induction 1 as [|w l [-> | ->] _ IH]; done. Qed.

Lemma running_all_waiting p : pool_inv p -> tq_stop (p_tasks p) = false ->
  Forall (fun w => w = Ended \/ w = Waiting) (p_workers p) -> Forall (eq Waiting) (p_workers p).
Proof.
  intros [_ _ He _] Hs Hf. rewrite list.Forall_forall in *. intros w Hw. destruct (Hf w Hw) as [->|?]; [|done].
  destruct (He Hw). congruence.
Qed.

Lemma pool_progress (p : Pool) (st : St) : at_rest (p, st) -> pool_inv p -> settled p \/ pool_fails (p, st).
Proof.
  intros Hno Hinv. destruct (workers_idle p st Hno) as [Hidle|?]; [left|by right].
  pose proof (running_all_waiting p Hinv) as Hwait. pose proof Hinv as [Hc Hw He Hn]. unfold caller_ok in Hc.
  enough ((exists p', caller_step p p') \/ settled p) as [[p' Hp']|?]; [exfalso; by eapply Hno, step_caller|done|].
  destruct (p_caller p) as [|t| | | |k] eqn:Hca.
  - right. destruct Hc as [H1 H2]. unfold settled. rewrite (jobs_idle _ Hidle).
    destruct (p_stopped p) eqn:Est; [destruct (Hn (H2 eq_refl)) as (_ & ? & _); by rewrite H2|].
    assert (Forall (eq Waiting) (p_workers p)) as Hall by auto. split_and!; try done.
    destruct (p_workers p) as [|w l] eqn:El; [by destruct (Hn eq_refl)|]. rewrite <- (Forall_inv Hall) in *.
    specialize (Hw ltac:(by left)). rewrite (popping_idle _ Hidle) in Hw. cbn in Hw.
    destruct (tq_queue (p_tasks p)); [done|cbn in Hw; lia].
  - left. eexists. by apply (caller_pushes p t).
  - left. destruct Hc as [_ Hs]. specialize (Hwait Hs Hidle).
    destruct (p_workers p) as [|w l] eqn:El; [destruct (Hn eq_refl) as (_ & _ & ?); congruence|].
    eexists. apply (caller_notifies p 0 Hca). by rewrite El, <- (Forall_inv Hwait).
  - left. eexists. by apply caller_stops.
  - left. eexists. by apply caller_notifies_all.
  - left. destruct Hc as (_ & _ & Hk & _ & Hnw). destruct (p_workers p !! k) as [w|] eqn:Ek.
    + eexists. apply (caller_joins p k Hca). rewrite list.Forall_forall in Hidle.
      pose proof (list_elem_of_lookup_2 _ _ _ Ek) as Hin. by destruct (Hidle w Hin) as [-> | ->].
    + apply lookup_ge_None in Ek. eexists. apply caller_clears. rewrite Hca. f_equal. lia.
Qed.

(** ** No request is lost or duplicated *)

Lemma pool_step_items (x y : Pool * St) : pool_inv x.1 -> pool_step x y ->
  item_conn <$> pool_items y.1 ≡ₚ item_conn <$> pool_items x.1.
Proof.
  intros Hinv Hs. destruct Hs as [i x y Hs|p p' st Hs].
  - unfold pool_items.
    destruct Hs as [p st q Hi E|p st q Hi E|p st t q Hi E|p st t resp st' bs Hi|p st c Hi|p st Hi|p st Hi]; cbn;
      rewrite (jobs_insert _ _ _ _ Hi), (jobs_split _ _ _ Hi); try (apply pop_inv in E).
    + by destruct E as (_ & _ & ->).
    + by destruct E as (_ & _ & ->).
    + destruct E as (l & -> & ->). cbn. rewrite !fmap_app. solve_Permutation.
    + cbn. by rewrite !fmap_app.
    + cbn. unfold CompletionQueue_push. rewrite !fmap_app. cbn. solve_Permutation.
    + cbn. destruct (wc_wake_pending _); by cbn.
    + by cbn.
  - unfold pool_items. pose proof (joined_all_ended p Hinv) as Hja.
    destruct Hs as [p t Hca|p i Hca Hi|p Hca Hnw|p Hca|p Hca|p k Hca Hk|p Hca]; cbn; rewrite Hca in *; cbn; try done.
    + by rewrite app_nil_r.
    + by rewrite (jobs_same _ _ _ _ Hi).
    + by rewrite jobs_wake.
    + destruct (Hja eq_refl) as (Hall & _). rewrite jobs_idle; [done|].
      eapply list.Forall_impl; [exact Hall|]. intros w <-. by left.
Qed.

Lemma pool_run_items n k x y : pool_run n k x y -> pool_inv x.1 ->
  item_conn <$> pool_items y.1 ≡ₚ item_conn <$> pool_items x.1.
Proof.
  induction 1 as [x|n k x y z Hs _ IH|n k x y z Hs _ IH]; intros Hinv; [done|..].
  - etrans; [apply IH; eapply any_step_inv; [by apply any_pool|done]|by apply pool_step_items].
  - etrans; [apply IH; by eapply spurious_step_inv|]. destruct Hs as [p st i Hi]. unfold pool_items. cbn.
    by rewrite (jobs_same _ _ _ _ Hi).
Qed.

End invariant.

(** ** The pool as the server's relation sees it *)

Record pool_view (p : Pool) (s : TcpServer) : Prop := {
  pv_tasks : ts_tasks s = tq_queue (p_tasks p) ++ pushing (p_caller p);
  pv_busy : ts_busy s ≡ₚ jobs (p_workers p);
  pv_comps : ts_comps s = p_comps p;
  pv_stopped : ts_stopped s = p_stopped p;
  pv_workers : Z.of_nat (length (p_workers p)) <= workers (ts_config s);
}.

Section refinement.
Context {N : Winsock} {St : Type} {H : RequestHandler St}.

(** A step of the pool is invisible, or a step of [serve] by a worker. *)
Definition pool_simulates (x y : Pool * St) : Prop :=
  forall s, pool_view x.1 s ->
    (y.2 = x.2 /\ pool_view y.1 s) \/ exists s', serve (s, x.2) [] (s', y.2) /\ pool_view y.1 s'.

(** A worker changes place and holds what it held before. *)
Lemma quiet_view p p' s i x y :
  p_workers p !! i = Some x -> worker_item y = worker_item x -> p_workers p' = <[i := y]> (p_workers p) ->
  tq_queue (p_tasks p') ++ pushing (p_caller p') = tq_queue (p_tasks p) ++ pushing (p_caller p) ->
  p_comps p' = p_comps p -> p_stopped p' = p_stopped p -> pool_view p s -> pool_view p' s.
Proof.
  intros Hi Hy Hw Ht Hc Hs [H1 H2 H3 H4 H5]. split; [congruence| |congruence..|].
  - by rewrite Hw, (jobs_same _ _ _ _ Hi Hy).
  - by rewrite Hw, length_insert.
Qed.

(** The workers that hold a request are at most those other than a free one. *)
Lemma free_worker l i x : l !! i = Some x -> worker_item x = None -> (length (jobs l) < length l)%nat.
Proof.
  intros Hi Hx. rewrite (jobs_split l i x Hi), Hx. cbn [option_list app]. unfold jobs. rewrite length_app.
  pose proof (lookup_lt_Some _ _ _ Hi) as Hl.
  enough (forall k, (length (omap worker_item k) <= length k)%nat) as Hle.
  { pose proof (Hle (take i l)) as H1. pose proof (Hle (drop (S i) l)) as H2.
    rewrite length_take in H1. rewrite length_drop in H2. cbn in *. lia. }
  induction k as [|w k IH]; cbn; [lia|]. destruct (worker_item w); cbn; lia.
Qed.

Lemma busy_split (l l1 l2 : list item) x : l ≡ₚ l1 ++ x :: l2 -> exists b1 b2, l = b1 ++ x :: b2 /\ b1 ++ b2 ≡ₚ l1 ++ l2.
Proof.
  intros Hp. assert (x ∈ l) as (b1 & b2 & ->)%list_elem_of_split by (rewrite Hp; set_solver).
  exists b1, b2. split; [done|]. rewrite <- !Permutation_middle in Hp. by apply Permutation_cons_inv in Hp.
Qed.

Lemma worker_simulates i (x y : Pool * St) : worker_step i x y -> pool_simulates x y.
Proof.
  intros Hs s Hv. pose proof Hv as [H1 H2 H3 H4 H5].
  destruct Hs as [p st q Hi E|p st q Hi E|p st t q Hi E|p st t resp st' bs Hi Hh He|p st c Hi|p st Hi|p st Hi]; cbn in *;
    try (apply pop_inv in E).
  - left. split; [done|]. destruct E as (_ & _ & ->). by apply (quiet_view p _ s i Popping Waiting).
  - left. split; [done|]. destruct E as (_ & _ & ->). by apply (quiet_view p _ s i Popping Ended).
  - right. destruct E as (l & Eq & ->). rewrite Eq in H1. eexists. split.
    + apply (worker_pop s st t (l ++ pushing (p_caller p)) H1).
      pose proof (free_worker _ _ _ Hi eq_refl). rewrite H2. lia.
    + split; cbn; [done| |done|done|by rewrite length_insert].
      rewrite (jobs_insert _ _ _ _ Hi). rewrite (jobs_split _ _ _ Hi) in H2. cbn in *. rewrite H2. solve_Permutation.
  - right. rewrite (jobs_split _ _ _ Hi) in H2. cbn in H2. apply busy_split in H2 as (b1 & b2 & Eb & Hp). eexists. split.
    + exact (worker_handle s st t b1 b2 resp st' bs Eb Hh He).
    + split; cbn; [done| |done|done|by rewrite length_insert].
      rewrite (jobs_insert _ _ _ _ Hi). cbn. by rewrite <- !Permutation_middle, Hp.
  - right. rewrite (jobs_split _ _ _ Hi) in H2. cbn in H2. apply busy_split in H2 as (b1 & b2 & Eb & Hp). eexists. split.
    + exact (worker_push s st c b1 b2 Eb).
    + split; cbn; [done| |by rewrite H3|done|by rewrite length_insert].
      rewrite (jobs_insert _ _ _ _ Hi). cbn. exact Hp.
  - left. split; [done|].
    apply (quiet_view p _ s i Notifying (if wc_wake_pending (p_wakeup p) then Popping else Sending)); try done.
    by destruct (wc_wake_pending _).
  - left. split; [done|]. by apply (quiet_view p _ s i Sending Popping).
Qed.

Lemma caller_view p p' s : pool_inv p -> caller_step p p' -> pool_view p s -> pool_view p' s.
Proof.
  intros Hinv Hs Hv. pose proof Hv as [H1 H2 H3 H4 H5]. pose proof (joined_all_ended p Hinv) as Hja.
  destruct Hs as [p t Hca|p i Hca Hi|p Hca Hnw|p Hca|p Hca|p k Hca Hk|p Hca]; rewrite Hca in *; cbn in *.
  - split; cbn; try done. by rewrite app_nil_r.
  - apply (quiet_view p _ s i Waiting Popping); try done. cbn. by rewrite Hca.
  - by split.
  - by split.
  - split; cbn; try done; [by rewrite jobs_wake|by rewrite length_fmap].
  - by split.
  - destruct (Hja eq_refl) as (Hall & _). split; cbn; try done; [|lia].
    rewrite H2, jobs_idle; [done|]. eapply list.Forall_impl; [exact Hall|]. intros w <-. by left.
Qed.

Lemma pool_step_simulates (x y : Pool * St) : pool_inv x.1 ->
  pool_step x y \/ spurious_step x y \/ drain_step x y -> pool_simulates x y.
Proof.
  intros Hinv [Hs|[Hs|Hs]].
  - destruct Hs as [i x y Hs|p p' st Hs]; [by eapply worker_simulates|].
    intros s Hv. left. split; [done|]. by eapply caller_view.
  - destruct Hs as [p st i Hi]. intros s Hv. left. split; [done|]. by apply (quiet_view p _ s i Waiting Popping).
  - destruct Hs as [p st w _ _]. intros s [H1 H2 H3 H4 H5]. left. split; [done|]. by split.
Qed.

End refinement.

(** ** Properties *)

(** C24: the pool implements the workers of the server's relation.  In every reachable
    state of the threads, a step - a critical section of the queues, a notification, a
    wake-up with or without one, an access to the wake-up channel - is either invisible
    to [serve] or one of its steps: a worker takes the first task, answers it, or queues
    the answer.  [enqueue] and [pop_all] are what TcpServer takes them for, although
    [enqueue] tests a flag, pushes and notifies in three steps. *)
Theorem pool_refines {N : Winsock} {St : Type} {H : RequestHandler St} n (st0 : St) p st s :
  pool_reachable n st0 (p, st) -> pool_view p s ->
  (forall p' st', pool_step (p, st) (p', st') \/ spurious_step (p, st) (p', st') \/ drain_step (p, st) (p', st') ->
    (st' = st /\ pool_view p' s) \/ exists s', serve (s, st) [] (s', st') /\ pool_view p' s') /\
  (p_caller p = Outside ->
    (forall t, pool_view (pool_call (call_enqueue t) p) (ThreadPool_enqueue t s)) /\
    (ts_io_comps s = [] -> p_comps p <> [] -> exists s', serve (s, st) [] (s', st) /\
       ts_io_comps s' = (CompletionQueue_pop_all (p_comps p)).1 /\ pool_view (pool_call call_pop_all p) s')).
Proof.
  intros Hr Hv. apply reachable_inv in Hr. split.
  - intros p' st' Hs. exact (pool_step_simulates (p, st) (p', st') Hr Hs s Hv).
  - intros Hca. destruct Hv as [H1 H2 H3 H4 H5]. rewrite Hca in H1. cbn in H1. rewrite app_nil_r in H1. split.
    + intros t. cbn. unfold enqueue_call, ThreadPool_enqueue. rewrite H4. destruct (p_stopped p) eqn:Es.
      * split; try done; [by rewrite Hca, app_nil_r|congruence].
      * split; cbn; try done; congruence.
    + intros Hio Hc. cbn [pool_call]. rewrite pop_all_everything.
      eexists. split; [apply io_pop_all; [done|congruence]|]. split; [exact H3|].
      split; cbn; try done. by rewrite Hca, app_nil_r.
Qed.

(** C7: the pool works off its queue, and [stop_and_join] returns.  With at least one
    worker, from every reachable state and whatever the scheduling: a sequence of steps is
    at most as long as the state's weight and twice the number of its spurious wake-ups
    allow.  When no step is left, every request the pool had has one completion, and the
    workers are blocked, or have ended if the pool was stopped; the only other end is a
    worker in a request that the handler does not answer. *)
Theorem pool_works_off {N : Winsock} {St : Type} {H : RequestHandler St} n (st0 : St) p st m k p' st' :
  pool_reachable n st0 (p, st) -> pool_run m k (p, st) (p', st') ->
  (m <= pool_weight p + 2 * k)%nat /\
  (at_rest (p', st') ->
   settled p' /\ c_conn_id <$> p_comps p' ≡ₚ item_conn <$> pool_items p \/ pool_fails (p', st')).
Proof.
  intros Hr Hrun. apply reachable_inv in Hr. destruct (pool_run_bound _ _ _ _ Hrun Hr) as [Hb Hinv].
  cbn [fst] in *. split; [lia|]. intros Hno. destruct (pool_progress p' st' Hno Hinv) as [Hset|?]; [left|by right]. split; [done|].
  rewrite <- (pool_run_items _ _ _ _ Hrun Hr). cbn [fst]. destruct Hset as (Hq & Hj & Hca & _).
  unfold pool_items. rewrite Hq, Hj, Hca. cbn. rewrite <- list_fmap_compose. done.
Qed.

(** ** A run of one worker *)

Definition demo_state : Broker * @disk memory_disk := (demo_broker_state, ∅).

(** The worker is blocked, and the I/O thread has passed the test of [enqueue]. *)
Definition demo_pool : Pool :=
  mkPool (mkTaskQueue [] false) [] WakeupChannel_new false [Waiting] (Pushing demo_ping_task).

(** The answer is queued, its byte is in the channel, and the worker is blocked again. *)
Definition demo_rest : Pool :=
  mkPool (mkTaskQueue [] false) [mkCompletion 1 demo_pong false] (mkWakeupChannel true 1 0 false) false [Waiting] Outside.

Lemma demo_pool_reachable : pool_reachable (N := x86_winsock) (H := demo_handler) 1 demo_state (demo_pool, demo_state).
Proof.
  split; [lia|]. eapply rtc_l; [eapply any_pool, step_worker, (worker_blocks 0); reflexivity|].
  eapply rtc_l; [by eapply (any_call _ _ (call_enqueue demo_ping_task))|]. apply rtc_refl.
Qed.

Lemma demo_pool_run : pool_run (N := x86_winsock) (H := demo_handler) 8 0 (demo_pool, demo_state) (demo_rest, demo_state).
Proof.
  eapply pool_run_step; [by eapply step_caller, caller_pushes|].
  eapply pool_run_step; [by eapply step_caller, (caller_notifies _ 0)|].
  eapply pool_run_step; [eapply step_worker, (worker_takes 0); reflexivity|].
  eapply pool_run_step; [eapply step_worker, (worker_handles 0 _ demo_state demo_ping_task (mkFrame 5 PONG 7 []) demo_state demo_pong);
    [reflexivity|by exists demo_env|by vm_compute]|].
  eapply pool_run_step; [eapply step_worker, (worker_answers 0); reflexivity|].
  eapply pool_run_step; [eapply step_worker, (worker_exchanges 0); reflexivity|].
  eapply pool_run_step; [eapply step_worker, (worker_sends 0); reflexivity|].
  eapply pool_run_step; [eapply step_worker, (worker_blocks 0); reflexivity|].
  apply pool_run_start.
Qed.

(** The task is queued, the notification woke the worker; and then it has the task. *)
Definition demo_woken : Pool := mkPool (mkTaskQueue [demo_ping_task] false) [] WakeupChannel_new false [Popping] Outside.
Definition demo_taken : Pool := mkPool (mkTaskQueue [] false) [] WakeupChannel_new false [Handling demo_ping_task] Outside.

Lemma demo_woken_reachable : pool_reachable (N := x86_winsock) (H := demo_handler) 1 demo_state (demo_woken, demo_state).
Proof.
  destruct demo_pool_reachable as [Hn Hr]. split; [exact Hn|]. etrans; [exact Hr|].
  eapply rtc_l; [by eapply any_pool, step_caller, caller_pushes|].
  eapply rtc_l; [by eapply any_pool, step_caller, (caller_notifies _ 0)|]. apply rtc_refl.
Qed.

Lemma demo_woken_view : pool_view demo_woken demo_s2.
Proof. destruct demo_tasks as (Ht & Hb & Hc & _). split; rewrite ?Ht, ?Hb, ?Hc; try reflexivity; by vm_compute. Qed.

Example pool_refines_witness : exists s',
  serve (N := x86_winsock) (H := demo_handler) (demo_s2, demo_state) [] (s', demo_state) /\ pool_view demo_taken s'.
Proof.
  destruct (pool_refines (N := x86_winsock) (H := demo_handler) 1 demo_state demo_woken demo_state demo_s2 demo_woken_reachable demo_woken_view)
    as [Hs _].
  destruct (Hs demo_taken demo_state) as [[_ [Ht _ _ _ _]]|Hserve]; [| |exact Hserve].
  - left. exact (step_worker 0 _ _ (worker_takes 0 demo_woken demo_state demo_ping_task (mkTaskQueue [] false) eq_refl eq_refl)).
  - destruct demo_tasks as (Ht' & _). rewrite Ht' in Ht. discriminate Ht.
Defined.

(** Nothing is left to do, and the theorem says that the task was answered. *)
Lemma demo_rest_rests : at_rest (N := x86_winsock) (H := demo_handler) (demo_rest, demo_state).
Proof.
  assert (forall i w, p_workers demo_rest !! i = Some w -> w = Waiting) as Hw by (by intros [|i] w [= <-]).
  intros y Hy. inversion Hy as [i x y1 Hs|p p' st Hs]; subst.
  - inversion Hs as [p st q Hi|p st q Hi|p st t q Hi|p st t resp st' bs Hi|p st c Hi|p st Hi|p st Hi]; subst;
      by apply Hw in Hi.
  - inversion Hs; subst; discriminate.
Qed.

Example pool_works_off_witness :
  pool_weight demo_pool = 8%nat /\
  ((8 <= 8 + 2 * 0)%nat /\
   (settled demo_rest /\ c_conn_id <$> p_comps demo_rest ≡ₚ item_conn <$> pool_items demo_pool \/
    pool_fails (N := x86_winsock) (H := demo_handler) (demo_rest, demo_state))).
Proof.
  split; [reflexivity|].
  destruct (pool_works_off (N := x86_winsock) (H := demo_handler) 1 demo_state demo_pool demo_state 8 0 demo_rest demo_state
    demo_pool_reachable demo_pool_run) as [Hb Hr].
  split; [exact Hb|]. exact (Hr demo_rest_rests).
Defined.
